(* ===== verification/_CoqProject ===== *)
-Q . S2P
Prelude.v
Text.v
TextScan.v
Collections.v
Interfaces.v
Hoare.v
JsonValue.v
ProtocolGate.v
Model.v
Paths.v
Fs.v
StoreFormat.v
Storage.v
RecordStore.v
TableStore.v
StorageLaws.v
StorageProps.v
Recovery.v
DeliveryLedger.v
LedgerProps.v
RelayEnvelope.v
Bridge.v
Identity.v
DeviceRegistry.v
Trust.v
Invite.v
Receipt.v
Pairing.v
Contacts.v
Relay.v
RelayProps.v
RelayGuards.v
RelayBlobs.v
Attachment.v
AttachmentProps.v
AttachmentDownload.v
Attestation.v
DeviceLink.v
DeviceAuthority.v
MessageService.v
OsKeys.v
MlsStore.v
MlsStoreProps.v
MlsProvider.v
MlsProviderProps.v
Http.v
HttpProps.v
RelayClient.v
RelayClientProps.v
MlsSession.v
MlsSessionProps.v
Authority.v
AuthorityProps.v
Inbox.v
InboxProps.v
Server.v
ServerAttachments.v
ServerInvites.v
Routes.v
RoutesMls.v
RoutesAuthority.v
Dispatch.v
ServerSample.v
Locks.v
LocksProps.v
ServerProps.v
RouteProps.v
Cli.v
CliProfile.v
CliRecovery.v
CliLaws.v
CliProps.v
CliIdentity.v
CliPending.v
CliServe.v
Setup.v
CliServeProps.v
CliSample.v
