(* ===== verification/Prelude.v ===== *)
(** * Another Dimension: a verification development

    Another Dimension is an end-to-end encrypted messenger. A daemon ([apps/daemon/src]) keeps an
    account's keys, devices, contacts and messages in one encrypted file and serves a local web
    page; a relay ([apps/relay/src/main.rs]) stores opaque envelopes and blobs until they are
    fetched. The files below translate that code into executable definitions, one definition per
    function, and prove what makes each part correct.

    ** How code is translated

    A Rust [Result] is [result]; a method with [&mut self] is a function [Mut] from the state to
    the state and the result, so that what was changed before an early return stays changed. An
    unsigned integer is an [N] with the operations of its width. A string is the [string] of its
    UTF-8 bytes, a byte an [ascii], a [BTreeMap] or [HashMap] a [gmap] with [btree_iter] for the
    order of a [BTreeMap]. Time is an argument. A slice that can panic returns an [Outcome].
    Files, the outcome of every system call, random bytes and the process id are the [World] of
    [Fs.v]: a theorem about any failure quantifies over the list of outcomes.

    Third-party code is a parameter with the laws its documentation states: [Crypto] (SHA-256,
    Ed25519, AES-256-GCM, Argon2), [JsonCodec] (serde_json), [UriParser], [UnicodeCase] in
    [Interfaces.v], [Keyring] in [OsKeys.v], [OpenMls] in [MlsSession.v], [HttpTypes] (the http
    crate) in [Http.v], and [Transport] with [TlsLaws] (tokio and rustls) in [RelayClient.v] and
    [RelayClientProps.v]. The module [Reference] and the sample modules instantiate them, and
    every law that is assumed is proved of an instance.

    ** Files

    - [Prelude.v], [Text.v], [TextScan.v], [Collections.v], [Interfaces.v], [JsonValue.v],
      [Paths.v], [Fs.v]: the language and its library (results, integers, UTF-8, splitting,
      hexadecimal, ordered maps, JSON values, paths, files). [Hoare.v]: triples over [Mut].
    - [ProtocolGate.v] (protocol_gate.rs), [Model.v] (model.rs): admission of a peer; identifiers
      and the six state machines.
    - [StoreFormat.v], [Storage.v], [Recovery.v] (storage.rs): the file format, the encrypted
      store over a file system that fails, the recovery artifact. [RecordStore.v] is the interface
      its clients are proved against; [StorageLaws.v] shows that the store implements it,
      [TableStore.v] is a second implementation for concrete runs, and [StorageProps.v] holds
      durability, crash behaviour and rollback detection.
    - [DeliveryLedger.v], [LedgerProps.v], [RelayEnvelope.v] (delivery.rs): outgoing messages with
      retries and receipts, and the padded envelope.
    - [Bridge.v] (bridge.rs): one-time bootstrap and session authorization of the web page.
    - [Identity.v] (identity.rs), [DeviceRegistry.v] (device.rs), [DeviceLink.v] (device_link.rs),
      [DeviceAuthority.v] (authority.rs), [Attestation.v] (attestation.rs): account roots, device
      certificates, the registry of devices, linking a device, vouching for a peer.
    - [Trust.v] (trust.rs), [Invite.v] and [Receipt.v] (authority.rs, bridge_http.rs),
      [Pairing.v] (pairing.rs), [Contacts.v] (contacts.rs): relay trust, signed invites, relay
      receipts, pairing by safety number, the contact directory. [Authority.v] (authority.rs)
      holds them together with the attachments; [AuthorityProps.v] treats restarts and bounds.
    - [Relay.v] (relay/src/main.rs): every handler of the relay. [RelayProps.v] and
      [RelayGuards.v] treat inboxes, invites and refusals, [RelayBlobs.v] uploads.
    - [Attachment.v] (attachment.rs): chunked encryption; [AttachmentProps.v] treats jobs,
      [AttachmentDownload.v] decryption chunk by chunk.
    - [MessageService.v] (message_service.rs), [OsKeys.v] (storage_os.rs): message payloads and
      records, keys in the platform key store.
    - [MlsStore.v] (mls_storage.rs), [MlsProvider.v] (mls_storage_provider.rs), [MlsSession.v]
      (mls_session.rs): key packages, groups and proposals in the record store, the storage
      provider that openmls writes through, and the catalog of sessions with their checkpoints;
      their theorems are in [MlsStoreProps.v], [MlsProviderProps.v] and [MlsSessionProps.v].
    - [Http.v] (http_support.rs, http_errors.rs), [RelayClient.v] (relay_http.rs): the text of
      requests and replies, and the client of the relay; [HttpProps.v], [RelayClientProps.v].
    - [Inbox.v] (maintenance.rs, delivery_routes.rs): receiving, with [InboxProps.v].
    - [Server.v], [ServerAttachments.v], [ServerInvites.v] (http_server.rs): the requests that
      talk to the relay, as programs of sections under locks and of network calls.
      [Routes.v], [RoutesMls.v], [RoutesAuthority.v] (the route files): those that do not.
      [Dispatch.v] (bridge_http.rs, http_server.rs): the choice between them. [Locks.v] runs
      programs side by side. [ServerProps.v], [LocksProps.v] and [RouteProps.v] hold the
      theorems, [ServerSample.v] a daemon to evaluate them on.
    - [Cli.v], [CliProfile.v], [CliRecovery.v], [CliServe.v] (cli.rs, cli_profile.rs,
      cli_recovery.rs): the commands on a profile, recovery, and starting and stopping the daemon;
      [Setup.v] (bridge_http.rs, http_server.rs): the first run in the browser. [CliLaws.v] has
      what the commands do to files, [CliProps.v], [CliIdentity.v], [CliPending.v] and
      [CliServeProps.v] the theorems, [CliSample.v] a profile to evaluate them on.

    ** What is shown

    - Storage: a reported write is what the next open reads; a failed one leaves whole files and
      the memory as it was, whatever system calls fail; an older store than its marker is refused;
      an exported artifact restores the same records; staging one touches nothing else.
      Temporary files are left out of these statements by the equivalence [same_files].
    - State machines by rule induction: the ledger, the registry, pairing, contacts and the
      attestation store keep their invariants under every operation; revocation and blocking are
      final; a receipt has a provenance; the delivery states refine the message states.
    - Security boundaries: a bootstrap code and an invite code are granted once, messaging needs
      the safety comparison, signed texts are unambiguous, trust manifests are authentic, a static
      file is never read from outside its directory, a reply of a pinned relay came over a
      connection on which the pinned certificate was shown, and a request without a session
      changes nothing.
    - Composition: a relay's receipt verifies in the daemon; approving a device link is one
      transaction over certificate, registry and record store; a job's blob decrypts to what was
      appended, and streaming it equals encrypting it in one call.
    - Sessions: checkpoints survive a restart, sessions carry the key of their device also when
      they are restored, a session whose checkpoint failed is sealed, a key package is used once,
      queued proposals refine an abstract queue.
    - Messages: a delivery is on disk before the relay hears of it; an item of the inbox is
      delivered in one batch or not at all, and acknowledged only after that.
    - Concurrency: requests that run side by side come to an answer, but for one that can block.
    - Commands: a rotation and an export keep every record, a new profile opens, a staged recovery
      replaces the store only when it opens, and the lock keeps a second daemon out.
    - Round trips of every encoding that is modelled, and theorems that exhibit the defects the
      modelling found.

    ** Bounds and fuel

    Loops over data are structural. [chunks] and the decimal digits use the length of their input
    as fuel, with lemmas that more fuel changes nothing or that the digits are all there; a chain
    of symbolic links is followed 40 times, the limit of Linux, and is an error beyond that.

    ** Not modelled

    - openmls, rustls, axum and the other libraries, but for the laws that are named.
    - The websocket of events, the loops that listen and their shutdown, desktop notifications
      and poisoned mutexes: the runtime around the requests. The process start of the relay.
    - The help text, the dispatch of a command line, the opening of a browser, and the check of a
      release (cli_release_verify.rs): terminals and processes around the commands.
    - The release tools (apps/tools), which package files at build time.
    - The permission bits of files, the contents of directories other than by name, and the
      zeroing of memory are outside the model of the world.
    - The browser page (apps/web) is TypeScript. *)
From Stdlib Require Import Ascii NArith Lia ZifyBool ZifyN.
From stdpp Require Import base gmap sorting strings list.

(** ** Results and the [?] operator *)

(** Rust's [Result<A, E>]. *)
Inductive result (A E : Type) : Type :=
| Ok (a : A)
| Err (e : E).
Arguments Ok {A E} a.
Arguments Err {A E} e.

#[export] Instance result_eq_dec `{EqDecision A, EqDecision E} : EqDecision (result A E).
Proof. solve_decision. Defined.

Definition result_bind {A B E} (m : result A E) (k : A → result B E) : result B E :=
  match m with Ok a => k a | Err e => Err e end.

Definition map_err {A E F} (f : E → F) (m : result A E) : result A F :=
  match m with Ok a => Ok a | Err e => Err (f e) end.

Definition ok_or {A E} (o : option A) (e : E) : result A E :=
  match o with Some a => Ok a | None => Err e end.

Definition result_ok {A E} (m : result A E) : option A :=
  match m with Ok a => Some a | Err _ => None end.

Definition is_ok {A E} (m : result A E) : bool :=
  match m with Ok _ => true | Err _ => false end.

Definition is_err {A E} (m : result A E) : bool := negb (is_ok m).

(** A method taking [&mut self] and returning a [Result]: the state it leaves
    behind is explicit on the error path too, because Rust keeps every mutation
    made before the early return. *)
Definition Mut (S A E : Type) : Type := S → S * result A E.

Definition mut_ret {S A E} (a : A) : Mut S A E := λ s, (s, Ok a).
Definition mut_err {S A E} (e : E) : Mut S A E := λ s, (s, Err e).
Definition mut_bind {S A B E} (m : Mut S A E) (k : A → Mut S B E) : Mut S B E :=
  λ s, match m s with
       | (s', Ok a) => k a s'
       | (s', Err e) => (s', Err e)
       end.
Definition mut_lift {S A E} (r : result A E) : Mut S A E := λ s, (s, r).
Definition mut_get {S E} : Mut S S E := λ s, (s, Ok s).
Definition mut_put {S E} (s : S) : Mut S unit E := λ _, (s, Ok tt).

Declare Scope rust_scope.
Delimit Scope rust_scope with rust.
Open Scope rust_scope.

Notation "'let?' x ':=' m 'in' k" := (result_bind m (λ x, k))
  (at level 10, x name, m at level 100, k at level 200) : rust_scope.
Notation "'let!' x ':=' m 'in' k" := (mut_bind m (λ x, k))
  (at level 10, x name, m at level 100, k at level 200) : rust_scope.

(** ** Machine integers

    Unsigned machine integers are [N]; the operations that depend on the width
    say so. *)
Definition u8_max : N := 255.
Definition u16_max : N := 65535.
Definition u32_max : N := 4294967295.
Definition u64_max : N := 18446744073709551615.

Definition u64_saturating_add (a b : N) : N := N.min (a + b) u64_max.
Definition u64_saturating_mul (a b : N) : N := N.min (a * b) u64_max.
Definition u64_saturating_pow (a b : N) : N := N.min (a ^ b) u64_max.
Definition u8_saturating_add (a b : N) : N := N.min (a + b) u8_max.
Definition u32_saturating_add (a b : N) : N := N.min (a + b) u32_max.
(** [saturating_sub] is [N.sub], truncated at zero. *)
Definition saturating_sub (a b : N) : N := a - b.
Definition u64_checked_add (a b : N) : option N :=
  if (a + b <=? u64_max)%N then Some (a + b)%N else None.
(** Plain [*] and [+] of a release build wrap. *)
Definition u64_wrapping_mul (a b : N) : N := (a * b) mod (u64_max + 1).
Definition u64_wrapping_add (a b : N) : N := (a + b) mod (u64_max + 1).
Definition div_ceil (a b : N) : N := if (a mod b =? 0)%N then a / b else a / b + 1.
Definition abs_diff (a b : N) : N := if (a <? b)%N then b - a else a - b.

(** ** Bytes and strings

    A byte is an [ascii] (eight bits); a Rust [String] or [&str] is the byte
    string of its UTF-8 encoding, so that [len] counts bytes, as in Rust. *)
Abbreviation byte := ascii (only parsing).
Abbreviation bytes := (list ascii) (only parsing).

Definition as_bytes (s : string) : bytes := String.list_ascii_of_string s.
Definition of_bytes (b : bytes) : string := String.string_of_list_ascii b.

Definition slen (s : string) : N := N.of_nat (String.length s).
Definition blen {A} (b : list A) : N := N.of_nat (length b).

Definition is_empty_str (s : string) : bool :=
  match s with EmptyString => true | _ => false end.

Definition seqb (a b : string) : bool := bool_decide (a = b).
Definition beqb (a b : bytes) : bool := bool_decide (a = b).

Definition byte_n (b : byte) : N := N_of_ascii b.
Definition n_byte (n : N) : byte := ascii_of_N n.

(** ASCII classes of [u8]. *)
Definition in_range (lo hi n : N) : bool := (lo <=? n)%N && (n <=? hi)%N.
Definition is_ascii_control (b : byte) : bool :=
  (byte_n b <? 32)%N || (byte_n b =? 127)%N.
Definition is_ascii_graphic (b : byte) : bool := in_range 33 126 (byte_n b).
Definition is_ascii_digit (b : byte) : bool := in_range 48 57 (byte_n b).
Definition is_ascii_alphanumeric (b : byte) : bool :=
  is_ascii_digit b || in_range 65 90 (byte_n b) || in_range 97 122 (byte_n b).
Definition is_ascii_hexdigit (b : byte) : bool :=
  is_ascii_digit b || in_range 65 70 (byte_n b) || in_range 97 102 (byte_n b).
Definition is_ascii_byte (b : byte) : bool := (byte_n b <? 128)%N.
Definition is_ascii (s : string) : bool := forallb is_ascii_byte (as_bytes s).

(** The predicate [byte.is_ascii_alphanumeric() || byte == b'-' || byte == b'_'],
    which the sources use for every URL-safe identifier. *)
Definition is_url_safe (b : byte) : bool :=
  is_ascii_alphanumeric b || (byte_n b =? 45)%N || (byte_n b =? 95)%N.

Definition to_ascii_uppercase_byte (b : byte) : byte :=
  if in_range 97 122 (byte_n b) then n_byte (byte_n b - 32) else b.
Definition to_ascii_uppercase (s : string) : string :=
  of_bytes (map to_ascii_uppercase_byte (as_bytes s)).

(** *** UTF-8

    The table of well-formed sequences that [String::from_utf8] accepts. *)
Definition utf8_1 (b0 : byte) : option N :=
  if is_ascii_byte b0 then Some (byte_n b0) else None.
Definition utf8_cont (b : byte) : bool := in_range 128 191 (byte_n b).
Definition utf8_2 (b0 b1 : byte) : option N :=
  if in_range 194 223 (byte_n b0) && utf8_cont b1
  then Some ((byte_n b0 - 192) * 64 + (byte_n b1 - 128))%N else None.
Definition utf8_3 (b0 b1 b2 : byte) : option N :=
  let n0 := byte_n b0 in
  let second :=
    if (n0 =? 224)%N then in_range 160 191 (byte_n b1)
    else if (n0 =? 237)%N then in_range 128 159 (byte_n b1)
    else in_range 225 239 n0 && utf8_cont b1 in
  if second && utf8_cont b2
  then Some ((n0 - 224) * 4096 + (byte_n b1 - 128) * 64 + (byte_n b2 - 128))%N else None.
Definition utf8_4 (b0 b1 b2 b3 : byte) : option N :=
  let n0 := byte_n b0 in
  let second :=
    if (n0 =? 240)%N then in_range 144 191 (byte_n b1)
    else if (n0 =? 244)%N then in_range 128 143 (byte_n b1)
    else in_range 241 243 n0 && utf8_cont b1 in
  if second && utf8_cont b2 && utf8_cont b3
  then Some ((n0 - 240) * 262144 + (byte_n b1 - 128) * 4096
             + (byte_n b2 - 128) * 64 + (byte_n b3 - 128))%N else None.

(** The scalar values of a byte string, each with the bytes that encode it; a
    byte that starts no well-formed sequence has the value [None]. *)
Fixpoint utf8_spans (b : bytes) : list (option N * bytes) :=
  match b with
  | [] => []
  | b0 :: t0 =>
    match utf8_1 b0 with
    | Some c => (Some c, [b0]) :: utf8_spans t0
    | None =>
      match t0 with
      | [] => [(None, [b0])]
      | b1 :: t1 =>
        match utf8_2 b0 b1 with
        | Some c => (Some c, [b0; b1]) :: utf8_spans t1
        | None =>
          match t1 with
          | [] => (None, [b0]) :: utf8_spans t0
          | b2 :: t2 =>
            match utf8_3 b0 b1 b2 with
            | Some c => (Some c, [b0; b1; b2]) :: utf8_spans t2
            | None =>
              match t2 with
              | [] => (None, [b0]) :: utf8_spans t0
              | b3 :: t3 =>
                match utf8_4 b0 b1 b2 b3 with
                | Some c => (Some c, [b0; b1; b2; b3]) :: utf8_spans t3
                | None => (None, [b0]) :: utf8_spans t0
                end
              end
            end
          end
        end
      end
    end
  end.

Definition utf8_valid (b : bytes) : bool :=
  forallb (λ p, match p.1 with Some _ => true | None => false end) (utf8_spans b).

(** [String::from_utf8(..).ok()]. *)
Definition from_utf8 (b : bytes) : option string :=
  if utf8_valid b then Some (of_bytes b) else None.

(** The replacement character, for the bytes no Rust string has. *)
Definition replacement_char : N := 65533.
Definition span_char (p : option N * bytes) : N := default replacement_char p.1.

(** [str::chars]. *)
Definition chars (s : string) : list N := map span_char (utf8_spans (as_bytes s)).

(** [char::is_control] (general category Cc) and [char::is_whitespace]
    (the White_Space property). *)
Definition char_is_control (c : N) : bool := (c <=? 31)%N || in_range 127 159 c.
Definition char_is_whitespace (c : N) : bool :=
  in_range 9 13 c || existsb (N.eqb c) [32; 133; 160; 5760; 8232; 8233; 8239; 8287; 12288]%N
  || in_range 8192 8202 c.

(** [str::trim]. *)
Fixpoint drop_ws (l : list (option N * bytes)) : list (option N * bytes) :=
  match l with
  | [] => []
  | p :: t => if char_is_whitespace (span_char p) then drop_ws t else l
  end.
Definition trim (s : string) : string :=
  of_bytes (concat (map snd (rev (drop_ws (rev (drop_ws (utf8_spans (as_bytes s)))))))).

(** ** Proof automation

    [rust_simpl] unfolds the result plumbing; [rust_cases] follows every match and
    conditional of a hypothesis or goal; [bool_props] turns boolean guards into
    propositions [lia] understands. *)
Ltac rust_simpl :=
  unfold mut_bind, mut_ret, mut_err, mut_lift, mut_get, mut_put, result_bind, ok_or, map_err in *;
  simpl in *.

Ltac rust_cases :=
  repeat first [progress simplify_eq/= | case_match | case_decide].

Ltac bool_props :=
  repeat match goal with
  | H : _ && _ = true |- _ => apply andb_true_iff in H as [? ?]
  | H : _ || _ = false |- _ => apply orb_false_iff in H as [? ?]
  | H : negb _ = true |- _ => apply negb_true_iff in H
  | H : negb _ = false |- _ => apply negb_false_iff in H
  | H : bool_decide _ = true |- _ => apply bool_decide_eq_true in H
  | H : bool_decide _ = false |- _ => apply bool_decide_eq_false in H
  | H : seqb _ _ = true |- _ => unfold seqb in H
  | H : seqb _ _ = false |- _ => unfold seqb in H
  | H : beqb _ _ = true |- _ => unfold beqb in H
  | H : beqb _ _ = false |- _ => unfold beqb in H
  end.

Create HintDb rust.

Lemma blen_app {A} (a b : list A) : (blen (a ++ b) = blen a + blen b)%N.
Proof. unfold blen. rewrite length_app. lia. Qed.

Lemma blen_cons {A} (x : A) l : (blen (x :: l) = blen l + 1)%N.
Proof. unfold blen. cbn [length]. lia. Qed.

Lemma blen_zero {A} (l : list A) : blen l = 0%N → l = [].
Proof. destruct l; [done|]. rewrite blen_cons. lia. Qed.

Lemma seqb_refl s : seqb s s = true.
Proof. unfold seqb. by rewrite bool_decide_true. Qed.
Lemma seqb_true a b : seqb a b = true ↔ a = b.
Proof. apply bool_decide_eq_true. Qed.
Lemma beqb_refl s : beqb s s = true.
Proof. unfold beqb. by rewrite bool_decide_true. Qed.
Lemma beqb_true a b : beqb a b = true ↔ a = b.
Proof. apply bool_decide_eq_true. Qed.
#[export] Hint Resolve seqb_refl beqb_refl : rust.
#[export] Hint Rewrite seqb_refl beqb_refl : rust.

Lemma as_of_bytes b : as_bytes (of_bytes b) = b.
Proof. apply String.list_ascii_of_string_of_list_ascii. Qed.
Lemma of_as_bytes s : of_bytes (as_bytes s) = s.
Proof. apply String.string_of_list_ascii_of_string. Qed.
#[export] Hint Rewrite as_of_bytes of_as_bytes : rust.

#[export] Instance as_bytes_inj : Inj (=) (=) as_bytes.
Proof. intros a b H. by rewrite <-(of_as_bytes a), H, of_as_bytes. Qed.

Lemma length_as_bytes s : length (as_bytes s) = String.length s.
Proof. induction s; simpl; [done|]. by f_equal. Qed.

Lemma as_bytes_app a b : as_bytes (a +:+ b) = as_bytes a ++ as_bytes b.
Proof. induction a; simpl; [done|]. by f_equal. Qed.

Lemma of_bytes_app a b : of_bytes (a ++ b) = of_bytes a +:+ of_bytes b.
Proof. apply as_bytes_inj. by rewrite as_bytes_app, !as_of_bytes. Qed.

Lemma byte_n_n_byte n : (n < 256)%N → byte_n (n_byte n) = n.
Proof. apply N_ascii_embedding. Qed.
Lemma n_byte_byte_n b : n_byte (byte_n b) = b.
Proof. apply ascii_N_embedding. Qed.
Lemma byte_n_lt b : (byte_n b < 256)%N.
Proof. apply N_ascii_bounded. Qed.
#[export] Hint Resolve byte_n_lt : rust.

Lemma is_empty_str_spec s : is_empty_str s = true ↔ s = EmptyString.
Proof. by destruct s. Qed.

(** The spans of a byte string are a partition of it. *)
Lemma utf8_spans_concat b : concat (map snd (utf8_spans b)) = b.
Proof.
  enough (∀ n b, length b ≤ n → concat (map snd (utf8_spans b)) = b) by eauto.
  clear b. induction n as [|n IH]; intros b Hl.
  { destruct b; [done|simpl in Hl; lia]. }
  destruct b as [|b0 t0]; [done|].
  assert (H0 : concat (map snd (utf8_spans t0)) = t0) by (apply IH; simpl in Hl; lia).
  cbn [utf8_spans].
  destruct (utf8_1 b0); cbn [map snd concat app]; [by rewrite H0|].
  destruct t0 as [|b1 t1]; [done|].
  destruct (utf8_2 b0 b1); cbn [map snd concat app].
  { rewrite IH; [done|simpl in Hl; lia]. }
  destruct t1 as [|b2 t2]; cbn [map snd concat app]; [by rewrite H0|].
  destruct (utf8_3 b0 b1 b2); cbn [map snd concat app].
  { rewrite IH; [done|simpl in Hl; lia]. }
  destruct t2 as [|b3 t3]; cbn [map snd concat app]; [by rewrite H0|].
  destruct (utf8_4 b0 b1 b2 b3); cbn [map snd concat app].
  { rewrite IH; [done|simpl in Hl; lia]. }
  by rewrite H0.
Qed.

(** The outcome of a call that is known to have succeeded. *)
Lemma call_ok {S A E} (p : S * result A E) : is_ok p.2 = true → ∃ a, p = (p.1, Ok a).
Proof. destruct p as [s [a|e]]; simpl; [by eauto|done]. Qed.
