(* ===== verification/Text.v ===== *)
(** * Text and byte encodings

    The pieces of Rust's [str], [u8], [u64] and slice API that the sources use:
    splitting and prefix tests, decimal numbers, lower-case hexadecimal and
    big-endian integers, each with its round trip. *)
From Stdlib Require Import Ascii NArith Lia ZifyBool ZifyN.
From stdpp Require Import base gmap sorting strings list.
From S2P Require Import Prelude.

(** ** Prefixes, searching and splitting *)

Fixpoint strip_prefix_b (p b : bytes) : option bytes :=
  match p, b with
  | [], _ => Some b
  | x :: p', y :: b' => if decide (x = y) then strip_prefix_b p' b' else None
  | _ :: _, [] => None
  end.

Definition starts_with_b (p b : bytes) : bool :=
  match strip_prefix_b p b with Some _ => true | None => false end.

Definition strip_prefix (p s : string) : option string :=
  of_bytes <$> strip_prefix_b (as_bytes p) (as_bytes s).
Definition starts_with (p s : string) : bool := starts_with_b (as_bytes p) (as_bytes s).

Definition contains_byte (c : N) (s : string) : bool :=
  existsb (λ b, (byte_n b =? c)%N) (as_bytes s).

(** [str::split_once]. *)
Fixpoint split_once_b (p b : bytes) : option (bytes * bytes) :=
  match strip_prefix_b p b with
  | Some rest => Some ([], rest)
  | None =>
    match b with
    | [] => None
    | x :: t => match split_once_b p t with
                | Some (l, r) => Some (x :: l, r)
                | None => None
                end
    end
  end.
Definition split_once (p s : string) : option (string * string) :=
  match split_once_b (as_bytes p) (as_bytes s) with
  | Some (l, r) => Some (of_bytes l, of_bytes r)
  | None => None
  end.

(** [str::split] on a one-byte pattern: at least one field. *)
Fixpoint split_b (c : byte) (b : bytes) : list bytes :=
  match b with
  | [] => [[]]
  | x :: t =>
    if decide (x = c) then [] :: split_b c t
    else match split_b c t with
         | h :: r => (x :: h) :: r
         | [] => [[x]]
         end
  end.
Definition split (c : N) (s : string) : list string :=
  map of_bytes (split_b (n_byte c) (as_bytes s)).

(** [str::rsplit(c).next()]: the last field. *)
Definition last_field (c : N) (s : string) : string :=
  default EmptyString (last (split c s)).

(** [slice.join(sep)]. *)
Fixpoint join_b (c : byte) (l : list bytes) : bytes :=
  match l with
  | [] => []
  | [x] => x
  | x :: t => x ++ c :: join_b c t
  end.
Definition join (c : N) (l : list string) : string :=
  of_bytes (join_b (n_byte c) (map as_bytes l)).

(** ** Decimal numbers *)

Definition digit_byte (d : N) : byte := n_byte (48 + d).

(** The digits of [n], least significant first. *)
Fixpoint dec_digits (fuel : nat) (n : N) : list N :=
  match fuel with
  | O => []
  | S f => (n mod 10)%N :: (if (n <? 10)%N then [] else dec_digits f (n / 10))
  end.
(** [u64::to_string]: the binary size of [n] bounds its number of digits. *)
Definition u64_to_string (n : N) : string :=
  of_bytes (map digit_byte (rev (dec_digits (S (N.size_nat n)) n))).

Fixpoint parse_digits (acc : N) (b : bytes) : option N :=
  match b with
  | [] => Some acc
  | x :: t => if is_ascii_digit x then parse_digits (acc * 10 + (byte_n x - 48))%N t else None
  end.
(** [str::parse::<u64>().ok()]: an optional plus sign, at least one digit, and no
    overflow. *)
Definition parse_u64 (s : string) : option N :=
  let digits := match as_bytes s with
                | x :: t => if (byte_n x =? 43)%N then t else x :: t
                | [] => []
                end in
  match digits with
  | [] => None
  | _ => match parse_digits 0 digits with
         | Some n => if (n <=? u64_max)%N then Some n else None
         | None => None
         end
  end.

(** ** Hexadecimal *)

Definition nibble_byte (n : N) : byte := n_byte (if (n <? 10)%N then 48 + n else 87 + n).
Definition hex_byte (b : byte) : bytes :=
  [nibble_byte (N.shiftr (byte_n b) 4); nibble_byte (N.land (byte_n b) 15)].
Definition hex_b (b : bytes) : bytes := flat_map hex_byte b.

Definition nibble_value (b : byte) : option N :=
  if is_ascii_digit b then Some (byte_n b - 48)%N
  else if in_range 97 102 (byte_n b) then Some (byte_n b - 97 + 10)%N
  else if in_range 65 70 (byte_n b) then Some (byte_n b - 65 + 10)%N
  else None.

Fixpoint decode_pairs (b : bytes) : option bytes :=
  match b with
  | [] => Some []
  | [_] => None
  | x :: y :: t =>
    match nibble_value x, nibble_value y, decode_pairs t with
    | Some hi, Some lo, Some rest => Some (n_byte (N.lor (N.shiftl hi 4) lo) :: rest)
    | _, _, _ => None
    end
  end.

(** The outcome of a call that can panic: slicing a string inside a character. *)
Inductive Outcome (A : Type) := Returns (a : A) | Panics.
#[global] Arguments Returns {A} _.
#[global] Arguments Panics {A}.

(** [u8::from_str_radix(pair, 16)]: a leading plus sign is accepted. *)
Definition from_str_radix_16 (x y : byte) : option byte :=
  if (byte_n x =? 43)%N then n_byte <$> nibble_value y
  else
    h ← nibble_value x;
    l ← nibble_value y;
    Some (n_byte (16 * h + l)).

(** The pairs of a string, each a slice that must end inside the string and at a character
    boundary; the first pair that is no number ends the loop. *)
Fixpoint hex_pairs (b : bytes) : Outcome (option bytes) :=
  match b with
  | x :: y :: rest =>
    if match rest with z :: _ => utf8_cont z | [] => false end then Panics
    else
      match from_str_radix_16 x y with
      | None => Returns None
      | Some v =>
        match hex_pairs rest with
        | Panics => Panics
        | Returns o => Returns (cons v <$> o)
        end
      end
  | [_] => Panics
  | [] => Returns (Some [])
  end.

(** ** Big-endian integers *)

Fixpoint le_bytes (k : nat) (n : N) : bytes :=
  match k with
  | O => []
  | S k' => n_byte (n mod 256) :: le_bytes k' (n / 256)
  end.
(** [uN::to_be_bytes]. *)
Definition be_bytes (k : nat) (n : N) : bytes := rev (le_bytes k n).

Fixpoint le_value (b : bytes) : N :=
  match b with
  | [] => 0
  | x :: t => byte_n x + 256 * le_value t
  end.
(** [uN::from_be_bytes]. *)
Definition be_value (b : bytes) : N := le_value (rev b).

(** ** Lemmas *)

Lemma strip_prefix_b_app p r : strip_prefix_b p (p ++ r) = Some r.
Proof. induction p as [|x p IH]; simpl; [done|]. by rewrite decide_True. Qed.

Lemma strip_prefix_b_Some p b r : strip_prefix_b p b = Some r ↔ b = p ++ r.
Proof.
  split; [|intros ->; apply strip_prefix_b_app].
  revert b. induction p as [|x p IH]; intros [|y b] H; simplify_eq/=; [done..|].
  case_decide; [|done]. subst. f_equal. by apply IH.
Qed.

Lemma strip_prefix_Some p s r : strip_prefix p s = Some r ↔ s = p +:+ r.
Proof.
  unfold strip_prefix. rewrite fmap_Some. split.
  - intros (b & Hb & ->). apply strip_prefix_b_Some in Hb.
    apply as_bytes_inj. by rewrite as_bytes_app, as_of_bytes.
  - intros ->. exists (as_bytes r). rewrite of_as_bytes, as_bytes_app. split; [|done].
    apply strip_prefix_b_app.
Qed.

Lemma starts_with_true p s : starts_with p s = true ↔ ∃ r, s = p +:+ r.
Proof.
  unfold starts_with, starts_with_b. split.
  - destruct (strip_prefix_b _ _) as [r|] eqn:E; [|done]. intros _.
    exists (of_bytes r). apply strip_prefix_Some. unfold strip_prefix. by rewrite E.
  - intros [r ->]. by rewrite as_bytes_app, strip_prefix_b_app.
Qed.

Lemma split_b_nonempty c b : split_b c b ≠ [].
Proof. destruct b; simpl; repeat case_match; done. Qed.

Lemma split_b_no_sep c b : c ∉ b → split_b c b = [b].
Proof.
  induction b as [|x b IH]; simpl; [done|]. intros H. apply not_elem_of_cons in H as [Hx Hb].
  rewrite decide_False by done. by rewrite IH.
Qed.

Lemma split_b_app c x r : c ∉ x → split_b c (x ++ c :: r) = x :: split_b c r.
Proof.
  induction x as [|y x IH]; intros H; simpl; [by rewrite decide_True|].
  apply not_elem_of_cons in H as [Hy Hx]. rewrite decide_False by done. by rewrite IH.
Qed.

(** Splitting a join gives the fields back, when no field has the separator. *)
Lemma split_join_b c l : l ≠ [] → Forall (λ x, c ∉ x) l → split_b c (join_b c l) = l.
Proof.
  intros Hne Hf. induction Hf as [|x l Hx Hf IH]; [done|].
  destruct l as [|y l]; simpl; [by apply split_b_no_sep|].
  rewrite split_b_app by done. f_equal. by apply IH.
Qed.

Lemma join_split_b c b : join_b c (split_b c b) = b.
Proof.
  induction b as [|x b IH]; simpl; [done|]. case_decide; subst.
  - rewrite <-IH at 2. pose proof (split_b_nonempty c b). by destruct (split_b c b).
  - destruct (split_b c b) as [|h r] eqn:E; [by apply split_b_nonempty in E|].
    rewrite <-IH. by destruct r.
Qed.

Lemma split_join c l :
  l ≠ [] → Forall (λ s, n_byte c ∉ as_bytes s) l → split c (join c l) = l.
Proof.
  intros Hne Hf. unfold split, join. rewrite as_of_bytes, split_join_b.
  - rewrite map_map. rewrite <-(map_id l) at 2. apply map_ext. intros s. apply of_as_bytes.
  - by destruct l.
  - apply Forall_map. done.
Qed.

(** *** Decimal *)

Definition dec_value (l : list N) : N := foldr (λ d acc, d + 10 * acc)%N 0%N l.

Lemma dec_digits_value f n : (n < 10 ^ N.of_nat f)%N → dec_value (dec_digits f n) = n.
Proof.
  revert n. induction f as [|f IH]; intros n Hn.
  { simpl in *. change (10 ^ N.of_nat 0)%N with 1%N in Hn. lia. }
  assert (Hs : (10 ^ N.of_nat (S f) = 10 * 10 ^ N.of_nat f)%N)
    by (rewrite Nat2N.inj_succ, N.pow_succ_r'; lia).
  cbn [dec_digits dec_value foldr]. destruct (n <? 10)%N eqn:E; cbn [foldr].
  - rewrite N.mod_small by lia. lia.
  - change (foldr _ _ _) with (dec_value (dec_digits f (n / 10))).
    rewrite IH; [pose proof (N.div_mod n 10); lia|]. apply N.Div0.div_lt_upper_bound; lia.
Qed.

Lemma dec_digits_bound f n : Forall (λ d, d < 10)%N (dec_digits f n).
Proof.
  revert n. induction f as [|f IH]; intros n; simpl; constructor; [by apply N.mod_lt|].
  case_match; [constructor|apply IH].
Qed.

Lemma dec_digits_nonempty f n : dec_digits (S f) n ≠ [].
Proof. done. Qed.

Lemma parse_digits_app acc l r :
  Forall (λ d, d < 10)%N l →
  parse_digits acc (map digit_byte l ++ r)
  = parse_digits (fold_left (λ a d, a * 10 + d)%N l acc) r.
Proof.
  intros Hl. revert acc. induction Hl as [|d l Hd Hl IH]; intros acc; [done|].
  cbn [map app parse_digits fold_left]. unfold digit_byte at 1 2, is_ascii_digit, in_range.
  rewrite byte_n_n_byte by lia.
  replace ((48 <=? 48 + d)%N && (48 + d <=? 57)%N) with true by lia.
  rewrite IH. f_equal. f_equal. lia.
Qed.

Lemma N_size_nat_pow n : (n < 2 ^ N.of_nat (N.size_nat n))%N.
Proof.
  destruct n as [|p]; [by vm_compute|].
  pose proof (N.size_gt (N.pos p)) as H.
  replace (N.of_nat (N.size_nat (N.pos p))) with (N.size (N.pos p)); [done|].
  simpl. clear H. induction p; simpl; try lia.
Qed.

Lemma parse_u64_to_string n : (n ≤ u64_max)%N → parse_u64 (u64_to_string n) = Some n.
Proof.
  intros Hn. unfold parse_u64, u64_to_string. rewrite as_of_bytes.
  set (ds := dec_digits (S (N.size_nat n)) n).
  assert (Hb : Forall (λ d, d < 10)%N (rev ds)) by (apply Forall_rev, dec_digits_bound).
  assert (Hne : rev ds ≠ []).
  { intros E. apply (dec_digits_nonempty (N.size_nat n) n). fold ds.
    by rewrite <-(rev_involutive ds), E. }
  assert (Hv : fold_left (λ a d, a * 10 + d)%N (rev ds) 0%N = n).
  { rewrite <-fold_left_rev_right, rev_involutive.
    transitivity (dec_value ds).
    - clear. induction ds as [|d l IH]; simpl; [done|]. rewrite IH. unfold dec_value. lia.
    - apply dec_digits_value. rewrite Nat2N.inj_succ, N.pow_succ_r'.
      pose proof (N_size_nat_pow n).
      assert (2 ^ N.of_nat (N.size_nat n) ≤ 10 ^ N.of_nat (N.size_nat n))%N
        by (apply N.pow_le_mono_l; lia). lia. }
  clearbody ds.
  destruct (rev ds) as [|d l] eqn:E; [done|]. cbn [map].
  inversion Hb as [|?? Hd Hl]; subst.
  assert (byte_n (digit_byte d) =? 43 = false)%N as ->
    by (unfold digit_byte; rewrite byte_n_n_byte; lia).
  pose proof (parse_digits_app 0 (d :: l) [] Hb) as Hp. rewrite app_nil_r in Hp.
  cbn [map] in Hp. rewrite Hp. cbn [parse_digits].
  match goal with |- context [fold_left ?f ?l ?a] => set (v := fold_left f l a) in * end.
  destruct (v <=? u64_max)%N eqn:Ev; [done|lia].
Qed.

(** *** Hexadecimal *)

Lemma hex_byte_nibbles b :
  ∃ hi lo, hex_byte b = [nibble_byte hi; nibble_byte lo]
    ∧ nibble_value (nibble_byte hi) = Some hi ∧ nibble_value (nibble_byte lo) = Some lo
    ∧ n_byte (N.lor (N.shiftl hi 4) lo) = b.
Proof.
  exists (N.shiftr (byte_n b) 4), (N.land (byte_n b) 15).
  destruct b as [[] [] [] [] [] [] [] []]; vm_compute; auto.
Qed.

Lemma decode_pairs_hex b : decode_pairs (hex_b b) = Some b.
Proof.
  induction b as [|x b IH]; [done|]. cbn [hex_b flat_map].
  destruct (hex_byte_nibbles x) as (hi & lo & -> & Hh & Hl & Hb).
  cbn [app decode_pairs]. rewrite Hh, Hl. change (flat_map hex_byte b) with (hex_b b).
  by rewrite IH, Hb.
Qed.

Lemma length_hex_b b : length (hex_b b) = 2 * length b.
Proof. induction b; simpl; [done|]. rewrite IHb. lia. Qed.

Lemma hex_byte_lower b :
  Forall (λ c, is_ascii_digit c || in_range 97 102 (byte_n c) = true) (hex_byte b).
Proof. destruct b as [[] [] [] [] [] [] [] []]; repeat constructor. Qed.

Lemma hex_b_lower b :
  Forall (λ c, is_ascii_digit c || in_range 97 102 (byte_n c) = true) (hex_b b).
Proof.
  induction b as [|x b IH]; [constructor|]. cbn [hex_b flat_map].
  apply Forall_app; split; [apply hex_byte_lower|done].
Qed.

Lemma lower_hex_is_hexdigit c :
  is_ascii_digit c || in_range 97 102 (byte_n c) = true → is_ascii_hexdigit c = true.
Proof. unfold is_ascii_hexdigit. destruct (is_ascii_digit c); [done|]. simpl. intros ->. by destruct (in_range 65 70 _). Qed.

Lemma hex_b_hexdigit b : forallb is_ascii_hexdigit (hex_b b) = true.
Proof.
  apply forallb_forall. intros x Hx%list_elem_of_In. apply lower_hex_is_hexdigit.
  revert x Hx. apply Forall_forall, hex_b_lower.
Qed.

Lemma decode_pairs_length b d : decode_pairs b = Some d → length b = 2 * length d.
Proof.
  enough (∀ n b d, length b ≤ n → decode_pairs b = Some d → length b = 2 * length d) by eauto.
  clear. induction n as [|n IH]; intros [|x [|y b]] d Hl H; simplify_eq/=; try lia; [done..|].
  repeat case_match; simplify_eq/=. erewrite (IH b) by (eauto || lia). lia.
Qed.

#[export] Instance hex_b_inj : Inj (=) (=) hex_b.
Proof.
  intros a b H. apply (f_equal decode_pairs) in H. rewrite !decode_pairs_hex in H. by simplify_eq.
Qed.

(** *** Big-endian integers *)

Lemma length_le_bytes k n : length (le_bytes k n) = k.
Proof. revert n. induction k; intros n; simpl; [done|]. by rewrite IHk. Qed.
Lemma length_be_bytes k n : length (be_bytes k n) = k.
Proof. unfold be_bytes. by rewrite length_rev, length_le_bytes. Qed.

Lemma le_value_bytes k n : (n < 256 ^ N.of_nat k)%N → le_value (le_bytes k n) = n.
Proof.
  revert n. induction k as [|k IH]; intros n Hn.
  { change (256 ^ N.of_nat 0)%N with 1%N in Hn. simpl. lia. }
  rewrite Nat2N.inj_succ, N.pow_succ_r' in Hn. cbn [le_bytes le_value].
  rewrite byte_n_n_byte by (apply N.mod_lt; lia).
  rewrite IH by (apply N.Div0.div_lt_upper_bound; lia).
  pose proof (N.div_mod n 256). lia.
Qed.

Lemma be_value_bytes k n : (n < 256 ^ N.of_nat k)%N → be_value (be_bytes k n) = n.
Proof. intros. unfold be_value, be_bytes. rewrite rev_involutive. by apply le_value_bytes. Qed.

Lemma be_value_u64 n : (n ≤ u64_max)%N → be_value (be_bytes 8 n) = n.
Proof.
  intros. apply be_value_bytes. change (256 ^ N.of_nat 8)%N with (u64_max + 1)%N. lia.
Qed.
Lemma be_value_u32 n : (n ≤ u32_max)%N → be_value (be_bytes 4 n) = n.
Proof.
  intros. apply be_value_bytes. change (256 ^ N.of_nat 4)%N with (u32_max + 1)%N. lia.
Qed.
Lemma be_value_u16 n : (n ≤ u16_max)%N → be_value (be_bytes 2 n) = n.
Proof.
  intros. apply be_value_bytes. change (256 ^ N.of_nat 2)%N with (u16_max + 1)%N. lia.
Qed.

Lemma le_value_lt b : (le_value b < 256 ^ N.of_nat (length b))%N.
Proof.
  induction b as [|x b IH]; [done|]. cbn [le_value length].
  rewrite Nat2N.inj_succ, N.pow_succ_r'. pose proof (byte_n_lt x). lia.
Qed.

Lemma be_value_lt b : (be_value b < 256 ^ N.of_nat (length b))%N.
Proof. unfold be_value. rewrite <-length_rev. apply le_value_lt. Qed.

Lemma be_bytes_inj k m n :
  (m < 256 ^ N.of_nat k)%N → (n < 256 ^ N.of_nat k)%N → be_bytes k m = be_bytes k n → m = n.
Proof. intros Hm Hn E. rewrite <-(be_value_bytes k m), <-(be_value_bytes k n), E by done. done. Qed.

(** *** Trimming *)

Definition ascii_visible (b : byte) : bool :=
  is_ascii_byte b && negb (char_is_whitespace (byte_n b)).

Lemma utf8_spans_ascii b :
  forallb is_ascii_byte b = true → utf8_spans b = map (λ x, (Some (byte_n x), [x])) b.
Proof.
  induction b as [|x b IH]; [done|]. intros H. cbn [forallb] in H. bool_props.
  cbn [utf8_spans map]. unfold utf8_1. rewrite H. by rewrite IH.
Qed.

Lemma drop_ws_visible b :
  forallb ascii_visible b = true →
  drop_ws (map (λ x, (Some (byte_n x), [x])) b) = map (λ x, (Some (byte_n x), [x])) b.
Proof.
  destruct b as [|x b]; [done|]. cbn [forallb]. unfold ascii_visible at 1. intros H. bool_props.
  cbn [map drop_ws]. unfold span_char. cbn [fst default id].
  by match goal with H : char_is_whitespace _ = false |- _ => rewrite H end.
Qed.

(** A string of visible ASCII characters is its own trim. *)
Lemma trim_visible s : forallb ascii_visible (as_bytes s) = true → trim s = s.
Proof.
  intros H. unfold trim.
  assert (Ha : forallb is_ascii_byte (as_bytes s) = true).
  { revert H. generalize (as_bytes s). induction l; [done|]. cbn [forallb]. unfold ascii_visible at 1.
    intros H. bool_props. by rewrite IHl, H by done. }
  rewrite utf8_spans_ascii, drop_ws_visible, <-map_rev, drop_ws_visible by
    (try done; rewrite forallb_forall in *; intros x Hx; apply H; by apply in_rev).
  rewrite <-map_rev, rev_involutive, map_map. cbn [snd].
  rewrite <-(of_as_bytes s) at 2. f_equal. clear. generalize (as_bytes s).
  induction l; simpl; [done|]. by f_equal.
Qed.

Lemma digit_visible d : (d < 10)%N → ascii_visible (digit_byte d) = true.
Proof.
  intros Hd.
  assert (d = 0 ∨ d = 1 ∨ d = 2 ∨ d = 3 ∨ d = 4 ∨ d = 5 ∨ d = 6 ∨ d = 7 ∨ d = 8 ∨ d = 9)%N
    as Hc by lia.
  repeat (destruct Hc as [->|Hc]; [done|]). by subst.
Qed.

Lemma u64_to_string_visible n : forallb ascii_visible (as_bytes (u64_to_string n)) = true.
Proof.
  unfold u64_to_string. rewrite as_of_bytes. apply forallb_forall. intros b Hb.
  apply in_map_iff in Hb as (d & <- & Hd). apply in_rev, list_elem_of_In in Hd.
  apply digit_visible. pose proof (dec_digits_bound (S (N.size_nat n)) n) as Hf.
  rewrite Forall_forall in Hf. by apply Hf.
Qed.

Lemma digit_is_digit d : (d < 10)%N → is_ascii_digit (digit_byte d) = true.
Proof.
  intros Hd. unfold is_ascii_digit, digit_byte. rewrite byte_n_n_byte by lia. unfold in_range. lia.
Qed.

Lemma u64_digits n : forallb is_ascii_digit (as_bytes (u64_to_string n)) = true.
Proof.
  unfold u64_to_string. rewrite as_of_bytes. apply forallb_forall. intros b Hb.
  apply in_map_iff in Hb as (d & <- & Hd). apply digit_is_digit.
  apply in_rev in Hd. pose proof (dec_digits_bound (S (N.size_nat n)) n) as Hf.
  rewrite Forall_forall in Hf. by apply Hf, list_elem_of_In.
Qed.

Lemma visible_ascii b : forallb ascii_visible b = true → forallb is_ascii_byte b = true.
Proof.
  rewrite !forallb_forall. intros H x Hx. specialize (H x Hx). unfold ascii_visible in H.
  by bool_props.
Qed.

Lemma ascii_utf8_valid b : forallb is_ascii_byte b = true → utf8_valid b = true.
Proof.
  intros H. unfold utf8_valid. rewrite utf8_spans_ascii by done. clear H.
  by induction b as [|x b IH]; cbn [map forallb fst].
Qed.

(** *** Fields without separators *)

Lemma forallb_not_elem {A} (p : A → bool) l x : forallb p l = true → p x = false → x ∉ l.
Proof.
  intros Hp Hx Hin. apply list_elem_of_In in Hin. rewrite forallb_forall in Hp.
  rewrite (Hp x Hin) in Hx. done.
Qed.

Lemma forallb_join_b p c l :
  p c = true → Forall (λ x, forallb p x = true) l → forallb p (join_b c l) = true.
Proof.
  intros Hc. induction 1 as [|x l Hx Hl IH]; [done|]. destruct l as [|y l]; [done|].
  change (join_b c (x :: y :: l)) with (x ++ c :: join_b c (y :: l)).
  by rewrite forallb_app, Hx; cbn [forallb]; rewrite Hc, IH.
Qed.

Lemma forallb_weaken {A} (p q : A → bool) l :
  (∀ x, p x = true → q x = true) → forallb p l = true → forallb q l = true.
Proof. rewrite !forallb_forall. auto. Qed.

(** A line of ASCII text: it can be a field of a newline-separated payload. *)
Definition line_byte (b : byte) : bool := is_ascii_byte b && negb (byte_n b =? 10)%N.
Definition line_ok (s : string) : bool := forallb line_byte (as_bytes s).

Lemma line_ok_sep s : line_ok s = true → n_byte 10 ∉ as_bytes s.
Proof. intros H. by eapply forallb_not_elem. Qed.

Lemma line_ok_app a b : line_ok (a +:+ b) = line_ok a && line_ok b.
Proof. unfold line_ok. by rewrite as_bytes_app, forallb_app. Qed.

Lemma visible_line s : forallb ascii_visible (as_bytes s) = true → line_ok s = true.
Proof.
  apply forallb_weaken. intros x Hx. unfold ascii_visible, line_byte in *. bool_props.
  apply andb_true_iff. split; [done|]. apply negb_true_iff. apply N.eqb_neq. intros E.
  rewrite E in H0. done.
Qed.

Lemma hex_line b : line_ok (of_bytes (hex_b b)) = true.
Proof.
  unfold line_ok. rewrite as_of_bytes. eapply forallb_weaken; [|apply hex_b_hexdigit].
  intros x Hx. unfold is_ascii_hexdigit, is_ascii_digit, in_range, line_byte, is_ascii_byte in *. lia.
Qed.

Lemma u64_line n : line_ok (u64_to_string n) = true.
Proof. apply visible_line, u64_to_string_visible. Qed.

(** Text assembled from lines is UTF-8 and splits back into them. *)
Lemma lines_utf8 l : Forall (λ s, line_ok s = true) l → utf8_valid (as_bytes (join 10 l)) = true.
Proof.
  intros Hl. apply ascii_utf8_valid. unfold join. rewrite as_of_bytes.
  apply forallb_join_b; [done|]. apply Forall_map. eapply Forall_impl; [exact Hl|].
  intros s Hs. eapply forallb_weaken; [|exact Hs]. intros x Hx. unfold line_byte in Hx. by bool_props.
Qed.

Lemma lines_split l : l ≠ [] → Forall (λ s, line_ok s = true) l → split 10 (join 10 l) = l.
Proof. intros Hne Hl. apply split_join; [done|]. eapply Forall_impl; [exact Hl|]. apply line_ok_sep. Qed.

Lemma to_upper_byte_idem b :
  to_ascii_uppercase_byte (to_ascii_uppercase_byte b) = to_ascii_uppercase_byte b.
Proof. by destruct b as [[] [] [] [] [] [] [] []]. Qed.
Lemma to_upper_idem s : to_ascii_uppercase (to_ascii_uppercase s) = to_ascii_uppercase s.
Proof.
  unfold to_ascii_uppercase. rewrite as_of_bytes. f_equal. rewrite map_map. apply map_ext.
  intros b. apply to_upper_byte_idem.
Qed.

Lemma filter_all {A} (P : A → Prop) `{∀ x, Decision (P x)} l : Forall P l → filter P l = l.
Proof. induction 1 as [|x l Hx _ IH]; [done|]. by rewrite filter_cons_True, IH. Qed.

(** *** Trimming a valid string *)

(** A span decodes to itself whatever follows it. *)
Definition span_unit (p : option N * bytes) : Prop :=
  ∀ r, utf8_spans (p.2 ++ r) = p :: utf8_spans r.

Lemma utf8_spans_units b : Forall (λ p, is_Some p.1 → span_unit p) (utf8_spans b).
Proof.
  enough (∀ n b, length b ≤ n → Forall (λ p, is_Some p.1 → span_unit p) (utf8_spans b)) by eauto.
  clear b. induction n as [|n IH]; intros b Hl.
  { destruct b; [constructor|simpl in Hl; lia]. }
  destruct b as [|b0 t0]; [constructor|].
  assert (H0 : Forall (λ p, is_Some p.1 → span_unit p) (utf8_spans t0)) by (apply IH; simpl in Hl; lia).
  assert (Hbad : Forall (λ p, is_Some p.1 → span_unit p) ((None, [b0]) :: utf8_spans t0)).
  { constructor; [|done]. by intros [? ?]. }
  cbn [utf8_spans]. destruct (utf8_1 b0) eqn:E1.
  { constructor; [|done]. intros _ r. cbn [snd app utf8_spans]. by rewrite E1. }
  destruct t0 as [|b1 t1]; [done|]. destruct (utf8_2 b0 b1) eqn:E2.
  { constructor; [|apply IH; simpl in Hl; lia].
    intros _ r. cbn [snd app utf8_spans]. by rewrite E1, E2. }
  destruct t1 as [|b2 t2]; [done|]. destruct (utf8_3 b0 b1 b2) eqn:E3.
  { constructor; [|apply IH; simpl in Hl; lia].
    intros _ r. cbn [snd app utf8_spans]. by rewrite E1, E2, E3. }
  destruct t2 as [|b3 t3]; [done|]. destruct (utf8_4 b0 b1 b2 b3) eqn:E4; [|done].
  constructor; [|apply IH; simpl in Hl; lia].
  intros _ r. cbn [snd app utf8_spans]. by rewrite E1, E2, E3, E4.
Qed.

Lemma utf8_spans_of_units l : Forall span_unit l → utf8_spans (concat (map snd l)) = l.
Proof. induction 1 as [|p l Hp _ IH]; [done|]. cbn [map concat]. by rewrite Hp, IH. Qed.

Lemma drop_ws_suffix l : ∃ k, l = k ++ drop_ws l.
Proof.
  induction l as [|p l [k IH]]; [by exists []|]. cbn [drop_ws].
  case_match; [|by exists []]. exists (p :: k). cbn. by rewrite <-IH.
Qed.

(** The characters that [trim] keeps are a segment of the string. *)
Lemma trim_segment s :
  utf8_valid (as_bytes s) = true →
  ∃ k l, utf8_spans (as_bytes s) = k ++ utf8_spans (as_bytes (trim s)) ++ l.
Proof.
  intros Hv. unfold trim. rewrite as_of_bytes.
  destruct (drop_ws_suffix (utf8_spans (as_bytes s))) as [k Ek].
  destruct (drop_ws_suffix (rev (drop_ws (utf8_spans (as_bytes s))))) as [l El].
  apply (f_equal (@rev _)) in El. rewrite rev_involutive, rev_app_distr in El.
  set (kept := rev (drop_ws (rev (drop_ws (utf8_spans (as_bytes s)))))) in *.
  assert (E : utf8_spans (as_bytes s) = k ++ kept ++ rev l) by (rewrite Ek at 1; by rewrite El).
  exists k, (rev l). rewrite utf8_spans_of_units; [done|].
  pose proof (utf8_spans_units (as_bytes s)) as Hu. unfold utf8_valid in Hv. rewrite E in Hu, Hv.
  rewrite !forallb_app, !andb_true_iff, !forallb_forall in Hv. destruct Hv as (_ & Hv & _).
  rewrite !Forall_app, !Forall_forall in Hu. destruct Hu as (_ & Hu & _).
  apply Forall_forall. intros p Hp. apply Hu; [done|]. apply list_elem_of_In in Hp.
  specialize (Hv p Hp). by destruct p.1.
Qed.

Lemma trim_length s : utf8_valid (as_bytes s) = true → (slen (trim s) ≤ slen s)%N.
Proof.
  intros (k & l & E)%trim_segment. apply (f_equal (λ x, length (concat (map snd x)))) in E.
  rewrite !map_app, !concat_app, !length_app, !utf8_spans_concat, !length_as_bytes in E.
  unfold slen. lia.
Qed.

Lemma trim_chars p s :
  utf8_valid (as_bytes s) = true → existsb p (chars s) = false → existsb p (chars (trim s)) = false.
Proof.
  intros (k & l & E)%trim_segment. unfold chars. rewrite E, !map_app, !existsb_app.
  rewrite !orb_false_iff. tauto.
Qed.

Lemma split_once_byte c x r : c ∉ x → split_once_b [c] (x ++ c :: r) = Some (x, r).
Proof.
  induction x as [|y x IH]; intros Hn.
  - cbn. by rewrite decide_True.
  - rewrite not_elem_of_cons in Hn. destruct Hn as [Hc Hn]. cbn.
    rewrite decide_False by congruence. by rewrite IH.
Qed.

(** ** Characters back to bytes *)

(** [char::encode_utf8]. *)
Definition utf8_encode (c : N) : bytes :=
  if (c <? 128)%N then [n_byte c]
  else if (c <? 2048)%N then [n_byte (192 + c / 64); n_byte (128 + c mod 64)]
  else if (c <? 65536)%N then
    [n_byte (224 + c / 4096); n_byte (128 + c / 64 mod 64); n_byte (128 + c mod 64)]
  else
    [n_byte (240 + c / 262144); n_byte (128 + c / 4096 mod 64); n_byte (128 + c / 64 mod 64);
     n_byte (128 + c mod 64)].

(** [chars.collect::<String>()]. *)
Definition collect_chars (l : list N) : string := of_bytes (flat_map utf8_encode l).

(** [str::rsplit_once] on a one-byte pattern. *)
Definition rsplit_once (c : N) (s : string) : option (string * string) :=
  match rev (split c s) with
  | [] | [_] => None
  | last :: before => Some (join c (rev before), last)
  end.

(** *** Fixed-size groups: [slice::chunks] *)
Fixpoint chunks_fuel {A} (fuel k : nat) (l : list A) : list (list A) :=
  match fuel, l with
  | _, [] => []
  | O, _ => []
  | S n, _ => take k l :: chunks_fuel n k (drop k l)
  end.
Definition chunks {A} (k : nat) (l : list A) : list (list A) := chunks_fuel (length l) k l.

Lemma join_b_snoc c l x : l ≠ [] → join_b c (l ++ [x]) = join_b c l ++ c :: x.
Proof.
  induction l as [|y [|z l] IH]; intros Hl; [done|done|].
  change (join_b c ((y :: z :: l) ++ [x])) with (y ++ c :: join_b c ((z :: l) ++ [x])).
  rewrite IH by done. change (join_b c (y :: z :: l)) with (y ++ c :: join_b c (z :: l)).
  by rewrite <-app_assoc.
Qed.

Lemma join_snoc c l x :
  l ≠ [] → join c (l ++ [x]) = join c l +:+ of_bytes [n_byte c] +:+ x.
Proof.
  intros Hl. unfold join. rewrite map_app. cbn [map]. rewrite join_b_snoc by (by destruct l).
  rewrite of_bytes_app. f_equal. change (n_byte c :: as_bytes x) with ([n_byte c] ++ as_bytes x).
  by rewrite of_bytes_app, of_as_bytes.
Qed.

Lemma rsplit_once_join c l x :
  l ≠ [] → Forall (λ s, n_byte c ∉ as_bytes s) (l ++ [x]) →
  rsplit_once c (join c (l ++ [x])) = Some (join c l, x).
Proof.
  intros Hl Hf. unfold rsplit_once. rewrite split_join by (done || by destruct l).
  rewrite rev_app_distr. cbn [rev app]. destruct (rev l) as [|y k] eqn:E.
  - apply (f_equal (@rev _)) in E. rewrite rev_involutive in E. by subst l.
  - by rewrite <-E, rev_involutive.
Qed.

Lemma chunks_fuel_enough {A} k fuel fuel' (l : list A) :
  0 < k → length l ≤ fuel → length l ≤ fuel' → chunks_fuel fuel k l = chunks_fuel fuel' k l.
Proof.
  intros Hk. revert fuel' l. induction fuel as [|n IH]; intros [|m] [|x l] H1 H2;
    try done; cbn [length] in *; try lia.
  cbn [chunks_fuel]. f_equal. apply IH; rewrite length_drop; cbn [length]; lia.
Qed.

Lemma chunks_step {A} k (l : list A) :
  0 < k → l ≠ [] → chunks k l = take k l :: chunks k (drop k l).
Proof.
  intros Hk Hl. destruct l as [|x l]; [done|]. unfold chunks at 1. cbn [length chunks_fuel].
  f_equal. apply chunks_fuel_enough; [done| |done]. rewrite length_drop. cbn [length]. lia.
Qed.

Lemma chunks_nil {A} k : chunks k (@nil A) = [].
Proof. done. Qed.

(** Recursion over the groups of a list. *)
Lemma chunks_ind {A} k (P : list A → list (list A) → Prop) :
  0 < k → P [] [] →
  (∀ l, l ≠ [] → P (drop k l) (chunks k (drop k l)) → P l (take k l :: chunks k (drop k l))) →
  ∀ l, P l (chunks k l).
Proof.
  intros Hk H0 HS l. remember (length l) as n eqn:E. revert l E.
  induction n as [n IH] using lt_wf_ind. intros l ->.
  destruct l as [|x l]; [by rewrite chunks_nil|]. rewrite chunks_step by done.
  apply HS; [done|]. eapply IH; [|done]. rewrite length_drop. cbn [length]. lia.
Qed.

Lemma concat_chunks {A} k (l : list A) : 0 < k → concat (chunks k l) = l.
Proof.
  intros Hk. pattern l, (chunks k l). apply chunks_ind; [done|done|].
  intros l' _ IH. cbn [concat]. by rewrite IH, take_drop.
Qed.

(** *** Hexadecimal strings *)
Lemma slen_of_bytes b : slen (of_bytes b) = blen b.
Proof. unfold slen, blen. by rewrite <-length_as_bytes, as_of_bytes. Qed.

Lemma hex_nonempty b : b ≠ [] → is_empty_str (of_bytes (hex_b b)) = false.
Proof. by destruct b. Qed.

Lemma hex_even b : (slen (of_bytes (hex_b b)) mod 2 =? 0)%N = true.
Proof.
  rewrite slen_of_bytes. unfold blen. rewrite length_hex_b, Nat2N.inj_mul.
  by rewrite (N.mul_comm (N.of_nat 2)), N.Div0.mod_mul.
Qed.

Lemma hexdigit_not_cont z : is_ascii_hexdigit z = true → utf8_cont z = false.
Proof.
  unfold is_ascii_hexdigit, is_ascii_digit, utf8_cont, in_range. intros H.
  destruct (128 <=? byte_n z)%N eqn:E; [|done]. exfalso. lia.
Qed.

Lemma hex_byte_radix x :
  from_str_radix_16 (nibble_byte (N.shiftr (byte_n x) 4)) (nibble_byte (N.land (byte_n x) 15))
  = Some x.
Proof. by destruct x as [[] [] [] [] [] [] [] []]. Qed.

(** Slicing the hexadecimal form of some bytes never panics and gives them back. *)
Lemma hex_pairs_hex b : hex_pairs (hex_b b) = Returns (Some b).
Proof.
  induction b as [|x b IH]; [done|]. change (hex_b (x :: b)) with (hex_byte x ++ hex_b b).
  unfold hex_byte. cbn [app hex_pairs]. rewrite IH.
  replace (match hex_b b with z :: _ => utf8_cont z | [] => false end) with false.
  - by rewrite hex_byte_radix.
  - pose proof (hex_b_hexdigit b) as Hd. destruct (hex_b b) as [|z l]; [done|].
    cbn [forallb] in Hd. bool_props. by rewrite hexdigit_not_cont.
Qed.

(** A digit too many makes the last slice run past the end. *)
Lemma hex_pairs_odd b d : is_ascii_hexdigit d = true → hex_pairs (hex_b b ++ [d]) = Panics.
Proof.
  intros Hd. induction b as [|x b IH]; [done|].
  change (hex_b (x :: b)) with (hex_byte x ++ hex_b b). unfold hex_byte. cbn [app hex_pairs].
  rewrite IH, hex_byte_radix. pose proof (hex_b_hexdigit b) as Hh.
  destruct (hex_b b) as [|z l]; cbn [app]; [by rewrite hexdigit_not_cont|].
  cbn [forallb] in Hh. bool_props. by rewrite hexdigit_not_cont.
Qed.
