(* ===== verification/TextScan.v ===== *)
(** * Scanning text

    More of Rust's [str] and slice API, for the code that reads HTTP: searching, lines and
    words, case-insensitive comparison, lossy decoding, and [u16] numbers. *)
From Stdlib Require Import Ascii NArith Lia ZifyBool ZifyN.
From stdpp Require Import base gmap strings list.
From S2P Require Import Prelude Text.

Definition CRLF : bytes := [n_byte 13; n_byte 10].
Definition HEAD_END : bytes := CRLF ++ CRLF.
Definition crlf : string := of_bytes CRLF.

(** [str::split] on a pattern of several bytes; [fuel] bounds the number of fields. *)
Fixpoint split_str_fuel (fuel : nat) (p b : bytes) : list bytes :=
  match fuel with
  | O => [b]
  | S f => match split_once_b p b with
           | None => [b]
           | Some (l, r) => l :: split_str_fuel f p r
           end
  end.
Definition split_str (p s : string) : list string :=
  map of_bytes (split_str_fuel (length (as_bytes s)) (as_bytes p) (as_bytes s)).

(** [str::contains] of a pattern. *)
Definition contains_b (p b : bytes) : bool :=
  match split_once_b p b with Some _ => true | None => false end.
Definition contains (p s : string) : bool := contains_b (as_bytes p) (as_bytes s).

(** [str::split_whitespace]: the maximal runs of characters that are not white space. *)
Fixpoint words_of (l : list (option N * bytes)) (current : bytes) : list bytes :=
  let flush := match current with [] => [] | _ => [current] end in
  match l with
  | [] => flush
  | p :: t =>
    if char_is_whitespace (span_char p) then flush ++ words_of t []
    else words_of t (current ++ p.2)
  end.
Definition split_whitespace (s : string) : list string :=
  map of_bytes (words_of (utf8_spans (as_bytes s)) []).

(** [str::lines]: a line ends with a line feed, which may follow a carriage return. *)
Definition strip_cr (b : bytes) : bytes :=
  match last b with
  | Some c => if decide (c = n_byte 13) then take (length b - 1) b else b
  | None => b
  end.
Fixpoint lines_of (fields : list bytes) : list bytes :=
  match fields with
  | [] => []
  | [x] => match x with [] => [] | _ => [x] end
  | x :: t => strip_cr x :: lines_of t
  end.
Definition lines (s : string) : list string :=
  map of_bytes (lines_of (split_b (n_byte 10) (as_bytes s))).

(** [str::trim_start] and [str::trim_start_matches] of one character. *)
Definition trim_start (s : string) : string :=
  of_bytes (concat (map snd (drop_ws (utf8_spans (as_bytes s))))).
Fixpoint drop_byte (c : byte) (b : bytes) : bytes :=
  match b with [] => [] | x :: t => if decide (x = c) then drop_byte c t else b end.
Definition trim_start_matches (c : N) (s : string) : string :=
  of_bytes (drop_byte (n_byte c) (as_bytes s)).

(** [str::eq_ignore_ascii_case]. *)
Definition eq_ignore_ascii_case (a b : string) : bool :=
  seqb (to_ascii_uppercase a) (to_ascii_uppercase b).

(** [str::replace] of one byte. *)
Definition replace_byte (c : N) (by_ : string) (s : string) : string :=
  of_bytes (flat_map (λ b, if (byte_n b =? c)%N then as_bytes by_ else [b]) (as_bytes s)).

(** [str::parse::<u16>()]. *)
Definition parse_u16 (s : string) : option N :=
  match parse_u64 s with
  | Some n => if (n <=? u16_max)%N then Some n else None
  | None => None
  end.

(** [String::from_utf8_lossy]: an ill-formed sequence, as far as it could have been the start of
    a well-formed one, becomes one replacement character. *)
Definition second_ok (b0 b1 : byte) : bool :=
  let n0 := byte_n b0 in
  if (n0 =? 224)%N then in_range 160 191 (byte_n b1)
  else if (n0 =? 237)%N then in_range 128 159 (byte_n b1)
  else if (n0 =? 240)%N then in_range 144 191 (byte_n b1)
  else if (n0 =? 244)%N then in_range 128 143 (byte_n b1)
  else in_range 225 243 n0 && utf8_cont b1.
Definition invalid_length (b : bytes) : nat :=
  match b with
  | b0 :: b1 :: rest =>
    if second_ok b0 b1 then
      match rest with
      | b2 :: _ => if in_range 240 244 (byte_n b0) && utf8_cont b2 then 3 else 2
      | [] => 2
      end
    else 1
  | _ => 1
  end.
Definition replacement : bytes := [n_byte 239; n_byte 191; n_byte 189].
Fixpoint lossy_fuel (fuel : nat) (b : bytes) : bytes :=
  match fuel, b with
  | O, _ | _, [] => []
  | S f, _ =>
    match utf8_spans b with
    | (Some _, s) :: _ => s ++ lossy_fuel f (drop (length s) b)
    | _ => replacement ++ lossy_fuel f (drop (invalid_length b) b)
    end
  end.
Definition from_utf8_lossy (b : bytes) : string := of_bytes (lossy_fuel (length b) b).

(** Lines, each ended with CRLF. *)
Definition end_lines (l : list string) : string :=
  foldr (λ line rest, line +:+ crlf +:+ rest) EmptyString l.

(** ** Lemmas *)

(** Lines joined with CRLF. *)
Fixpoint join_crlf (l : list bytes) : bytes :=
  match l with
  | [] => []
  | [x] => x
  | x :: t => x ++ CRLF ++ join_crlf t
  end.

(** A line that can stand in a head: not empty, no carriage return. *)
Definition head_line (b : bytes) : Prop := b ≠ [] ∧ n_byte 13 ∉ b.

Lemma split_once_b_skip p x t :
  strip_prefix_b p (x :: t) = None →
  split_once_b p (x :: t) = (λ q, (x :: q.1, q.2)) <$> split_once_b p t.
Proof. intros E. cbn [split_once_b]. rewrite E. by destruct (split_once_b p t) as [[]|]. Qed.

Lemma strip_prefix_b_None p b : (∀ r, b ≠ p ++ r) → strip_prefix_b p b = None.
Proof.
  intros Hn. destruct (strip_prefix_b p b) as [r|] eqn:E; [|done].
  apply strip_prefix_b_Some in E. by destruct (Hn r).
Qed.

Lemma split_once_b_here p r : split_once_b p (p ++ r) = Some ([], r).
Proof.
  pose proof (strip_prefix_b_app p r) as E. destruct (p ++ r); cbn [split_once_b]; by rewrite E.
Qed.

(** A pattern that starts with a byte the text has not is not found in it. *)
Lemma split_once_b_app_skip c p x r :
  c ∉ x → split_once_b (c :: p) (x ++ r) = (λ q, (x ++ q.1, q.2)) <$> split_once_b (c :: p) r.
Proof.
  induction x as [|y x IH]; intros Hc; [cbn [app]; by destruct (split_once_b (c :: p) r) as [[]|]|].
  cbn [app]. rewrite split_once_b_skip.
  - rewrite IH by set_solver. by destruct (split_once_b (c :: p) r) as [[]|].
  - cbn [strip_prefix_b]. rewrite decide_False by set_solver. done.
Qed.

Lemma split_once_b_none c p x : c ∉ x → split_once_b (c :: p) x = None.
Proof.
  intros Hc. rewrite <-(app_nil_r x), split_once_b_app_skip by done. done.
Qed.

(** The head of a message ends at the first empty line. *)
Lemma head_end_split l body :
  l ≠ [] → Forall head_line l →
  split_once_b HEAD_END (join_crlf l ++ HEAD_END ++ body) = Some (join_crlf l, body).
Proof.
  intros Hne Hl. induction Hl as [|x l [Hx Hcr] Hl IH]; [done|].
  unfold HEAD_END at 1, CRLF at 1. cbn [app]. destruct l as [|y l].
  - cbn [join_crlf]. rewrite split_once_b_app_skip by done.
    change (n_byte 13 :: n_byte 10 :: CRLF) with HEAD_END. rewrite split_once_b_here. simpl.
    by rewrite app_nil_r.
  - change (join_crlf (x :: y :: l)) with (x ++ CRLF ++ join_crlf (y :: l)).
    rewrite <-!app_assoc, split_once_b_app_skip by done.
    apply Forall_cons in Hl as [[Hy Hycr] Hl]. destruct y as [|b y]; [done|].
    assert (Hb : b ≠ n_byte 13) by set_solver.
    assert (Et : ∃ t, join_crlf ((b :: y) :: l) ++ HEAD_END ++ body = b :: t) by (destruct l; eexists; done).
    destruct Et as [t Et]. unfold CRLF at 2. cbn [app].
    rewrite split_once_b_skip by (rewrite Et; by apply strip_prefix_b_None; intros r [=]).
    rewrite split_once_b_skip by (by apply strip_prefix_b_None; intros r [=]).
    change (n_byte 13 :: n_byte 10 :: CRLF) with HEAD_END. rewrite IH by done. done.
Qed.

Lemma split_crlf_fuel l fuel :
  l ≠ [] → Forall (λ x, n_byte 13 ∉ x) l → length l ≤ S fuel →
  split_str_fuel fuel CRLF (join_crlf l) = l.
Proof.
  intros Hne Hl. revert fuel. induction Hl as [|x l Hx Hl IH]; intros fuel Hf; [done|].
  destruct l as [|y l].
  - cbn [join_crlf]. destruct fuel; cbn [split_str_fuel]; [done|].
    unfold CRLF. by rewrite split_once_b_none.
  - change (join_crlf (x :: y :: l)) with (x ++ CRLF ++ join_crlf (y :: l)).
    destruct fuel as [|fuel]; [simpl in Hf; lia|]. cbn [split_str_fuel]. unfold CRLF at 1.
    rewrite split_once_b_app_skip by done. change [n_byte 13; n_byte 10] with CRLF.
    rewrite split_once_b_here. simpl. rewrite app_nil_r. f_equal. apply IH; [done|simpl in *; lia].
Qed.

Lemma length_join_crlf l : length l ≤ S (length (join_crlf l)).
Proof.
  induction l as [|x l IH]; [simpl; lia|]. destruct l as [|y l]; [simpl; lia|].
  change (join_crlf (x :: y :: l)) with (x ++ CRLF ++ join_crlf (y :: l)).
  rewrite !length_app. change (length CRLF) with 2. simpl in *. lia.
Qed.

Lemma split_crlf l :
  l ≠ [] → Forall (λ x, n_byte 13 ∉ x) l →
  split_str crlf (of_bytes (join_crlf l)) = map of_bytes l.
Proof.
  intros Hne Hl. unfold split_str, crlf. rewrite !as_of_bytes. f_equal.
  apply split_crlf_fuel; [done..|]. apply length_join_crlf.
Qed.

(** *** Heads of ASCII lines *)

Definition field_byte (b : byte) : bool :=
  is_ascii_byte b && negb (byte_n b =? 13)%N && negb (byte_n b =? 10)%N.
Definition field_ok (s : string) : bool := forallb field_byte (as_bytes s).
(** A line of a head: ASCII, without CR or LF, and not empty. *)
Definition head_ok (s : string) : Prop := s ≠ EmptyString ∧ field_ok s = true.
Definition head_text (l : list string) : string := of_bytes (join_crlf (map as_bytes l)).

Lemma field_ok_app a b : field_ok (a +:+ b) = field_ok a && field_ok b.
Proof. unfold field_ok. by rewrite as_bytes_app, forallb_app. Qed.

Lemma field_ok_cr s : field_ok s = true → n_byte 13 ∉ as_bytes s.
Proof. intros Hs. by eapply forallb_not_elem. Qed.

Lemma field_ok_ascii s : field_ok s = true → forallb is_ascii_byte (as_bytes s) = true.
Proof. apply forallb_weaken. intros x Hx. unfold field_byte in Hx. by bool_props. Qed.

Lemma visible_field s : forallb ascii_visible (as_bytes s) = true → field_ok s = true.
Proof.
  apply forallb_weaken. intros x Hx. unfold ascii_visible, field_byte in *. bool_props.
  rewrite H. unfold char_is_whitespace, in_range in *. lia.
Qed.

Lemma join_crlf_ascii l :
  Forall (λ x, forallb is_ascii_byte x = true) l → forallb is_ascii_byte (join_crlf l) = true.
Proof.
  induction 1 as [|x l Hx Hl IH]; [done|]. destruct l as [|y l]; [done|].
  change (join_crlf (x :: y :: l)) with (x ++ CRLF ++ join_crlf (y :: l)).
  by rewrite !forallb_app, Hx, IH.
Qed.

Lemma lossy_fuel_ascii b : forallb is_ascii_byte b = true → lossy_fuel (length b) b = b.
Proof.
  induction b as [|x b IH]; [done|]. intros Hb. pose proof (utf8_spans_ascii _ Hb) as E.
  cbn [length lossy_fuel]. rewrite E. cbn [map length skipn app]. cbn [forallb] in Hb. bool_props.
  rewrite drop_0. by rewrite IH.
Qed.

Section heads.
Variables (l : list string).
Hypotheses (Hne : l ≠ []) (Hl : Forall head_ok l).

Lemma head_ascii : forallb is_ascii_byte (as_bytes (head_text l)) = true.
Proof using Hl.
  unfold head_text. rewrite as_of_bytes. apply join_crlf_ascii, Forall_map.
  eapply Forall_impl; [exact Hl|]. intros s [_ Hs]. by apply field_ok_ascii.
Qed.

Lemma head_split body :
  split_once_b HEAD_END (as_bytes (head_text l) ++ HEAD_END ++ body) = Some (as_bytes (head_text l), body).
Proof using Hne Hl.
  unfold head_text. rewrite as_of_bytes. apply head_end_split; [by destruct l|].
  apply Forall_map. eapply Forall_impl; [exact Hl|]. intros s [Hs Hf].
  split; [by destruct s|by apply field_ok_cr].
Qed.

Lemma head_utf8 : from_utf8 (as_bytes (head_text l)) = Some (head_text l).
Proof using Hl. unfold from_utf8. by rewrite ascii_utf8_valid, of_as_bytes by apply head_ascii. Qed.

Lemma head_lossy : from_utf8_lossy (as_bytes (head_text l)) = head_text l.
Proof using Hl. unfold from_utf8_lossy. by rewrite lossy_fuel_ascii, of_as_bytes by apply head_ascii. Qed.

Lemma head_lines : split_str crlf (head_text l) = l.
Proof using Hne Hl.
  unfold head_text. rewrite split_crlf.
  - rewrite map_map. rewrite <-(map_id l) at 2. apply map_ext. intros s. apply of_as_bytes.
  - by destruct l.
  - apply Forall_map. eapply Forall_impl; [exact Hl|]. intros s [_ Hf]. by apply field_ok_cr.
Qed.

Lemma head_end_lines : as_bytes (end_lines l +:+ crlf) = as_bytes (head_text l) ++ HEAD_END.
Proof using Hne.
  clear Hl. unfold head_text, crlf. rewrite as_bytes_app, !as_of_bytes. revert Hne.
  induction l as [|x [|y k] IH]; intros ?; [done| |].
  - cbn [end_lines foldr map join_crlf]. unfold crlf.
    by rewrite !as_bytes_app, as_of_bytes, <-!app_assoc.
  - change (end_lines (x :: y :: k)) with (x +:+ crlf +:+ end_lines (y :: k)). unfold crlf.
    rewrite !as_bytes_app, as_of_bytes, <-!app_assoc, IH by done.
    change (join_crlf (map as_bytes (x :: y :: k))) with (as_bytes x ++ CRLF ++ join_crlf (map as_bytes (y :: k))).
    by rewrite <-!app_assoc.
Qed.
End heads.

(** *** Words *)

Lemma words_of_word w current r :
  forallb ascii_visible w = true →
  words_of (map (λ x, (Some (byte_n x), [x])) w ++ r) current = words_of r (current ++ w).
Proof.
  revert current. induction w as [|x w IH]; intros current Hw; [by rewrite app_nil_r|].
  cbn [forallb] in Hw. unfold ascii_visible at 1 in Hw. bool_props. cbn [map app words_of].
  unfold span_char. cbn [fst snd default id].
  match goal with E : char_is_whitespace _ = false |- _ => rewrite E end.
  rewrite IH by done. by rewrite <-app_assoc.
Qed.

Lemma split_whitespace_words l :
  Forall (λ s, s ≠ EmptyString ∧ forallb ascii_visible (as_bytes s) = true) l →
  split_whitespace (join 32 l) = l.
Proof.
  intros Hl. unfold split_whitespace, join. rewrite as_of_bytes.
  assert (E : words_of (utf8_spans (join_b (n_byte 32) (map as_bytes l))) [] = map as_bytes l).
  { rewrite utf8_spans_ascii.
    2:{ apply forallb_join_b; [done|]. apply Forall_map. eapply Forall_impl; [exact Hl|].
        intros s [_ Hs]. by apply visible_ascii. }
    induction Hl as [|s l [Hs Hv] Hl IH]; [done|]. destruct l as [|y l].
    - cbn [map join_b]. rewrite <-(app_nil_r (map _ (as_bytes s))), words_of_word by done.
      by destruct s.
    - change (join_b (n_byte 32) (map as_bytes (s :: y :: l)))
        with (as_bytes s ++ n_byte 32 :: join_b (n_byte 32) (map as_bytes (y :: l))).
      rewrite map_app, words_of_word by done. cbn [map words_of app].
      change (char_is_whitespace _) with true. cbn iota.
      replace (words_of _ []) with (map as_bytes (y :: l)). by destruct s. }
  rewrite E, map_map. rewrite <-(map_id l) at 2. apply map_ext. intros s. apply of_as_bytes.
Qed.

Lemma trim_space s : trim (" " +:+ s) = trim s.
Proof. unfold trim. by rewrite as_bytes_app. Qed.

(** Trimming keeps a segment of the bytes. *)
Lemma trim_bytes s :
  utf8_valid (as_bytes s) = true → ∃ k l, as_bytes s = k ++ as_bytes (trim s) ++ l.
Proof.
  intros (k & l & E)%trim_segment. exists (concat (map snd k)), (concat (map snd l)).
  apply (f_equal (λ x, concat (map snd x))) in E.
  by rewrite !map_app, !concat_app, !utf8_spans_concat in E.
Qed.

Lemma parse_u16_to_string n : (n ≤ u16_max)%N → parse_u16 (u64_to_string n) = Some n.
Proof.
  intros Hn. unfold parse_u16. rewrite parse_u64_to_string by (unfold u16_max, u64_max in *; lia).
  by rewrite (proj2 (N.leb_le _ _)).
Qed.

(** *** The words of any text *)

Definition word_span (p : option N * bytes) : Prop :=
  span_unit p ∧ char_is_whitespace (span_char p) = false.

Lemma span_unit_nonempty p : span_unit p → p.2 ≠ [].
Proof. intros Hp E. specialize (Hp []). rewrite E in Hp. discriminate Hp. Qed.

Lemma utf8_valid_units b : utf8_valid b = true → Forall span_unit (utf8_spans b).
Proof.
  unfold utf8_valid. rewrite forallb_forall. intros Hv. pose proof (utf8_spans_units b) as Hu.
  rewrite Forall_forall in *. intros p Hp. apply Hu; [done|]. apply list_elem_of_In in Hp.
  specialize (Hv p Hp). by destruct p.1.
Qed.

(** A word: characters that are not white space, at least one. *)
Definition solid (s : string) : Prop :=
  s ≠ EmptyString ∧ existsb char_is_whitespace (chars s) = false.

Lemma solid_spans k : k ≠ [] → Forall word_span k → solid (of_bytes (concat (map snd k))).
Proof.
  intros Hk Hf. split.
  - intros E. apply (f_equal as_bytes) in E. rewrite as_of_bytes in E. destruct k as [|p k]; [done|].
    apply Forall_cons in Hf as [[Hp _] _]. apply span_unit_nonempty in Hp. cbn in E. by destruct p.2.
  - unfold chars. rewrite as_of_bytes, utf8_spans_of_units by (eapply Forall_impl; [exact Hf|]; by intros ? []).
    clear Hk. induction Hf as [|p k [_ Hp] _ IH]; [done|]. cbn [map existsb]. by rewrite Hp.
Qed.

Lemma words_of_solid l k w :
  Forall span_unit l → Forall word_span k →
  w ∈ words_of l (concat (map snd k)) → solid (of_bytes w).
Proof.
  intros Hl. revert k. induction Hl as [|p l Hp _ IH]; intros k Hk; cbn [words_of].
  - destruct k as [|q k]; [cbn; by intros ?%elem_of_nil|]. case_match; [by intros ?%elem_of_nil|].
    intros E%list_elem_of_singleton. subst w. simplify_eq.
    match goal with E : _ = _ :: _ |- _ => rewrite <-E end. by apply solid_spans.
  - destruct (char_is_whitespace (span_char p)) eqn:E.
    + intros [Hw|Hw]%elem_of_app; [|by apply (IH [])].
      destruct k as [|q k]; [cbn in Hw; by apply elem_of_nil in Hw|].
      destruct (concat (map snd (q :: k))) eqn:Ec; [by apply elem_of_nil in Hw|].
      apply list_elem_of_singleton in Hw as ->. rewrite <-Ec. by apply solid_spans.
    + specialize (IH (k ++ [p])). rewrite map_app, concat_app in IH. cbn in IH. rewrite app_nil_r in IH.
      apply IH, Forall_app. split; [done|]. by apply Forall_singleton.
Qed.

Lemma split_whitespace_solid s :
  utf8_valid (as_bytes s) = true → Forall solid (split_whitespace s).
Proof.
  intros Hv. apply Forall_forall. intros w (b & -> & Hb)%list_elem_of_fmap.
  eapply (words_of_solid _ []); [by apply utf8_valid_units|constructor|exact Hb].
Qed.

(** *** Cutting text at an ASCII character *)

(** The bytes of a character: one ASCII byte, or none that is ASCII. *)
Definition char_bytes (b : bytes) : Prop :=
  (∃ c, b = [c]) ∨ Forall (λ x, is_ascii_byte x = false) b.

Lemma utf8_wide b0 b1 b2 b3 :
  (utf8_2 b0 b1 ≠ None → Forall (λ x, is_ascii_byte x = false) [b0; b1]) ∧
  (utf8_3 b0 b1 b2 ≠ None → Forall (λ x, is_ascii_byte x = false) [b0; b1; b2]) ∧
  (utf8_4 b0 b1 b2 b3 ≠ None → Forall (λ x, is_ascii_byte x = false) [b0; b1; b2; b3]).
Proof.
  unfold utf8_2, utf8_3, utf8_4, utf8_cont, in_range, is_ascii_byte.
  repeat split; intros E; repeat constructor; repeat case_match; try done; lia.
Qed.

Lemma utf8_spans_char_bytes b : Forall (λ p, is_Some p.1 → char_bytes p.2) (utf8_spans b).
Proof.
  remember (length b) as n eqn:Hn. assert (length b ≤ n) as Hl by lia. clear Hn.
  revert b Hl. induction n as [|n IH]; intros b Hl; [destruct b; [constructor|simpl in Hl; lia]|].
  destruct b as [|b0 t0]; [constructor|].
  assert (Hbad : Forall (λ p, is_Some p.1 → char_bytes p.2) ((None, [b0]) :: utf8_spans t0)).
  { constructor; [by intros [? ?]|apply IH; simpl in Hl; lia]. }
  pose proof (utf8_wide b0) as W. cbn [utf8_spans].
  destruct (utf8_1 b0); [constructor; [intros _; left; by eexists|apply IH; simpl in Hl; lia]|].
  destruct t0 as [|b1 t1]; [done|]. destruct (utf8_2 b0 b1) eqn:E2.
  { constructor; [intros _; right; by apply (W b1 b1 b1); rewrite E2|apply IH; simpl in Hl; lia]. }
  destruct t1 as [|b2 t2]; [done|]. destruct (utf8_3 b0 b1 b2) eqn:E3.
  { constructor; [intros _; right; by apply (W b1 b2 b2); rewrite E3|apply IH; simpl in Hl; lia]. }
  destruct t2 as [|b3 t3]; [done|]. destruct (utf8_4 b0 b1 b2 b3) eqn:E4; [|done].
  constructor; [intros _; right; by apply (W b1 b2 b3); rewrite E4|apply IH; simpl in Hl; lia].
Qed.

Definition good_span (p : option N * bytes) : Prop := span_unit p ∧ is_Some p.1 ∧ char_bytes p.2.

Lemma utf8_valid_good b :
  utf8_valid b = true ↔ ∃ k, Forall good_span k ∧ b = concat (map snd k).
Proof.
  split.
  - intros Hv. exists (utf8_spans b). split; [|by rewrite utf8_spans_concat].
    pose proof (utf8_valid_units b Hv) as Hu. pose proof (utf8_spans_char_bytes b) as Hc.
    unfold utf8_valid in Hv. rewrite forallb_forall in Hv. rewrite Forall_forall in *.
    intros p Hp. assert (is_Some p.1) as Hs.
    { apply list_elem_of_In in Hp. specialize (Hv p Hp). destruct p.1; [by eexists|done]. }
    repeat split; auto.
  - intros (k & Hk & ->). unfold utf8_valid.
    rewrite utf8_spans_of_units by (eapply Forall_impl; [exact Hk|]; by intros p []).
    apply forallb_forall. intros p Hp%list_elem_of_In. rewrite Forall_forall in Hk.
    destruct (Hk p Hp) as (_ & [? ->] & _). done.
Qed.

Lemma utf8_valid_cut a c r :
  is_ascii_byte c = true → utf8_valid (a ++ c :: r) = true →
  utf8_valid a = true ∧ utf8_valid r = true.
Proof.
  intros Hc (k & Hk & E)%utf8_valid_good. revert a E.
  induction Hk as [|p k Hp Hk IH]; intros a E; [by destruct a|]. cbn [map concat] in E.
  apply app_eq_inv in E as [(x & -> & E)|(x & Ep & E)].
  - destruct (IH x) as [Ha Hr]; [done|]. split; [|done].
    apply utf8_valid_good in Ha as (k' & Hk' & ->). apply utf8_valid_good. exists (p :: k').
    split; [by constructor|done].
  - destruct Hp as (Hu & Hs & Hb). destruct x as [|d x].
    + rewrite app_nil_r in Ep. cbn in E. destruct (IH [] E) as [_ Hr]. split; [|done].
      apply utf8_valid_good. exists [p]. split; [by apply Forall_singleton|]. cbn. by rewrite app_nil_r.
    + injection E as <- E. assert (a = [] ∧ x = []) as [-> ->].
      { destruct Hb as [[e Ee]|Hf].
        - rewrite Ep in Ee. destruct a as [|? [|]]; by simplify_eq/=.
        - rewrite Ep, Forall_app, Forall_cons in Hf. destruct Hf as (_ & Hf & _). congruence. }
      split; [done|]. apply utf8_valid_good. by exists k.
Qed.

Lemma split_once_b_eq p b l r : split_once_b p b = Some (l, r) → b = l ++ p ++ r.
Proof.
  revert l r. induction b as [|x b IH]; intros l r; cbn [split_once_b].
  - destruct (strip_prefix_b p []) as [r'|] eqn:E; [|done]. intros [= <- <-].
    by apply strip_prefix_b_Some in E.
  - destruct (strip_prefix_b p (x :: b)) as [r'|] eqn:E.
    + intros [= <- <-]. by apply strip_prefix_b_Some in E.
    + destruct (split_once_b p b) as [[l' r']|]; [|done]. intros [= <- <-]. cbn. by erewrite IH.
Qed.

Lemma utf8_valid_pieces c p l r :
  forallb is_ascii_byte (c :: p) = true → utf8_valid (l ++ (c :: p) ++ r) = true →
  utf8_valid l = true ∧ utf8_valid r = true.
Proof.
  revert c l r. induction p as [|d p IH]; intros c l r Hc Hv; cbn [forallb] in Hc; bool_props.
  - by apply (utf8_valid_cut l c r).
  - destruct (utf8_valid_cut l c ((d :: p) ++ r)) as [Hl Hr]; [done..|]. split; [done|].
    apply (IH d [] r); [by cbn [forallb]; apply andb_true_iff|done].
Qed.

Lemma split_str_fuel_valid fuel c p b :
  forallb is_ascii_byte (c :: p) = true → utf8_valid b = true →
  Forall (λ x, utf8_valid x = true) (split_str_fuel fuel (c :: p) b).
Proof.
  intros Hp. revert b. induction fuel as [|f IH]; intros b Hb; cbn [split_str_fuel]; [by constructor|].
  destruct (split_once_b (c :: p) b) as [[l r]|] eqn:E; [|by constructor].
  apply split_once_b_eq in E as ->. apply utf8_valid_pieces in Hb as [Hl Hr]; [|done].
  constructor; auto.
Qed.

Lemma split_crlf_valid s :
  utf8_valid (as_bytes s) = true →
  Forall (λ x, utf8_valid (as_bytes x) = true) (split_str crlf s).
Proof.
  intros Hs. unfold split_str. apply Forall_map.
  eapply Forall_impl; [by apply (split_str_fuel_valid _ (n_byte 13) [n_byte 10])|].
  intros x Hx. by rewrite as_of_bytes.
Qed.

Lemma split_once_valid c p s l r :
  as_bytes p = [c] → is_ascii_byte c = true → utf8_valid (as_bytes s) = true →
  split_once p s = Some (l, r) → utf8_valid (as_bytes l) = true ∧ utf8_valid (as_bytes r) = true.
Proof.
  intros Ep Hc Hs. unfold split_once. rewrite Ep.
  destruct (split_once_b [c] (as_bytes s)) as [[l' r']|] eqn:E; [|done]. intros [= <- <-].
  rewrite !as_of_bytes. apply split_once_b_eq in E. rewrite E in Hs.
  apply (utf8_valid_pieces c []); [|done]. cbn. by rewrite Hc.
Qed.
