(* ===== verification/Collections.v ===== *)
(** * Ordered maps

    [std::collections::BTreeMap] iterates in key order. The maps are stdpp's
    [gmap], so that lookups and updates have their lemmas and equality is
    extensional; [btree_iter] is the iteration order, the key-sorted list of the
    map's entries. *)
From Stdlib Require Import Ascii NArith Lia.
From stdpp Require Import base gmap sorting strings list.
From S2P Require Import Prelude.

(** The total order of a key type. *)
Class KeyOrder (K : Type) := {
  key_le : relation K;
  #[global] key_le_dec :: RelDecision key_le;
  #[global] key_le_po :: PartialOrder key_le;
  #[global] key_le_total :: Total key_le;
}.

(** Rust compares strings byte by byte. *)
#[export] Instance string_key_order : KeyOrder string := {| key_le := String.le |}.

Section btree.
Context {K : Type} `{Countable K, !KeyOrder K} {V : Type}.
Implicit Types (m : gmap K V).

Definition entry_le (p q : K * V) : Prop := key_le p.1 q.1.
#[global] Instance entry_le_dec : RelDecision entry_le.
Proof using Type. intros p q. unfold entry_le. apply _. Defined.
#[global] Instance entry_le_total : Total entry_le.
Proof using Type. intros p q. apply key_le_total. Qed.
#[global] Instance entry_le_trans : Transitive entry_le.
Proof using Type. intros p q r H1 H2. unfold entry_le in *. by etrans. Qed.

(** [map.iter()]. *)
Definition btree_iter (m : gmap K V) : list (K * V) := merge_sort entry_le (map_to_list m).
(** [map.values()] and [map.keys()]. *)
Definition btree_values (m : gmap K V) : list V := (btree_iter m).*2.
Definition btree_keys (m : gmap K V) : list K := (btree_iter m).*1.

Lemma btree_iter_perm m : btree_iter m ≡ₚ map_to_list m.
Proof using Type. apply merge_sort_Permutation. Qed.

Lemma btree_iter_sorted m : StronglySorted entry_le (btree_iter m).
Proof using Type. apply StronglySorted_merge_sort; apply _. Qed.

Lemma elem_of_btree_iter m k v : (k, v) ∈ btree_iter m ↔ m !! k = Some v.
Proof using Type. rewrite btree_iter_perm. apply elem_of_map_to_list. Qed.

Lemma elem_of_btree_values m v : v ∈ btree_values m ↔ ∃ k, m !! k = Some v.
Proof using Type.
  unfold btree_values. rewrite list_elem_of_fmap. split.
  - intros ([k v'] & -> & Hin). exists k. by apply elem_of_btree_iter.
  - intros (k & Hk). exists (k, v). split; [done|]. by apply elem_of_btree_iter.
Qed.

Lemma NoDup_btree_keys m : NoDup (btree_keys m).
Proof using Type.
  unfold btree_keys. rewrite (fmap_Permutation fst _ _ (btree_iter_perm m)).
  apply NoDup_fst_map_to_list.
Qed.

(** Rebuilding a map from its iteration. *)
Lemma btree_iter_to_map m : list_to_map (btree_iter m) = m.
Proof using Type.
  rewrite (list_to_map_proper (btree_iter m) (map_to_list m)).
  - apply list_to_map_to_list.
  - apply NoDup_btree_keys.
  - apply btree_iter_perm.
Qed.

Lemma length_btree_iter m : length (btree_iter m) = size m.
Proof using Type. rewrite btree_iter_perm. by rewrite length_map_to_list. Qed.

(** [map.values().all(p)] and [any]. *)
Lemma forallb_btree_iter (p : K * V → bool) m :
  forallb p (btree_iter m) = true ↔ ∀ k v, m !! k = Some v → p (k, v) = true.
Proof using Type.
  rewrite forallb_forall. split.
  - intros Hp k v Hk. apply Hp, list_elem_of_In. by apply elem_of_btree_iter.
  - intros Hp [k v] Hin%list_elem_of_In. apply Hp. by apply elem_of_btree_iter.
Qed.

Lemma existsb_btree_iter (p : K * V → bool) m :
  existsb p (btree_iter m) = true ↔ ∃ k v, m !! k = Some v ∧ p (k, v) = true.
Proof using Type.
  rewrite existsb_exists. split.
  - intros ([k v] & Hin%list_elem_of_In & Hp). exists k, v. split; [|done].
    by apply elem_of_btree_iter.
  - intros (k & v & Hk & Hp). exists (k, v). split; [|done].
    apply list_elem_of_In. by apply elem_of_btree_iter.
Qed.
End btree.

Lemma fmap_sublist {A B} (f : A → B) l k : l `sublist_of` k → f <$> l `sublist_of` f <$> k.
Proof. induction 1; simpl; by constructor. Qed.

Lemma NoDup_map_inj {A B} (f : A → B) l a b :
  NoDup (map f l) → a ∈ l → b ∈ l → f a = f b → a = b.
Proof.
  induction l as [|x l IH]; [set_solver|]. cbn [map]. intros [Hn Hd]%NoDup_cons Ha Hb E.
  apply elem_of_cons in Ha as [->|Ha], Hb as [->|Hb]; auto; exfalso; apply Hn, list_elem_of_fmap;
    eauto.
Qed.

(** [iter().find(p)]: the first entry that satisfies [p]. *)
Fixpoint find_first {A} (p : A → bool) (l : list A) : option A :=
  match l with
  | [] => None
  | x :: t => if p x then Some x else find_first p t
  end.

Lemma find_first_Some {A} (p : A → bool) l x :
  find_first p l = Some x → x ∈ l ∧ p x = true.
Proof.
  induction l as [|y l IH]; simpl; [done|]. case_match; intros; simplify_eq.
  - split; [left|done].
  - destruct IH as [??]; [done|]. split; [by right|done].
Qed.

Lemma find_first_None {A} (p : A → bool) l :
  find_first p l = None ↔ ∀ x, x ∈ l → p x = false.
Proof.
  induction l as [|y l IH]; simpl.
  - split; [|done]. intros _ x Hx. by apply elem_of_nil in Hx.
  - case_match.
    + split; [done|]. intros Hp. rewrite (Hp y) in *; [done|left].
    + rewrite IH. split; [|intros Hp x Hx; apply Hp; by right].
      intros Hp x [->|Hx]%elem_of_cons; auto.
Qed.

(** Inserting the entries of a list with distinct keys one after the other. *)
Lemma foldl_insert_list_to_map `{Countable K} {V} (l : list (K * V)) (m : gmap K V) :
  NoDup l.*1 → foldl (λ m p, <[p.1 := p.2]> m) m l = list_to_map l ∪ m.
Proof.
  revert m. induction l as [|[k v] l IH]; intros m Hnd; cbn [foldl fst snd].
  { by rewrite list_to_map_nil, (left_id_L ∅ (∪)). }
  apply NoDup_cons in Hnd as [Hnin Hnd]. rewrite IH by done.
  rewrite list_to_map_cons, <-insert_union_l, insert_union_r; [done|].
  by apply not_elem_of_list_to_map_1.
Qed.
