(* ===== verification/Interfaces.v ===== *)
(** * What the program takes from third-party crates

    SHA-256, Ed25519, AES-256-GCM, Argon2id, [serde_json] and URI parsing are not part of the
    repository: they are parameters of the model, as classes of operations, and what
    the program relies on is a second class of laws that the theorems name. Each
    interface has an executable reference instance, so that theorems that assume the
    laws have concrete witnesses. The reference instances are not cryptography. *)
From Stdlib Require Import Ascii NArith Lia.
From stdpp Require Import base gmap countable strings list.
From S2P Require Import Prelude Text.

(** ** Cryptography *)

Class Crypto := {
  (** [sha2::Sha256::digest] *)
  sha256 : bytes → bytes;
  (** [ed25519_dalek]: public key of a seed, [VerifyingKey::from_bytes(..).is_ok()],
      [sign], [verify] and [verify_strict] *)
  ed_public : bytes → bytes;
  ed_valid_public : bytes → bool;
  ed_sign : bytes → bytes → bytes;
  ed_verify : bytes → bytes → bytes → bool;
  ed_verify_strict : bytes → bytes → bytes → bool;
  (** [aes_gcm::Aes256Gcm]: key, nonce, associated data, message *)
  aes_encrypt : bytes → bytes → bytes → bytes → option bytes;
  aes_decrypt : bytes → bytes → bytes → bytes → option bytes;
  (** [argon2]: passphrase and salt to a 32-byte key *)
  argon2id : bytes → bytes → option bytes;
}.

(** Documented behaviour: digest and key sizes, a signature verifies under the
    public key of its seed, decryption inverts encryption, and a
    ciphertext is its plaintext with a 16-byte tag. *)
Class CryptoLaws `{Crypto} : Prop := {
  sha256_length : ∀ m, length (sha256 m) = 32;
  ed_public_length : ∀ seed, length (ed_public seed) = 32;
  ed_public_valid : ∀ seed, ed_valid_public (ed_public seed) = true;
  ed_sign_length : ∀ seed m, length (ed_sign seed m) = 64;
  ed_verify_sign : ∀ seed m, ed_verify (ed_public seed) m (ed_sign seed m) = true;
  ed_verify_strict_sign : ∀ seed m, ed_verify_strict (ed_public seed) m (ed_sign seed m) = true;
  aes_decrypt_encrypt : ∀ k n a m c,
    aes_encrypt k n a m = Some c → aes_decrypt k n a c = Some m;
  aes_tag_length : ∀ k n a m c, aes_encrypt k n a m = Some c → length c = length m + 16;
  aes_untag_length : ∀ k n a m c, aes_decrypt k n a c = Some m → length c = length m + 16;
}.

(** ** JSON

    [serde_json::to_vec] and [serde_json::from_slice] at one type. *)
Class JsonCodec (A : Type) := {
  json_to_vec : A → option bytes;
  json_from_slice : bytes → option A;
}.

(** A derived [Serialize]/[Deserialize] pair round-trips. *)
Class JsonRoundTrip (A : Type) `{JsonCodec A} : Prop :=
  json_roundtrip : ∀ a b, json_to_vec a = Some b → json_from_slice b = Some a.

(** ** Unicode case mapping

    [char::to_uppercase]: the table of the Unicode character database that ships with the
    compiler. On ASCII characters it is the ASCII mapping. *)
Class UnicodeCase := char_to_uppercase : N → list N.

Class UnicodeCaseLaws `{UnicodeCase} : Prop :=
  char_to_uppercase_ascii : ∀ c, (c < 128)%N →
    char_to_uppercase c = [if in_range 97 122 c then c - 32 else c]%N.

(** ** URIs

    [axum::http::Uri]: [str::parse] and the components the program reads. *)
Record Uri := {
  uri_scheme : option string;
  uri_authority : option string;
  uri_path : string;
  uri_query : option string;
}.
Class UriParser := uri_parse : string → option Uri.

(** ** Reference instances *)

Module Reference.
(** A 32-byte checksum, a seed that is its own public key, a signature that is the
    checksum of key and message twice over, and a cipher that appends a tag. *)
Definition pad_to (k : nat) (b : bytes) : bytes := take k (b ++ replicate k Ascii.zero).
Definition mix (acc : N) (b : byte) : N := N.land (N.shiftl acc 5 + acc + byte_n b + 1) 4294967295.
Definition digest (m : bytes) : bytes := pad_to 32 (be_bytes 4 (fold_left mix m 7%N)).
Definition signature (pub m : bytes) : bytes := digest (pub ++ m) ++ digest (m ++ pub).
Definition tag (k n a m : bytes) : bytes := take 16 (digest (k ++ n ++ a ++ m)).

#[export] Instance crypto : Crypto := {|
  sha256 := digest;
  ed_public := pad_to 32;
  ed_valid_public := λ p, (length p =? 32)%nat;
  ed_sign := λ seed m, signature (pad_to 32 seed) m;
  ed_verify := λ p m s, beqb s (signature p m);
  ed_verify_strict := λ p m s, beqb s (signature p m);
  aes_encrypt := λ k n a m, Some (m ++ tag k n a m);
  aes_decrypt := λ k n a c,
    let m := take (length c - 16) c in
    if beqb c (m ++ tag k n a m) then Some m else None;
  argon2id := λ p s, Some (digest (p ++ s));
|}.

Lemma length_pad_to k b : length (pad_to k b) = k.
Proof. unfold pad_to. rewrite length_take, length_app, length_replicate. lia. Qed.

Lemma length_digest m : length (digest m) = 32.
Proof. apply length_pad_to. Qed.

Lemma length_tag k n a m : length (tag k n a m) = 16.
Proof. unfold tag. rewrite length_take, length_digest. lia. Qed.

#[export] Instance crypto_laws : CryptoLaws.
Proof.
  split; intros; cbn -[digest pad_to tag take signature] in *.
  - apply length_digest.
  - apply length_pad_to.
  - by rewrite length_pad_to.
  - unfold signature. by rewrite length_app, !length_digest.
  - apply beqb_refl.
  - apply beqb_refl.
  - simplify_eq. rewrite length_app, length_tag, Nat.add_sub, take_app_length. by rewrite beqb_refl.
  - simplify_eq. by rewrite length_app, length_tag.
  - case_match eqn:E; simplify_eq. apply beqb_true in E. rewrite E at 1.
    by rewrite length_app, length_tag.
Qed.

(** A codec for every countable type: the binary digits of its code. *)
Fixpoint pos_bits (p : positive) : bytes :=
  match p with
  | xH => []
  | xO q => n_byte 48 :: pos_bits q
  | xI q => n_byte 49 :: pos_bits q
  end.
Fixpoint bits_pos (b : bytes) : option positive :=
  match b with
  | [] => Some xH
  | x :: t =>
    match bits_pos t with
    | Some q => if (byte_n x =? 48)%N then Some (xO q)
                else if (byte_n x =? 49)%N then Some (xI q) else None
    | None => None
    end
  end.

Lemma bits_pos_bits p : bits_pos (pos_bits p) = Some p.
Proof. induction p as [p IH|p IH|]; [| |done]; cbn [pos_bits bits_pos]; by rewrite IH. Qed.

Definition json `{Countable A} : JsonCodec A := {|
  json_to_vec := λ a, Some (pos_bits (encode a));
  json_from_slice := λ b, bits_pos b ≫= decode;
|}.

Lemma json_laws `{Countable A} : @JsonRoundTrip A json.
Proof. intros a b E. simplify_eq/=. rewrite bits_pos_bits. simpl. apply decode_encode. Qed.

(** The ASCII part of the case table. *)
#[export] Instance unicode_case : UnicodeCase :=
  λ c, [if in_range 97 122 c then c - 32 else c]%N.
#[export] Instance unicode_case_laws : UnicodeCaseLaws.
Proof. by intros c _. Qed.

(** Absolute URIs, split at their delimiters. *)
#[export] Instance uri_parser : UriParser := λ s,
  match split_once "://" s with
  | None => None
  | Some (scheme, rest) =>
    let '(authority, tail) :=
      match split_once "/" rest with
      | Some (a, t) => (a, "/" +:+ t)
      | None => (rest, "/")
      end in
    let '(path, query) :=
      match split_once "?" tail with
      | Some (p, q) => (p, Some q)
      | None => (tail, None)
      end in
    Some {| uri_scheme := Some scheme; uri_authority := Some authority; uri_path := path;
            uri_query := query |}
  end.

(** A codec for the values of a table: the position in unary. *)
Fixpoint table_index `{EqDecision A} (l : list A) (a : A) : option nat :=
  match l with
  | [] => None
  | x :: t => if decide (x = a) then Some 0 else S <$> table_index t a
  end.
Definition json_table `{EqDecision A} (l : list A) : JsonCodec A := {|
  json_to_vec := λ a, (λ n, replicate n (n_byte 49)) <$> table_index l a;
  json_from_slice := λ b, l !! length b;
|}.

Lemma table_index_lookup `{EqDecision A} (l : list A) a n :
  table_index l a = Some n → l !! n = Some a.
Proof.
  revert n. induction l as [|x l IH]; intros n; simpl; [done|].
  case_decide as Hd; [intros [= <-]; simpl; by subst|].
  destruct (table_index l a) as [m|]; intros; simplify_eq/=. by apply IH.
Qed.

Lemma json_table_laws `{EqDecision A} (l : list A) : @JsonRoundTrip A (json_table l).
Proof.
  intros a b. simpl. destruct (table_index l a) as [n|] eqn:E; simpl; [|done].
  intros [= <-]. rewrite length_replicate. by apply table_index_lookup.
Qed.
End Reference.
