(* ===== verification/Hoare.v ===== *)
(** * A logic for stateful operations

    Triples over [Mut]: from a state with [P], an operation that answers [Ok] ends with [Q] of
    its answer, and one that fails ends with [R] of its error. The rules follow the
    combinators the models are written with. *)
From Stdlib Require Import Ascii NArith.
From stdpp Require Import base gmap strings list.
From S2P Require Import Prelude.

Definition triple {S A E} (P : S → Prop) (m : Mut S A E) (Q : A → S → Prop) (R : E → S → Prop) : Prop :=
  ∀ s, P s → match m s with (s', Ok a) => Q a s' | (s', Err e) => R e s' end.

Create HintDb hoare.

Section rules.
Context {S : Type}.
Implicit Types P : S → Prop.

Lemma triple_Ok {A E} P (m : Mut S A E) Q R s s' a :
  triple P m Q R → P s → m s = (s', Ok a) → Q a s'.
Proof. intros Hm Hs E'. specialize (Hm s Hs). by rewrite E' in Hm. Qed.
Lemma triple_Err {A E} P (m : Mut S A E) Q R s s' e :
  triple P m Q R → P s → m s = (s', Err e) → R e s'.
Proof. intros Hm Hs E'. specialize (Hm s Hs). by rewrite E' in Hm. Qed.

Lemma triple_conseq {A E} P P' (m : Mut S A E) Q Q' R R' :
  triple P' m Q' R' → (∀ s, P s → P' s) → (∀ a s, Q' a s → Q a s) → (∀ e s, R' e s → R e s) →
  triple P m Q R.
Proof. intros Hm HP HQ HR s Hs. specialize (Hm s (HP s Hs)). destruct (m s) as [s' []]; auto. Qed.

Lemma triple_bind {A B E} P (m : Mut S A E) (k : A → Mut S B E) Q R Q' :
  triple P m Q' R → (∀ a, triple (Q' a) (k a) Q R) → triple P (mut_bind m k) Q R.
Proof.
  intros Hm Hk s Hs. specialize (Hm s Hs). unfold mut_bind. destruct (m s) as [s' [a|e]]; [|done].
  by apply Hk.
Qed.

Lemma triple_ret {A E} P (a : A) Q (R : E → S → Prop) : (∀ s, P s → Q a s) → triple P (mut_ret a) Q R.
Proof. intros HQ s Hs. by apply HQ. Qed.

Lemma triple_lift {A E} P (r : result A E) Q R :
  (∀ a s, P s → r = Ok a → Q a s) → (∀ e s, P s → r = Err e → R e s) → triple P (mut_lift r) Q R.
Proof. intros HQ HR s Hs. cbn. destruct r; auto. Qed.

(** An operation that only reads. *)
Lemma triple_read {A E} P (f : S → result A E) Q R :
  (∀ a s, P s → f s = Ok a → Q a s) → (∀ e s, P s → f s = Err e → R e s) →
  triple P (λ s, (s, f s)) Q R.
Proof. intros HQ HR s Hs. destruct (f s) eqn:E'; auto. Qed.

(** Both outcomes keep [P]. *)
Definition stable {A E} P (m : Mut S A E) : Prop := triple P m (λ _, P) (λ _, P).

Lemma stable_bind {A B E} P (m : Mut S A E) (k : A → Mut S B E) :
  stable P m → (∀ a, stable P (k a)) → stable P (mut_bind m k).
Proof. intros Hm Hk. eapply triple_bind; [apply Hm|apply Hk]. Qed.
Lemma stable_ret {A E} P (a : A) : stable P (mut_ret a : Mut S A E).
Proof. by intros s. Qed.
Lemma stable_lift {A E} P (r : result A E) : stable P (mut_lift r : Mut S A E).
Proof. intros s. cbn. by destruct r. Qed.
Lemma stable_read {A E} P (f : S → result A E) : stable P (λ s, (s, f s)).
Proof. intros s. by destruct (f s). Qed.
Lemma stable_if {A E} P (b : bool) (m n : Mut S A E) :
  stable P m → stable P n → stable P (if b then m else n).
Proof. by destruct b. Qed.
Lemma stable_fst {A E} P (m : Mut S A E) s : stable P m → P s → P (m s).1.
Proof. intros Hm Hs. specialize (Hm s Hs). by destruct (m s) as [s' []]. Qed.
Lemma stable_and {A E} P P' (m : Mut S A E) :
  stable P m → stable P' m → stable (λ s, P s ∧ P' s) m.
Proof. intros H1 H2 s [A1 A2]. specialize (H1 s A1). specialize (H2 s A2). by destruct (m s) as [s' []]. Qed.
End rules.
#[export] Hint Resolve stable_bind stable_ret stable_lift stable_read stable_if : hoare.
