(* ===== verification/JsonValue.v ===== *)
(** * JSON values ([serde_json::Value])

    The data type of a parsed JSON document and the accessors the sources use. An object keeps
    one entry per key. *)
From Stdlib Require Import NArith ZArith.
From stdpp Require Import base strings list.
From S2P Require Import Prelude Collections.

Set Warnings "-register-all".


Inductive Number := PosInt (n : N) | NegInt (z : Z) | Float (bits : N).
Inductive Value :=
| Null
| Bool (b : bool)
| Num (n : Number)
| Str (s : string)
| Array (l : list Value)
| Object (l : list (string * Value)).

Definition value_get (key : string) (v : Value) : option Value :=
  match v with
  | Object l => snd <$> find_first (λ p, seqb p.1 key) l
  | _ => None
  end.
Definition as_str (v : Value) : option string := match v with Str s => Some s | _ => None end.
Definition as_bool (v : Value) : option bool := match v with Bool b => Some b | _ => None end.
Definition as_array (v : Value) : option (list Value) :=
  match v with Array l => Some l | _ => None end.
Definition is_object (v : Value) : bool := match v with Object _ => true | _ => false end.
(** [Value::as_u64]. *)
Definition as_u64 (v : Value) : option N := match v with Num (PosInt n) => Some n | _ => None end.
