(* ===== verification/ProtocolGate.v ===== *)
(** * Admission to the daemon protocol ([apps/daemon/src/protocol_gate.rs])

    The protocol constants, the TTL contract, the identifier rule that every typed
    identifier of the daemon is checked against, and the admission of a peer. *)
From Stdlib Require Import Ascii NArith Lia ZifyBool ZifyN.
From stdpp Require Import base strings list.
From S2P Require Import Prelude.
Local Open Scope N_scope.

Definition DAEMON_PROTOCOL : string := "openmls-1".
Definition DAEMON_PROTOCOL_VERSION : N := 1.
Definition SUPPORTED_PROTOCOLS : list string := [DAEMON_PROTOCOL].
Definition MAX_TEXT_BYTES : N := 64 * 1024.
Definition MAX_ENVELOPE_BYTES : N := 96 * 1024.
Definition MAX_ATTACHMENT_BYTES : N := 32 * 1024 * 1024.
Definition MAX_CLOCK_SKEW_SECONDS : N := 300.
Definition MAX_PROTOCOL_IDENTIFIER_BYTES : N := 128.

Record TtlContract := { issued_at : N; ttl_seconds : N }.

Definition ttl_expires_at (c : TtlContract) : N :=
  u64_saturating_add (issued_at c) (ttl_seconds c).

Definition ttl_is_expired (c : TtlContract) (wall_now monotonic_elapsed : N) : bool :=
  (ttl_seconds c <=? monotonic_elapsed) || (ttl_expires_at c <=? wall_now).

Inductive AdmissionError :=
| EmptyPeerIdentity
| UnsupportedProtocol
| UnsupportedVersion
| ClockSkew
| InvalidIdentifier.

Definition validate_protocol_identifier (value : string) : result unit AdmissionError :=
  if is_empty_str value
     || (MAX_PROTOCOL_IDENTIFIER_BYTES <? slen value)
     || negb (is_ascii value)
     || existsb is_ascii_control (as_bytes value)
  then Err InvalidIdentifier
  else Ok tt.

Definition supports (protocol : string) : bool :=
  existsb (seqb protocol) SUPPORTED_PROTOCOLS.

Definition negotiate (peer_version : N) : result N AdmissionError :=
  if peer_version =? DAEMON_PROTOCOL_VERSION
  then Ok DAEMON_PROTOCOL_VERSION
  else Err UnsupportedVersion.

Definition validate_clock (now remote : N) : result unit AdmissionError :=
  if abs_diff now remote <=? MAX_CLOCK_SKEW_SECONDS then Ok tt else Err ClockSkew.

Record SessionAdmission := {
  peer_account_id : string;
  peer_device_id : string;
  protocol : string;
}.

Definition admit_peer (peer_account peer_device protocol_name : string)
  : result SessionAdmission AdmissionError :=
  if is_empty_str peer_account || is_empty_str peer_device then Err EmptyPeerIdentity
  else
    let? _ := validate_protocol_identifier peer_account in
    let? _ := validate_protocol_identifier peer_device in
    if negb (supports protocol_name) then Err UnsupportedProtocol
    else Ok {| peer_account_id := peer_account;
               peer_device_id := peer_device;
               protocol := DAEMON_PROTOCOL |}.

(** What an accepted identifier is made of. *)
Definition identifier_ok (value : string) : Prop :=
  value ≠ EmptyString ∧ slen value ≤ 128 ∧
  ∀ b, b ∈ as_bytes value → 32 ≤ byte_n b < 127.

Lemma validate_protocol_identifier_ok value :
  validate_protocol_identifier value = Ok tt ↔ identifier_ok value.
Proof.
  unfold validate_protocol_identifier, identifier_ok, is_ascii, MAX_PROTOCOL_IDENTIFIER_BYTES.
  destruct (is_empty_str value) eqn:He; simpl.
  { apply is_empty_str_spec in He as ->. naive_solver. }
  destruct (128 <? slen value) eqn:Hl; simpl; [split; [done|lia]|].
  assert (value ≠ EmptyString) by (intros ->; done).
  destruct (forallb is_ascii_byte (as_bytes value)) eqn:Ha; simpl.
  - rewrite forallb_forall in Ha.
    destruct (existsb is_ascii_control (as_bytes value)) eqn:Hc.
    + split; [done|]. apply existsb_exists in Hc as (b & Hin & Hc).
      intros (_ & _ & Hb). specialize (Hb b). rewrite list_elem_of_In in Hb. specialize (Hb Hin).
      unfold is_ascii_control in Hc. lia.
    + split; [intros _|done]. split_and!; [done|lia|].
      intros b Hin%list_elem_of_In. specialize (Ha b Hin). unfold is_ascii_byte in Ha.
      assert (is_ascii_control b = false).
      { destruct (is_ascii_control b) eqn:E; [|done].
        by rewrite <-Hc; symmetry; apply existsb_exists; eauto. }
      unfold is_ascii_control in *. lia.
  - split; [done|]. intros (_ & _ & Hb).
    assert (forallb is_ascii_byte (as_bytes value) = true); [|congruence].
    apply forallb_forall. intros b Hin%list_elem_of_In. specialize (Hb b Hin).
    unfold is_ascii_byte. lia.
Qed.

Lemma validate_protocol_identifier_cases value :
  validate_protocol_identifier value = Ok tt ∨
  validate_protocol_identifier value = Err InvalidIdentifier.
Proof. unfold validate_protocol_identifier. case_match; auto. Qed.

Lemma supports_iff p : supports p = true ↔ p = DAEMON_PROTOCOL.
Proof. unfold supports. simpl. rewrite orb_false_r. apply seqb_true. Qed.

(** An admission is granted exactly to two well-formed identifiers that name the
    daemon protocol, and records them unchanged. *)
Theorem gate_admit_ok_iff a d p adm :
  admit_peer a d p = Ok adm ↔
  identifier_ok a ∧ identifier_ok d ∧ p = DAEMON_PROTOCOL ∧
  adm = {| peer_account_id := a; peer_device_id := d; protocol := DAEMON_PROTOCOL |}.
Proof.
  rewrite <-!validate_protocol_identifier_ok, <-supports_iff. unfold admit_peer.
  destruct (is_empty_str a) eqn:Ea; simpl.
  { apply is_empty_str_spec in Ea as ->. naive_solver. }
  destruct (is_empty_str d) eqn:Ed; simpl.
  { apply is_empty_str_spec in Ed as ->. naive_solver. }
  destruct (validate_protocol_identifier_cases a) as [-> | ->]; simpl; [|naive_solver].
  destruct (validate_protocol_identifier_cases d) as [-> | ->]; simpl; [|naive_solver].
  destruct (supports p); simpl; naive_solver.
Qed.

(** Turning the wall clock back never revives a contract: once the monotonic clock
    has run through the TTL the contract is expired at every wall time, and it never
    becomes live again as either clock advances. *)
Theorem gate_ttl_expiry_monotone c wall wall' mono mono' :
  mono ≤ mono' →
  ttl_is_expired c wall mono = true →
  (wall ≤ wall' ∨ ttl_seconds c ≤ mono) →
  ttl_is_expired c wall' mono' = true.
Proof. unfold ttl_is_expired. lia. Qed.
