(* ===== verification/Model.v ===== *)
(** * Domain identifiers and state machines ([apps/daemon/src/model.rs])

    Six fail-closed state machines: account, device, contact, conversation, message
    and delivery. Each has the source's states, events, transition table and names;
    [Machine] is what they share, and the reachability lemmas are stated for runs of
    events. *)
From Stdlib Require Import Ascii NArith Lia.
From stdpp Require Import base strings list relations.
From S2P Require Import Prelude ProtocolGate.

(** ** Identifiers *)

Definition MAX_ID_BYTES : N := 128.

Record InvalidId := mk_InvalidId {}.

(** [$name::new], the constructor the [typed_id!] macro gives to the six identifier
    types; the value is stored unchanged. *)
Definition typed_id_new (value : string) : result string InvalidId :=
  if is_empty_str value
     || (MAX_ID_BYTES <? slen value)%N
     || is_err (validate_protocol_identifier value)
  then Err mk_InvalidId
  else Ok value.

(** ** States and events *)

Inductive AccountState := AccountLocked | AccountReady | AccountRecovering | AccountRevoked.
Inductive AccountEvent :=
  AccountUnlock | AccountLock | AccountBeginRecovery | AccountCompleteRecovery | AccountRevoke.

Inductive DeviceState := DeviceProvisioning | DeviceActive | DeviceRevoked.
Inductive DeviceEvent := DeviceActivate | DeviceRevoke.

Inductive ContactState :=
  ContactInvited | ContactPending | ContactVerified | ContactBlocked | ContactRemoved.
Inductive ContactEvent :=
  ContactReceiveRequest | ContactVerify | ContactBlock | ContactUnblock | ContactRemove.

Inductive ConversationState :=
  ConversationPairing | ConversationActive | ConversationSuspended | ConversationClosed.
Inductive ConversationEvent :=
  ConversationEstablish | ConversationSuspend | ConversationResume | ConversationClose.

Inductive MessageState :=
  MessageDraft | MessageEncrypted | MessageQueued | MessageRelayAccepted
| MessageRecipientReceived | MessageDecrypted | MessageRetryable | MessageFailed
| MessageExpired.
Inductive MessageEvent :=
  MessageEncrypt | MessageQueue | MessageRelayAccept | MessageReceive | MessageDecrypt
| MessageRetry | MessageFail | MessageExpire.

Inductive DeliveryState :=
  DeliveryQueued | DeliveryRelayAccepted | DeliveryRecipientReceived | DeliveryDecrypted
| DeliveryRetryable | DeliveryFailed | DeliveryExpired.
Inductive DeliveryEvent :=
  DeliveryRelayAccept | DeliveryReceive | DeliveryDecrypt | DeliveryRetry | DeliveryFail
| DeliveryExpire.

#[export] Instance AccountState_eq_dec : EqDecision AccountState.
Proof. solve_decision. Defined.
#[export] Instance DeviceState_eq_dec : EqDecision DeviceState.
Proof. solve_decision. Defined.
#[export] Instance ContactState_eq_dec : EqDecision ContactState.
Proof. solve_decision. Defined.
#[export] Instance ConversationState_eq_dec : EqDecision ConversationState.
Proof. solve_decision. Defined.
#[export] Instance MessageState_eq_dec : EqDecision MessageState.
Proof. solve_decision. Defined.
#[export] Instance DeliveryState_eq_dec : EqDecision DeliveryState.
Proof. solve_decision. Defined.

Record InvalidTransition := { entity : string; state : string; event : string }.

Definition invalid {A} (ent st ev : string) : result A InvalidTransition :=
  Err {| entity := ent; state := st; event := ev |}.

(** ** Names and transitions *)

Definition account_state_name (s : AccountState) : string :=
  match s with
  | AccountLocked => "locked"
  | AccountReady => "ready"
  | AccountRecovering => "recovering"
  | AccountRevoked => "revoked"
  end.

Definition account_event_name (e : AccountEvent) : string :=
  match e with
  | AccountUnlock => "unlock"
  | AccountLock => "lock"
  | AccountBeginRecovery => "begin_recovery"
  | AccountCompleteRecovery => "complete_recovery"
  | AccountRevoke => "revoke"
  end.

Definition account_transition (self : AccountState) (ev : AccountEvent)
  : result AccountState InvalidTransition :=
  match self, ev with
  | AccountLocked, AccountUnlock => Ok AccountReady
  | AccountReady, AccountLock => Ok AccountLocked
  | AccountLocked, AccountBeginRecovery => Ok AccountRecovering
  | AccountRecovering, AccountCompleteRecovery => Ok AccountReady
  | (AccountLocked | AccountReady | AccountRecovering), AccountRevoke => Ok AccountRevoked
  | _, _ => invalid "account" (account_state_name self) (account_event_name ev)
  end.

Definition device_state_name (s : DeviceState) : string :=
  match s with
  | DeviceProvisioning => "provisioning"
  | DeviceActive => "active"
  | DeviceRevoked => "revoked"
  end.

Definition device_event_name (e : DeviceEvent) : string :=
  match e with
  | DeviceActivate => "activate"
  | DeviceRevoke => "revoke"
  end.

Definition device_transition (self : DeviceState) (ev : DeviceEvent)
  : result DeviceState InvalidTransition :=
  match self, ev with
  | DeviceProvisioning, DeviceActivate => Ok DeviceActive
  | (DeviceProvisioning | DeviceActive), DeviceRevoke => Ok DeviceRevoked
  | _, _ => invalid "device" (device_state_name self) (device_event_name ev)
  end.

Definition contact_state_name (s : ContactState) : string :=
  match s with
  | ContactInvited => "invited"
  | ContactPending => "pending"
  | ContactVerified => "verified"
  | ContactBlocked => "blocked"
  | ContactRemoved => "removed"
  end.

Definition contact_event_name (e : ContactEvent) : string :=
  match e with
  | ContactReceiveRequest => "receive_request"
  | ContactVerify => "verify"
  | ContactBlock => "block"
  | ContactUnblock => "unblock"
  | ContactRemove => "remove"
  end.

Definition contact_transition (self : ContactState) (ev : ContactEvent)
  : result ContactState InvalidTransition :=
  match self, ev with
  | ContactInvited, ContactReceiveRequest => Ok ContactPending
  | ContactPending, ContactVerify => Ok ContactVerified
  | ContactVerified, ContactBlock => Ok ContactBlocked
  | ContactBlocked, ContactUnblock => Ok ContactVerified
  | (ContactInvited | ContactPending | ContactVerified | ContactBlocked), ContactRemove =>
    Ok ContactRemoved
  | _, _ => invalid "contact" (contact_state_name self) (contact_event_name ev)
  end.

Definition conversation_state_name (s : ConversationState) : string :=
  match s with
  | ConversationPairing => "pairing"
  | ConversationActive => "active"
  | ConversationSuspended => "suspended"
  | ConversationClosed => "closed"
  end.

Definition conversation_event_name (e : ConversationEvent) : string :=
  match e with
  | ConversationEstablish => "establish"
  | ConversationSuspend => "suspend"
  | ConversationResume => "resume"
  | ConversationClose => "close"
  end.

Definition conversation_transition (self : ConversationState) (ev : ConversationEvent)
  : result ConversationState InvalidTransition :=
  match self, ev with
  | ConversationPairing, ConversationEstablish => Ok ConversationActive
  | ConversationActive, ConversationSuspend => Ok ConversationSuspended
  | ConversationSuspended, ConversationResume => Ok ConversationActive
  | (ConversationPairing | ConversationActive | ConversationSuspended), ConversationClose =>
    Ok ConversationClosed
  | _, _ => invalid "conversation" (conversation_state_name self) (conversation_event_name ev)
  end.

Definition message_state_name (s : MessageState) : string :=
  match s with
  | MessageDraft => "draft"
  | MessageEncrypted => "encrypted"
  | MessageQueued => "queued"
  | MessageRelayAccepted => "relay_accepted"
  | MessageRecipientReceived => "recipient_received"
  | MessageDecrypted => "decrypted"
  | MessageRetryable => "retryable"
  | MessageFailed => "failed"
  | MessageExpired => "expired"
  end.

Definition message_event_name (e : MessageEvent) : string :=
  match e with
  | MessageEncrypt => "encrypt"
  | MessageQueue => "queue"
  | MessageRelayAccept => "relay_accept"
  | MessageReceive => "receive"
  | MessageDecrypt => "decrypt"
  | MessageRetry => "retry"
  | MessageFail => "fail"
  | MessageExpire => "expire"
  end.

Definition message_transition (self : MessageState) (ev : MessageEvent)
  : result MessageState InvalidTransition :=
  match self, ev with
  | MessageDraft, MessageEncrypt => Ok MessageEncrypted
  | MessageEncrypted, MessageQueue => Ok MessageQueued
  | MessageQueued, MessageRelayAccept => Ok MessageRelayAccepted
  | MessageRelayAccepted, MessageReceive => Ok MessageRecipientReceived
  | MessageRecipientReceived, MessageDecrypt => Ok MessageDecrypted
  | (MessageQueued | MessageRelayAccepted), MessageRetry => Ok MessageRetryable
  | MessageRetryable, MessageQueue => Ok MessageQueued
  | (MessageDraft | MessageEncrypted | MessageQueued | MessageRelayAccepted
     | MessageRecipientReceived | MessageRetryable), MessageFail => Ok MessageFailed
  | (MessageDraft | MessageEncrypted | MessageQueued | MessageRelayAccepted
     | MessageRetryable), MessageExpire => Ok MessageExpired
  | _, _ => invalid "message" (message_state_name self) (message_event_name ev)
  end.

Definition delivery_state_name (s : DeliveryState) : string :=
  match s with
  | DeliveryQueued => "queued"
  | DeliveryRelayAccepted => "relay_accepted"
  | DeliveryRecipientReceived => "recipient_received"
  | DeliveryDecrypted => "decrypted"
  | DeliveryRetryable => "retryable"
  | DeliveryFailed => "failed"
  | DeliveryExpired => "expired"
  end.

Definition delivery_event_name (e : DeliveryEvent) : string :=
  match e with
  | DeliveryRelayAccept => "relay_accept"
  | DeliveryReceive => "receive"
  | DeliveryDecrypt => "decrypt"
  | DeliveryRetry => "retry"
  | DeliveryFail => "fail"
  | DeliveryExpire => "expire"
  end.

Definition delivery_transition (self : DeliveryState) (ev : DeliveryEvent)
  : result DeliveryState InvalidTransition :=
  match self, ev with
  | DeliveryQueued, DeliveryRelayAccept => Ok DeliveryRelayAccepted
  | DeliveryRelayAccepted, DeliveryReceive => Ok DeliveryRecipientReceived
  | DeliveryRecipientReceived, DeliveryDecrypt => Ok DeliveryDecrypted
  | (DeliveryQueued | DeliveryRelayAccepted), DeliveryRetry => Ok DeliveryRetryable
  | DeliveryRetryable, DeliveryRetry => Ok DeliveryQueued
  | (DeliveryQueued | DeliveryRelayAccepted | DeliveryRetryable), DeliveryFail =>
    Ok DeliveryFailed
  | (DeliveryQueued | DeliveryRelayAccepted | DeliveryRetryable), DeliveryExpire =>
    Ok DeliveryExpired
  | _, _ => invalid "delivery" (delivery_state_name self) (delivery_event_name ev)
  end.

(** ** What the machines share *)

Class Machine (St Ev : Type) := {
  machine_entity : string;
  machine_state_name : St → string;
  machine_event_name : Ev → string;
  machine_transition : St → Ev → result St InvalidTransition;
  (** the states that accept no event *)
  machine_terminal : St → bool;
}.

(** A machine is closed when a rejected event is reported under its own names, and a
    state is terminal exactly when it rejects every event. *)
Class FailClosed (St Ev : Type) `{Machine St Ev} : Prop := {
  rejected_by_name : ∀ (s : St) (e : Ev) x, machine_transition s e = Err x →
    x = {| entity := machine_entity; state := machine_state_name s;
           event := machine_event_name e |};
  terminal_iff : ∀ s : St,
    machine_terminal s = true ↔ ∀ e : Ev, is_err (machine_transition s e) = true;
}.

#[export] Instance account_machine : Machine AccountState AccountEvent := {|
  machine_entity := "account"; machine_state_name := account_state_name;
  machine_event_name := account_event_name; machine_transition := account_transition;
  machine_terminal := λ s, bool_decide (s = AccountRevoked) |}.
#[export] Instance device_machine : Machine DeviceState DeviceEvent := {|
  machine_entity := "device"; machine_state_name := device_state_name;
  machine_event_name := device_event_name; machine_transition := device_transition;
  machine_terminal := λ s, bool_decide (s = DeviceRevoked) |}.
#[export] Instance contact_machine : Machine ContactState ContactEvent := {|
  machine_entity := "contact"; machine_state_name := contact_state_name;
  machine_event_name := contact_event_name; machine_transition := contact_transition;
  machine_terminal := λ s, bool_decide (s = ContactRemoved) |}.
#[export] Instance conversation_machine : Machine ConversationState ConversationEvent := {|
  machine_entity := "conversation"; machine_state_name := conversation_state_name;
  machine_event_name := conversation_event_name;
  machine_transition := conversation_transition;
  machine_terminal := λ s, bool_decide (s = ConversationClosed) |}.
#[export] Instance message_machine : Machine MessageState MessageEvent := {|
  machine_entity := "message"; machine_state_name := message_state_name;
  machine_event_name := message_event_name; machine_transition := message_transition;
  machine_terminal := λ s,
    bool_decide (s ∈ [MessageDecrypted; MessageFailed; MessageExpired]) |}.
#[export] Instance delivery_machine : Machine DeliveryState DeliveryEvent := {|
  machine_entity := "delivery"; machine_state_name := delivery_state_name;
  machine_event_name := delivery_event_name; machine_transition := delivery_transition;
  machine_terminal := λ s,
    bool_decide (s ∈ [DeliveryDecrypted; DeliveryFailed; DeliveryExpired]) |}.

(** A run of events; the first rejected event ends it with its error. *)
Fixpoint run_events `{Machine St Ev} (s : St) (es : list Ev) : result St InvalidTransition :=
  match es with
  | [] => Ok s
  | e :: t => let? s' := machine_transition s e in run_events s' t
  end.

(** The message state and event that a delivery state and event are part of. *)
Definition message_of_delivery (s : DeliveryState) : MessageState :=
  match s with
  | DeliveryQueued => MessageQueued
  | DeliveryRelayAccepted => MessageRelayAccepted
  | DeliveryRecipientReceived => MessageRecipientReceived
  | DeliveryDecrypted => MessageDecrypted
  | DeliveryRetryable => MessageRetryable
  | DeliveryFailed => MessageFailed
  | DeliveryExpired => MessageExpired
  end.

Definition message_event_of_delivery (s : DeliveryState) (e : DeliveryEvent) : MessageEvent :=
  match e with
  | DeliveryRelayAccept => MessageRelayAccept
  | DeliveryReceive => MessageReceive
  | DeliveryDecrypt => MessageDecrypt
  | DeliveryRetry =>
    match s with DeliveryRetryable => MessageQueue | _ => MessageRetry end
  | DeliveryFail => MessageFail
  | DeliveryExpire => MessageExpire
  end.

(** ** Lemmas *)

Lemma typed_id_new_ok value id :
  typed_id_new value = Ok id ↔ id = value ∧ identifier_ok value.
Proof.
  rewrite <-validate_protocol_identifier_ok. unfold typed_id_new.
  destruct (validate_protocol_identifier_cases value) as [Hv|Hv]; rewrite Hv; simpl.
  - pose proof (proj1 (validate_protocol_identifier_ok value) Hv) as (Hne & Hlen & _).
    destruct (is_empty_str value) eqn:He; [by apply is_empty_str_spec in He|].
    replace (MAX_ID_BYTES <? slen value)%N with false; [simpl; naive_solver|].
    symmetry. apply N.ltb_ge. exact Hlen.
  - rewrite orb_true_r. naive_solver.
Qed.

Ltac machine_cases :=
  split;
  [ intros s e x; destruct s, e; intros E; first [discriminate E | by injection E as <-]
  | intros s; split;
    [ destruct s; intros Ht []; vm_compute in Ht |- *; done
    | destruct s; intros He; try reflexivity ] ].

#[export] Instance account_fail_closed : FailClosed AccountState AccountEvent.
Proof.
  machine_cases; [specialize (He AccountUnlock)|specialize (He AccountLock)
                 |specialize (He AccountRevoke)]; done.
Qed.
#[export] Instance device_fail_closed : FailClosed DeviceState DeviceEvent.
Proof. machine_cases; specialize (He DeviceRevoke); done. Qed.
#[export] Instance contact_fail_closed : FailClosed ContactState ContactEvent.
Proof. machine_cases; specialize (He ContactRemove); done. Qed.
#[export] Instance conversation_fail_closed : FailClosed ConversationState ConversationEvent.
Proof. machine_cases; specialize (He ConversationClose); done. Qed.
#[export] Instance message_fail_closed : FailClosed MessageState MessageEvent.
Proof. machine_cases; specialize (He MessageFail); done. Qed.
#[export] Instance delivery_fail_closed : FailClosed DeliveryState DeliveryEvent.
Proof.
  machine_cases; try (specialize (He DeliveryFail); done).
  specialize (He DeliveryDecrypt); done.
Qed.

Lemma run_events_app `{Machine St Ev} (s : St) (xs ys : list Ev) :
  run_events s (xs ++ ys) = let? s' := run_events s xs in run_events s' ys.
Proof.
  revert s. induction xs as [|e xs IH]; intros s; simpl; [done|].
  destruct (machine_transition s e); simpl; auto.
Qed.

Lemma run_events_terminal `{FailClosed St Ev} (s : St) (es : list Ev) s' :
  machine_terminal s = true → run_events s es = Ok s' → es = [] ∧ s' = s.
Proof.
  intros Ht. destruct es as [|e es]; simpl; [naive_solver|].
  pose proof (proj1 (terminal_iff s) Ht e) as He. destruct (machine_transition s e); [done|].
  done.
Qed.

(** The events that carried a message from its state to [MessageDecrypted]. *)
Definition decrypt_path (s : MessageState) : list MessageEvent :=
  match s with
  | MessageDraft =>
    [MessageEncrypt; MessageQueue; MessageRelayAccept; MessageReceive; MessageDecrypt]
  | MessageEncrypted | MessageRetryable =>
    [MessageQueue; MessageRelayAccept; MessageReceive; MessageDecrypt]
  | MessageQueued => [MessageRelayAccept; MessageReceive; MessageDecrypt]
  | MessageRelayAccepted => [MessageReceive; MessageDecrypt]
  | MessageRecipientReceived => [MessageDecrypt]
  | MessageDecrypted => []
  | MessageFailed | MessageExpired => []
  end.

Lemma message_step_path s e s' :
  message_transition s e = Ok s' → s' ≠ MessageFailed → s' ≠ MessageExpired →
  ∃ x, decrypt_path s `sublist_of` x ++ decrypt_path s' ∧ x `sublist_of` [e].
Proof.
  intros Ht Hf He.
  destruct s, e; simplify_eq/=;
    first [ exists [MessageEncrypt]; split; [reflexivity|reflexivity]
          | exists [MessageQueue]; split; [reflexivity|reflexivity]
          | exists [MessageRelayAccept]; split; [reflexivity|reflexivity]
          | exists [MessageReceive]; split; [reflexivity|reflexivity]
          | exists [MessageDecrypt]; split; [reflexivity|reflexivity]
          | exists []; split; [simpl; repeat constructor|repeat constructor] ].
Qed.

Lemma message_run_path s es :
  run_events s es = Ok MessageDecrypted → decrypt_path s `sublist_of` es.
Proof.
  revert s. induction es as [|e es IH]; intros s; simpl; [by intros [= ->]|].
  destruct (message_transition s e) as [s'|] eqn:Ht; simpl; [|done]. intros Hrun.
  assert (Hne : s' ≠ MessageFailed ∧ s' ≠ MessageExpired).
  { split; intros ->; apply run_events_terminal in Hrun; naive_solver. }
  destruct Hne as [Hf He].
  destruct (message_step_path s e s' Ht Hf He) as (x & Hx & Hxe).
  etrans; [exact Hx|]. change (e :: es) with ([e] ++ es). apply sublist_app; auto.
Qed.

(** ** Properties *)

(** Every rejected event of the six machines is reported as a rejection of exactly that
    event in exactly that state; the terminal states of the machines are the revoked
    account and device, the removed contact, the closed conversation and the decrypted,
    failed or expired message and delivery; and a run that starts in one of them accepts
    no event. *)
Theorem model_machines_fail_closed :
  (FailClosed AccountState AccountEvent ∧ FailClosed DeviceState DeviceEvent ∧
   FailClosed ContactState ContactEvent ∧ FailClosed ConversationState ConversationEvent ∧
   FailClosed MessageState MessageEvent ∧ FailClosed DeliveryState DeliveryEvent) ∧
  (∀ e es, is_err (run_events AccountRevoked (e :: es)) = true) ∧
  (∀ e es, is_err (run_events DeviceRevoked (e :: es)) = true) ∧
  (∀ e es, is_err (run_events ContactRemoved (e :: es)) = true) ∧
  (∀ e es, is_err (run_events ConversationClosed (e :: es)) = true).
Proof.
  split; [split_and!; apply _|]. split_and!; intros e es; by destruct e.
Qed.

(** A message that ends up decrypted was encrypted, queued, accepted by the relay,
    received and decrypted, in that order. *)
Theorem model_decrypted_went_through_every_stage es :
  run_events MessageDraft es = Ok MessageDecrypted →
  [MessageEncrypt; MessageQueue; MessageRelayAccept; MessageReceive; MessageDecrypt]
    `sublist_of` es.
Proof. apply (message_run_path MessageDraft). Qed.

Lemma model_decrypted_went_through_every_stage_witness :
  [MessageEncrypt; MessageQueue; MessageRelayAccept; MessageReceive; MessageDecrypt]
    `sublist_of`
  [MessageEncrypt; MessageQueue; MessageRetry; MessageQueue; MessageRelayAccept;
   MessageReceive; MessageDecrypt].
Proof. apply model_decrypted_went_through_every_stage. reflexivity. Defined.

(** The delivery machine refines the message machine: whatever a delivery accepts, the
    message it belongs to accepts too, and the two stay in step. *)
Theorem model_delivery_refines_message s e s' :
  delivery_transition s e = Ok s' →
  message_transition (message_of_delivery s) (message_event_of_delivery s e)
  = Ok (message_of_delivery s').
Proof. destruct s, e; intros ?; by simplify_eq/=. Qed.

Lemma model_delivery_refines_message_witness :
  message_transition MessageRetryable MessageQueue = Ok MessageQueued.
Proof.
  exact (model_delivery_refines_message DeliveryRetryable DeliveryRetry DeliveryQueued
           eq_refl).
Defined.
