(* ===== verification/Paths.v ===== *)
(** * Paths

    The functions of [std::path::Path] the store uses, on Unix paths: the components of a
    path, its parent and a path with another extension; and the names of the temporary files
    [atomic_write] makes. *)
From Stdlib Require Import Ascii NArith Lia ZifyBool ZifyN.
From stdpp Require Import base strings list.
From S2P Require Import Prelude Text.

(** Trailing separators and trailing [.] components do not count. The components are listed
    from the last one on; a leading [.] stays. *)
Fixpoint strip_parts (l : list string) : list string :=
  match l with
  | [] => []
  | x :: t =>
    if is_empty_str x || (seqb x "." && match t with [] => false | _ => true end)
    then strip_parts t else l
  end.
Definition path_parts (p : string) : list string := strip_parts (rev (split 47 p)).

(** [Path::parent]. *)
Definition path_parent (p : string) : option string :=
  match path_parts p with
  | [] => None
  | _ :: before =>
    match strip_parts before with
    | [] => Some (if starts_with "/" p then "/" else EmptyString)
    | b => Some (join 47 (rev b))
    end
  end.

(** [Path::file_stem] of a file name. *)
Definition file_stem (name : string) : string :=
  match rsplit_once 46 name with
  | Some (before, _) => if is_empty_str before then name else before
  | None => name
  end.

(** [Path::with_extension] with an extension that is not empty. *)
Definition with_extension (p ext : string) : string :=
  match path_parts p with
  | [] => p
  | name :: before =>
    if seqb name ".." || seqb name "." then p
    else join 47 (rev ((file_stem name +:+ "." +:+ ext) :: before))
  end.

(** The temporary file [atomic_write] writes before it renames it over [p]. *)
Definition temporary_path (p : string) (pid : N) (suffix : bytes) : string :=
  with_extension p ("tmp-" +:+ u64_to_string pid +:+ "-" +:+ of_bytes (hex_b suffix)).

(** A path that names a file, and a path with the extension of a temporary file. *)
Definition plain_path (p : string) : bool :=
  match path_parts p with
  | [] => false
  | name :: _ => negb (seqb name ".." || seqb name ".")
  end.
Definition is_temporary (p : string) : bool :=
  match path_parts p with
  | [] => false
  | name :: _ =>
    match rsplit_once 46 name with Some (_, ext) => starts_with "tmp-" ext | None => false end
  end.
Definition lasting (p : string) : bool := plain_path p && negb (is_temporary p).

(** ** Lemmas *)

Lemma split_b_parts c b : Forall (λ x, c ∉ x) (split_b c b).
Proof.
  induction b as [|x b IH]; cbn [split_b].
  - constructor; [apply not_elem_of_nil|constructor].
  - case_decide as E; [constructor; [apply not_elem_of_nil|done]|].
    destruct (split_b c b) as [|h r].
    + constructor; [|constructor]. by apply not_elem_of_cons; split; [|apply not_elem_of_nil].
    + apply Forall_cons in IH as [Hh Hr]. constructor; [|done]. by apply not_elem_of_cons.
Qed.

Lemma split_parts c s : Forall (λ x, n_byte c ∉ as_bytes x) (split c s).
Proof.
  unfold split. apply Forall_map. eapply Forall_impl; [apply split_b_parts|].
  intros x Hx. cbn. by rewrite as_of_bytes.
Qed.

Lemma split_nonempty c s : split c s ≠ [].
Proof.
  unfold split. pose proof (split_b_nonempty (n_byte c) (as_bytes s)). by destruct (split_b _ _).
Qed.

Lemma join_split c s : join c (split c s) = s.
Proof.
  unfold join, split. rewrite map_map. erewrite map_ext; [|intros x; apply as_of_bytes].
  by rewrite map_id, join_split_b, of_as_bytes.
Qed.

Lemma strip_parts_suffix l : ∃ k, l = k ++ strip_parts l.
Proof.
  induction l as [|x l [k IH]]; [by exists []|]. cbn [strip_parts].
  destruct (_ || _); [|by exists []]. exists (x :: k). cbn. by rewrite <-IH.
Qed.

Lemma path_parts_clean p : Forall (λ x, n_byte 47 ∉ as_bytes x) (path_parts p).
Proof.
  unfold path_parts. pose proof (split_parts 47 p) as H. apply List.Forall_rev in H.
  destruct (strip_parts_suffix (rev (split 47 p))) as [k Hk].
 rewrite Hk in H. by apply Forall_app in H as [_ ?].
Qed.

(** The last dot of a name is the one before an extension without dots. *)
Lemma rsplit_once_ext stem ext :
  n_byte 46 ∉ as_bytes ext → rsplit_once 46 (stem +:+ "." +:+ ext) = Some (stem, ext).
Proof.
  intros He. rewrite <-(join_split 46 stem) at 1. change "." with (of_bytes [n_byte 46]).
  rewrite <-join_snoc by apply split_nonempty.
  rewrite rsplit_once_join; [by rewrite join_split|apply split_nonempty|].
  apply Forall_app. split; [apply split_parts|]. by constructor.
Qed.

Lemma not_elem_of_string_app (c : byte) (a b : string) :
  c ∉ as_bytes a → c ∉ as_bytes b → c ∉ as_bytes (a +:+ b).
Proof. intros Ha Hb. rewrite as_bytes_app, elem_of_app. tauto. Qed.

(** The parts of a name do not have what the name does not have. *)
Lemma file_stem_clean name : n_byte 47 ∉ as_bytes name → n_byte 47 ∉ as_bytes (file_stem name).
Proof.
  intros Hn. unfold file_stem. destruct (rsplit_once 46 name) as [[b e]|] eqn:E; [|done].
  destruct (is_empty_str b); [done|]. revert E. unfold rsplit_once.
  destruct (rev (split 46 name)) as [|x [|y l]] eqn:Er; try done. intros [= <- <-] Hin.
  apply Hn. apply (f_equal (@rev _)) in Er. rewrite rev_involutive in Er.
  change (rev (x :: y :: l)) with (rev (y :: l) ++ [x]) in Er.
  rewrite <-(join_split 46 name), Er, join_snoc by (cbn; by destruct (rev l)).
  rewrite as_bytes_app. apply elem_of_app. by left.
Qed.

Lemma path_parts_join name before :
  n_byte 47 ∉ as_bytes name → Forall (λ x, n_byte 47 ∉ as_bytes x) before →
  name ≠ EmptyString → name ≠ "." → path_parts (join 47 (rev (name :: before))) = name :: before.
Proof.
  intros Hn Hb H0 H1. unfold path_parts. rewrite split_join.
  - rewrite rev_involutive. cbn [strip_parts].
    replace (is_empty_str name) with false by (by destruct name).
    replace (seqb name ".") with false by (symmetry; by apply bool_decide_eq_false). done.
  - cbn. by destruct (rev before).
  - apply List.Forall_rev. by constructor.
Qed.

(** A temporary file has the extension of one. *)
Lemma temporary_extension p rest :
  plain_path p = true → n_byte 46 ∉ as_bytes rest → n_byte 47 ∉ as_bytes rest →
  is_temporary (with_extension p ("tmp-" +:+ rest)) = true.
Proof.
  intros Hp H46 H47. unfold with_extension. unfold plain_path in Hp.
  pose proof (path_parts_clean p) as Hc. destruct (path_parts p) as [|name before]; [done|].
  apply negb_true_iff in Hp. rewrite Hp. apply Forall_cons in Hc as [Hn Hb].
  assert (n_byte 47 ∉ as_bytes (file_stem name +:+ "." +:+ "tmp-" +:+ rest)).
  { apply not_elem_of_string_app; [by apply file_stem_clean|].
    apply (not_elem_of_string_app _ ".tmp-"); [|done]. refine (bool_decide_unpack _ _). by vm_compute. }
  unfold is_temporary. rewrite path_parts_join; try done.
  - rewrite rsplit_once_ext.
    + apply starts_with_true. by exists rest.
    + apply not_elem_of_string_app; [|done]. refine (bool_decide_unpack _ _). by vm_compute.
  - by destruct (file_stem name).
  - intros E. apply (f_equal (λ s, length (as_bytes s))) in E.
    rewrite !as_bytes_app, !length_app in E. cbn in E. lia.
Qed.

Lemma temporary_path_is p pid suffix :
  plain_path p = true → is_temporary (temporary_path p pid suffix) = true.
Proof.
  intros Hp.
  assert (Hext : ∀ c, is_ascii_hexdigit (n_byte c) = false → n_byte c ≠ "-"%char →
            n_byte c ∉ as_bytes (u64_to_string pid +:+ "-" +:+ of_bytes (hex_b suffix))).
  { intros c H1 H2. repeat apply not_elem_of_string_app.
    - eapply forallb_not_elem; [apply u64_digits|]. unfold is_ascii_hexdigit in H1. by bool_props.
    - by intros ?%list_elem_of_singleton.
    - rewrite as_of_bytes. eapply forallb_not_elem; [apply hex_b_hexdigit|done]. }
  apply temporary_extension; [done|by apply Hext..].
Qed.

Lemma temporary_path_ne p q pid suffix :
  plain_path p = true → is_temporary q = false → q ≠ temporary_path p pid suffix.
Proof. intros Hp Hq ->. by rewrite temporary_path_is in Hq. Qed.

(** The marker of a store, [path] with [.revision] after it, is never a temporary file. *)
Lemma lasting_suffix p : lasting (p +:+ ".revision") = true.
Proof.
  destruct (exists_last (split_nonempty 47 p)) as (l & x & Hl).
  pose proof (split_parts 47 p) as Hp. rewrite Hl in Hp. apply Forall_app in Hp as [Hp Hx].
  apply Forall_cons in Hx as [Hx _].
  assert (E : p +:+ ".revision" = join 47 (rev ((x +:+ "." +:+ "revision") :: rev l))).
  { rewrite <-(join_split 47 p), Hl. cbn [rev]. rewrite rev_involutive.
    destruct l as [|y l]; [unfold join; cbn; by rewrite !of_as_bytes|].
    rewrite !join_snoc by done. apply as_bytes_inj. by rewrite !as_bytes_app, <-!app_assoc. }
  assert (Hparts : path_parts (p +:+ ".revision") = (x +:+ "." +:+ "revision") :: rev l).
  { rewrite E. apply path_parts_join.
    - apply not_elem_of_string_app; [done|]. refine (bool_decide_unpack _ _). by vm_compute.
    - by apply List.Forall_rev.
    - by destruct x.
    - intros Hd. apply (f_equal (λ s, length (as_bytes s))) in Hd.
      rewrite !as_bytes_app, !length_app in Hd. cbn in Hd. lia. }
  unfold lasting, plain_path, is_temporary. rewrite Hparts, rsplit_once_ext.
  - rewrite andb_true_r. apply negb_true_iff, orb_false_iff.
    split; apply bool_decide_eq_false; intros Hd; apply (f_equal (λ s, length (as_bytes s))) in Hd;
      rewrite !as_bytes_app, !length_app in Hd; cbn in Hd; lia.
  - refine (bool_decide_unpack _ _). by vm_compute.
Qed.

Lemma lasting_inv p : lasting p = true → plain_path p = true ∧ is_temporary p = false.
Proof. intros H. unfold lasting in H. by bool_props. Qed.
