(* ===== verification/Fs.v ===== *)
(** * The world a store lives in

    Files, I/O outcomes, entropy and the process. The directory tree is a map from paths to
    nodes; a parent directory is there without a node of its own, and a [Directory] node stands
    for a directory in the place of a file. Every system call takes the next outcome of an
    oracle, so that a theorem about "any I/O failure" quantifies over the oracle; an exhausted
    oracle means no more failures. [same_files] compares trees up to temporary files. *)
From Stdlib Require Import Ascii NArith Lia.
From stdpp Require Import base gmap strings list.
From S2P Require Import Prelude Text Paths.

Inductive Node :=
| RegularFile (contents : bytes)
| Directory
| Symlink (target : string).

(** A call succeeds, fails with no effect, fails after its effect, or (a write) fails after
    [n] bytes. *)
Inductive Fault := NoFault | FailBefore | FailAfter | FailPartial (n : nat).

Record World := {
  w_files : gmap string Node;
  w_faults : list Fault;
  (** the results of the next calls of [getrandom::fill]; a result of another length
      than the buffer stands for a failed call *)
  w_entropy : list bytes;
  (** [std::process::id()] *)
  w_pid : N;
}.

Definition set_files (f : gmap string Node) (w : World) : World :=
  {| w_files := f; w_faults := w_faults w; w_entropy := w_entropy w; w_pid := w_pid w |}.

(** The outcome of the next system call. *)
Definition next_fault (w : World) : Fault * World :=
  match w_faults w with
  | [] => (NoFault, w)
  | f :: t => (f, {| w_files := w_files w; w_faults := t; w_entropy := w_entropy w; w_pid := w_pid w |})
  end.

(** [getrandom::fill] of a buffer of [n] bytes. *)
Definition secure_random (n : nat) (w : World) : World * option bytes :=
  match w_entropy w with
  | [] => (w, None)
  | e :: t =>
    ({| w_files := w_files w; w_faults := w_faults w; w_entropy := t; w_pid := w_pid w |},
     if (length e =? n)%nat then Some e else None)
  end.

(** The file a path leads to, through at most 40 symbolic links. *)
Fixpoint resolve (fuel : nat) (files : gmap string Node) (path : string) : option Node :=
  match files !! path with
  | Some (Symlink target) =>
    match fuel with O => Some Directory | S n => resolve n files target end
  | node => node
  end.

Inductive ReadResult := ReadOk (b : bytes) | ReadNotFound | ReadFailed.

(** [fs::read]. A directory, or a chain of links that is too long, is an error other than
    [NotFound]. *)
Definition fs_read (path : string) (w : World) : World * ReadResult :=
  let '(f, w) := next_fault w in
  match f with
  | NoFault =>
    (w, match resolve 40 (w_files w) path with
        | Some (RegularFile b) => ReadOk b
        | Some _ => ReadFailed
        | None => ReadNotFound
        end)
  | _ => (w, ReadFailed)
  end.

Inductive RemoveResult := RemoveOk | RemoveNotFound | RemoveFailed.

(** [fs::remove_file]: it unlinks a file or a link, never a directory; the file may be gone
    although the call reports an error. *)
Definition fs_remove (path : string) (w : World) : World * RemoveResult :=
  let '(f, w) := next_fault w in
  let removed := set_files (delete path (w_files w)) w in
  match f, w_files w !! path with
  | NoFault, None => (w, RemoveNotFound)
  | NoFault, Some (RegularFile _ | Symlink _) => (removed, RemoveOk)
  | FailAfter, Some (RegularFile _ | Symlink _) => (removed, RemoveFailed)
  | _, _ => (w, RemoveFailed)
  end.

(** The path a chain of symbolic links leads to. *)
Fixpoint resolve_path (fuel : nat) (files : gmap string Node) (path : string) : option string :=
  match files !! path with
  | Some (Symlink target) =>
    match fuel with O => None | S n => resolve_path n files target end
  | _ => Some path
  end.

(** [fs::write]: the file is created or truncated, then written; a failed write leaves a
    prefix of the contents. *)
Definition fs_write (path : string) (contents : bytes) (w : World) : World * bool :=
  let '(f, w) := next_fault w in
  match f, resolve_path 40 (w_files w) path with
  | FailBefore, _ | _, None => (w, false)
  | f, Some target =>
    match w_files w !! target with
    | Some Directory => (w, false)
    | _ =>
      let written := match f with FailPartial n => take n contents | _ => contents end in
      (set_files (<[target := RegularFile written]> (w_files w)) w,
       match f with NoFault => true | _ => false end)
    end
  end.

(** [fs::rename] of a file, atomically. *)
Definition fs_rename (from to : string) (w : World) : World * bool :=
  let '(f, w) := next_fault w in
  match w_files w !! from, w_files w !! to with
  | None, _ | _, Some Directory => (w, false)
  | Some node, _ =>
    let moved := set_files (<[to := node]> (delete from (w_files w))) w in
    match f with
    | NoFault => (moved, true)
    | FailAfter => (moved, false)
    | _ => (w, false)
    end
  end.

(** [OpenOptions::new().create(true).truncate(false).write(true).open(path)]: the file that
    was opened. *)
Definition fs_open (path : string) (w : World) : World * option string :=
  let '(f, w) := next_fault w in
  match f, resolve_path 40 (w_files w) path with
  | NoFault, Some target =>
    match w_files w !! target with
    | Some Directory => (w, None)
    | Some _ => (w, Some target)
    | None => (set_files (<[target := RegularFile []]> (w_files w)) w, Some target)
    end
  | _, _ => (w, None)
  end.

(** [File::metadata().len()] of an open file. *)
Definition fs_len (target : string) (w : World) : World * option N :=
  let '(f, w) := next_fault w in
  match f, w_files w !! target with
  | NoFault, Some (RegularFile b) => (w, Some (blen b))
  | _, _ => (w, None)
  end.

(** A call that changes no contents: [File::sync_all], [File::metadata],
    [File::set_permissions]. *)
Definition fs_call (w : World) : World * bool :=
  let '(f, w) := next_fault w in (w, match f with NoFault => true | _ => false end).

(** [File::seek] to an offset. *)
Definition fs_seek (w : World) : World * bool := fs_call w.

(** [fs::create_dir_all]: nothing to do for the empty path; a file in its place is an error. *)
Definition fs_create_dir_all (path : string) (w : World) : World * bool :=
  if is_empty_str path then (w, true)
  else
    let '(w, done) := fs_call w in
    (w, done && match resolve 40 (w_files w) path with Some (RegularFile _) => false | _ => true end).

(** [File::open] of a directory that is there; the empty path names nothing. *)
Definition fs_open_dir (path : string) (w : World) : World * bool :=
  let '(w, done) := fs_call w in (w, done && negb (is_empty_str path)).

(** [OpenOptions::new().write(true).create_new(true).open(path)]: whatever is at the path, a
    link included, makes it fail. *)
Definition fs_create_new (path : string) (w : World) : World * bool :=
  let '(f, w) := next_fault w in
  match w_files w !! path with
  | Some _ => (w, false)
  | None =>
    let created := set_files (<[path := RegularFile []]> (w_files w)) w in
    match f with
    | NoFault => (created, true)
    | FailAfter => (created, false)
    | _ => (w, false)
    end
  end.

(** [File::write_all] at an offset within the file. *)
Definition fs_write_at (target : string) (offset : N) (contents : bytes) (w : World)
  : World * bool :=
  let '(f, w) := next_fault w in
  match w_files w !! target with
  | Some (RegularFile b) =>
    let write (c : bytes) : World :=
      let o := N.to_nat offset in
      set_files (<[target := RegularFile (take o b ++ c ++ drop (o + length c) b)]> (w_files w)) w in
    match f with
    | NoFault => (write contents, true)
    | FailBefore => (w, false)
    | FailAfter => (write contents, false)
    | FailPartial n => (write (take n contents), false)
    end
  | _ => (w, false)
  end.

(** ** Lemmas *)

Lemma next_fault_files w : w_files (next_fault w).2 = w_files w.
Proof. unfold next_fault. by destruct (w_faults w). Qed.

Lemma next_fault_entropy w : w_entropy (next_fault w).2 = w_entropy w.
Proof. unfold next_fault. by destruct (w_faults w). Qed.

Lemma fs_read_files path w : w_files (fs_read path w).1 = w_files w.
Proof.
  unfold fs_read. pose proof (next_fault_files w) as H. destruct (next_fault w) as [[] w'];
    simpl in *; done.
Qed.

Lemma secure_random_files n w : w_files (secure_random n w).1 = w_files w.
Proof. unfold secure_random. by destruct (w_entropy w). Qed.

Lemma secure_random_length n w w' e : secure_random n w = (w', Some e) → length e = n.
Proof.
  unfold secure_random. destruct (w_entropy w); [done|]. case_match eqn:E; intros; simplify_eq.
  by apply Nat.eqb_eq in E.
Qed.

Lemma secure_random_faults n w : w_faults (secure_random n w).1 = w_faults w.
Proof. unfold secure_random. by destruct (w_entropy w). Qed.

Lemma resolve_regular fuel files path b :
  files !! path = Some (RegularFile b) → resolve fuel files path = Some (RegularFile b).
Proof. intros H. destruct fuel; simpl; by rewrite H. Qed.

Lemma fs_read_ok path w b :
  w_faults w = [] → w_files w !! path = Some (RegularFile b) →
  fs_read path w = (w, ReadOk b).
Proof.
  intros Hf Hp. unfold fs_read, next_fault. rewrite Hf. by rewrite (resolve_regular _ _ _ b).
Qed.

Lemma fs_read_missing path w :
  w_faults w = [] → w_files w !! path = None → fs_read path w = (w, ReadNotFound).
Proof.
  intros Hf Hp. unfold fs_read, next_fault. rewrite Hf. simpl. by rewrite Hp.
Qed.

Lemma resolve_path_plain fuel files path :
  (∀ target, files !! path ≠ Some (Symlink target)) → resolve_path fuel files path = Some path.
Proof. intros Hn. destruct fuel; simpl; destruct (files !! path) as [[]|]; naive_solver. Qed.

(** The files of a world, with no failure to come. *)
Definition calm (w : World) : World :=
  {| w_files := w_files w; w_faults := []; w_entropy := w_entropy w; w_pid := w_pid w |}.

(** A successful [fs::write] to a path that is no link. *)
Lemma fs_write_ok path b w w' :
  (∀ target, w_files w !! path ≠ Some (Symlink target)) → fs_write path b w = (w', true) →
  w_files w' = <[path := RegularFile b]> (w_files w).
Proof.
  intros Hn. unfold fs_write. pose proof (next_fault_files w) as Hf.
  destruct (next_fault w) as [f w1]. simpl in Hf. rewrite Hf, resolve_path_plain by done.
  destruct f; intros E; try done; destruct (w_files w !! path) as [[]|]; by simplify_eq/=.
Qed.

Lemma fs_rename_ok from to w w' :
  fs_rename from to w = (w', true) →
  ∃ node, w_files w !! from = Some node ∧ w_files w' = <[to := node]> (delete from (w_files w)).
Proof.
  unfold fs_rename. pose proof (next_fault_files w) as Hf. destruct (next_fault w) as [f w1].
  simpl in Hf. rewrite Hf. destruct (w_files w !! from) as [node|]; [|done]. intros E.
  exists node. split; [done|].
  destruct (w_files w !! to) as [[]|]; try done; destruct f; by simplify_eq/=.
Qed.

#[global] Arguments resolve : simpl never.
#[global] Arguments resolve_path : simpl never.

(** ** Trees up to temporary files *)

Definition same_files (a b : gmap string Node) : Prop :=
  ∀ p, is_temporary p = false → a !! p = b !! p.
Infix "≡ₜ" := same_files (at level 70).

#[export] Instance same_files_equiv : Equivalence same_files.
Proof.
  split; [by intros a p|by intros a b H p Hp; rewrite H|].
  intros a b c H1 H2 p Hp. by rewrite H1, H2.
Qed.

#[export] Instance same_files_insert p :
  Proper ((=) ==> same_files ==> same_files) (insert (M := gmap string Node) p).
Proof.
  intros n ? <- a b H q Hq. destruct (decide (p = q)) as [->|];
    [by rewrite !lookup_insert_eq|]. rewrite !lookup_insert_ne by done. by apply H.
Qed.

#[export] Instance same_files_delete p :
  Proper (same_files ==> same_files) (delete (M := gmap string Node) p).
Proof.
  intros a b H q Hq. destruct (decide (p = q)) as [->|];
    [by rewrite !lookup_delete_eq|]. rewrite !lookup_delete_ne by done. by apply H.
Qed.

Lemma same_files_insert_temporary p n files :
  is_temporary p = true → <[p := n]> files ≡ₜ files.
Proof. intros Hp q Hq. apply lookup_insert_ne. intros ->. congruence. Qed.

Lemma same_files_delete_temporary p files : is_temporary p = true → delete p files ≡ₜ files.
Proof. intros Hp q Hq. apply lookup_delete_ne. intros ->. congruence. Qed.

(** Calls on a temporary file, and calls that touch no file. *)
Lemma fs_call_files w : w_files (fs_call w).1 = w_files w.
Proof. unfold fs_call. pose proof (next_fault_files w). by destruct (next_fault w). Qed.

Lemma fs_create_dir_all_files p w : w_files (fs_create_dir_all p w).1 = w_files w.
Proof.
  unfold fs_create_dir_all. destruct (is_empty_str p); [done|].
  pose proof (fs_call_files w). by destruct (fs_call w).
Qed.

Lemma fs_open_dir_files p w : w_files (fs_open_dir p w).1 = w_files w.
Proof. unfold fs_open_dir. pose proof (fs_call_files w). by destruct (fs_call w). Qed.

Lemma fs_create_new_temporary p w w' r :
  is_temporary p = true → fs_create_new p w = (w', r) →
  w_files w' ≡ₜ w_files w ∧ (r = true → w_files w' !! p = Some (RegularFile [])).
Proof.
  intros Hp. unfold fs_create_new. pose proof (next_fault_files w) as Hf.
  destruct (next_fault w) as [f w1]. cbn [snd] in Hf. rewrite Hf.
  destruct (w_files w !! p); [intros [= <- <-]; by rewrite Hf|].
  destruct f; intros [= <- <-]; cbn [set_files w_files]; rewrite ?Hf;
    (split; [by rewrite ?same_files_insert_temporary|]); try done.
  intros _. apply lookup_insert_eq.
Qed.

Lemma fs_write_at_temporary p c w w' r :
  is_temporary p = true → w_files w !! p = Some (RegularFile []) →
  fs_write_at p 0 c w = (w', r) →
  w_files w' ≡ₜ w_files w ∧ (r = true → w_files w' !! p = Some (RegularFile c)).
Proof.
  intros Hp Hl. unfold fs_write_at. pose proof (next_fault_files w) as Hf.
  destruct (next_fault w) as [f w1]. cbn [snd] in Hf. rewrite Hf, Hl.
  destruct f; intros [= <- <-]; cbn [set_files w_files]; rewrite ?Hf;
    (split; [by rewrite ?same_files_insert_temporary|]); try done.
  intros _. rewrite lookup_insert_eq. cbn. by rewrite drop_nil, app_nil_r.
Qed.

Lemma fs_rename_temporary p q c w w' r :
  is_temporary p = true → w_files w !! p = Some (RegularFile c) →
  fs_rename p q w = (w', r) →
  w_files w' ≡ₜ <[q := RegularFile c]> (w_files w) ∨ (r = false ∧ w_files w' ≡ₜ w_files w).
Proof.
  intros Hp Hl. unfold fs_rename. pose proof (next_fault_files w) as Hf.
  destruct (next_fault w) as [f w1]. cbn [snd] in Hf. rewrite Hf, Hl.
  destruct (w_files w !! q) as [[]|]; destruct f; intros [= <- <-]; cbn [set_files w_files];
    rewrite ?Hf; try (by right); left; by rewrite same_files_delete_temporary.
Qed.

Lemma fs_remove_temporary p w :
  is_temporary p = true → w_files (fs_remove p w).1 ≡ₜ w_files w.
Proof.
  intros Hp. unfold fs_remove. pose proof (next_fault_files w) as Hf.
  destruct (next_fault w) as [f w1]. cbn [snd] in Hf. rewrite <-Hf.
  destruct f; destruct (w_files w1 !! p) as [[]|]; try done; cbn [fst set_files w_files];
    by apply same_files_delete_temporary.
Qed.
