(* ===== verification/StoreFormat.v ===== *)
(** * The encrypted store's file format ([apps/daemon/src/storage.rs])

    Record classes, the payload codec ([encode_records]/[decode_records]), the file codec
    ([encode_file]/[parse_file]), record and passphrase validation and the key
    derivation. *)
From Stdlib Require Import Ascii NArith Lia ZifyBool ZifyN.
From stdpp Require Import base gmap strings list.
From S2P Require Import Prelude Text Collections Interfaces.

Definition FILE_MAGIC : bytes := as_bytes "ADSTORE1".
Definition FILE_VERSION : N := 1.
Definition SALT_BYTES : nat := 16.
Definition NONCE_BYTES : nat := 12.
Definition KEY_BYTES : nat := 32.
Definition MAX_RECORDS : N := 4096.
Definition MAX_KEY_BYTES : N := 256.
Definition MAX_VALUE_BYTES : N := 4 * 1024 * 1024.
Definition MAX_PASSPHRASE_CHARS : N := 1024.

Inductive StorageError :=
| Io | WeakPassphrase | InvalidPassphrase | CorruptStore | AuthenticationFailed
| RollbackDetected | RecordTooLarge | TooManyRecords | OsKeyStoreUnavailable | Locked.
#[export] Instance StorageError_eq_dec : EqDecision StorageError.
Proof. solve_decision. Defined.

Inductive RecordClass :=
| AccountRoot | Device | ProtocolSession | Transcript | Recovery | Account | Contact
| Conversation | Message | Outbox | Inbox | Attachment | Seen.
#[export] Instance RecordClass_eq_dec : EqDecision RecordClass.
Proof. solve_decision. Defined.

(** The discriminants of the enum, which its derived order compares. *)
Definition class_byte (c : RecordClass) : N :=
  match c with
  | AccountRoot => 1 | Device => 2 | ProtocolSession => 3 | Transcript => 4
  | Recovery => 5 | Account => 6 | Contact => 7 | Conversation => 8 | Message => 9
  | Outbox => 10 | Inbox => 11 | Attachment => 12 | Seen => 13
  end.

Definition from_byte (value : N) : result RecordClass StorageError :=
  match value with
  | 1 => Ok AccountRoot
  | 2 => Ok Device
  | 3 => Ok ProtocolSession
  | 4 => Ok Transcript
  | 5 => Ok Recovery
  | 6 => Ok Account
  | 7 => Ok Contact
  | 8 => Ok Conversation
  | 9 => Ok Message
  | 10 => Ok Outbox
  | 11 => Ok Inbox
  | 12 => Ok Attachment
  | 13 => Ok Seen
  | _ => Err CorruptStore
  end%N.

Lemma from_byte_class c : from_byte (class_byte c) = Ok c.
Proof. by destruct c. Qed.

#[export] Instance class_byte_inj : Inj (=) (=) class_byte.
Proof. intros a b E. pose proof (from_byte_class a) as H. rewrite E, from_byte_class in H. by simplify_eq. Qed.

#[export] Instance RecordClass_countable : Countable RecordClass.
Proof.
  refine (inj_countable' class_byte
            (λ n, match from_byte n with Ok c => c | Err _ => AccountRoot end) _).
  intros c. by rewrite from_byte_class.
Defined.

Abbreviation RecordKey := (RecordClass * string)%type.
Abbreviation Records := (gmap (RecordClass * string) bytes).

(** The derived order of the pair: class first, then key bytes. *)
Definition record_key_le (p q : RecordKey) : Prop :=
  (class_byte p.1 < class_byte q.1)%N ∨ (p.1 = q.1 ∧ String.le p.2 q.2).

#[export] Instance record_key_order : KeyOrder RecordKey.
Proof.
  refine {| key_le := record_key_le |}.
  - intros p q. unfold record_key_le. apply _.
  - split; [split|].
    + intros p. right. split; [done|]. reflexivity.
    + intros [c1 k1] [c2 k2] [c3 k3]. unfold record_key_le. simpl.
      intros [H1|[-> H1]] [H2|[-> H2]]; [left; lia|by left|by left|].
      right. split; [done|]. by etrans.
    + intros [c1 k1] [c2 k2]. unfold record_key_le. simpl.
      intros [H1|[-> H1]] [H2|[E H2]]; try lia; [subst; lia|].
      f_equal. by apply (anti_symm String.le).
  - intros [c1 k1] [c2 k2]. unfold record_key_le. simpl.
    destruct (decide (c1 = c2)) as [->|Hne].
    + destruct (total String.le k1 k2); auto.
    + assert (class_byte c1 ≠ class_byte c2) by (by intros ?%(inj class_byte)). lia.
Defined.

Definition validate_passphrase (passphrase : string) : result unit StorageError :=
  let length := blen (chars passphrase) in
  if (length <? 12)%N then Err WeakPassphrase
  else if (MAX_PASSPHRASE_CHARS <? length)%N then Err InvalidPassphrase
  else Ok tt.

Definition validate_record_key (key : string) : result unit StorageError :=
  if is_empty_str key
     || (MAX_KEY_BYTES <? slen key)%N
     || existsb (λ b, (byte_n b =? 0)%N || is_ascii_control b) (as_bytes key)
  then Err RecordTooLarge
  else Ok tt.

Definition derive_key `{Crypto} (passphrase : string) (salt : bytes)
  : result bytes StorageError :=
  ok_or (argon2id (as_bytes passphrase) salt) AuthenticationFailed.

Definition associated_data (salt : bytes) (revision : N) : bytes :=
  FILE_MAGIC ++ [n_byte FILE_VERSION] ++ salt ++ be_bytes 8 revision.

Definition encode_file (salt : bytes) (revision : N) (nonce ciphertext : bytes) : bytes :=
  FILE_MAGIC ++ [n_byte FILE_VERSION] ++ salt ++ be_bytes 8 revision ++ nonce ++ ciphertext.

Record ParsedFile := {
  pf_salt : bytes; pf_revision : N; pf_nonce : bytes; pf_ciphertext : bytes }.

(** [&bytes[offset..offset + n]]. *)
Definition slice (offset n : nat) (b : bytes) : bytes := take n (drop offset b).

Definition parse_file (b : bytes) : result ParsedFile StorageError :=
  let minimum := (length FILE_MAGIC + 1 + SALT_BYTES + 8 + NONCE_BYTES + 16)%nat in
  if (length b <? minimum)%nat
     || negb (beqb (take 8 b) FILE_MAGIC)
     || negb (beqb (slice 8 1 b) [n_byte FILE_VERSION])
  then Err CorruptStore
  else
    Ok {| pf_salt := slice 9 SALT_BYTES b;
          pf_revision := be_value (slice (9 + SALT_BYTES) 8 b);
          pf_nonce := slice (9 + SALT_BYTES + 8) NONCE_BYTES b;
          pf_ciphertext := drop (9 + SALT_BYTES + 8 + NONCE_BYTES) b |}.

Definition PAYLOAD_MAGIC : bytes := as_bytes "ADPAY1".

Definition encode_record (class : RecordClass) (key : string) (value : bytes) : bytes :=
  n_byte (class_byte class) :: be_bytes 2 (slen key) ++ be_bytes 4 (blen value)
    ++ as_bytes key ++ value.

(** The loop of [encode_records]. *)
Fixpoint encode_entries (l : list (RecordKey * bytes)) (acc : bytes)
  : result bytes StorageError :=
  match l with
  | [] => Ok acc
  | ((class, key), value) :: t =>
    let? _ := validate_record_key key in
    if (MAX_VALUE_BYTES <? blen value)%N then Err RecordTooLarge
    else encode_entries t (acc ++ encode_record class key value)
  end.

Definition encode_records (records : Records) : result bytes StorageError :=
  if (MAX_RECORDS <? N.of_nat (size records))%N then Err TooManyRecords
  else encode_entries (btree_iter records)
         (PAYLOAD_MAGIC ++ be_bytes 4 (N.of_nat (size records))).

(** The loop of [decode_records]: [b] is the input from [offset] on. *)
Fixpoint decode_entries (count : nat) (b : bytes) (records : Records)
  : result (Records * bytes) StorageError :=
  match count with
  | O => Ok (records, b)
  | S count' =>
    if (length b <? 7)%nat then Err CorruptStore
    else
      let? class := from_byte (be_value (slice 0 1 b)) in
      let key_len := be_value (slice 1 2 b) in
      let value_len := be_value (slice 3 4 b) in
      let b := drop 7 b in
      if (MAX_KEY_BYTES <? key_len)%N || (MAX_VALUE_BYTES <? value_len)%N
         || (blen b <? key_len + value_len)%N
      then Err CorruptStore
      else
        let? key := ok_or (from_utf8 (take (N.to_nat key_len) b)) CorruptStore in
        let b := drop (N.to_nat key_len) b in
        let? _ := validate_record_key key in
        let value := take (N.to_nat value_len) b in
        let b := drop (N.to_nat value_len) b in
        match records !! (class, key) with
        | Some _ => Err CorruptStore
        | None => decode_entries count' b (<[(class, key) := value]> records)
        end
  end.

Definition decode_records (b : bytes) : result Records StorageError :=
  if (length b <? 10)%nat || negb (beqb (take 6 b) PAYLOAD_MAGIC) then Err CorruptStore
  else
    let count := be_value (slice 6 4 b) in
    if (MAX_RECORDS <? count)%N then Err TooManyRecords
    else
      let? res := decode_entries (N.to_nat count) (drop 10 b) ∅ in
      match res.2 with
      | [] => Ok res.1
      | _ => Err CorruptStore
      end.

(** ** Lemmas *)

(** A record that may be stored: its key passes [validate_record_key] and, being a Rust
    string, is UTF-8; its value is within the limit. *)
Definition record_ok (p : RecordKey * bytes) : Prop :=
  validate_record_key p.1.2 = Ok tt ∧ utf8_valid (as_bytes p.1.2) = true ∧
  (blen p.2 ≤ MAX_VALUE_BYTES)%N.

Definition records_ok (records : Records) : Prop :=
  (N.of_nat (size records) ≤ MAX_RECORDS)%N ∧ ∀ k v, records !! k = Some v → record_ok (k, v).

Lemma from_utf8_valid s : utf8_valid (as_bytes s) = true → from_utf8 (as_bytes s) = Some s.
Proof. intros H. unfold from_utf8. by rewrite H, of_as_bytes. Qed.

Lemma validate_record_key_cases key :
  validate_record_key key = Ok tt ∨ validate_record_key key = Err RecordTooLarge.
Proof. unfold validate_record_key. case_match; auto. Qed.

Lemma validate_record_key_len key : validate_record_key key = Ok tt → (slen key ≤ MAX_KEY_BYTES)%N.
Proof.
  unfold validate_record_key. case_match eqn:E; [done|]. intros _. bool_props. lia.
Qed.

Lemma encode_entries_ok l acc :
  Forall record_ok l →
  encode_entries l acc = Ok (acc ++ concat (map (λ p, encode_record p.1.1 p.1.2 p.2) l)).
Proof.
  intros Hl. revert acc. induction Hl as [|[[c k] v] l (Hk & _ & Hv) _ IH]; intros acc;
    cbn [encode_entries map concat fst snd] in *.
  - by rewrite app_nil_r.
  - rewrite Hk. cbn [result_bind]. rewrite (proj2 (N.ltb_ge _ _) Hv), IH. by rewrite <-app_assoc.
Qed.

(** Whatever encodes is within the limits. *)
Lemma encode_entries_inv l acc b :
  encode_entries l acc = Ok b →
  Forall (λ p, validate_record_key p.1.2 = Ok tt ∧ (blen p.2 ≤ MAX_VALUE_BYTES)%N) l.
Proof.
  revert acc. induction l as [|[[c k] v] l IH]; intros acc; cbn [encode_entries]; [constructor|].
  destruct (validate_record_key_cases k) as [Hk|Hk]; rewrite Hk; cbn [result_bind]; [|done].
  destruct (MAX_VALUE_BYTES <? blen v)%N eqn:Hv; [done|]. intros H.
  constructor; [|by eapply IH]. split; [done|]. by apply N.ltb_ge.
Qed.

Lemma be_value_class c : be_value [n_byte (class_byte c)] = class_byte c.
Proof. by destruct c. Qed.

(** One step of decoding over an encoded record. *)
Lemma decode_entries_step n c k v rest records :
  record_ok ((c, k), v) → records !! (c, k) = None →
  decode_entries (S n) (encode_record c k v ++ rest) records
  = decode_entries n rest (<[(c, k) := v]> records).
Proof.
  intros (Hk & Hu & Hv) Hnone. cbn [fst snd] in *. pose proof (validate_record_key_len k Hk) as Hkl.
  set (kb := as_bytes k). assert (Hkb : length kb = String.length k) by apply length_as_bytes.
  unfold encode_record. fold kb.
  assert (H2 := length_be_bytes 2 (slen k)). assert (H4 := length_be_bytes 4 (blen v)).
  assert (E2 : be_value (be_bytes 2 (slen k)) = slen k).
  { apply be_value_u16. unfold MAX_KEY_BYTES, u16_max in *. lia. }
  assert (E4 : be_value (be_bytes 4 (blen v)) = blen v).
  { apply be_value_u32. unfold MAX_VALUE_BYTES, u32_max in *. lia. }
  remember (be_bytes 2 (slen k)) as b2 eqn:Hb2. remember (be_bytes 4 (blen v)) as b4 eqn:Hb4.
  destruct b2 as [|x0 [|x1 [|]]]; try done. destruct b4 as [|y0 [|y1 [|y2 [|y3 [|]]]]]; try done.
  cbn [decode_entries app length Nat.ltb Nat.leb slice take drop].
  unfold slice. cbn [take drop]. rewrite be_value_class, from_byte_class. cbn [result_bind].
  rewrite !take_0, !drop_0, E2, E4, (proj2 (N.ltb_ge _ _) Hkl), (proj2 (N.ltb_ge _ _) Hv). cbn [orb].
  replace (blen ((kb ++ v) ++ rest) <? slen k + blen v)%N with false; cycle 1.
  { symmetry. apply N.ltb_ge. unfold blen, slen. rewrite !length_app, Hkb. lia. }
  unfold slen, blen. rewrite !Nat2N.id, <-Hkb, <-!app_assoc.
  rewrite take_app_length, drop_app_length, take_app_length, drop_app_length.
  unfold kb. rewrite from_utf8_valid by done. cbn [ok_or result_bind]. rewrite Hk.
  cbn [result_bind]. by rewrite Hnone.
Qed.

Lemma decode_encoded_entries l rest records :
  Forall record_ok l → NoDup l.*1 → (∀ p, p ∈ l → records !! p.1 = None) →
  decode_entries (length l)
    (concat (map (λ p, encode_record p.1.1 p.1.2 p.2) l) ++ rest) records
  = Ok (list_to_map l ∪ records, rest).
Proof.
  intros Hl. revert records.
  induction Hl as [|[[c k] v] l Hp _ IH]; intros records Hnd Hnone.
  { cbn [length decode_entries map concat app list_to_map foldr]. by rewrite (left_id_L ∅ (∪)). }
  cbn [length map concat fst snd]. rewrite <-app_assoc. cbn [fmap list_fmap fst] in Hnd.
  apply NoDup_cons in Hnd as [Hnin Hnd].
  rewrite decode_entries_step; [|done|apply (Hnone ((c, k), v)); left].
  rewrite IH; [|done|].
  - f_equal. f_equal. cbn [list_to_map foldr uncurry fst snd].
    rewrite <-insert_union_l, insert_union_r; [done|]. by apply not_elem_of_list_to_map_1.
  - intros q Hq. rewrite lookup_insert_ne; [apply Hnone; by right|].
    intros E. apply Hnin. rewrite E. by apply list_elem_of_fmap_2.
Qed.

Lemma Forall_btree_iter {V} (P : RecordKey * V → Prop) (m : gmap RecordKey V) :
  (∀ k v, m !! k = Some v → P (k, v)) → Forall P (btree_iter m).
Proof.
  intros H. apply Forall_forall. intros [k v] Hin. apply H. by apply elem_of_btree_iter.
Qed.

Lemma encode_records_value records :
  records_ok records →
  encode_records records
  = Ok (PAYLOAD_MAGIC ++ be_bytes 4 (N.of_nat (size records))
        ++ concat (map (λ p, encode_record p.1.1 p.1.2 p.2) (btree_iter records))).
Proof.
  intros [Hs Hr]. unfold encode_records. rewrite (proj2 (N.ltb_ge _ _) Hs).
  rewrite encode_entries_ok by (by apply Forall_btree_iter). by rewrite <-app_assoc.
Qed.

Lemma decode_encode_records records b :
  records_ok records → encode_records records = Ok b → decode_records b = Ok records.
Proof.
  intros Hok. rewrite encode_records_value by done. set (enc := _ ++ _).
  intros [= <-]. subst enc. destruct Hok as [Hs Hr].
  assert (E4 : be_value (be_bytes 4 (N.of_nat (size records))) = N.of_nat (size records)).
  { apply be_value_u32. unfold MAX_RECORDS, u32_max in *. lia. }
  assert (H4 := length_be_bytes 4 (N.of_nat (size records))).
  set (es := concat _). remember (be_bytes 4 _) as b4 eqn:Hb4.
  destruct b4 as [|y0 [|y1 [|y2 [|y3 [|]]]]]; try done.
  unfold decode_records, slice. cbn -[decode_entries N.ltb be_value beqb MAX_RECORDS].
  rewrite !take_0, drop_0, beqb_refl. cbn [negb orb]. rewrite E4, (proj2 (N.ltb_ge _ _) Hs), Nat2N.id.
  rewrite <-(app_nil_r es), <-length_btree_iter. subst es.
  rewrite decode_encoded_entries.
  - cbn [result_bind snd fst]. by rewrite btree_iter_to_map, (right_id_L ∅ (∪)).
  - by apply Forall_btree_iter.
  - apply NoDup_btree_keys.
  - intros p _. apply lookup_empty.
Qed.

Lemma parse_encode_file salt revision nonce ciphertext :
  length salt = SALT_BYTES → length nonce = NONCE_BYTES → (revision ≤ u64_max)%N →
  (16 ≤ length ciphertext)%nat →
  parse_file (encode_file salt revision nonce ciphertext)
  = Ok {| pf_salt := salt; pf_revision := revision; pf_nonce := nonce;
          pf_ciphertext := ciphertext |}.
Proof.
  intros Hs Hn Hr Hc. unfold parse_file, encode_file, slice.
  assert (H8 := length_be_bytes 8 revision).
  assert (Hl : length (FILE_MAGIC ++ [n_byte FILE_VERSION] ++ salt ++ be_bytes 8 revision ++ nonce ++ ciphertext)
               = (8 + 1 + 16 + 8 + 12 + length ciphertext)%nat).
  { rewrite !length_app, Hs, Hn, H8. done. }
  rewrite Hl. replace (_ <? _)%nat with false
    by (symmetry; apply Nat.ltb_ge; unfold SALT_BYTES, NONCE_BYTES; cbn [length FILE_MAGIC as_bytes String.list_ascii_of_string]; lia).
  change (FILE_MAGIC ++ [n_byte FILE_VERSION] ++ salt ++ be_bytes 8 revision ++ nonce ++ ciphertext)
    with (FILE_MAGIC ++ n_byte FILE_VERSION :: salt ++ be_bytes 8 revision ++ nonce ++ ciphertext).
  cbn [orb]. rewrite take_app_length' by done. rewrite beqb_refl.
  rewrite (drop_app_length' FILE_MAGIC) by done. cbn [take]. rewrite beqb_refl. cbn [negb orb].
  set (tl := salt ++ _).
  assert (Hd : ∀ k n, n = (9 + k)%nat → drop n (FILE_MAGIC ++ n_byte FILE_VERSION :: tl) = drop k tl).
  { intros k n ->. by rewrite <-drop_drop. }
  f_equal. unfold SALT_BYTES, NONCE_BYTES in *.
  rewrite (Hd 0 9), (Hd 16 _), (Hd 24 _), (Hd 36 _) by done. subst tl.
  f_equal.
  - by rewrite drop_0, take_app_length'.
  - rewrite drop_app_length' by done. rewrite take_app_length' by done. by apply be_value_u64.
  - rewrite app_assoc, drop_app_length' by (rewrite length_app; lia). by apply take_app_length'.
  - rewrite !app_assoc, drop_app_length'; [done|]. rewrite !length_app. lia.
Qed.
