(* ===== verification/Storage.v ===== *)
(** * The encrypted record store ([apps/daemon/src/storage.rs])

    [EncryptedStore]: creation, opening with rollback detection, the record operations
    and their commit to disk, locking and wiping. The state of a method is the store in
    memory together with the world of [Fs.v]. [RecordStore] is what the rest of the
    daemon relies on: put, delete, batch and get with their laws. *)
From Stdlib Require Import Ascii NArith Lia ZifyBool ZifyN.
From stdpp Require Import base gmap strings list.
From S2P Require Import Prelude Text Collections Interfaces Paths Fs StoreFormat.

(** ** Files *)

(** A system call that succeeds or not. *)
Definition io (call : World → World * bool) : Mut World unit StorageError :=
  λ w, let '(w, done) := call w in (w, if done then Ok tt else Err Io).

(** The closure of [atomic_write]: create the temporary file, write and sync it, restrict its
    permissions, rename it over the target and sync the directory. *)
Definition write_and_rename (path temporary : string) (contents : bytes)
  : Mut World unit StorageError :=
  let! _ := io (fs_create_new temporary) in
  let! _ := io (fs_write_at temporary 0 contents) in
  let! _ := io fs_call in
  let! _ := io fs_call in
  let! _ := io fs_call in
  let! _ := io (fs_rename temporary path) in
  match path_parent path with
  | Some parent => let! _ := io (fs_open_dir parent) in io fs_call
  | None => mut_ret tt
  end.

Definition atomic_write (path : string) (contents : bytes) : Mut World unit StorageError :=
  let! _ :=
    match path_parent path with
    | Some parent => io (fs_create_dir_all parent)
    | None => mut_ret tt
    end in
  λ w,
    let '(w, suffix) := secure_random 8 w in
    match suffix with
    | None => (w, Err Io)
    | Some suffix =>
      let temporary := temporary_path path (w_pid w) suffix in
      let '(w, result) := write_and_rename path temporary contents w in
      (if is_err result then (fs_remove temporary w).1 else w, result)
    end.

(** [symlink_metadata] and [set_permissions] are one system call each. *)
Definition ensure_private_file (path : string) : Mut World bool StorageError :=
  λ w,
    let '(f, w) := next_fault w in
    match f with
    | NoFault =>
      match w_files w !! path with
      | None => (w, Ok false)
      | Some (RegularFile _) =>
        let '(f, w) := next_fault w in
        match f with NoFault => (w, Ok true) | _ => (w, Err Io) end
      | Some _ => (w, Err CorruptStore)
      end
    | _ => (w, Err Io)
    end.

Definition read_marker (path : string) : Mut World (option N) StorageError :=
  λ w,
    let '(w, r) := fs_read path w in
    (w, match r with
        | ReadOk b =>
          match from_utf8 b with
          | Some value => let? m := ok_or (parse_u64 (trim value)) CorruptStore in Ok (Some m)
          | None => Err Io
          end
        | ReadNotFound => Ok None
        | ReadFailed => Err Io
        end).

(** [fs::read(path)?]. *)
Definition read_file (path : string) : Mut World bytes StorageError :=
  λ w,
    let '(w, r) := fs_read path w in
    (w, match r with ReadOk b => Ok b | _ => Err Io end).

(** [fs::read] where a missing file is not an error. *)
Definition read_optional (path : string) : Mut World (option bytes) StorageError :=
  λ w,
    let '(w, r) := fs_read path w in
    (w, match r with ReadOk b => Ok (Some b) | ReadNotFound => Ok None | ReadFailed => Err Io end).

(** [fs::remove_file] where a missing file is not an error. *)
Definition remove_optional (path : string) : Mut World unit StorageError :=
  λ w,
    let '(w, r) := fs_remove path w in
    (w, match r with RemoveFailed => Err Io | _ => Ok tt end).

(** ** The store *)

Record EncryptedStore := {
  s_path : string;
  s_marker_path : string;
  s_key : bytes;
  s_salt : bytes;
  s_revision : N;
  s_records : Records;
  s_locked : bool;
}.

Definition set_records (r : Records) (s : EncryptedStore) : EncryptedStore :=
  {| s_path := s_path s; s_marker_path := s_marker_path s; s_key := s_key s;
     s_salt := s_salt s; s_revision := s_revision s; s_records := r; s_locked := s_locked s |}.
Definition set_revision (n : N) (s : EncryptedStore) : EncryptedStore :=
  {| s_path := s_path s; s_marker_path := s_marker_path s; s_key := s_key s;
     s_salt := s_salt s; s_revision := n; s_records := s_records s; s_locked := s_locked s |}.

Definition lift_w {S A E} (m : Mut World A E) : Mut (S * World) A E :=
  λ '(s, w), let '(w', r) := m w in ((s, w'), r).

Definition marker_path (path : string) : string := path +:+ ".revision".

Section store.
Context `{Crypto}.

(** [Aes256Gcm::new_from_slice] takes a 32-byte key. *)
Definition aes_new (key : bytes) : result bytes StorageError :=
  if (length key =? KEY_BYTES)%nat then Ok key else Err CorruptStore.

Definition write_marker (s : EncryptedStore) (revision : N) : Mut World unit StorageError :=
  atomic_write (s_marker_path s) (as_bytes (u64_to_string revision)).

(** Encrypting the records under the next revision: the file [commit] and [persist]
    write. *)
Definition seal (s : EncryptedStore) (revision : N) : Mut World bytes StorageError :=
  λ w,
    match encode_records (s_records s) with
    | Err e => (w, Err e)
    | Ok plaintext =>
      let '(w, r) := secure_random NONCE_BYTES w in
      match r with
      | None => (w, Err Io)
      | Some nonce =>
        (w, let? key := aes_new (s_key s) in
            let? ciphertext :=
              ok_or (aes_encrypt key nonce (associated_data (s_salt s) revision) plaintext) Io in
            Ok (encode_file (s_salt s) revision nonce ciphertext))
      end
    end.

(** Undoing a half-done commit after the marker could not be written. *)
Definition rollback (s : EncryptedStore) (previous_store : bytes)
    (previous_marker : option bytes) (error : StorageError) : Mut World unit StorageError :=
  λ w,
    let '(w, store_restored) := atomic_write (s_path s) previous_store w in
    let '(w, marker_restored) :=
      match previous_marker with
      | Some m => atomic_write (s_marker_path s) m w
      | None => remove_optional (s_marker_path s) w
      end in
    (w, if is_err store_restored || is_err marker_restored then Err Io else Err error).

Definition commit : Mut (EncryptedStore * World) unit StorageError :=
  λ '(s, w),
    if s_locked s then ((s, w), Err Locked)
    else if (MAX_RECORDS <? N.of_nat (size (s_records s)))%N then ((s, w), Err TooManyRecords)
    else
      match u64_checked_add (s_revision s) 1 with
      | None => ((s, w), Err RollbackDetected)
      | Some next_revision =>
        (let! contents := lift_w (seal s next_revision) in
         let! previous_store := lift_w (read_file (s_path s)) in
         let! previous_marker := lift_w (read_optional (s_marker_path s)) in
         let! _ := lift_w (atomic_write (s_path s) contents) in
         λ '(s, w),
           match write_marker s next_revision w with
           | (w, Err error) => lift_w (rollback s previous_store previous_marker error) (s, w)
           | (w, Ok _) => ((set_revision next_revision s, w), Ok tt)
           end) (s, w)
      end.

Definition put (class : RecordClass) (key : string) (value : bytes)
  : Mut (EncryptedStore * World) unit StorageError :=
  λ '(s, w),
    if s_locked s then ((s, w), Err Locked)
    else
      match validate_record_key key with
      | Err e => ((s, w), Err e)
      | Ok _ =>
        if (MAX_VALUE_BYTES <? blen value)%N then ((s, w), Err RecordTooLarge)
        else
          let previous := s_records s !! (class, key) in
          let s := set_records (<[(class, key) := value]> (s_records s)) s in
          match commit (s, w) with
          | ((s, w), Err error) =>
            let records :=
              match previous with
              | Some old => <[(class, key) := old]> (s_records s)
              | None => delete (class, key) (s_records s)
              end in
            ((set_records records s, w), Err error)
          | r => r
          end
      end.

Definition get (s : EncryptedStore) (class : RecordClass) (key : string) : option bytes :=
  if s_locked s then None else s_records s !! (class, key).

Definition records_with_prefix_page (s : EncryptedStore) (class : RecordClass)
    (prefix : string) (offset limit : nat) : list (string * bytes) :=
  if s_locked s then []
  else
    map (λ p, (p.1.2, p.2))
      (take limit (drop offset
        (filter (λ p, bool_decide (p.1.1 = class) && starts_with prefix p.1.2 = true)
           (btree_iter (s_records s))))).

Definition records_with_prefix (s : EncryptedStore) (class : RecordClass) (prefix : string)
  : list (string * bytes) :=
  records_with_prefix_page s class prefix 0 (N.to_nat MAX_RECORDS).

Inductive RecordMutation :=
| Put (class : RecordClass) (key : string) (value : bytes)
| Delete (class : RecordClass) (key : string).

(** The loop of [apply_batch]: the records as far as the batch went, and its error. *)
Fixpoint apply_mutations (ms : list RecordMutation) : Mut Records unit StorageError :=
  λ records,
    match ms with
    | [] => (records, Ok tt)
    | Put class key value :: t =>
      match validate_record_key key with
      | Err e => (records, Err e)
      | Ok _ =>
        if (MAX_VALUE_BYTES <? blen value)%N then (records, Err RecordTooLarge)
        else apply_mutations t (<[(class, key) := value]> records)
      end
    | Delete class key :: t =>
      match validate_record_key key with
      | Err e => (records, Err e)
      | Ok _ => apply_mutations t (delete (class, key) records)
      end
    end.

Definition apply_batch (ms : list RecordMutation)
  : Mut (EncryptedStore * World) unit StorageError :=
  λ '(s, w),
    if s_locked s then ((s, w), Err Locked)
    else
      let previous := s_records s in
      match apply_mutations ms (s_records s) with
      | (records, Err e) => ((set_records records s, w), Err e)
      | (records, Ok _) =>
        match commit (set_records records s, w) with
        | ((s, w), Err error) => ((set_records previous s, w), Err error)
        | r => r
        end
      end.

Definition delete_record (class : RecordClass) (key : string)
  : Mut (EncryptedStore * World) bool StorageError :=
  λ '(s, w),
    if s_locked s then ((s, w), Err Locked)
    else
      match s_records s !! (class, key) with
      | None => ((s, w), Ok false)
      | Some previous =>
        match commit (set_records (delete (class, key) (s_records s)) s, w) with
        | ((s, w), Err error) =>
          ((set_records (<[(class, key) := previous]> (s_records s)) s, w), Err error)
        | (sw, Ok _) => (sw, Ok true)
        end
      end.

Definition record_count (s : EncryptedStore) : nat :=
  if s_locked s then 0 else size (s_records s).

(** Zeroizing overwrites the key with zero bytes. *)
Definition lock (s : EncryptedStore) : EncryptedStore :=
  {| s_path := s_path s; s_marker_path := s_marker_path s;
     s_key := replicate (length (s_key s)) Ascii.zero; s_salt := s_salt s;
     s_revision := s_revision s; s_records := ∅; s_locked := true |}.

Definition wipe_files : Mut (EncryptedStore * World) unit StorageError :=
  λ '(s, w),
    (let! _ := lift_w (remove_optional (s_path s)) in
     lift_w (remove_optional (s_marker_path s))) (lock s, w).

(** ** Creating and opening *)

Definition persist (s : EncryptedStore) : Mut World unit StorageError :=
  let! contents := seal s (s_revision s) in
  let! _ := atomic_write (s_path s) contents in
  λ w,
    match write_marker s (s_revision s) w with
    | (w, Err error) =>
      let w := (fs_remove (s_path s) w).1 in
      let w := (fs_remove (s_marker_path s) w).1 in
      (w, Err error)
    | r => r
    end.

Definition initialize_with_key (path : string) (key salt : bytes)
  : Mut World EncryptedStore StorageError :=
  let! existed := ensure_private_file path in
  if existed then mut_err CorruptStore
  else
    let store := {| s_path := path; s_marker_path := marker_path path; s_key := key;
                    s_salt := salt; s_revision := 0; s_records := ∅; s_locked := false |} in
    λ w,
      match persist store w with
      | (w, Err error) =>
        let w := (fs_remove (s_path store) w).1 in
        let w := (fs_remove (s_marker_path store) w).1 in
        (w, Err error)
      | (w, Ok _) => (w, Ok store)
      end.

Definition random_io (n : nat) : Mut World bytes StorageError :=
  λ w, let '(w, r) := secure_random n w in (w, ok_or r Io).

Definition initialize_with_database_key (path : string) (key : bytes)
  : Mut World EncryptedStore StorageError :=
  let! salt := random_io SALT_BYTES in
  initialize_with_key path key salt.

Definition initialize (path passphrase : string) : Mut World EncryptedStore StorageError :=
  let! _ := mut_lift (validate_passphrase passphrase) in
  let! salt := random_io SALT_BYTES in
  let! key := mut_lift (derive_key passphrase salt) in
  initialize_with_key path key salt.

Definition open_with_key (path : string) (key : bytes) (parsed : ParsedFile)
  : Mut World EncryptedStore StorageError :=
  let! key := mut_lift (aes_new key) in
  let! plaintext :=
    mut_lift (ok_or (aes_decrypt key (pf_nonce parsed)
                       (associated_data (pf_salt parsed) (pf_revision parsed))
                       (pf_ciphertext parsed)) AuthenticationFailed) in
  let! records := mut_lift (decode_records plaintext) in
  let! _ := ensure_private_file (marker_path path) in
  let! marker := read_marker (marker_path path) in
  if match marker with Some m => (pf_revision parsed <? m)%N | None => false end
  then mut_err RollbackDetected
  else
    let store := {| s_path := path; s_marker_path := marker_path path; s_key := key;
                    s_salt := pf_salt parsed; s_revision := pf_revision parsed;
                    s_records := records; s_locked := false |} in
    let! marker := read_marker (s_marker_path store) in
    if match marker with Some m => (m <? s_revision store)%N | None => true end
    then let! _ := write_marker store (s_revision store) in mut_ret store
    else mut_ret store.

Definition open_with_database_key (path : string) (key : bytes)
  : Mut World EncryptedStore StorageError :=
  let! _ := ensure_private_file path in
  let! contents := read_file path in
  let! parsed := mut_lift (parse_file contents) in
  open_with_key path key parsed.

Definition open (path passphrase : string) : Mut World EncryptedStore StorageError :=
  let! _ := mut_lift (validate_passphrase passphrase) in
  let! _ := ensure_private_file path in
  let! contents := read_file path in
  let! parsed := mut_lift (parse_file contents) in
  let! key := mut_lift (derive_key passphrase (pf_salt parsed)) in
  open_with_key path key parsed.

Definition rekey_to (s : EncryptedStore) (destination new_passphrase : string)
  : Mut World unit StorageError :=
  if s_locked s then mut_err Locked
  else
    let! replacement := initialize destination new_passphrase in
    let mutations := map (λ p, Put p.1.1 p.1.2 p.2) (btree_iter (s_records s)) in
    λ w, let '((_, w), r) := apply_batch mutations (replacement, w) in (w, r).
End store.
