(* ===== verification/RecordStore.v ===== *)
(** * The record store as its clients see it

    The contacts, the delivery ledger, the device registry and the pairing state live in
    records of the encrypted store. Their theorems are proved against this interface; the
    encrypted store implements it ([StorageLaws.v]). *)
From Stdlib Require Import Ascii NArith.
From stdpp Require Import base gmap strings list.
From S2P Require Import Prelude Text StoreFormat Storage.

Class RecordStore (S : Type) := {
  store_put : RecordClass → string → bytes → Mut S unit StorageError;
  store_delete : RecordClass → string → Mut S bool StorageError;
  store_batch : list RecordMutation → Mut S unit StorageError;
  store_get : S → RecordClass → string → option bytes;
}.

(** A batch whose records all pass validation. *)
Definition mutation_ok (m : RecordMutation) : bool :=
  match m with
  | Put _ key value => is_ok (validate_record_key key) && (blen value <=? MAX_VALUE_BYTES)%N
  | Delete _ key => is_ok (validate_record_key key)
  end.

(** What a batch does to the records a client can read. *)
Definition view : Type := RecordClass → string → option bytes.
Definition view_update (c : RecordClass) (k : string) (o : option bytes) (f : view) : view :=
  λ c' k', if decide ((c', k') = (c, k)) then o else f c' k'.
Fixpoint view_batch (ms : list RecordMutation) (f : view) : view :=
  match ms with
  | [] => f
  | Put c k v :: t => view_batch t (view_update c k (Some v) f)
  | Delete c k :: t => view_batch t (view_update c k None f)
  end.

(** Where a failed batch ended: before its first mutation, or at a mutation that is refused. *)
Definition stopped (before after : list RecordMutation) : Prop :=
  before = [] ∨ ∃ m rest, after = m :: rest ∧ mutation_ok m = false.

(** The contract: a successful operation has exactly its effect, and a failed one has none,
    but for a batch that is refused in the middle: the mutations before that one stay. *)
Class RecordStoreLaws (S : Type) `{RecordStore S} := {
  store_inv : S → Prop;
  store_put_inv : ∀ c k v s s' r, store_inv s → store_put c k v s = (s', r) → store_inv s';
  store_put_ok : ∀ c k v s s', store_inv s → store_put c k v s = (s', Ok tt) →
    ∀ c' k', store_get s' c' k' = view_update c k (Some v) (store_get s) c' k';
  store_put_err : ∀ c k v s s' e, store_inv s → store_put c k v s = (s', Err e) →
    ∀ c' k', store_get s' c' k' = store_get s c' k';
  store_delete_inv : ∀ c k s s' r, store_inv s → store_delete c k s = (s', r) → store_inv s';
  store_delete_ok : ∀ c k s s' b, store_inv s → store_delete c k s = (s', Ok b) →
    b = bool_decide (is_Some (store_get s c k)) ∧
    ∀ c' k', store_get s' c' k' = view_update c k None (store_get s) c' k';
  store_delete_err : ∀ c k s s' e, store_inv s → store_delete c k s = (s', Err e) →
    ∀ c' k', store_get s' c' k' = store_get s c' k';
  store_batch_inv : ∀ ms s s' r, store_inv s → store_batch ms s = (s', r) → store_inv s';
  store_batch_ok : ∀ ms s s', store_inv s → store_batch ms s = (s', Ok tt) →
    ∀ c k, store_get s' c k = view_batch ms (store_get s) c k;
  store_batch_err : ∀ ms s s' e, store_inv s → forallb mutation_ok ms = true →
    store_batch ms s = (s', Err e) → ∀ c k, store_get s' c k = store_get s c k;
  store_batch_stop : ∀ ms s s' e, store_inv s → store_batch ms s = (s', Err e) →
    ∃ before after, ms = before ++ after ∧ stopped before after ∧
      ∀ c k, store_get s' c k = view_batch before (store_get s) c k;
}.

Lemma view_update_eq c k o f : view_update c k o f c k = o.
Proof. unfold view_update. by rewrite decide_True. Qed.
Lemma view_update_ne c k o f c' k' : (c', k') ≠ (c, k) → view_update c k o f c' k' = f c' k'.
Proof. intros. unfold view_update. by rewrite decide_False. Qed.
#[export] Hint Rewrite view_update_eq : rust.

(** [records_with_prefix]. A store with no more than [MAX_RECORDS] records is [scannable]: no
    record is cut off. *)
Class RecordScan (S : Type) :=
  store_prefix : S → RecordClass → string → list (string * bytes).

Class RecordScanLaws (S : Type) `{RecordStoreLaws S, RecordScan S} := {
  scannable : S → Prop;
  store_prefix_nodup : ∀ s c p, store_inv s → NoDup (store_prefix s c p).*1;
  store_prefix_spec : ∀ s c p k v, store_inv s → scannable s →
    (k, v) ∈ store_prefix s c p ↔ store_get s c k = Some v ∧ starts_with p k = true;
}.

(** ** Batches at one record *)

Definition mutation_key (m : RecordMutation) : RecordClass * string :=
  match m with Put c k _ | Delete c k => (c, k) end.
Definition mutation_value (m : RecordMutation) : option bytes :=
  match m with Put _ _ v => Some v | Delete _ _ => None end.

Lemma view_batch_cons m ms f :
  view_batch (m :: ms) f
  = view_batch ms (view_update (mutation_key m).1 (mutation_key m).2 (mutation_value m) f).
Proof. by destruct m. Qed.

(** A record after a batch is as before, or what one of its mutations makes of it. *)
Lemma view_batch_cases ms f c k :
  view_batch ms f c k = f c k ∨
  ∃ m, m ∈ ms ∧ mutation_key m = (c, k) ∧ view_batch ms f c k = mutation_value m.
Proof.
  revert f. induction ms as [|m ms IH]; intros f; [by left|]. rewrite view_batch_cons.
  destruct (IH (view_update (mutation_key m).1 (mutation_key m).2 (mutation_value m) f))
    as [E|(m' & Hm' & Hk & E)].
  - rewrite E. unfold view_update. case_decide as Hd; [|by left].
    right. exists m. split_and!; [by left|by destruct (mutation_key m)|done].
  - right. exists m'. split_and!; [by right|done..].
Qed.

Lemma view_batch_untouched ms f c k :
  (∀ m, m ∈ ms → mutation_key m ≠ (c, k)) → view_batch ms f c k = f c k.
Proof. intros Hn. destruct (view_batch_cases ms f c k) as [|(m & Hm & E & _)]; [done|]. by apply Hn in Hm. Qed.

Section batches.
Context {S : Type} `{RecordStoreLaws S}.

(** The same of the store, whether the batch succeeds or not. *)
Lemma store_batch_cases ms (s s' : S) r c k :
  store_inv s → store_batch ms s = (s', r) →
  store_get s' c k = store_get s c k ∨
  ∃ m, m ∈ ms ∧ mutation_key m = (c, k) ∧ store_get s' c k = mutation_value m.
Proof using Type.
  intros Hs Hb. destruct r as [[]|e].
  - rewrite (store_batch_ok _ _ _ Hs Hb). apply view_batch_cases.
  - destruct (store_batch_stop _ _ _ _ Hs Hb) as (before & after & -> & _ & E).
    rewrite E. destruct (view_batch_cases before (store_get s) c k) as [|(m & Hm & Hk & E')]; [by left|].
    right. exists m. split_and!; [set_solver|done..].
Qed.

Lemma store_batch_untouched ms (s s' : S) r c k :
  store_inv s → store_batch ms s = (s', r) →
  (∀ m, m ∈ ms → mutation_key m ≠ (c, k)) → store_get s' c k = store_get s c k.
Proof using Type.
  intros Hs Hb Hn. destruct (store_batch_cases _ _ _ _ c k Hs Hb) as [|(m & Hm & E & _)]; [done|].
  by apply Hn in Hm.
Qed.

(** A batch of one mutation that fails has no effect. *)
Lemma store_batch_single m (s s' : S) e c k :
  store_inv s → store_batch [m] s = (s', Err e) → store_get s' c k = store_get s c k.
Proof using Type.
  intros Hs Hb. destruct (store_batch_stop _ _ _ _ Hs Hb) as (before & after & E & Hst & ->).
  destruct Hst as [->|(m' & rest & -> & _)]; [done|].
  destruct before as [|m0 [|m1 before]]; by simplify_list_eq.
Qed.
End batches.

(** A record that a batch mentions has the value one of its mutations gives it. *)
Lemma view_batch_touched ms f c k :
  (∃ m, m ∈ ms ∧ mutation_key m = (c, k)) →
  ∃ m, m ∈ ms ∧ mutation_key m = (c, k) ∧ view_batch ms f c k = mutation_value m.
Proof.
  revert f. induction ms as [|m ms IH]; intros f (m0 & Hm0 & Hk0); [set_solver|].
  rewrite view_batch_cons.
  destruct (view_batch_cases ms
    (view_update (mutation_key m).1 (mutation_key m).2 (mutation_value m) f) c k)
    as [E|(m' & Hm' & Hk & E)]; [|exists m'; split_and!; [by right|done..]].
  apply elem_of_cons in Hm0 as [->|Hm0].
  - exists m. split_and!; [by left|done|]. rewrite E, Hk0. apply view_update_eq.
  - destruct (IH (view_update (mutation_key m).1 (mutation_key m).2 (mutation_value m) f))
      as (m' & Hm' & Hk & E'); [eauto|]. exists m'. split_and!; [by right|done..].
Qed.
