(* ===== verification/TableStore.v ===== *)
(** * A record store in memory

    A second implementation of the interface in [RecordStore.v]: an association list that
    never fails but for records that are refused. It stands in for the encrypted store where a
    concrete run of a client is evaluated. *)
From Stdlib Require Import Ascii NArith Lia.
From stdpp Require Import base gmap strings list.
From S2P Require Import Prelude Text Collections StoreFormat Storage RecordStore.

Module TableStore.
Abbreviation Table := (list (RecordClass * string * bytes)).
Implicit Types (t : Table) (c : RecordClass) (k : string).

Fixpoint lookup t c k : option bytes :=
  match t with
  | [] => None
  | (p, v) :: rest => if decide (p = (c, k)) then Some v else lookup rest c k
  end.
Definition remove c k t : Table := filter (λ p, p.1 ≠ (c, k)) t.

Fixpoint batch (ms : list RecordMutation) : Mut Table unit StorageError :=
  λ t,
    match ms with
    | [] => (t, Ok tt)
    | m :: rest =>
      if mutation_ok m then
        batch rest (match m with
                    | Put c k v => (c, k, v) :: remove c k t
                    | Delete c k => remove c k t
                    end)
      else (t, Err RecordTooLarge)
    end.

#[export] Instance table_store : RecordStore Table := {|
  store_put := λ c k v, batch [Put c k v];
  store_delete := λ c k t, (remove c k t, Ok (bool_decide (is_Some (lookup t c k))));
  store_batch := batch;
  store_get := lookup;
|}.
#[export] Instance table_scan : RecordScan Table :=
  λ t c p, map (λ q, (q.1.2, q.2))
    (filter (λ q, bool_decide (q.1.1 = c) && starts_with p q.1.2 = true) t).

Lemma lookup_remove c k t c' k' :
  lookup (remove c k t) c' k' = view_update c k None (lookup t) c' k'.
Proof.
  unfold view_update, remove. induction t as [|[p v] t IH]; [by case_decide|].
  rewrite filter_cons. cbn [fst lookup]. destruct (decide (p ≠ (c, k))) as [Hp|Hp]; cbn [lookup].
  - rewrite IH. repeat case_decide; congruence.
  - apply dec_stable in Hp. subst p. rewrite IH. repeat case_decide; congruence.
Qed.

Lemma remove_nodup c k t : NoDup t.*1 → NoDup (remove c k t).*1.
Proof.
  intros Hd. eapply sublist_NoDup; [done|]. apply fmap_sublist, sublist_filter.
Qed.

Definition apply_one (m : RecordMutation) t : Table :=
  match m with Put c k v => (c, k, v) :: remove c k t | Delete c k => remove c k t end.

Lemma apply_one_lookup m t c k :
  lookup (apply_one m t) c k
  = view_update (mutation_key m).1 (mutation_key m).2 (mutation_value m) (lookup t) c k.
Proof.
  destruct m as [c0 k0 v|c0 k0]; cbn [apply_one lookup mutation_key mutation_value fst snd];
    rewrite lookup_remove; unfold view_update; repeat case_decide; congruence.
Qed.

Lemma apply_one_nodup m t : NoDup t.*1 → NoDup (apply_one m t).*1.
Proof.
  destruct m as [c k v|c k]; cbn [apply_one]; [|apply remove_nodup]. intros Hd.
  apply NoDup_cons. split; [|by apply remove_nodup].
  by intros (q & E & [Hq _]%list_elem_of_filter)%list_elem_of_fmap.
Qed.

(** A batch applies its mutations up to the first that is refused. *)
Lemma table_batch_spec ms t t' r :
  NoDup t.*1 → batch ms t = (t', r) →
  NoDup t'.*1 ∧
  ∃ before after, ms = before ++ after ∧
    (∀ f, (∀ c k, lookup t c k = f c k) → ∀ c k, lookup t' c k = view_batch before f c k) ∧
    match r with
    | Ok _ => after = []
    | Err _ => ∃ m rest, after = m :: rest ∧ mutation_ok m = false
    end.
Proof.
  revert t. induction ms as [|m ms IH]; intros t Hd.
  { intros [= <- <-]. split; [done|]. by exists [], []. }
  cbn [batch]. destruct (mutation_ok m) eqn:Hm.
  - intros Hb. change (batch ms (apply_one m t) = (t', r)) in Hb.
    apply IH in Hb as (Hd' & before & after & -> & Hv & Hr); [|by apply apply_one_nodup].
    split; [done|]. exists (m :: before), after. split_and!; [done| |done].
    intros f Hf c k. rewrite view_batch_cons. apply Hv. intros c' k'. rewrite apply_one_lookup.
    unfold view_update. by case_decide.
  - intros [= <- <-]. split; [done|]. exists [], (m :: ms). split_and!; [done|done|by eauto].
Qed.

Lemma elem_of_lookup t c k v : NoDup t.*1 → (c, k, v) ∈ t ↔ lookup t c k = Some v.
Proof.
  induction t as [|[p w] t IH]; [set_solver|]. intros [Hn Hd]%NoDup_cons.
  rewrite elem_of_cons. cbn [lookup]. rewrite IH by done. case_decide as Hp.
  - subst p. split; [intros [[=]|E]; [congruence|]|intros [= ->]; by left].
    exfalso. apply Hn, list_elem_of_fmap. exists (c, k, v). split; [done|]. by apply IH.
  - split; [intros [[=]|]; [congruence|done]|by right].
Qed.

#[export] Instance table_store_laws : RecordStoreLaws Table.
Proof.
  assert (Hok : ∀ ms t t', NoDup t.*1 → batch ms t = (t', Ok tt) →
    ∀ c k, lookup t' c k = view_batch ms (lookup t) c k).
  { intros ms t t' Hd Hb c k. destruct (table_batch_spec _ _ _ _ Hd Hb) as (_ & b & a & -> & Hv & ->).
    rewrite app_nil_r. by apply Hv. }
  assert (Herr : ∀ ms t t' e, NoDup t.*1 → batch ms t = (t', Err e) → ∃ before after,
    ms = before ++ after ∧ stopped before after ∧
    ∀ c k, lookup t' c k = view_batch before (lookup t) c k).
  { intros ms t t' e Hd Hb. destruct (table_batch_spec _ _ _ _ Hd Hb) as (_ & b & a & -> & Hv & Hr).
    exists b, a. split_and!; [done|by right|]. by apply Hv. }
  refine {| store_inv := λ t, NoDup t.*1 |}; cbn [store_put store_delete store_batch store_get table_store].
  - intros c k v t t' r Hd Hb. by apply (table_batch_spec _ _ _ _ Hd Hb).
  - intros c k v t t' Hd Hb c' k'. by apply (Hok _ _ _ Hd Hb).
  - intros c k v t t' e Hd Hb c' k'. destruct (Herr _ _ _ _ Hd Hb) as (b & a & E & Hs & ->).
    destruct Hs as [->|(m & rest & -> & _)]; [done|]. by destruct b as [|? [|]]; simplify_list_eq.
  - intros c k t t' r Hd [= <- _]. by apply remove_nodup.
  - intros c k t t' b Hd [= <- <-]. split; [done|]. apply lookup_remove.
  - done.
  - intros ms t t' r Hd Hb. by apply (table_batch_spec _ _ _ _ Hd Hb).
  - done.
  - intros ms t t' e Hd Hms Hb c k. destruct (Herr _ _ _ _ Hd Hb) as (b & a & -> & Hs & ->).
    destruct Hs as [->|(m & rest & -> & Hm)]; [done|]. rewrite forallb_app in Hms. cbn [forallb] in Hms.
    rewrite Hm, andb_false_r in Hms. done.
  - exact Herr.
Defined.

Lemma table_empty_inv : store_inv ([] : Table).
Proof. cbn. constructor. Qed.

#[export] Instance table_scan_laws : RecordScanLaws Table.
Proof.
  refine {| scannable := λ _, True |}; unfold store_prefix, table_scan; intros t c p.
  - intros Hd. cbn [store_inv table_store_laws] in Hd. induction t as [|[[c0 k0] v0] t IH]; [constructor|].
    apply NoDup_cons in Hd as [Hn Hd]. rewrite filter_cons. case_decide as Hp; [|by apply IH].
    cbn [map fmap list_fmap fst snd]. apply NoDup_cons. split; [|by apply IH].
    intros (q & -> & (q' & -> & [Hq Hin]%list_elem_of_filter)%list_elem_of_fmap)%list_elem_of_fmap.
    cbn [fst snd] in *. apply Hn, list_elem_of_fmap. exists q'. split; [|done].
    bool_props. destruct q' as [[c1 k1] v1]. cbn in *. congruence.
  - intros k v Hd _. cbn [store_inv table_store_laws store_get table_store] in *.
    rewrite <-elem_of_lookup by done. rewrite list_elem_of_fmap. setoid_rewrite list_elem_of_filter.
    split.
    + intros ([[c0 k0] v0] & [= -> ->] & Hp & Hin). cbn in Hp. bool_props. by subst c0.
    + intros [Hin Hp]. exists (c, k, v). split; [done|]. cbn. by rewrite Hp, bool_decide_true.
Defined.
Lemma table_scannable t : scannable t.
Proof. done. Qed.
End TableStore.

(** A store on a disk that can no longer be written: every change fails and has no effect. *)
Module FrozenStore.
Record Frozen := { frozen_table : list (RecordClass * string * bytes) }.

#[export] Instance frozen_store : RecordStore Frozen := {|
  store_put := λ _ _ _ t, (t, Err Io);
  store_delete := λ _ _ t, (t, Err Io);
  store_batch := λ _ t, (t, Err Io);
  store_get := λ t, TableStore.lookup (frozen_table t);
|}.

#[export] Instance frozen_store_laws : RecordStoreLaws Frozen.
Proof.
  refine {| store_inv := λ _, True |}; cbn; try (intros; simplify_eq; done).
  intros ms s s' e _ [= <- <-]. exists [], ms. split; [done|]. split; [by left|done].
Defined.
End FrozenStore.
