(* ===== verification/StorageLaws.v ===== *)
(** * Correctness of the encrypted store

    What [Storage.v] promises under every I/O outcome: a successful commit is exactly what
    a later open reads back, a failed one leaves the records in memory and whole files on
    disk, and an older store than the marker is refused. [RecordStore] and its laws are the
    contract the other components use. *)
From Stdlib Require Import Ascii NArith Lia ZifyBool ZifyN.
From stdpp Require Import base gmap strings list.
From S2P Require Import Prelude Text Collections Interfaces Paths Fs StoreFormat Storage RecordStore.

(** ** System calls *)

Section io.
Lemma io_cases call w :
  (∃ w', call w = (w', true) ∧ io call w = (w', Ok tt)) ∨
  (∃ w', call w = (w', false) ∧ io call w = (w', Err Io)).
Proof. unfold io. destruct (call w) as [w' []]; eauto. Qed.

(** The outcome of an atomic write, up to temporary files: an error and nothing changed, or
    the whole contents in place, with success or an error reported. *)
Definition written (p : string) (c : bytes) (files files' : gmap string Node)
    (r : result unit StorageError) : Prop :=
  (r = Err Io ∧ files' ≡ₜ files) ∨
  ((r = Err Io ∨ r = Ok tt) ∧ files' ≡ₜ <[p := RegularFile c]> files).

(** A call that changes no file. *)
Lemma io_files call w :
  (∀ w, w_files (call w).1 = w_files w) →
  ∃ w' r, io call w = (w', r) ∧ (r = Ok tt ∨ r = Err Io) ∧ w_files w' = w_files w.
Proof.
  intros Hc. specialize (Hc w). destruct (io_cases call w) as [(w' & E & ->)|(w' & E & ->)];
    rewrite E in Hc; eauto 6.
Qed.

(** The last three calls on a written temporary file, and the rename after them. *)
Lemma rename_written_cases p t c w :
  is_temporary t = true → w_files w !! t = Some (RegularFile c) →
  let '(w', r) :=
    (let! _ := io (fs_rename t p) in
     match path_parent p with
     | Some parent => let! _ := io (fs_open_dir parent) in io fs_call
     | None => mut_ret tt
     end) w in
  written p c (w_files w) (w_files w') r.
Proof.
  intros Ht Hl. unfold mut_bind, mut_ret.
  destruct (io_cases (fs_rename t p) w) as [(w1 & E & ->)|(w1 & E & ->)];
    apply (fs_rename_temporary _ _ c) in E; try done; [|unfold written; naive_solver].
  destruct E as [F|[? _]]; [|done].
  destruct (path_parent p) as [d|]; [|by right; auto].
  destruct (io_files (fs_open_dir d) w1) as (w2 & r2 & -> & [->| ->] & F2);
    [by apply fs_open_dir_files| |right; rewrite F2; by auto].
  destruct (io_files fs_call w2) as (w3 & r3 & -> & Hr & F3); [by apply fs_call_files|].
  right. rewrite F3, F2. split; [naive_solver|done].
Qed.

(** Such a call before a step that ends with some files, up to temporary ones. *)
Lemma io_quiet (k : unit → Mut World unit StorageError) w
    (P : gmap string Node → result unit StorageError → Prop) files :
  P files (Err Io) → w_files w = files →
  (∀ w', w_files w' = files → let '(w'', r) := k tt w' in P (w_files w'') r) →
  let '(w'', r) := mut_bind (io fs_call) k w in P (w_files w'') r.
Proof.
  intros HP Hw Hk. unfold mut_bind.
  destruct (io_files fs_call w) as (w1 & r & -> & [->| ->] & F); [by apply fs_call_files| |].
  - apply Hk. congruence.
  - by rewrite F, Hw.
Qed.

(** The target is untouched, or holds the whole contents. *)
Lemma write_and_rename_cases p t c w :
  is_temporary t = true →
  let '(w', r) := write_and_rename p t c w in
  written p c (w_files w) (w_files w') r.
Proof.
  intros Ht. unfold write_and_rename, mut_bind at 1.
  destruct (io_cases (fs_create_new t) w) as [(w1 & E1 & ->)|(w1 & E1 & ->)];
    apply fs_create_new_temporary in E1 as [F1 L1]; try done; [|by left].
  specialize (L1 eq_refl). unfold mut_bind at 1.
  destruct (io_cases (fs_write_at t 0 c) w1) as [(w2 & E2 & ->)|(w2 & E2 & ->)];
    apply fs_write_at_temporary in E2 as [F2 L2]; try done; [|left; by rewrite F2].
  specialize (L2 eq_refl). rewrite F1 in F2.
  apply (io_quiet _ w2 (written p c (w_files w)) (w_files w2)); [by left|done|]. intros w3 F3.
  apply (io_quiet _ w3 (written p c (w_files w)) (w_files w2)); [by left|done|]. intros w4 F4.
  apply (io_quiet _ w4 (written p c (w_files w)) (w_files w2)); [by left|done|]. intros w5 F5.
  pose proof (rename_written_cases p t c w5 Ht ltac:(by rewrite F5)) as H. revert H.
  destruct (mut_bind _ _ w5) as [w6 r]. unfold written. by rewrite F5, F2.
Qed.

Lemma atomic_write_cases p c w :
  lasting p = true →
  let '(w', r) := atomic_write p c w in
  written p c (w_files w) (w_files w') r.
Proof.
  intros [Hp _]%lasting_inv. unfold atomic_write, mut_bind.
  destruct (match path_parent p return Mut World unit StorageError with
            | Some parent => io (fs_create_dir_all parent)
            | None => mut_ret tt
            end w) as [w1 r1] eqn:E1.
  assert (H1 : (r1 = Ok tt ∨ r1 = Err Io) ∧ w_files w1 = w_files w).
  { destruct (path_parent p) as [d|]; [|unfold mut_ret in E1; simplify_eq; auto].
    destruct (io_files (fs_create_dir_all d) w) as (w' & r' & E & Hr & F);
      [by apply fs_create_dir_all_files|]. rewrite E in E1. by simplify_eq. }
  destruct H1 as [[->| ->] F1]; [|rewrite F1; by left].
  pose proof (secure_random_files 8 w1) as F2.
  destruct (secure_random 8 w1) as [w2 [suffix|]]; cbn [fst] in F2; [|left; by rewrite F2, F1].
  set (t := temporary_path p (w_pid w2) suffix).
  assert (Ht : is_temporary t = true) by by apply temporary_path_is.
  pose proof (write_and_rename_cases p t c w2 Ht) as H3.
  destruct (write_and_rename p t c w2) as [w3 r3]. rewrite F2, F1 in H3.
  destruct (is_err r3); [|done]. unfold written. by rewrite (fs_remove_temporary t w3 Ht).
Qed.

Lemma read_file_cases p w :
  let '(w', r) := read_file p w in
  w_files w' = w_files w ∧
  ((∃ b, r = Ok b ∧ resolve 40 (w_files w) p = Some (RegularFile b)) ∨ r = Err Io).
Proof.
  unfold read_file, fs_read. pose proof (next_fault_files w) as Hf.
  destruct (next_fault w) as [[] w1]; simpl in *; [|by auto..]. rewrite Hf.
  destruct (resolve 40 (w_files w) p) as [[]|]; eauto 6.
Qed.

Lemma read_optional_cases p w :
  let '(w', r) := read_optional p w in
  w_files w' = w_files w ∧
  ((∃ b, r = Ok (Some b) ∧ resolve 40 (w_files w) p = Some (RegularFile b)) ∨
   (r = Ok None ∧ resolve 40 (w_files w) p = None) ∨ r = Err Io).
Proof.
  unfold read_optional, fs_read. pose proof (next_fault_files w) as Hf.
  destruct (next_fault w) as [[] w1]; simpl in *; [|by auto..]. rewrite Hf.
  destruct (resolve 40 (w_files w) p) as [[]|]; eauto 6.
Qed.

Lemma remove_optional_cases p w :
  let '(w', r) := remove_optional p w in
  (w_files w' = w_files w ∧ (r = Err Io ∨ (r = Ok tt ∧ w_files w !! p = None))) ∨
  (w_files w' = delete p (w_files w) ∧ (r = Ok tt ∨ r = Err Io)).
Proof.
  unfold remove_optional, fs_remove. pose proof (next_fault_files w) as Hf.
  destruct (next_fault w) as [[] w1]; simpl in *; rewrite <-Hf;
    destruct (w_files w1 !! p) as [[]|] eqn:E; simpl; auto.
Qed.
End io.

(** ** Commit *)

Section commit.
Context `{Crypto}.

Lemma seal_files s n w w' r : seal s n w = (w', r) → w_files w' = w_files w.
Proof.
  unfold seal. destruct (encode_records _); [|by intros [= <- _]].
  pose proof (secure_random_files NONCE_BYTES w) as Hr.
  destruct (secure_random NONCE_BYTES w) as [w1 [nonce|]]; by intros [= <- _].
Qed.

(** What a sealed file is. *)
Lemma seal_ok s n w w' contents :
  seal s n w = (w', Ok contents) →
  ∃ plaintext nonce ciphertext,
    encode_records (s_records s) = Ok plaintext ∧ length nonce = NONCE_BYTES ∧
    length (s_key s) = KEY_BYTES ∧
    aes_encrypt (s_key s) nonce (associated_data (s_salt s) n) plaintext = Some ciphertext ∧
    contents = encode_file (s_salt s) n nonce ciphertext.
Proof.
  unfold seal, aes_new. destruct (encode_records _) as [pt|]; [|done].
  destruct (secure_random NONCE_BYTES w) as [w1 [nonce|]] eqn:Er; [|done].
  destruct (length (s_key s) =? KEY_BYTES)%nat eqn:Ek; cbn [result_bind]; [|done].
  destruct (aes_encrypt _ _ _ _) as [ct|] eqn:Ea; cbn [ok_or result_bind]; [|done].
  intros [= _ <-]. exists pt, nonce, ct. apply secure_random_length in Er.
  apply Nat.eqb_eq in Ek. auto.
Qed.

(** The contents a path may hold after a commit: untouched, rewritten with one of the
    given contents, or removed. *)
Definition node_among (files files' : gmap string Node) (p : string) (l : list bytes) : Prop :=
  files' !! p = files !! p ∨ (∃ b, b ∈ l ∧ files' !! p = Some (RegularFile b)).

Lemma node_among_trans a b c p l k :
  node_among a b p l → node_among b c p k → node_among a c p (k ++ l).
Proof using Type.
  unfold node_among. intros Hab [->|(x & Hx & ->)].
  - destruct Hab as [->|(x & Hx & ->)]; [by left|]. right. exists x. rewrite elem_of_app. auto.
  - right. exists x. rewrite elem_of_app. auto.
Qed.

(** How a commit ends, up to temporary files: with the new store file and marker in place, or
    with the store in memory unchanged, the store file either the previous or the new one, and
    the marker untouched, new or restored. *)
Inductive commit_outcome (s : EncryptedStore) (w : World)
  : EncryptedStore * World → result unit StorageError → Prop :=
| commit_done next contents w1 w' :
    s_locked s = false → (N.of_nat (size (s_records s)) ≤ MAX_RECORDS)%N →
    u64_checked_add (s_revision s) 1 = Some next →
    seal s next w = (w1, Ok contents) →
    w_files w' ≡ₜ <[s_marker_path s := RegularFile (as_bytes (u64_to_string next))]>
                   (<[s_path s := RegularFile contents]> (w_files w)) →
    commit_outcome s w (set_revision next s, w') (Ok tt)
| commit_refused w' e :
    w_files w' ≡ₜ w_files w → commit_outcome s w (s, w') (Err e)
| commit_failed next contents w1 w' previous e :
    u64_checked_add (s_revision s) 1 = Some next →
    seal s next w = (w1, Ok contents) →
    resolve 40 (w_files w) (s_path s) = Some (RegularFile previous) →
    (∀ p, is_temporary p = false → p ≠ s_path s → p ≠ s_marker_path s →
          w_files w' !! p = w_files w !! p) →
    node_among (w_files w) (w_files w') (s_path s) [previous; contents] →
    (w_files w' !! s_marker_path s = w_files w !! s_marker_path s ∨
     w_files w' !! s_marker_path s
       = Some (RegularFile (as_bytes (u64_to_string next))) ∨
     (∃ m, resolve 40 (w_files w) (s_marker_path s) = Some (RegularFile m) ∧
           w_files w' !! s_marker_path s = Some (RegularFile m)) ∨
     (resolve 40 (w_files w) (s_marker_path s) = None ∧
      w_files w' !! s_marker_path s = None)) →
    commit_outcome s w (s, w') (Err e).

(** The files of a store: two different ones, neither of them temporary. *)
Record paths_ok (s : EncryptedStore) : Prop := {
  po_ne : s_path s ≠ s_marker_path s;
  po_path : lasting (s_path s) = true;
  po_marker : lasting (s_marker_path s) = true;
}.

Lemma marker_path_ne path : path ≠ marker_path path.
Proof using Type.
  intros E. apply (f_equal (λ s, length (as_bytes s))) in E. unfold marker_path in E.
  rewrite as_bytes_app, length_app in E. simpl in E. lia.
Qed.

(** A write at [p] seen from another path, and from [p]. *)
Lemma written_lookup p c files files' r q :
  written p c files files' r → is_temporary q = false → q ≠ p → files' !! q = files !! q.
Proof using Type.
  intros [[_ Hf]|[_ Hf]] Hq Hne; rewrite (Hf q Hq); [done|]. by apply lookup_insert_ne.
Qed.
Lemma written_target p c files files' r :
  written p c files files' r → is_temporary p = false → node_among files files' p [c].
Proof using Type.
  intros [[_ Hf]|[_ Hf]] Hp; unfold node_among; rewrite (Hf p Hp); [by left|].
  right. exists c. rewrite lookup_insert_eq. set_solver.
Qed.

Lemma rollback_outcome s w w' ps pm e r :
  paths_ok s → rollback s ps pm e w = (w', r) →
  (r = Err e ∨ r = Err Io) ∧
  (∀ p, is_temporary p = false → p ≠ s_path s → p ≠ s_marker_path s →
        w_files w' !! p = w_files w !! p) ∧
  node_among (w_files w) (w_files w') (s_path s) [ps] ∧
  match pm with
  | Some m => node_among (w_files w) (w_files w') (s_marker_path s) [m]
  | None => w_files w' !! s_marker_path s = w_files w !! s_marker_path s ∨
            w_files w' !! s_marker_path s = None
  end.
Proof using Type.
  intros [Hne Hp Hm]. unfold rollback.
  pose proof (atomic_write_cases (s_path s) ps w Hp) as H1.
  destruct (atomic_write (s_path s) ps w) as [w1 r1].
  apply lasting_inv in Hp as [_ Hp]. pose proof (lasting_inv _ Hm) as [_ Hm'].
  pose proof (written_target _ _ _ _ _ H1 Hp) as T1.
  pose proof (written_lookup _ _ _ _ _ _ H1 Hm' (not_eq_sym Hne)) as L1.
  destruct pm as [m|].
  - pose proof (atomic_write_cases (s_marker_path s) m w1 Hm) as H2.
    destruct (atomic_write (s_marker_path s) m w1) as [w2 r2].
    pose proof (written_target _ _ _ _ _ H2 Hm') as T2. unfold node_among in *.
    intros [= <- <-]. split_and!; [case_match; auto| |by rewrite (written_lookup _ _ _ _ _ _ H2 Hp Hne)|].
    + intros p Ht Hp1 Hp2. by rewrite (written_lookup _ _ _ _ _ _ H2), (written_lookup _ _ _ _ _ _ H1).
    + by rewrite L1 in T2.
  - pose proof (remove_optional_cases (s_marker_path s) w1) as H2.
    destruct (remove_optional (s_marker_path s) w1) as [w2 r2]. unfold node_among in *.
    intros [= <- <-]. destruct H2 as [[-> _]|[-> _]].
    + split_and!; [case_match; auto| |done|by left].
      intros p Ht Hp1 Hp2. by rewrite (written_lookup _ _ _ _ _ _ H1).
    + rewrite lookup_delete_ne, lookup_delete_eq by done.
      split_and!; [case_match; auto| |done|by right].
      intros p Ht Hp1 Hp2. rewrite lookup_delete_ne by done.
      by rewrite (written_lookup _ _ _ _ _ _ H1).
Qed.

Lemma commit_spec s w sw' r :
  paths_ok s → commit (s, w) = (sw', r) → commit_outcome s w sw' r.
Proof using Type.
  intros Hok. pose proof Hok as [Hne Hp Hm]. unfold commit.
  destruct (s_locked s) eqn:El; [intros [= <- <-]; by apply commit_refused|].
  destruct (MAX_RECORDS <? N.of_nat (size (s_records s)))%N eqn:Es;
    [intros [= <- <-]; by apply commit_refused|].
  destruct (u64_checked_add (s_revision s) 1) as [next|] eqn:Er;
    [|intros [= <- <-]; by apply commit_refused].
  unfold mut_bind, lift_w. destruct (seal s next w) as [w1 [contents|e]] eqn:Eseal;
    pose proof (seal_files _ _ _ _ _ Eseal) as F1;
    [|intros [= <- <-]; apply commit_refused; by rewrite F1].
  pose proof (read_file_cases (s_path s) w1) as H2.
  destruct (read_file (s_path s) w1) as [w2 r2]. destruct H2 as [F2 H2].
  destruct H2 as [(ps & -> & Hps)| ->];
    [|intros [= <- <-]; apply commit_refused; by rewrite F2, F1].
  pose proof (read_optional_cases (s_marker_path s) w2) as H3.
  destruct (read_optional (s_marker_path s) w2) as [w3 r3]. destruct H3 as [F3 H3].
  rewrite F2, F1 in *.
  destruct r3 as [pm|e3]; [|intros [= <- <-]; apply commit_refused; by rewrite F3].
  pose proof (atomic_write_cases (s_path s) contents w3 Hp) as H4.
  destruct (atomic_write (s_path s) contents w3) as [w4 r4]. rewrite F3 in H4.
  pose proof (lasting_inv _ Hp) as [_ Hpt]. pose proof (lasting_inv _ Hm) as [_ Hmt].
  pose proof (written_target _ _ _ _ _ H4 Hpt) as T4.
  pose proof (λ q, written_lookup _ _ _ _ _ q H4) as L4.
  destruct r4 as [[]|e4].
  - pose proof (atomic_write_cases (s_marker_path s) (as_bytes (u64_to_string next)) w4 Hm) as H5.
    unfold write_marker. destruct (atomic_write (s_marker_path s) _ w4) as [w5 r5].
    destruct r5 as [[]|e5].
    { intros [= <- <-]. eapply commit_done; [done|by apply N.ltb_ge|done|exact Eseal|].
      destruct H5 as [[? _]|[_ ->]]; [done|]. by destruct H4 as [[? _]|[_ ->]]. }
    destruct (rollback s ps pm e5 w5) as [w6 r6] eqn:Erb. intros [= <- <-].
    destruct (rollback_outcome _ _ _ _ _ _ _ Hok Erb) as (Hr & Hother & Hstore & Hmark).
    assert (∃ e, r6 = Err e) as [e ->] by naive_solver.
    pose proof (written_target _ _ _ _ _ H5 Hmt) as T5.
    pose proof (λ q, written_lookup _ _ _ _ _ q H5) as L5.
    eapply commit_failed; [done|exact Eseal|exact Hps|..].
    + intros p Ht Hp1 Hp2. by rewrite Hother, L5, L4.
    + apply (node_among_trans _ (w_files w4) _ _ [contents] [ps] T4).
      unfold node_among. by rewrite <-(L5 _ Hpt Hne).
    + unfold node_among in T5. rewrite (L4 _ Hmt (not_eq_sym Hne)) in T5.
      setoid_rewrite list_elem_of_singleton in T5.
      destruct H3 as [(b & [= ->] & Hb)|[[[= ->] Hb]|?]]; [| |done].
      * unfold node_among in Hmark. setoid_rewrite list_elem_of_singleton in Hmark.
        destruct Hmark as [->|(x & -> & ->)]; [|by eauto 6].
        destruct T5 as [->|(x & -> & ->)]; auto.
      * destruct Hmark as [->| ->]; [|by auto]. destruct T5 as [->|(x & -> & ->)]; auto.
  - intros [= <- <-]. eapply commit_failed; [done|exact Eseal|exact Hps|..].
    + intros p Ht Hp1 Hp2. by apply L4.
    + destruct T4 as [E|(x & Hx & E)]; [by left|]. right. exists x. split; [by right|done].
    + left. by apply L4.
Qed.

(** What a commit does to the store in memory. *)
Lemma commit_store s w sw' r :
  commit (s, w) = (sw', r) →
  sw'.1 = match r with Ok _ => set_revision (s_revision s + 1) s | Err _ => s end.
Proof using Type.
  unfold commit. destruct (s_locked s); [by intros [= <- <-]|].
  destruct (MAX_RECORDS <? _)%N; [by intros [= <- <-]|].
  unfold u64_checked_add. destruct (_ <=? u64_max)%N; [|by intros [= <- <-]].
  unfold mut_bind, lift_w. destruct (seal s _ w) as [w1 [contents|]]; [|by intros [= <- <-]].
  destruct (read_file _ w1) as [w2 [ps|]]; [|by intros [= <- <-]].
  destruct (read_optional _ w2) as [w3 [pm|]]; [|by intros [= <- <-]].
  destruct (atomic_write _ contents w3) as [w4 [[]|]]; [|by intros [= <- <-]].
  destruct (write_marker s _ w4) as [w5 [[]|e]]; [by intros [= <- <-]|].
  destruct (rollback s ps pm e w5) as [w6 r6] eqn:Er. intros [= <- <-].
  unfold rollback in Er. destruct (atomic_write _ ps w5) as [w7 r7].
  destruct (match pm with Some _ => _ | None => _ end) as [w8 r8] in Er.
  simplify_eq. by destruct (_ || _).
Qed.

Lemma commit_err_store s w sw' e : commit (s, w) = (sw', Err e) → sw'.1 = s.
Proof using Type. apply commit_store. Qed.

Lemma commit_ok_store s w sw' :
  commit (s, w) = (sw', Ok tt) → sw'.1 = set_revision (s_revision s + 1) s.
Proof using Type. apply commit_store. Qed.
End commit.

(** ** Reading back *)

Lemma read_marker_ok p n w :
  (n ≤ u64_max)%N → w_faults w = [] →
  w_files w !! p = Some (RegularFile (as_bytes (u64_to_string n))) →
  read_marker p w = (w, Ok (Some n)).
Proof.
  intros Hn Hf Hp. unfold read_marker. rewrite (fs_read_ok _ _ _ Hf Hp).
  unfold from_utf8. rewrite ascii_utf8_valid by apply visible_ascii, u64_to_string_visible.
  rewrite of_as_bytes, trim_visible by apply u64_to_string_visible.
  by rewrite parse_u64_to_string.
Qed.

Lemma ensure_private_file_ok p b w :
  w_faults w = [] → w_files w !! p = Some (RegularFile b) →
  ensure_private_file p w = (w, Ok true).
Proof.
  intros Hf Hp. unfold ensure_private_file, next_fault. rewrite Hf. cbv beta iota.
  rewrite Hp. by rewrite Hf.
Qed.

(** The invariant of a store: the path is no temporary file, the marker path belongs to it, salt and key have
    their sizes, the revision is a [u64] and every key is a Rust string. *)
Record store_wf (s : EncryptedStore) : Prop := {
  wf_path : lasting (s_path s) = true;
  wf_marker : s_marker_path s = marker_path (s_path s);
  wf_salt : length (s_salt s) = SALT_BYTES;
  wf_key : length (s_key s) = KEY_BYTES;
  wf_revision : (s_revision s ≤ u64_max)%N;
  wf_utf8 : ∀ k v, s_records s !! k = Some v → utf8_valid (as_bytes k.2) = true;
}.

Lemma store_wf_paths s : store_wf s → paths_ok s.
Proof.
  intros Hwf. split; [|by apply wf_path|]; rewrite (wf_marker s Hwf);
    [apply marker_path_ne|apply lasting_suffix].
Qed.
#[export] Hint Resolve store_wf_paths : rust.

Lemma store_wf_records r s :
  store_wf s → (∀ k v, r !! k = Some v → utf8_valid (as_bytes k.2) = true) →
  store_wf (set_records r s).
Proof. intros [] ?. by split. Qed.

Lemma store_wf_revision n s : store_wf s → (n ≤ u64_max)%N → store_wf (set_revision n s).
Proof. intros [] ?. by split. Qed.
#[export] Hint Resolve store_wf_records store_wf_revision : rust.

Section reopen.
Context `{CryptoLaws}.

Lemma seal_records_ok s n w w' contents :
  store_wf s → seal s n w = (w', Ok contents) → records_ok (s_records s).
Proof using Type.
  intros Hwf Hs. apply seal_ok in Hs as (pt & _ & _ & He & _).
  unfold encode_records in He. destruct (MAX_RECORDS <? _)%N eqn:El; [done|].
  split; [by apply N.ltb_ge|]. intros k v Hk. apply encode_entries_inv in He.
  rewrite Forall_forall in He. specialize (He (k, v)). rewrite elem_of_btree_iter in He.
  specialize (He Hk) as [??]. split; [done|]. split; [|done]. by eapply wf_utf8.
Qed.

(** Opening a sealed file whose marker agrees gives the sealed store back. *)
Lemma open_sealed_file s n w0 w1 contents w :
  store_wf s → s_locked s = false → (n ≤ u64_max)%N →
  seal s n w0 = (w1, Ok contents) → w_faults w = [] →
  w_files w !! s_marker_path s = Some (RegularFile (as_bytes (u64_to_string n))) →
  ∃ parsed, parse_file contents = Ok parsed ∧ pf_salt parsed = s_salt s ∧
    open_with_key (s_path s) (s_key s) parsed w = (w, Ok (set_revision n s)).
Proof using Type*.
  intros Hwf Hl Hn Hseal Hf Hm. pose proof (seal_records_ok _ _ _ _ _ Hwf Hseal) as Hok.
  apply seal_ok in Hseal as (pt & nonce & ct & He & Hnl & Hkl & Hct & ->).
  pose proof (wf_marker s Hwf) as Hmp. pose proof (wf_salt s Hwf) as Hsalt.
  eexists. split; [apply parse_encode_file; try done; erewrite aes_tag_length by done; lia|].
  split; [done|].
  unfold open_with_key, mut_bind, mut_lift, aes_new. cbn [pf_nonce pf_salt pf_revision pf_ciphertext].
  rewrite Hkl, Nat.eqb_refl. rewrite (aes_decrypt_encrypt _ _ _ _ _ Hct).
  cbn [ok_or]. rewrite (decode_encode_records _ _ Hok He). rewrite <-Hmp.
  rewrite (ensure_private_file_ok _ _ _ Hf Hm), (read_marker_ok _ _ _ Hn Hf Hm).
  rewrite N.ltb_irrefl. cbn [s_marker_path]. rewrite (read_marker_ok _ _ _ Hn Hf Hm).
  cbn [s_revision]. rewrite N.ltb_irrefl. unfold mut_ret, set_revision. by rewrite Hl.
Qed.

Lemma open_sealed s n w0 w1 contents w :
  store_wf s → s_locked s = false → (n ≤ u64_max)%N →
  seal s n w0 = (w1, Ok contents) → w_faults w = [] →
  w_files w !! s_path s = Some (RegularFile contents) →
  w_files w !! s_marker_path s = Some (RegularFile (as_bytes (u64_to_string n))) →
  open_with_database_key (s_path s) (s_key s) w = (w, Ok (set_revision n s)).
Proof using Type*.
  intros Hwf Hl Hn Hseal Hf Hp Hm.
  destruct (open_sealed_file _ _ _ _ _ _ Hwf Hl Hn Hseal Hf Hm) as (parsed & Hparse & _ & Ho).
  unfold open_with_database_key, mut_bind, read_file, mut_lift.
  by rewrite (ensure_private_file_ok _ _ _ Hf Hp), (fs_read_ok _ _ _ Hf Hp), Hparse.
Qed.

Lemma commit_durable s w s' w' w'' :
  store_wf s → commit (s, w) = ((s', w'), Ok tt) →
  w_files w'' = w_files w' → w_faults w'' = [] →
  open_with_database_key (s_path s) (s_key s) w'' = (w'', Ok s').
Proof using Type*.
  intros Hwf Hc Hfiles Hf. apply commit_spec in Hc; [|by auto with rust].
  inversion Hc as [next contents w1 ? Hl Hsz Hnext Hseal Hw' Hs' Hr| |]; subst.
  assert (Hle : (next ≤ u64_max)%N).
  { unfold u64_checked_add in Hnext. case_match eqn:E; simplify_eq. by apply N.leb_le. }
  destruct (store_wf_paths s Hwf) as [Hne [_ Hp]%lasting_inv [_ Hm]%lasting_inv].
  eapply open_sealed; eauto; rewrite Hfiles.
  - rewrite (Hw' _ Hp). by rewrite lookup_insert_ne, lookup_insert_eq.
  - rewrite (Hw' _ Hm). by rewrite lookup_insert_eq.
Qed.
End reopen.

(** ** The record operations *)

Section operations.
Context `{Crypto}.

Lemma set_records_id s : set_records (s_records s) s = s.
Proof using Type. by destruct s. Qed.

Lemma set_records_twice a b s : set_records a (set_records b s) = set_records a s.
Proof using Type. done. Qed.

(** [put] leaves the store as it was, or with the record and the next revision. *)
Lemma put_spec c k v s w sw' r :
  put c k v (s, w) = (sw', r) →
  match r with
  | Err _ => sw'.1 = s
  | Ok _ =>
    s_locked s = false ∧
    commit (set_records (<[(c, k) := v]> (s_records s)) s, w) = (sw', Ok tt) ∧
    sw'.1 = set_revision (s_revision s + 1) (set_records (<[(c, k) := v]> (s_records s)) s)
  end.
Proof using Type.
  unfold put. destruct (s_locked s) eqn:El; [by intros [= <- <-]|].
  destruct (validate_record_key k); [|by intros [= <- <-]].
  destruct (MAX_VALUE_BYTES <? blen v)%N; [by intros [= <- <-]|].
  destruct (commit _) as [[s1 w1] [[]|e]] eqn:Hc.
  - intros [= <- <-]. split_and!; [done|done|]. by apply commit_ok_store in Hc.
  - apply commit_err_store in Hc as E. simpl in E. subst s1.
    intros [= <- <-]. cbn [fst s_records set_records]. rewrite set_records_twice.
    destruct (s_records s !! (c, k)) as [old|] eqn:Hold.
    + rewrite insert_insert_eq, insert_id by done. apply set_records_id.
    + rewrite delete_insert_id by done. apply set_records_id.
Qed.

Lemma delete_spec c k s w sw' r :
  delete_record c k (s, w) = (sw', r) →
  match r with
  | Err _ => sw'.1 = s
  | Ok b =>
    s_locked s = false ∧ b = bool_decide (is_Some (s_records s !! (c, k))) ∧
    s_records sw'.1 = delete (c, k) (s_records s) ∧ s_locked sw'.1 = false ∧
    s_path sw'.1 = s_path s ∧ s_marker_path sw'.1 = s_marker_path s
  end.
Proof using Type.
  unfold delete_record. destruct (s_locked s) eqn:El; [by intros [= <- <-]|].
  destruct (s_records s !! (c, k)) as [old|] eqn:Hold.
  - destruct (commit _) as [[s1 w1] [[]|e]] eqn:Hc.
    + intros [= <- <-]. apply commit_ok_store in Hc. simpl in Hc. by subst.
    + apply commit_err_store in Hc as E. simpl in E. subst s1.
      intros [= <- <-]. cbn [fst s_records set_records]. rewrite set_records_twice.
      rewrite insert_delete_id by done. apply set_records_id.
  - intros [= <- <-]. cbn [fst]. by rewrite delete_id.
Qed.

(** The records after the mutations of a batch. *)
Fixpoint records_batch (ms : list RecordMutation) (r : Records) : Records :=
  match ms with
  | [] => r
  | Put c k v :: t => records_batch t (<[(c, k) := v]> r)
  | Delete c k :: t => records_batch t (delete (c, k) r)
  end.

Lemma apply_mutations_ok ms r :
  forallb mutation_ok ms = true → apply_mutations ms r = (records_batch ms r, Ok tt).
Proof using Type.
  revert r. induction ms as [|[c k v|c k] ms IH]; intros r Hok; [done|..];
    cbn [forallb mutation_ok apply_mutations records_batch] in *; bool_props.
  - destruct (validate_record_key k); [|done]. rewrite (proj2 (N.ltb_ge _ _)); [auto|].
    by apply N.leb_le.
  - destruct (validate_record_key k); [auto|done].
Qed.

Lemma apply_mutations_inv ms r r' :
  apply_mutations ms r = (r', Ok tt) → forallb mutation_ok ms = true ∧ r' = records_batch ms r.
Proof using Type.
  revert r. induction ms as [|[c k v|c k] ms IH]; intros r;
    cbn [forallb mutation_ok apply_mutations records_batch]; [by intros [= ->]|..].
  - destruct (validate_record_key k); [|done].
    destruct (MAX_VALUE_BYTES <? blen v)%N eqn:E; [done|]. intros [Hok ->]%IH.
    rewrite Hok. simpl. rewrite andb_true_r. split; [|done]. apply N.leb_le. lia.
  - destruct (validate_record_key k); [|done]. intros [Hok ->]%IH. by rewrite Hok.
Qed.

(** The mutations before the first inadmissible one are applied. *)
Lemma apply_mutations_stop ms m rest r :
  forallb mutation_ok ms = true → mutation_ok m = false →
  apply_mutations (ms ++ m :: rest) r = (records_batch ms r, Err RecordTooLarge).
Proof using Type.
  intros Hok Hm. revert r. induction ms as [|[c k v|c k] ms IH]; intros r;
    cbn [app forallb mutation_ok apply_mutations records_batch] in *; bool_props.
  - destruct m as [c k v|c k]; cbn [mutation_ok apply_mutations] in *;
      destruct (validate_record_key_cases k) as [Hk|Hk]; rewrite Hk in *; simpl in *; try done.
    replace (MAX_VALUE_BYTES <? blen v)%N with true; [done|]. lia.
  - destruct (validate_record_key k); [|done]. rewrite (proj2 (N.ltb_ge _ _)); [auto|].
    by apply N.leb_le.
  - destruct (validate_record_key k); [auto|done].
Qed.

(** A loop that fails applied the mutations before the first inadmissible one. *)
Lemma apply_mutations_err ms r r' e :
  apply_mutations ms r = (r', Err e) →
  ∃ before m rest, ms = before ++ m :: rest ∧ mutation_ok m = false ∧ r' = records_batch before r.
Proof using Type.
  revert r. induction ms as [|m ms IH]; intros r; [done|].
  destruct (mutation_ok m) eqn:Hm.
  - assert (Hs : apply_mutations (m :: ms) r = apply_mutations ms (records_batch [m] r)).
    { destruct m as [c k v|c k]; cbn [mutation_ok apply_mutations records_batch] in *;
        destruct (validate_record_key k); try done. simpl in Hm.
      by replace (MAX_VALUE_BYTES <? blen v)%N with false by lia. }
    rewrite Hs. intros (before & m' & rest & -> & Hm' & ->)%IH.
    exists (m :: before), m', rest. split_and!; [done..|]. by destruct m.
  - rewrite (apply_mutations_stop [] m ms) by done. intros [= <- _].
    by exists [], m, ms.
Qed.

Lemma batch_spec ms s w sw' r :
  apply_batch ms (s, w) = (sw', r) →
  match r with
  | Err _ =>
    (forallb mutation_ok ms = true → sw'.1 = s) ∧
    ∃ before after, ms = before ++ after ∧ stopped before after ∧
      sw'.1 = set_records (records_batch before (s_records s)) s ∧
      (s_locked s = true → before = [])
  | Ok _ =>
    s_locked s = false ∧ forallb mutation_ok ms = true ∧
    commit (set_records (records_batch ms (s_records s)) s, w) = (sw', Ok tt) ∧
    sw'.1 = set_revision (s_revision s + 1) (set_records (records_batch ms (s_records s)) s)
  end.
Proof using Type.
  unfold apply_batch. destruct (s_locked s) eqn:El.
  { intros [= <- <-]. split; [done|]. exists [], ms. split_and!; [done|by left| |done].
    symmetry. apply set_records_id. }
  destruct (apply_mutations ms (s_records s)) as [r1 [[]|e1]] eqn:Ha.
  - apply apply_mutations_inv in Ha as [Hok ->].
    destruct (commit _) as [[s1 w1] [[]|e]] eqn:Hc; intros [= <- <-].
    + split_and!; [done..|]. by apply commit_ok_store in Hc.
    + apply commit_err_store in Hc as E. simpl in E. subst s1.
      cbn [fst]. rewrite set_records_twice, set_records_id. split; [done|].
      exists [], ms. split_and!; [done|by left| |done]. symmetry. apply set_records_id.
  - intros [= <- <-]. split; [intros Hok; by rewrite apply_mutations_ok in Ha|].
    apply apply_mutations_err in Ha as (before & m & rest & -> & Hm & ->).
    exists before, (m :: rest). split_and!; [done|right; eauto|done..].
Qed.

Lemma get_records s r c k : s_locked s = false → s_records s = r → get s c k = r !! (c, k).
Proof using Type. intros Hl <-. unfold get. by rewrite Hl. Qed.

Lemma records_batch_view ms r f :
  (∀ c k, r !! (c, k) = f c k) → ∀ c k, records_batch ms r !! (c, k) = view_batch ms f c k.
Proof using Type.
  revert r f. induction ms as [|[c0 k0 v|c0 k0] ms IH]; intros r f Hf; [done|..];
    cbn [records_batch view_batch]; apply IH; intros c k; unfold view_update;
    destruct (decide ((c, k) = (c0, k0))) as [->|Hd].
  - by rewrite lookup_insert_eq.
  - by rewrite lookup_insert_ne.
  - by rewrite lookup_delete_eq.
  - by rewrite lookup_delete_ne.
Qed.

#[export] Instance encrypted_record_store : RecordStore (EncryptedStore * World) := {|
  store_put := put;
  store_delete := delete_record;
  store_batch := apply_batch;
  store_get := λ sw, get sw.1;
|}.

#[export] Instance encrypted_record_store_laws
  : RecordStoreLaws (EncryptedStore * World).
Proof using Type.
  refine {| store_inv := λ sw, s_path sw.1 ≠ s_marker_path sw.1 |}; simpl.
  - intros c k v [s w] sw' r Hne Hp. apply put_spec in Hp.
    destruct r; [destruct Hp as (_ & _ & ->)|rewrite Hp]; done.
  - intros c k v [s w] sw' Hne Hp c' k'. apply put_spec in Hp.
    destruct Hp as (Hl & _ & ->). unfold get, view_update. simpl. rewrite Hl.
    case_decide as Hd; [rewrite <-Hd; apply lookup_insert_eq|by apply lookup_insert_ne].
  - intros c k v [s w] sw' e Hne Hp c' k'. apply put_spec in Hp. by rewrite Hp.
  - intros c k [s w] sw' r Hne Hp. apply delete_spec in Hp.
    destruct r; [destruct Hp as (_ & _ & _ & _ & -> & ->)|rewrite Hp]; done.
  - intros c k [s w] sw' b Hne Hp. apply delete_spec in Hp.
    destruct Hp as (Hl & -> & Hr & Hl' & _). unfold get. simpl. rewrite Hl, Hl', Hr.
    split; [done|]. intros c' k'. unfold view_update.
    case_decide as Hd; [rewrite <-Hd; apply lookup_delete_eq|by apply lookup_delete_ne].
  - intros c k [s w] sw' e Hne Hp c' k'. apply delete_spec in Hp. by rewrite Hp.
  - intros ms [s w] sw' r Hne Hp. apply batch_spec in Hp.
    destruct r; [destruct Hp as (_ & _ & _ & ->)|destruct Hp as (_ & b & a & _ & _ & -> & _)]; done.
  - intros ms [s w] sw' Hne Hp c k. apply batch_spec in Hp.
    destruct Hp as (Hl & _ & _ & ->).
    rewrite (get_records _ (records_batch ms (s_records s))) by done.
    apply records_batch_view. intros c' k'. unfold get. simpl. by rewrite Hl.
  - intros ms [s w] sw' e Hne Hok Hp c k. apply batch_spec in Hp.
    destruct Hp as [Hp _]. by rewrite Hp.
  - intros ms [s w] sw' e Hne Hp. apply batch_spec in Hp.
    destruct Hp as (_ & before & after & -> & Hs & E & Hl). exists before, after.
    split_and!; [done..|]. intros c k. rewrite E. unfold get. simpl.
    destruct (s_locked s) eqn:El; [by rewrite Hl|].
    apply records_batch_view. intros c' k'. by rewrite ?El.
Defined.

(** The records of a class under a prefix, before the page is cut out. *)
Definition scan_all (s : EncryptedStore) (c : RecordClass) (p : string)
  : list (RecordClass * string * bytes) :=
  filter (λ q, bool_decide (q.1.1 = c) && starts_with p q.1.2 = true) (btree_iter (s_records s)).

Lemma scan_all_nodup s c p : NoDup (map (λ q, q.1.2) (scan_all s c p)).
Proof using Type.
  assert (Hd : NoDup (scan_all s c p).*1).
  { eapply sublist_NoDup; [apply (NoDup_btree_keys (s_records s))|]. apply fmap_sublist, sublist_filter. }
  assert (Hc : Forall (λ q, q.1.1 = c) (scan_all s c p)).
  { apply Forall_forall. intros q [Hq _]%list_elem_of_filter. by bool_props. }
  revert Hd Hc. generalize (scan_all s c p). intros l.
  induction l as [|[[c0 k0] v0] l IH]; simpl; [constructor|].
  intros [Hn Hd]%NoDup_cons [Hc Hl]%Forall_cons. simpl in Hc. subst c0.
  constructor; [|by apply IH]. intros ([[c1 k1] v1] & E & Hin)%list_elem_of_fmap.
  apply Hn, list_elem_of_fmap. exists (c1, k1, v1). rewrite Forall_forall in Hl.
  pose proof (Hl _ Hin). by simplify_eq/=.
Qed.

#[export] Instance encrypted_record_scan : RecordScan (EncryptedStore * World) :=
  λ sw, records_with_prefix sw.1.

#[export] Instance encrypted_record_scan_laws : RecordScanLaws (EncryptedStore * World).
Proof using Type.
  refine {| scannable := λ sw, (N.of_nat (size (s_records sw.1)) ≤ MAX_RECORDS)%N |};
    unfold store_prefix, encrypted_record_scan, records_with_prefix, records_with_prefix_page;
    intros [s w] c p; simpl; fold (scan_all s c p); rewrite ?drop_0.
  - intros _. destruct (s_locked s); [constructor|].
    rewrite <-list_fmap_compose. eapply sublist_NoDup; [apply (scan_all_nodup s c p)|].
    apply (fmap_sublist (λ q, q.1.2)), sublist_take.
  - intros k v _ Hs. unfold get. destruct (s_locked s); [set_solver|].
    assert (Hlen : length (scan_all s c p) ≤ N.to_nat MAX_RECORDS).
    { unfold scan_all. etrans; [apply length_filter|]. rewrite length_btree_iter. lia. }
    rewrite take_ge by done. rewrite list_elem_of_fmap. unfold scan_all.
    setoid_rewrite list_elem_of_filter. split.
    + intros ([[c0 k0] v0] & [= -> ->] & Hp & Hin%elem_of_btree_iter). simpl in Hp. bool_props.
      by subst c0.
    + intros [Hk Hp]. exists (c, k, v). split; [done|]. simpl. rewrite Hp, bool_decide_true by done.
      split; [done|]. by apply elem_of_btree_iter.
Defined.
End operations.
