(* ===== verification/StorageProps.v ===== *)
(** * Properties of the encrypted store

    Round trips, durability, behaviour under I/O failures and rollback detection, with
    their witnesses over the reference cryptography. *)
From Stdlib Require Import Ascii NArith Lia ZifyBool ZifyN.
From stdpp Require Import base gmap strings list.
From S2P Require Import Prelude Text Collections Interfaces Paths Fs StoreFormat Storage RecordStore StorageLaws.

(** ** Inputs of the witnesses *)

Module Sample.
(** A salt, then a nonce and the suffixes of two temporary files for each commit. *)
Definition draws (n : nat) : bytes := replicate n "n"%char.
Definition world0 : World :=
  {| w_files := ∅; w_faults := [];
     w_entropy := draws 16 :: concat (replicate 8 [draws 12; draws 8; draws 8]); w_pid := 7 |}.
Definition passphrase : string := "correct horse".
Definition created : World * result EncryptedStore StorageError :=
  @initialize Reference.crypto "data/store" passphrase world0.
Definition blank : EncryptedStore :=
  {| s_path := EmptyString; s_marker_path := EmptyString; s_key := []; s_salt := []; s_revision := 0;
     s_records := ∅; s_locked := true |}.
Definition store0 : EncryptedStore :=
  match created.2 with Ok s => s | Err _ => blank end.
Definition world1 : World := created.1.
(** the files of a world, with no failure to come *)
Definition quiet (w : World) : World :=
  {| w_files := w_files w; w_faults := []; w_entropy := w_entropy w; w_pid := w_pid w |}.
Definition with_faults (l : list Fault) (w : World) : World :=
  {| w_files := w_files w; w_faults := l; w_entropy := w_entropy w; w_pid := w_pid w |}.
Definition with_draws (l : list nat) (w : World) : World :=
  {| w_files := w_files w; w_faults := w_faults w; w_entropy := map draws l; w_pid := w_pid w |}.

Lemma store0_wf : store_wf store0.
Proof. split; try (vm_compute; reflexivity); [vm_compute; discriminate|].
  intros k v Hk. vm_compute in Hk. destruct k as [[] ?]; discriminate. Qed.
Import Reference.
Lemma sample_store_inv : store_inv (store0, world1).
Proof. apply (store_wf_paths store0 store0_wf). Qed.
End Sample.

Section properties.
Context `{CryptoLaws}.

Lemma store_put_wf c k v s w sw' r :
  store_wf s → utf8_valid (as_bytes k) = true → put c k v (s, w) = (sw', r) → store_wf sw'.1.
Proof using Type.
  intros Hwf Hu Hp. pose proof Hp as Hp'. apply put_spec in Hp.
  destruct r as [[]|e]; [|by rewrite Hp]. destruct Hp as (_ & Hc & ->).
  assert (store_wf (set_records (<[(c, k):=v]> (s_records s)) s)) as Hwf'.
  { apply store_wf_records; [done|]. intros k' v'.
    rewrite lookup_insert_Some. intros [[<- _]|[_ Hk]]; [done|]. by eapply wf_utf8. }
  apply store_wf_revision; [done|]. apply commit_spec in Hc; [|by auto with rust].
  inversion Hc as [next ? ? ? ? ? Hn| |]; subst. unfold u64_checked_add in Hn.
  case_match eqn:E; simplify_eq. by apply N.leb_le.
Qed.

(** Any set of records within the limits encodes, and decodes to itself. *)
Theorem storage_records_roundtrip (records : Records) :
  records_ok records →
  ∃ b, encode_records records = Ok b ∧ decode_records b = Ok records.
Proof using Type.
  intros Hok. eexists. split; [by apply encode_records_value|].
  eapply decode_encode_records; [done|]. by apply encode_records_value.
Qed.

(** C2. A [put] that reports success on a well-formed store, under a key that is UTF-8 as every
    Rust string is, is durable: opening the files it left, on a machine without I/O errors, gives
    exactly the store in memory, one revision later, with the record in it and every other
    record as it was. *)
Theorem storage_put_is_durable c k v s w s' w' w'' :
  store_wf s → utf8_valid (as_bytes k) = true →
  put c k v (s, w) = ((s', w'), Ok tt) →
  w_files w'' = w_files w' → w_faults w'' = [] →
  open_with_database_key (s_path s) (s_key s) w'' = (w'', Ok s') ∧
  s_records s' = <[(c, k) := v]> (s_records s) ∧
  s_revision s' = (s_revision s + 1)%N.
Proof using Type*.
  intros Hwf Hu Hp Hfiles Hf. apply put_spec in Hp as (_ & Hc & Hs').
  simpl in Hs'. subst s'. split; [|done].
  refine (commit_durable (set_records (<[(c, k):=v]> (s_records s)) s) _ _ _ _ _ Hc Hfiles Hf).
  apply store_wf_records; [done|]. intros k' v'. rewrite lookup_insert_Some.
  intros [[<- _]|[_ Hk]]; [done|]. by eapply wf_utf8.
Qed.

(** Whatever the file system does, a [put], [delete] or batch of admissible mutations that
    reports an error leaves the store in memory exactly as it was. *)
Theorem storage_failure_keeps_memory s w sw' e :
  (∀ c k v, put c k v (s, w) = (sw', Err e) → sw'.1 = s) ∧
  (∀ c k, delete_record c k (s, w) = (sw', Err e) → sw'.1 = s) ∧
  (∀ ms, forallb mutation_ok ms = true → apply_batch ms (s, w) = (sw', Err e) → sw'.1 = s).
Proof using Type.
  split_and!.
  - intros c k v Hp. by apply put_spec in Hp.
  - intros c k Hp. by apply delete_spec in Hp.
  - intros ms Hok Hp. apply batch_spec in Hp as [Hp _]. auto.
Qed.

(** C10. Whatever the file system does, a failed [put] on a well-formed store leaves the store file
    whole: the bytes that were there, or a complete encryption of the records with the new one. No file
    other than the store, its marker and temporary files changes. *)
Theorem storage_failed_put_leaves_whole_file c k v s w s' w' e old :
  store_wf s → w_files w !! s_path s = Some (RegularFile old) →
  put c k v (s, w) = ((s', w'), Err e) →
  (w_files w' !! s_path s = Some (RegularFile old) ∨
   ∃ w1 contents,
     seal (set_records (<[(c, k) := v]> (s_records s)) s) (s_revision s + 1) w = (w1, Ok contents) ∧
     w_files w' !! s_path s = Some (RegularFile contents)) ∧
  (∀ p, is_temporary p = false → p ≠ s_path s → p ≠ s_marker_path s →
        w_files w' !! p = w_files w !! p).
Proof using Type.
  intros Hwf Hold. unfold put. destruct (s_locked s); [intros [= <- <- <-]; auto|].
  destruct (validate_record_key k); [|intros [= <- <- <-]; auto].
  destruct (MAX_VALUE_BYTES <? blen v)%N; [intros [= <- <- <-]; auto|].
  destruct (commit _) as [[s1 w1] [[]|e1]] eqn:Hc; [done|]. intros [= <- <- <-].
  pose proof (store_wf_paths s Hwf) as [? Hp Hm].
  apply commit_spec in Hc; [|by split]. apply lasting_inv in Hp as [_ Hp].
  inversion Hc as [|? ? Hfiles|next contents w2 ? previous ? Hn Hseal Hprev Hother Hstore _];
    subst; cbn [s_path s_marker_path set_records s_revision] in *.
  { rewrite (Hfiles _ Hp). auto. }
  rewrite (resolve_regular _ _ _ old Hold) in Hprev. injection Hprev as <-.
  split; [|done]. destruct Hstore as [Heq|(b & Hb & Heq)]; rewrite Heq; [by left|].
  apply elem_of_cons in Hb as [->|Hb%list_elem_of_singleton]; [by left|]. subst b. right.
  unfold u64_checked_add in Hn. case_match; simplify_eq. eauto.
Qed.

(** A store that [initialize_with_key] created is on disk, at revision 0. *)
Lemma initialized_on_disk path key salt w w' s :
  lasting path = true → length salt = SALT_BYTES →
  initialize_with_key path key salt w = (w', Ok s) →
  s = {| s_path := path; s_marker_path := marker_path path; s_key := key; s_salt := salt;
         s_revision := 0; s_records := ∅; s_locked := false |} ∧ store_wf s ∧
  ∃ w1 w2 contents, seal s 0 w1 = (w2, Ok contents) ∧
    w_files w' !! path = Some (RegularFile contents) ∧
    w_files w' !! marker_path path = Some (RegularFile (as_bytes (u64_to_string 0))).
Proof using Type.
  intros Hlast Hsalt. unfold initialize_with_key, mut_bind.
  destruct (ensure_private_file path w) as [w2 [[]|]]; [done| |done].
  set (st := {| s_path := path |}). unfold persist, mut_bind.
  destruct (seal st (s_revision st) w2) as [w3 [contents|]] eqn:Hseal; [|done].
  pose proof (lasting_suffix path : lasting (marker_path path) = true) as Hmark.
  pose proof (atomic_write_cases (s_path st) contents w3 Hlast) as H4.
  destruct (atomic_write (s_path st) contents w3) as [w4 [[]|]]; [|done].
  destruct H4 as [[? _]|[_ F4]]; [done|]. unfold write_marker.
  pose proof (atomic_write_cases (s_marker_path st) (as_bytes (u64_to_string (s_revision st))) w4
                Hmark) as H5.
  destruct (atomic_write (s_marker_path st) _ w4) as [w5 [[]|]]; [|done].
  destruct H5 as [[? _]|[_ F5]]; [done|]. rewrite F4 in F5.
  apply lasting_inv in Hmark as [_ Hmark]. pose proof (lasting_inv _ Hlast) as [_ Hpath].
  intros [= <- <-]. split; [done|]. split.
  - pose proof Hseal as (? & ? & ? & _ & _ & ? & _)%seal_ok. by split.
  - exists w2, w3, contents. split; [done|]. rewrite (F5 _ Hpath), (F5 _ Hmark).
    split; [|apply lookup_insert_eq]. pose proof (marker_path_ne path).
    unfold st. cbn [s_path s_marker_path]. by rewrite lookup_insert_ne, lookup_insert_eq.
Qed.

(** C12. At a path that names a file, and not a temporary one, [initialize] followed by [open]
    with the same passphrase is the empty store that was created. *)
Theorem storage_initialize_then_open path passphrase w w' w'' s :
  lasting path = true → initialize path passphrase w = (w', Ok s) →
  w_files w'' = w_files w' → w_faults w'' = [] →
  open path passphrase w'' = (w'', Ok s) ∧ store_wf s ∧ s_records s = ∅ ∧ s_revision s = 0%N.
Proof using Type*.
  intros Hlast. unfold initialize, open, mut_bind, mut_lift, random_io.
  destruct (validate_passphrase passphrase); [|done].
  destruct (secure_random SALT_BYTES w) as [w1 [salt|]] eqn:Hsalt; [|done].
  apply secure_random_length in Hsalt. cbn [ok_or].
  destruct (derive_key passphrase salt) as [key|] eqn:Hkey; [|done].
  intros Hi Hfiles Hf.
  destruct (initialized_on_disk _ _ _ _ _ _ Hlast Hsalt Hi) as (Hs & Hwf & w2 & w3 & c & Hseal & Hp & Hm).
  rewrite <-Hfiles in Hp, Hm. split; [|by subst s].
  assert (Hmp : w_files w'' !! s_marker_path s = Some (RegularFile (as_bytes (u64_to_string 0))))
    by (by subst s).
  destruct (open_sealed_file s 0 _ _ _ _ Hwf ltac:(by subst s) ltac:(done) Hseal Hf Hmp)
    as (parsed & Hparse & Hps & Ho).
  rewrite (ensure_private_file_ok _ _ _ Hf Hp). unfold read_file.
  rewrite (fs_read_ok _ _ _ Hf Hp), Hparse, Hps. subst s. cbn [s_salt s_path s_key] in *.
  by rewrite Hkey, Ho.
Qed.

(** The revision a marker file records. *)
Definition marker_value (b : bytes) : option N :=
  v ← from_utf8 b; parse_u64 (trim v).

Lemma marker_value_written n :
  (n ≤ u64_max)%N → marker_value (as_bytes (u64_to_string n)) = Some n.
Proof using Type.
  intros Hn. unfold marker_value, from_utf8.
  rewrite ascii_utf8_valid by apply visible_ascii, u64_to_string_visible. simpl.
  rewrite of_as_bytes, trim_visible by apply u64_to_string_visible.
  by apply parse_u64_to_string.
Qed.

Lemma ensure_private_cases p w :
  let '(w', r) := ensure_private_file p w in
  w_files w' = w_files w ∧
  (is_ok r = true → w_files w !! p = None ∨ ∃ b, w_files w !! p = Some (RegularFile b)).
Proof using Type.
  unfold ensure_private_file. pose proof (next_fault_files w) as Hf.
  destruct (next_fault w) as [[] w1]; simpl in *; [|done..]. rewrite Hf.
  destruct (w_files w !! p) as [[b| |]|] eqn:E; simpl; [|by auto..].
  pose proof (next_fault_files w1) as Hf2. destruct (next_fault w1) as [[] w2]; simpl in *;
    split; try congruence; eauto.
Qed.

Lemma read_marker_cases p w :
  let '(w', r) := read_marker p w in
  w_files w' = w_files w ∧
  (∀ o, r = Ok o →
     (o = None ∧ resolve 40 (w_files w) p = None) ∨
     ∃ b m, o = Some m ∧ resolve 40 (w_files w) p = Some (RegularFile b) ∧ marker_value b = Some m).
Proof using Type.
  unfold read_marker, fs_read, marker_value. pose proof (next_fault_files w) as Hf.
  destruct (next_fault w) as [[] w1]; simpl in *; [|done..]. rewrite Hf.
  destruct (resolve 40 (w_files w) p) as [[b| |]|]; split; try done; [|naive_solver].
  intros o. destruct (from_utf8 b) as [v|] eqn:Ev; [|done]. simpl.
  destruct (parse_u64 (trim v)) as [m|] eqn:Em; simpl; [|done]. intros [= <-]. right.
  exists b, m. split_and!; [done..|]. by rewrite Ev.
Qed.

Lemma parse_file_revision b parsed : parse_file b = Ok parsed → (pf_revision parsed ≤ u64_max)%N.
Proof using Type.
  unfold parse_file. case_match; [done|]. intros [= <-]. cbn [pf_revision].
  set (v := slice _ 8 b). pose proof (be_value_lt v) as Hlt.
  assert (length v ≤ 8)%nat by (unfold v, slice; rewrite length_take; lia).
  assert (256 ^ N.of_nat (length v) ≤ 256 ^ 8)%N by (apply N.pow_le_mono_r; lia).
  change (256 ^ 8)%N with (u64_max + 1)%N in *. lia.
Qed.

(** C11. Opening, whatever the file system does, never accepts a store older than its marker,
    and leaves a marker that records exactly the revision of the store it opened. *)
Theorem storage_open_refuses_rollback path key w w' s :
  open_with_database_key path key w = (w', Ok s) →
  (∀ b m, w_files w !! marker_path path = Some (RegularFile b) →
          marker_value b = Some m → (m ≤ s_revision s)%N) ∧
  (∃ b, w_files w' !! marker_path path = Some (RegularFile b) ∧
        marker_value b = Some (s_revision s)).
Proof using Type.
  unfold open_with_database_key, open_with_key, mut_bind, mut_lift.
  pose proof (ensure_private_cases path w) as H1.
  destruct (ensure_private_file path w) as [w1 [?|]]; [|done]. destruct H1 as [F1 _].
  pose proof (read_file_cases path w1) as H2.
  destruct (read_file path w1) as [w2 [contents|]]; [|done]. destruct H2 as [F2 _].
  destruct (parse_file contents) as [parsed|] eqn:Hparse; [|done].
  apply parse_file_revision in Hparse.
  destruct (aes_new key) as [key'|]; [|done].
  destruct (aes_decrypt _ _ _ _) as [pt|]; cbn [ok_or]; [|done].
  destruct (decode_records pt) as [records|]; [|done].
  pose proof (ensure_private_cases (marker_path path) w2) as H3.
  destruct (ensure_private_file (marker_path path) w2) as [w3 [ex|]]; [|done].
  destruct H3 as [F3 H3]. specialize (H3 eq_refl).
  pose proof (read_marker_cases (marker_path path) w3) as H4.
  destruct (read_marker (marker_path path) w3) as [w4 [o|]]; [|done].
  destruct H4 as [F4 H4]. specialize (H4 o eq_refl).
  rewrite F3, F2, F1 in *.
  destruct (match o with Some m => _ | None => false end) eqn:Hrb; [done|]. cbn [s_marker_path].
  pose proof (read_marker_cases (marker_path path) w4) as H5.
  destruct (read_marker (marker_path path) w4) as [w5 [o2|]]; [|done].
  destruct H5 as [F5 H5]. specialize (H5 o2 eq_refl). rewrite F4 in *.
  assert (Hle : ∀ b m, w_files w !! marker_path path = Some (RegularFile b) →
            marker_value b = Some m → (m ≤ pf_revision parsed)%N).
  { intros b m Hb Hm. destruct H4 as [[_ Hn]|(b' & m' & -> & Hb' & Hm')].
    - rewrite (resolve_regular _ _ _ _ Hb) in Hn. done.
    - rewrite (resolve_regular _ _ _ _ Hb) in Hb'. simplify_eq. lia. }
  destruct (match o2 with Some m => _ | None => true end) eqn:Hwr.
  - unfold write_marker. cbn [s_marker_path s_revision].
    pose proof (lasting_suffix path : lasting (marker_path path) = true) as Hmark.
    pose proof (atomic_write_cases (marker_path path) (as_bytes (u64_to_string (pf_revision parsed)))
                  w5 Hmark) as H6.
    destruct (atomic_write _ _ w5) as [w6 [[]|]]; [|done].
    destruct H6 as [[? _]|[_ F6]]; [done|]. unfold mut_ret. intros [= <- <-].
    apply lasting_inv in Hmark as [_ Hmark].
    split; [done|]. eexists. rewrite (F6 _ Hmark), lookup_insert_eq. split; [done|].
    by apply marker_value_written.
  - unfold mut_ret. intros [= <- <-]. cbn [s_revision]. split; [done|].
    destruct H5 as [[-> _]|(b & m & -> & Hb & Hm)]; [done|]. exists b. rewrite F5.
    destruct H3 as [H3|[b' H3]].
    + exfalso. revert Hb. unfold resolve. by rewrite H3.
    + rewrite (resolve_regular _ _ _ _ H3) in Hb. simplify_eq. split; [done|].
      rewrite Hm. f_equal. specialize (Hle _ _ H3 Hm). cbn [s_revision] in Hwr. lia.
Qed.
End properties.

(** ** Two failure modes *)

(** A batch that fails validation part-way keeps its first mutations in memory, although
    nothing was written and the error is reported: the loop of [apply_batch] returns before
    the saved records are restored. *)
Theorem storage_batch_partial_in_memory `{Crypto} ms m rest s w :
  s_locked s = false → forallb mutation_ok ms = true → mutation_ok m = false →
  apply_batch (ms ++ m :: rest) (s, w)
  = ((set_records (records_batch ms (s_records s)) s, w), Err RecordTooLarge).
Proof.
  intros Hl Hok Hm. unfold apply_batch. by rewrite Hl, apply_mutations_stop.
Qed.

Lemma storage_batch_partial_in_memory_witness :
  let '((s, w), r) := @apply_batch Reference.crypto
        [Put Contact "a" []; Put Contact EmptyString []] (Sample.store0, Sample.world1) in
  r = Err RecordTooLarge ∧ get s Contact "a" = Some [] ∧ w_files w = w_files Sample.world1.
Proof.
  rewrite (storage_batch_partial_in_memory [Put Contact "a" []] (Put Contact EmptyString []) []
             Sample.store0 Sample.world1); [|vm_compute; reflexivity..].
  split_and!; [reflexivity| |reflexivity]. vm_compute. reflexivity.
Defined.

(** A marker write whose directory cannot be synced after the rename, followed by a failed
    restore of the marker, leaves a marker ahead of the restored store: the next open takes the
    untouched files for a rollback attack. *)
Theorem storage_false_rollback :
  let w := Sample.with_draws [12; 8; 8; 8; 8] (Sample.with_faults
             (replicate 18 NoFault ++ [FailBefore] ++ replicate 10 NoFault ++ [FailBefore])
             Sample.world1) in
  let '((s, w'), r) := @put Reference.crypto Contact "a" [] (Sample.store0, w) in
  r = Err Io ∧ s = Sample.store0 ∧
  w_files w' !! s_path s = w_files w !! s_path s ∧
  (@open Reference.crypto "data/store" Sample.passphrase (Sample.quiet w')).2 = Err RollbackDetected ∧
  is_ok (@open Reference.crypto "data/store" Sample.passphrase (Sample.quiet w)).2 = true.
Proof. vm_compute. split_and!; reflexivity. Qed.

(** ** Witnesses *)

Import Reference.

Lemma storage_records_roundtrip_witness :
  ∃ b, encode_records {[ (Contact, "a") := ["x"%char] ]} = Ok b ∧
       decode_records b = Ok {[ (Contact, "a") := ["x"%char] ]}.
Proof.
  apply (storage_records_roundtrip {[ (Contact, "a") := ["x"%char] ]}).
  split; [vm_compute; discriminate|]. intros k v Hk. apply lookup_singleton_Some in Hk as [<- <-].
  split; [vm_compute; reflexivity|]. split; [vm_compute; reflexivity|vm_compute; discriminate].
Defined.

Lemma storage_put_is_durable_witness :
  let '((s, w), _) := @put Reference.crypto Contact "a" ["x"%char] (Sample.store0, Sample.world1) in
  @open_with_database_key Reference.crypto "data/store" (s_key Sample.store0) w = (w, Ok s).
Proof.
  destruct (@put Reference.crypto Contact "a" ["x"%char] (Sample.store0, Sample.world1))
    as [[s w] r] eqn:E.
  assert (Hr : r = Ok tt) by (apply (f_equal snd) in E; vm_compute in E; by symmetry).
  assert (Hf : w_faults w = []).
  { apply (f_equal (λ p, w_faults p.1.2)) in E. vm_compute in E. by symmetry. }
  subst r.
  exact (proj1 (storage_put_is_durable Contact "a" ["x"%char] Sample.store0 Sample.world1 s w w
                  Sample.store0_wf eq_refl E eq_refl Hf)).
Defined.

Lemma storage_failure_keeps_memory_witness :
  (@put Reference.crypto Contact "a" []
     (Sample.store0, Sample.with_faults [FailBefore] Sample.world1)).1.1 = Sample.store0.
Proof.
  destruct (@put Reference.crypto Contact "a" [] (Sample.store0, _)) as [sw r] eqn:E.
  assert (Hr : r = Err Io) by (apply (f_equal snd) in E; vm_compute in E; by symmetry). subst r.
  exact (proj1 (storage_failure_keeps_memory Sample.store0 _ sw Io)
           Contact "a" [] E).
Defined.

Lemma storage_failed_put_leaves_whole_file_witness :
  let w := Sample.with_faults (replicate 8 NoFault ++ [FailAfter]) Sample.world1 in
  is_Some (w_files (@put Reference.crypto Contact "a" [] (Sample.store0, w)).1.2 !! "data/store").
Proof.
  cbv zeta.
  destruct (@put Reference.crypto Contact "a" []
              (Sample.store0, Sample.with_faults (replicate 8 NoFault ++ [FailAfter]) Sample.world1))
    as [[s w] r] eqn:E.
  assert (Hr : r = Err Io) by (apply (f_equal snd) in E; vm_compute in E; by symmetry). subst r.
  assert (∃ old, w_files Sample.world1 !! s_path Sample.store0 = Some (RegularFile old)) as [old Hold].
  { eexists. vm_compute. reflexivity. }
  destruct (storage_failed_put_leaves_whole_file Contact "a" [] Sample.store0
              (Sample.with_faults (replicate 8 NoFault ++ [FailAfter]) Sample.world1) s w Io old
              Sample.store0_wf Hold E) as [[Hw|(w1 & c & _ & Hw)] _]; eexists; exact Hw.
Defined.

Lemma storage_initialize_then_open_witness :
  @open Reference.crypto "data/store" Sample.passphrase Sample.world1 = (Sample.world1, Ok Sample.store0).
Proof.
  refine (proj1 (storage_initialize_then_open "data/store" Sample.passphrase Sample.world0
                   Sample.world1 Sample.world1 Sample.store0 _ _ eq_refl _));
    vm_compute; reflexivity.
Defined.

Lemma storage_open_refuses_rollback_witness :
  ∃ b, w_files Sample.world1 !! marker_path "data/store" = Some (RegularFile b) ∧
       marker_value b = Some (s_revision Sample.store0).
Proof.
  refine (proj2 (@storage_open_refuses_rollback Reference.crypto "data/store" (s_key Sample.store0)
                   Sample.world1 Sample.world1 Sample.store0 _)).
  vm_compute. reflexivity.
Defined.
