(* ===== verification/Recovery.v ===== *)
(** * Recovery artifacts ([apps/daemon/src/storage.rs])

    Exporting the encrypted store file and its revision marker as one artifact, parsing an
    artifact, and staging one for the next start of the daemon. *)
From Stdlib Require Import Ascii NArith Lia ZifyBool ZifyN.
From stdpp Require Import base gmap strings list.
From S2P Require Import Prelude Text Collections Interfaces Paths Fs StoreFormat Storage RecordStore StorageLaws StorageProps.

(** [ADRECOVERY2] and two NUL bytes. *)
Definition RECOVERY_MAGIC : bytes := as_bytes "ADRECOVERY2" ++ [n_byte 0; n_byte 0].
Definition MAX_RECOVERY_ARTIFACT_BYTES : N := 64 * 1024 * 1024.

Record RecoveryManifest := {
  rm_schema_version : N;
  rm_created_at : N;
  rm_store_bytes : N;
  rm_revision_bytes : N;
  rm_store_sha256 : string;
  rm_revision_sha256 : string;
}.
#[export] Instance RecoveryManifest_eq_dec : EqDecision RecoveryManifest.
Proof. solve_decision. Defined.

Definition recovery_hex (b : bytes) : string := of_bytes (hex_b b).

(** What [append_blob] adds to the output. *)
Definition append_blob (output value : bytes) : bytes := output ++ be_bytes 8 (blen value) ++ value.

Definition recovery_pending_path (path : string) : string := with_extension path "recovery.pending".

(** The bytes of a slice from an offset to an end. *)
Definition range (b : bytes) (from to : N) : bytes :=
  take (N.to_nat (to - from)) (drop (N.to_nat from) b).

Definition read_blob (b : bytes) (offset : N) : result (bytes * N) StorageError :=
  let? end_length := ok_or (u64_checked_add offset 8) CorruptStore in
  if (blen b <? end_length)%N then Err CorruptStore
  else
    let length := be_value (range b offset end_length) in
    let? end_ := ok_or (u64_checked_add end_length length) CorruptStore in
    if (blen b <? end_)%N then Err CorruptStore
    else Ok (range b end_length end_, end_).

Section recovery.
Context `{Crypto, JsonCodec RecoveryManifest}.

Definition recovery_manifest (created_at : N) (store revision : bytes) : RecoveryManifest :=
  {| rm_schema_version := 2; rm_created_at := created_at; rm_store_bytes := blen store;
     rm_revision_bytes := blen revision; rm_store_sha256 := recovery_hex (sha256 store);
     rm_revision_sha256 := recovery_hex (sha256 revision) |}.

Definition export_recovery_artifact (s : EncryptedStore) (created_at : N)
  : Mut World bytes StorageError :=
  if s_locked s then mut_err Locked
  else
    let! store := read_file (s_path s) in
    let! revision := read_file (s_marker_path s) in
    let! manifest :=
      mut_lift (ok_or (json_to_vec (recovery_manifest created_at store revision)) Io) in
    mut_ret (append_blob (append_blob (append_blob RECOVERY_MAGIC manifest) store) revision).

Definition parse_recovery_artifact (b : bytes) : result (bytes * bytes) StorageError :=
  if (MAX_RECOVERY_ARTIFACT_BYTES <? blen b)%N || negb (starts_with_b RECOVERY_MAGIC b)
  then Err CorruptStore
  else
    let? m := read_blob b (blen RECOVERY_MAGIC) in
    let? manifest := ok_or (json_from_slice m.1) CorruptStore in
    let? st := read_blob b m.2 in
    let? rev := read_blob b st.2 in
    let store := st.1 in
    let revision := rev.1 in
    if negb (rev.2 =? blen b)%N
       || negb (rm_schema_version manifest =? 2)%N
       || negb (rm_store_bytes manifest =? blen store)%N
       || negb (rm_revision_bytes manifest =? blen revision)%N
       || negb (seqb (rm_store_sha256 manifest) (recovery_hex (sha256 store)))
       || negb (seqb (rm_revision_sha256 manifest) (recovery_hex (sha256 revision)))
       || (blen store =? 0)%N || (blen revision =? 0)%N
    then Err CorruptStore
    else
      let? parsed_store := parse_file store in
      let? text := ok_or (from_utf8 revision) CorruptStore in
      let? marker_revision := ok_or (parse_u64 (trim text)) CorruptStore in
      if negb (pf_revision parsed_store =? marker_revision)%N then Err CorruptStore
      else Ok (store, revision).

Definition stage_recovery_artifact (s : EncryptedStore) (artifact : bytes)
  : Mut World unit StorageError :=
  if s_locked s then mut_err Locked
  else
    let! _ := mut_lift (parse_recovery_artifact artifact) in
    atomic_write (recovery_pending_path (s_path s)) artifact.
End recovery.

(** ** Blobs in an artifact *)

Lemma range_middle pre v post :
  range (pre ++ v ++ post) (blen pre) (blen pre + blen v) = v.
Proof.
  unfold range. rewrite N.add_comm, N.add_sub. unfold blen. rewrite !Nat2N.id.
  by rewrite drop_app_length, take_app_length.
Qed.

Lemma read_blob_middle pre v post :
  (blen (pre ++ be_bytes 8 (blen v) ++ v ++ post) ≤ u64_max)%N →
  read_blob (pre ++ be_bytes 8 (blen v) ++ v ++ post) (blen pre) = Ok (v, blen pre + 8 + blen v)%N.
Proof.
  intros Hb. assert (H8 : blen (be_bytes 8 (blen v)) = 8%N)
    by (unfold blen; by rewrite length_be_bytes).
  assert (Hlen : blen (pre ++ be_bytes 8 (blen v) ++ v ++ post)
                 = (blen pre + (8 + (blen v + blen post)))%N) by (by rewrite !blen_app, H8).
  pose proof (range_middle pre (be_bytes 8 (blen v)) (v ++ post)) as Hr. rewrite H8 in Hr.
  pose proof (range_middle (pre ++ be_bytes 8 (blen v)) v post) as Hv.
  rewrite blen_app, H8, <-app_assoc in Hv. rewrite Hlen in Hb.
  unfold read_blob, u64_checked_add. rewrite Hlen.
  replace (blen pre + 8 <=? u64_max)%N with true by lia. cbn [ok_or result_bind].
  replace (blen pre + (8 + (blen v + blen post)) <? blen pre + 8)%N with false by lia.
  rewrite Hr, be_value_u64 by lia.
  replace (blen pre + 8 + blen v <=? u64_max)%N with true by lia. cbn [ok_or result_bind].
  replace (blen pre + (8 + (blen v + blen post)) <? blen pre + 8 + blen v)%N with false by lia.
  by rewrite Hv.
Qed.

Section props.
Context `{HC : Crypto} {HL : CryptoLaws} `{HJ : JsonCodec RecoveryManifest} {HR : JsonRoundTrip RecoveryManifest}.

(** The bytes of the artifact of a store file and a marker. *)
Definition artifact (manifest store revision : bytes) : bytes :=
  append_blob (append_blob (append_blob RECOVERY_MAGIC manifest) store) revision.

Lemma artifact_blobs manifest store revision :
  (blen (artifact manifest store revision) ≤ u64_max)%N →
  let b := artifact manifest store revision in
  let o1 := (blen RECOVERY_MAGIC + 8 + blen manifest)%N in
  let o2 := (o1 + 8 + blen store)%N in
  starts_with_b RECOVERY_MAGIC b = true ∧
  read_blob b (blen RECOVERY_MAGIC) = Ok (manifest, o1) ∧
  read_blob b o1 = Ok (store, o2) ∧ read_blob b o2 = Ok (revision, blen b).
Proof using Type.
  intros Hb. cbv zeta. unfold artifact, append_blob in *. rewrite <-!app_assoc in *.
  assert (H8 : ∀ n, blen (be_bytes 8 n) = 8%N) by (intros; unfold blen; by rewrite length_be_bytes).
  split_and!.
  - unfold starts_with_b. by rewrite strip_prefix_b_app.
  - by apply read_blob_middle.
  - set (pre := RECOVERY_MAGIC ++ be_bytes 8 (blen manifest) ++ manifest).
    replace (RECOVERY_MAGIC ++ be_bytes 8 (blen manifest) ++ manifest ++ _)
      with (pre ++ be_bytes 8 (blen store) ++ store ++ be_bytes 8 (blen revision) ++ revision) in *
      by (unfold pre; by rewrite <-!app_assoc).
    replace (blen RECOVERY_MAGIC + 8 + blen manifest)%N with (blen pre)
      by (unfold pre; rewrite !blen_app, H8; lia).
    by apply read_blob_middle.
  - set (pre := RECOVERY_MAGIC ++ be_bytes 8 (blen manifest) ++ manifest
                ++ be_bytes 8 (blen store) ++ store).
    replace (RECOVERY_MAGIC ++ be_bytes 8 (blen manifest) ++ manifest ++ _)
      with (pre ++ be_bytes 8 (blen revision) ++ revision ++ []) in *
      by (unfold pre; by rewrite <-!app_assoc, app_nil_r).
    replace (blen RECOVERY_MAGIC + 8 + blen manifest + 8 + blen store)%N with (blen pre)
      by (unfold pre; rewrite !blen_app, !H8; lia).
    rewrite read_blob_middle by done. do 2 f_equal. rewrite !blen_app, H8.
    change (blen []) with 0%N. lia.
Qed.

(** A store whose files hold what it has in memory. *)
Definition on_disk (s : EncryptedStore) (w : World) : Prop :=
  (∃ w0 w1 contents, seal s (s_revision s) w0 = (w1, Ok contents) ∧
     w_files w !! s_path s = Some (RegularFile contents)) ∧
  w_files w !! s_marker_path s = Some (RegularFile (as_bytes (u64_to_string (s_revision s)))).

(** The same store at another path. *)
Definition moved_to (path : string) (s : EncryptedStore) : EncryptedStore :=
  {| s_path := path; s_marker_path := marker_path path; s_key := s_key s; s_salt := s_salt s;
     s_revision := s_revision s; s_records := s_records s; s_locked := s_locked s |}.

Lemma u64_to_string_nonempty n : (n ≤ u64_max)%N → blen (as_bytes (u64_to_string n)) ≠ 0%N.
Proof using Type.
  intros Hn E. apply blen_zero in E. apply parse_u64_to_string in Hn.
  by replace (u64_to_string n) with EmptyString in Hn by (by apply as_bytes_inj).
Qed.

Lemma sealed_nonempty store parsed : parse_file store = Ok parsed → blen store ≠ 0%N.
Proof using Type. intros H E. apply blen_zero in E. by subst. Qed.

Lemma sealed_parses s n w w' contents :
  store_wf s → (n ≤ u64_max)%N → seal s n w = (w', Ok contents) →
  ∃ parsed, parse_file contents = Ok parsed ∧ pf_revision parsed = n.
Proof using HL.
  intros Hwf Hn (pt & nonce & ct & _ & Hnl & _ & Hct & ->)%seal_ok. eexists.
  split; [apply parse_encode_file; try done|done]; [by apply wf_salt|].
  apply aes_tag_length in Hct. lia.
Qed.

(** A sealed store moves with its files. *)
Lemma seal_moved path s n w : seal (moved_to path s) n w = seal s n w.
Proof using Type. done. Qed.

Lemma export_on_disk s t w w' b :
  s_locked s = false → on_disk s w → export_recovery_artifact s t w = (w', Ok b) →
  ∃ contents manifest,
    w_files w !! s_path s = Some (RegularFile contents) ∧
    json_to_vec (recovery_manifest t contents (as_bytes (u64_to_string (s_revision s))))
      = Some manifest ∧
    b = artifact manifest contents (as_bytes (u64_to_string (s_revision s))).
Proof using Type.
  intros Hl [(w0 & w1 & c & _ & Hc) Hm]. unfold export_recovery_artifact, mut_bind, mut_lift.
  rewrite Hl. pose proof (read_file_cases (s_path s) w) as H1.
  destruct (read_file (s_path s) w) as [w2 [store|]]; [|done]. destruct H1 as [F1 H1].
  destruct H1 as [(x & [= ->] & Hx)|?]; [|done]. rewrite (resolve_regular _ _ _ c Hc) in Hx.
  pose proof (read_file_cases (s_marker_path s) w2) as H2.
  destruct (read_file (s_marker_path s) w2) as [w3 [rev|]]; [|done]. destruct H2 as [_ H2].
  rewrite F1 in H2. destruct H2 as [(y & [= ->] & Hy)|?]; [|done].
  rewrite (resolve_regular _ _ _ _ Hm) in Hy. simplify_eq.
  destruct (json_to_vec _) as [m|] eqn:Ej; [|done]. intros [= <- <-]. by exists x, m.
Qed.

(** C17. For an unlocked, well-formed store whose file and marker on disk are those of its last commit (the file
    seals its records at its revision and the marker names that revision), the exported artifact,
    unless it is larger than an artifact may be, is parsed back to the store file and the marker;
    and these two files, at any path that is not the name of a temporary file and on a machine
    without I/O errors, open with the same key to the same records at the same revision. A store
    whose last commit failed between the two files is not covered: its artifact may be refused. *)
Theorem recovery_roundtrip s t w w' b :
  store_wf s → s_locked s = false → on_disk s w →
  export_recovery_artifact s t w = (w', Ok b) → (blen b ≤ MAX_RECOVERY_ARTIFACT_BYTES)%N →
  ∃ store revision,
    parse_recovery_artifact b = Ok (store, revision) ∧
    ∀ path v, lasting path = true → w_faults v = [] →
      w_files v !! path = Some (RegularFile store) →
      w_files v !! marker_path path = Some (RegularFile revision) →
      open_with_database_key path (s_key s) v = (v, Ok (moved_to path s)).
Proof using HL HR.
  intros Hwf Hl Hd He Hmax. destruct (export_on_disk _ _ _ _ _ Hl Hd He) as (c & m & Hc & Hj & ->).
  destruct Hd as [(w0 & w1 & c' & Hseal & Hc') Hm]. rewrite Hc in Hc'. simplify_eq.
  pose proof (wf_revision s Hwf) as Hrev.
  set (marker := as_bytes (u64_to_string (s_revision s))) in *.
  exists c', marker. assert (MAX_RECOVERY_ARTIFACT_BYTES < u64_max)%N by done.
  destruct (artifact_blobs m c' marker ltac:(lia)) as (Hs & H1 & H2 & H3).
  assert (Hopen : ∀ path v, lasting path = true → w_faults v = [] →
      w_files v !! path = Some (RegularFile c') →
      w_files v !! marker_path path = Some (RegularFile marker) →
      open_with_database_key path (s_key s) v = (v, Ok (moved_to path s))).
  { intros path v Hp Hf Hcv Hmv. destruct Hwf as [_ _ Hsalt Hkey _ Hutf].
    assert (Hwf' : store_wf (moved_to path s)) by by split.
    exact (open_sealed (moved_to path s) (s_revision s) w0 w1 c' v Hwf' Hl Hrev Hseal Hf Hcv Hmv). }
  split; [|done]. clear Hopen. destruct (sealed_parses s _ _ _ _ Hwf Hrev Hseal) as (parsed & Hparse & Hr).
  unfold parse_recovery_artifact. rewrite Hs, H1. replace (_ <? blen _)%N with false by lia.
  cbn [negb orb result_bind fst snd]. rewrite (json_roundtrip _ _ Hj). cbn [ok_or result_bind].
  rewrite H2. cbn [result_bind fst snd]. rewrite H3. cbn [result_bind fst snd].
  cbn [recovery_manifest rm_schema_version rm_store_bytes rm_revision_bytes rm_store_sha256
       rm_revision_sha256]. rewrite !N.eqb_refl, !seqb_refl. cbn [negb orb].
  rewrite (proj2 (N.eqb_neq (blen marker) 0) (u64_to_string_nonempty _ Hrev)).
  rewrite (proj2 (N.eqb_neq _ _) (sealed_nonempty _ _ Hparse)). cbn [orb].
  rewrite Hparse. cbn [result_bind]. unfold marker, from_utf8.
  rewrite ascii_utf8_valid by apply visible_ascii, u64_to_string_visible. cbn [ok_or result_bind].
  rewrite of_as_bytes, trim_visible by apply u64_to_string_visible.
  rewrite parse_u64_to_string by done. cbn [ok_or result_bind]. by rewrite Hr, N.eqb_refl.
Qed.

(** The pending artifact is a file of its own. *)
Lemma pending_lasting path : plain_path path = true → lasting (recovery_pending_path path) = true.
Proof using Type.
  intros Hp. unfold recovery_pending_path, with_extension. unfold plain_path in Hp.
  pose proof (path_parts_clean path) as Hc. destruct (path_parts path) as [|name before]; [done|].
  apply negb_true_iff in Hp. rewrite Hp. apply Forall_cons in Hc as [Hn Hb].
  set (new := file_stem name +:+ "." +:+ "recovery.pending").
  assert (Hlen : 10 < length (as_bytes new))
    by (unfold new; rewrite !as_bytes_app, !length_app; cbn; lia).
  assert (Hshort : ∀ x, length (as_bytes x) ≤ 10 → new ≠ x) by (intros x Hx ->; lia).
  assert (E : path_parts (join 47 (rev (new :: before))) = new :: before).
  { apply path_parts_join; [|done|by apply Hshort; cbn; lia..].
    apply not_elem_of_string_app; [by apply file_stem_clean|].
    refine (bool_decide_unpack _ _). by vm_compute. }
  unfold lasting, plain_path, is_temporary. rewrite E.
  replace new with ((file_stem name +:+ ".recovery") +:+ "." +:+ "pending") at 3
    by (apply as_bytes_inj; unfold new; by rewrite !as_bytes_app, <-!app_assoc).
  rewrite rsplit_once_ext by (refine (bool_decide_unpack _ _); by vm_compute).
  rewrite andb_true_r. apply negb_true_iff, orb_false_iff.
  split; apply bool_decide_eq_false; apply Hshort; cbn; lia.
Qed.

(** Staging an artifact writes the artifact, whole, to the pending file or leaves that file as
    it was, whatever the file system does; it changes no other file but temporary ones, and it
    stages nothing that does not parse. *)
Theorem recovery_stage_is_harmless s b w w' r :
  plain_path (s_path s) = true → stage_recovery_artifact s b w = (w', r) →
  (∀ p, is_temporary p = false → p ≠ recovery_pending_path (s_path s) →
        w_files w' !! p = w_files w !! p) ∧
  (w_files w' !! recovery_pending_path (s_path s) = w_files w !! recovery_pending_path (s_path s) ∨
   (∃ parsed, parse_recovery_artifact b = Ok parsed) ∧
   w_files w' !! recovery_pending_path (s_path s) = Some (RegularFile b)) ∧
  (r = Ok tt → w_files w' !! recovery_pending_path (s_path s) = Some (RegularFile b)).
Proof using Type.
  intros Hp. unfold stage_recovery_artifact, mut_bind, mut_lift.
  destruct (s_locked s); [intros [= <- <-]; by split_and!; auto|].
  destruct (parse_recovery_artifact b) as [parsed|]; [|intros [= <- <-]; by split_and!; auto].
  apply pending_lasting in Hp. pose proof (lasting_inv _ Hp) as [_ Ht].
  pose proof (atomic_write_cases (recovery_pending_path (s_path s)) b w Hp) as Hw. intros E.
  rewrite E in Hw. split; [|split].
  - intros p Hpt Hne. by eapply written_lookup.
  - destruct (written_target _ _ _ _ _ Hw Ht) as [Hs|(c & Hc%list_elem_of_singleton & Hs)];
      [by left|]. subst c. right. split; [by exists parsed|done].
  - intros ->. destruct Hw as [[? _]|[_ Hf]]; [done|]. rewrite (Hf _ Ht). apply lookup_insert_eq.
Qed.
End props.

(** ** Witnesses *)

Module RecoverySample.
Import Reference.
Definition contents : bytes :=
  match w_files Sample.world1 !! "data/store" with Some (RegularFile b) => b | _ => [] end.
Definition manifest : RecoveryManifest :=
  recovery_manifest 100 contents (as_bytes (u64_to_string 0)).
#[export] Instance codec : JsonCodec RecoveryManifest := json_table [manifest].
#[export] Instance codec_laws : JsonRoundTrip RecoveryManifest := json_table_laws [manifest].

Definition exported : bytes :=
  match (export_recovery_artifact Sample.store0 100 Sample.world1).2 with
  | Ok b => b
  | Err _ => []
  end.

(** A parsed artifact in a world of its own. *)
Definition restored : World :=
  {| w_files := {[ "copy/store" := RegularFile contents;
                   "copy/store.revision" := RegularFile (as_bytes (u64_to_string 0)) ]};
     w_faults := []; w_entropy := []; w_pid := 1 |}.

Lemma sample_on_disk : on_disk Sample.store0 Sample.world1.
Proof.
  split; [|vm_compute; reflexivity].
  exists {| w_files := ∅; w_faults := []; w_entropy := [Sample.draws 12]; w_pid := 1 |}.
  eexists _, contents. split; vm_compute; reflexivity.
Qed.
End RecoverySample.
Import Reference RecoverySample.

Lemma recovery_roundtrip_witness :
  ∃ store revision, parse_recovery_artifact exported = Ok (store, revision).
Proof.
  destruct (recovery_roundtrip Sample.store0 100 Sample.world1
    (export_recovery_artifact Sample.store0 100 Sample.world1).1 exported Sample.store0_wf)
    as (store & revision & H & _);
    [vm_compute; reflexivity|exact sample_on_disk|vm_compute; reflexivity|vm_compute; discriminate|].
  by exists store, revision.
Defined.

Lemma recovery_stage_is_harmless_witness :
  w_files (stage_recovery_artifact Sample.store0 exported
             (Sample.with_draws [8] Sample.world1)).1 !! "data/store.recovery.pending"
  = Some (RegularFile exported).
Proof.
  refine (proj2 (proj2 (recovery_stage_is_harmless Sample.store0 exported
    (Sample.with_draws [8] Sample.world1)
    (stage_recovery_artifact Sample.store0 exported (Sample.with_draws [8] Sample.world1)).1
    (Ok tt) _ _)) eq_refl); vm_compute; reflexivity.
Defined.
