(* ===== verification/DeliveryLedger.v ===== *)
(** * The delivery ledger ([apps/daemon/src/delivery.rs], [DeliveryLedger])

    One record per envelope digest with its delivery state, retry schedule and expiry.
    Every method is a definition; [ledger_step] is the relation of all of them, over which
    the invariant is proved by rule induction. *)
From Stdlib Require Import Ascii NArith Lia ZifyBool ZifyN.
From stdpp Require Import base gmap strings list relations.
From S2P Require Import Prelude Collections Interfaces StoreFormat RecordStore.

Definition MAX_DIGEST_BYTES : N := 128.
Definition MAX_RELAY_ID_BYTES : N := 256.
Definition MAX_WIRE_BYTES : N := 256 * 1024.
Definition MAX_DESTINATION_BYTES : N := 2 * 1024.

Inductive EnvelopeError :=
| InvalidMailbox | InvalidCiphertext | InvalidExpiry | InvalidWire | Expired | TooLarge.
#[export] Instance EnvelopeError_eq_dec : EqDecision EnvelopeError.
Proof. solve_decision. Defined.

Inductive DeliveryState :=
| Draft | Encrypted | Queued | RelayAccepted | RecipientReceived | Decrypted | Retryable
| Failed | Cancelled.
#[export] Instance DeliveryState_eq_dec : EqDecision DeliveryState.
Proof. solve_decision. Defined.

Record DeliveryRecord := {
  dr_digest : string;
  dr_state : DeliveryState;
  dr_attempts : N;
  dr_next_retry_at : option N;
  dr_relay_id : option string;
  dr_wire : option string;
  dr_expires_at : option N;
  dr_destination : option string;
}.

#[export] Instance DeliveryRecord_eq_dec : EqDecision DeliveryRecord.
Proof. solve_decision. Defined.

Definition state_code (s : DeliveryState) : N :=
  match s with
  | Draft => 0 | Encrypted => 1 | Queued => 2 | RelayAccepted => 3 | RecipientReceived => 4
  | Decrypted => 5 | Retryable => 6 | Failed => 7 | Cancelled => 8
  end.
Definition state_of_code (n : N) : DeliveryState :=
  match n with
  | 0 => Draft | 1 => Encrypted | 2 => Queued | 3 => RelayAccepted | 4 => RecipientReceived
  | 5 => Decrypted | 6 => Retryable | 7 => Failed | _ => Cancelled
  end%N.
#[export] Instance DeliveryState_countable : Countable DeliveryState.
Proof. refine (inj_countable' state_code state_of_code _). by intros []. Defined.
#[export] Instance DeliveryRecord_countable : Countable DeliveryRecord.
Proof.
  refine (inj_countable'
    (λ r, (dr_digest r, dr_state r, dr_attempts r, dr_next_retry_at r,
           (dr_relay_id r, dr_wire r, dr_expires_at r, dr_destination r)))
    (λ '(a, b, c, d, (e, f, g, h)), Build_DeliveryRecord a b c d e f g h) _).
  by intros [].
Defined.

Abbreviation DeliveryLedger := (gmap string DeliveryRecord).

Definition set_state (s : DeliveryState) (r : DeliveryRecord) : DeliveryRecord :=
  {| dr_digest := dr_digest r; dr_state := s; dr_attempts := dr_attempts r;
     dr_next_retry_at := dr_next_retry_at r; dr_relay_id := dr_relay_id r;
     dr_wire := dr_wire r; dr_expires_at := dr_expires_at r;
     dr_destination := dr_destination r |}.
Definition set_attempts (n : N) (r : DeliveryRecord) : DeliveryRecord :=
  {| dr_digest := dr_digest r; dr_state := dr_state r; dr_attempts := n;
     dr_next_retry_at := dr_next_retry_at r; dr_relay_id := dr_relay_id r;
     dr_wire := dr_wire r; dr_expires_at := dr_expires_at r;
     dr_destination := dr_destination r |}.
Definition set_next_retry_at (n : option N) (r : DeliveryRecord) : DeliveryRecord :=
  {| dr_digest := dr_digest r; dr_state := dr_state r; dr_attempts := dr_attempts r;
     dr_next_retry_at := n; dr_relay_id := dr_relay_id r;
     dr_wire := dr_wire r; dr_expires_at := dr_expires_at r;
     dr_destination := dr_destination r |}.
Definition set_relay_id (n : option string) (r : DeliveryRecord) : DeliveryRecord :=
  {| dr_digest := dr_digest r; dr_state := dr_state r; dr_attempts := dr_attempts r;
     dr_next_retry_at := dr_next_retry_at r; dr_relay_id := n;
     dr_wire := dr_wire r; dr_expires_at := dr_expires_at r;
     dr_destination := dr_destination r |}.
Definition set_wire (n : option string) (r : DeliveryRecord) : DeliveryRecord :=
  {| dr_digest := dr_digest r; dr_state := dr_state r; dr_attempts := dr_attempts r;
     dr_next_retry_at := dr_next_retry_at r; dr_relay_id := dr_relay_id r;
     dr_wire := n; dr_expires_at := dr_expires_at r;
     dr_destination := dr_destination r |}.
Definition set_destination (n : option string) (r : DeliveryRecord) : DeliveryRecord :=
  {| dr_digest := dr_digest r; dr_state := dr_state r; dr_attempts := dr_attempts r;
     dr_next_retry_at := dr_next_retry_at r; dr_relay_id := dr_relay_id r;
     dr_wire := dr_wire r; dr_expires_at := dr_expires_at r;
     dr_destination := n |}.

(** [self.records.get_mut(digest).ok_or(EnvelopeError::InvalidWire)?] and what is done to
    the record. *)
Definition with_record {A} (digest : string)
    (f : DeliveryRecord → DeliveryRecord * result A EnvelopeError)
  : Mut DeliveryLedger A EnvelopeError :=
  λ l, match l !! digest with
       | None => (l, Err InvalidWire)
       | Some r => let '(r', res) := f r in (<[digest := r']> l, res)
       end.

(** The ledger is empty afterwards; the strings it held are overwritten in place first. *)
Definition wipe (l : DeliveryLedger) : DeliveryLedger := ∅.

Definition register (state : DeliveryState) (digest : string) (wire : option string)
    (expires_at : option N) (destination : option string)
  : Mut DeliveryLedger unit EnvelopeError :=
  λ l,
    if is_empty_str digest || bool_decide (is_Some (l !! digest)) then (l, Err InvalidWire)
    else
      (<[digest := {| dr_digest := digest; dr_state := state; dr_attempts := 0;
                      dr_next_retry_at := None; dr_relay_id := None; dr_wire := wire;
                      dr_expires_at := expires_at; dr_destination := destination |}]> l,
       Ok tt).

Definition register_encrypted_with_destination := register Encrypted.
Definition register_queued_with_destination := register Queued.
Definition register_encrypted_with_wire_and_expiry (digest : string) (wire : option string)
    (expires_at : option N) : Mut DeliveryLedger unit EnvelopeError :=
  register_encrypted_with_destination digest wire expires_at None.
Definition register_encrypted_with_wire (digest : string) (wire : option string)
  : Mut DeliveryLedger unit EnvelopeError :=
  register_encrypted_with_wire_and_expiry digest wire None.
Definition register_encrypted (digest : string) : Mut DeliveryLedger unit EnvelopeError :=
  register_encrypted_with_wire digest None.

Definition state_is (s : DeliveryState) (r : DeliveryRecord) : bool :=
  bool_decide (dr_state r = s).

Definition discard_if_state (digest : string) (expected_state : DeliveryState)
    (l : DeliveryLedger) : DeliveryLedger * bool :=
  match l !! digest with
  | Some r => if state_is expected_state r then (delete digest l, true) else (l, false)
  | None => (l, false)
  end.

Definition valid_transition (from to : DeliveryState) : bool :=
  match from, to with
  | Encrypted, Queued
  | Queued, RelayAccepted
  | RelayAccepted, RecipientReceived
  | RecipientReceived, Decrypted
  | Retryable, Queued => true
  | _, _ => false
  end.

Definition transition (digest : string) (state : DeliveryState)
  : Mut DeliveryLedger unit EnvelopeError :=
  with_record digest (λ r,
    if negb (valid_transition (dr_state r) state) then (r, Err InvalidWire)
    else (set_next_retry_at None (set_state state r), Ok tt)).

Definition acknowledge_recipient (digest : string) : Mut DeliveryLedger bool EnvelopeError :=
  with_record digest (λ r,
    match dr_state r with
    | RecipientReceived | Decrypted => (r, Ok false)
    | RelayAccepted => (set_state RecipientReceived r, Ok true)
    | _ => (r, Err InvalidWire)
    end).

Definition bind_relay_id (digest relay_id : string) : Mut DeliveryLedger unit EnvelopeError :=
  with_record digest (λ r, (set_relay_id (Some relay_id) r, Ok tt)).

(** The ledger itself is not changed. *)
Definition acknowledge_relay_ids (ids : list string) (l : DeliveryLedger) : nat :=
  length (filter (λ r,
    (match dr_relay_id r with Some id => existsb (seqb id) ids | None => false end)
    && state_is RelayAccepted r = true) (btree_values l)).

Definition register_recipient_received (digest relay_id : string)
  : Mut DeliveryLedger bool EnvelopeError :=
  λ l,
    if is_empty_str digest then (l, Err InvalidWire)
    else
      match l !! digest with
      | Some _ => (l, Ok false)
      | None =>
        (<[digest := {| dr_digest := digest; dr_state := RecipientReceived; dr_attempts := 0;
                        dr_next_retry_at := None; dr_relay_id := Some relay_id;
                        dr_wire := None; dr_expires_at := None; dr_destination := None |}]> l,
         Ok true)
      end.

Definition mark_decrypted (digest : string) : Mut DeliveryLedger bool EnvelopeError :=
  with_record digest (λ r,
    match dr_state r with
    | Decrypted => (r, Ok false)
    | RecipientReceived => (set_state Decrypted r, Ok true)
    | _ => (r, Err InvalidWire)
    end).

Definition cancel (digest : string) : Mut DeliveryLedger bool EnvelopeError :=
  with_record digest (λ r,
    match dr_state r with
    | RelayAccepted | RecipientReceived | Decrypted | Failed | Cancelled => (r, Ok false)
    | _ => (set_wire None (set_next_retry_at None (set_state Cancelled r)), Ok true)
    end).

Definition expiry_due (now : N) (r : DeliveryRecord) : bool :=
  (match dr_expires_at r with Some e => (e <=? now)%N | None => false end)
  && match dr_state r with Decrypted | Cancelled => false | _ => true end.
Definition expire_record (r : DeliveryRecord) : DeliveryRecord :=
  set_wire None (set_next_retry_at None (set_state Failed r)).

Definition expire_due (now : N) (l : DeliveryLedger) : DeliveryLedger * nat :=
  ((λ r, if expiry_due now r then expire_record r else r) <$> l,
   length (filter (λ r, expiry_due now r = true) (btree_values l))).

Definition schedule_retry (digest : string) (now : N) : Mut DeliveryLedger bool EnvelopeError :=
  with_record digest (λ r,
    match dr_state r with
    | RecipientReceived | Decrypted | Failed | Cancelled => (r, Ok false)
    | _ =>
      let r := set_attempts (u8_saturating_add (dr_attempts r) 1) r in
      if (5 <? dr_attempts r)%N then (set_next_retry_at None (set_state Failed r), Ok false)
      else
        let r := set_state Retryable r in
        let backoff :=
          N.min (u64_saturating_mul 5 (u64_saturating_pow 2 (dr_attempts r - 1))) 3600 in
        (set_next_retry_at (Some (u64_saturating_add now backoff)) r, Ok true)
    end).

Definition schedule_retry_if_current (digest : string) (expected_state : DeliveryState) (now : N)
  : Mut DeliveryLedger bool EnvelopeError :=
  λ l,
    match l !! digest with
    | None => (l, Err InvalidWire)
    | Some r =>
      if negb (state_is expected_state r) then (l, Ok false) else schedule_retry digest now l
    end.

Definition mark_failed (digest : string) : Mut DeliveryLedger bool EnvelopeError :=
  with_record digest (λ r,
    if state_is Failed r then (r, Ok false)
    else
      (set_destination None (set_wire None (set_next_retry_at None (set_state Failed r))),
       Ok true)).

Definition mark_failed_if_current (digest : string) (expected_state : DeliveryState)
  : Mut DeliveryLedger bool EnvelopeError :=
  λ l,
    match l !! digest with
    | None => (l, Err InvalidWire)
    | Some r =>
      if negb (state_is expected_state r) then (l, Ok false) else mark_failed digest l
    end.

Definition retry_due (now : N) (r : DeliveryRecord) : bool :=
  (match dr_state r with Retryable | Queued => true | _ => false end)
  && (match dr_next_retry_at r with None => true | Some t => (t <=? now)%N end)
  && bool_decide (is_Some (dr_wire r)) && bool_decide (is_Some (dr_destination r)).

Definition due_retries (now : N) (l : DeliveryLedger) : list DeliveryRecord :=
  filter (λ r, retry_due now r = true) (btree_values l).

Definition accept_retry (digest : string) (expected_state : DeliveryState) (relay_id : string)
  : Mut DeliveryLedger bool EnvelopeError :=
  with_record digest (λ r,
    if negb (state_is expected_state r) && negb (state_is Cancelled r) then (r, Ok false)
    else
      (set_next_retry_at None (set_state RelayAccepted (set_relay_id (Some relay_id) r)),
       Ok true)).

(** ** Persistence *)

Definition bounded_opt (max : N) (o : option string) : bool :=
  match o with Some v => negb (is_empty_str v || (max <? slen v)%N) | None => true end.

Definition valid_persisted_record (key : string) (r : DeliveryRecord) : bool :=
  negb (is_empty_str key
        || (MAX_DIGEST_BYTES <? slen key)%N
        || negb (seqb (dr_digest r) key)
        || (5 <? dr_attempts r)%N
        || negb (bounded_opt MAX_RELAY_ID_BYTES (dr_relay_id r))
        || negb (bounded_opt MAX_WIRE_BYTES (dr_wire r))
        || negb (bounded_opt MAX_DESTINATION_BYTES (dr_destination r)))
  && match dr_state r with
     | Retryable =>
       (0 <? dr_attempts r)%N && bool_decide (is_Some (dr_next_retry_at r))
       && bool_decide (is_Some (dr_wire r))
     | Queued =>
       bool_decide (dr_next_retry_at r = None) && bool_decide (is_Some (dr_wire r))
       && bool_decide (is_Some (dr_destination r))
     | _ => bool_decide (dr_next_retry_at r = None)
     end.

Definition LEDGER_KEY : string := "delivery/ledger".

Section persistence.
Context `{JsonCodec (gmap string DeliveryRecord)} {S : Type} `{RecordStore S}.

Definition encoded_bytes (l : DeliveryLedger) : result bytes StorageError :=
  ok_or (json_to_vec l) CorruptStore.

Definition persist (l : DeliveryLedger) : Mut S unit StorageError :=
  λ s,
    match encoded_bytes l with
    | Err e => (s, Err e)
    | Ok contents => store_put Outbox LEDGER_KEY contents s
    end.

Definition restore (s : S) : result DeliveryLedger StorageError :=
  match store_get s Outbox LEDGER_KEY with
  | None => Ok ∅
  | Some contents =>
    let? records := ok_or (json_from_slice contents) CorruptStore in
    if (MAX_RECORDS <? N.of_nat (size records))%N
       || existsb (λ p, negb (valid_persisted_record p.1 p.2)) (btree_iter records)
    then Err CorruptStore
    else Ok records
  end.
End persistence.
