(* ===== verification/LedgerProps.v ===== *)
(** * Properties of the delivery ledger

    The invariant of every reachable ledger, where receipts come from, the retry schedule,
    which retries are due, and what survives a restart. *)
From Stdlib Require Import Ascii NArith Lia ZifyBool ZifyN.
From stdpp Require Import base gmap strings list relations.
From S2P Require Import Prelude Collections Interfaces Fs StoreFormat Storage RecordStore StorageLaws StorageProps DeliveryLedger.

(** ** Runs of operations *)

Inductive LedgerOp :=
| OpWipe
| OpRegisterEncrypted (d : string) (wire : option string) (e : option N) (dest : option string)
| OpRegisterQueued (d : string) (wire : option string) (e : option N) (dest : option string)
| OpDiscard (d : string) (expected : DeliveryState)
| OpTransition (d : string) (to : DeliveryState)
| OpAcknowledgeRecipient (d : string)
| OpBindRelayId (d id : string)
| OpRegisterReceived (d id : string)
| OpMarkDecrypted (d : string)
| OpCancel (d : string)
| OpExpireDue (now : N)
| OpScheduleRetry (d : string) (now : N)
| OpScheduleRetryIf (d : string) (expected : DeliveryState) (now : N)
| OpMarkFailed (d : string)
| OpMarkFailedIf (d : string) (expected : DeliveryState)
| OpAcceptRetry (d : string) (expected : DeliveryState) (id : string).

Definition ledger_apply (op : LedgerOp) (l : DeliveryLedger) : DeliveryLedger :=
  match op with
  | OpWipe => wipe l
  | OpRegisterEncrypted d w e t => (register_encrypted_with_destination d w e t l).1
  | OpRegisterQueued d w e t => (register_queued_with_destination d w e t l).1
  | OpDiscard d s => (discard_if_state d s l).1
  | OpTransition d s => (transition d s l).1
  | OpAcknowledgeRecipient d => (acknowledge_recipient d l).1
  | OpBindRelayId d id => (bind_relay_id d id l).1
  | OpRegisterReceived d id => (register_recipient_received d id l).1
  | OpMarkDecrypted d => (mark_decrypted d l).1
  | OpCancel d => (cancel d l).1
  | OpExpireDue now => (expire_due now l).1
  | OpScheduleRetry d now => (schedule_retry d now l).1
  | OpScheduleRetryIf d s now => (schedule_retry_if_current d s now l).1
  | OpMarkFailed d => (mark_failed d l).1
  | OpMarkFailedIf d s => (mark_failed_if_current d s l).1
  | OpAcceptRetry d s id => (accept_retry d s id l).1
  end.

(** One operation with any arguments. *)
Inductive ledger_step : relation DeliveryLedger :=
| ledger_step_op op l : ledger_step l (ledger_apply op l).

(** A record is filed under its own non-empty digest, carries a retry time exactly while it
    is retryable, and is then within its five attempts. *)
Record record_inv (k : string) (r : DeliveryRecord) : Prop := {
  ri_key : k ≠ EmptyString;
  ri_digest : dr_digest r = k;
  ri_attempts : (dr_attempts r ≤ u8_max)%N;
  ri_retry : dr_state r = Retryable ↔ is_Some (dr_next_retry_at r);
  ri_budget : dr_state r = Retryable → (1 ≤ dr_attempts r ≤ 5)%N;
}.
Definition ledger_inv (l : DeliveryLedger) : Prop := map_Forall record_inv l.

(** ** Lemmas *)

Lemma with_record_lookup {A} d (f : DeliveryRecord → DeliveryRecord * result A EnvelopeError) l k r' :
  (with_record d f l).1 !! k = Some r' →
  (k ≠ d ∧ l !! k = Some r') ∨ (k = d ∧ ∃ r, l !! d = Some r ∧ r' = (f r).1).
Proof.
  unfold with_record. destruct (l !! d) as [r|] eqn:Hd.
  - destruct (f r) as [r1 res] eqn:Hf. cbn [fst]. rewrite lookup_insert_Some.
    intros [[<- <-]|[Hne Hk]]; [|by auto]. right. split; [done|]. exists r. by rewrite Hf.
  - cbn [fst]. intros Hk. left. split; [|done]. intros ->. congruence.
Qed.

Lemma with_record_Forall {A} (P : string → DeliveryRecord → Prop) d
    (f : DeliveryRecord → DeliveryRecord * result A EnvelopeError) l :
  (∀ k r, P k r → P k (f r).1) → map_Forall P l → map_Forall P (with_record d f l).1.
Proof.
  intros Hf Hl k r' [[_ Hk]|(-> & r & Hk & ->)]%with_record_lookup; auto.
Qed.

Lemma schedule_retry_inv l d now : ledger_inv l → ledger_inv (schedule_retry d now l).1.
Proof.
  apply with_record_Forall. intros k r [Hk Hd Ha Hr Hb].
  assert (Hs : (u8_saturating_add (dr_attempts r) 1 ≤ u8_max)%N) by (unfold u8_saturating_add; lia).
  assert (H1 : (1 ≤ u8_saturating_add (dr_attempts r) 1)%N) by (unfold u8_saturating_add, u8_max; lia).
  set (a := u8_saturating_add (dr_attempts r) 1) in *.
  destruct (dr_state r) eqn:Es; cbn [fst]; try (split; by rewrite ?Es);
    cbn [dr_attempts set_attempts]; destruct (5 <? a)%N eqn:E5; cbn [fst];
    split; cbn; try done; try (split; intros; [done|by destruct_and?]); try naive_solver lia.
Qed.

Lemma mark_failed_inv l d : ledger_inv l → ledger_inv (mark_failed d l).1.
Proof.
  apply with_record_Forall. intros k r Hi. case_match; [done|]. destruct Hi. by split; cbn.
Qed.

Lemma record_inv_plain k s w e t i :
  k ≠ EmptyString → s ≠ Retryable →
  record_inv k {| dr_digest := k; dr_state := s; dr_attempts := 0; dr_next_retry_at := None;
                  dr_relay_id := i; dr_wire := w; dr_expires_at := e; dr_destination := t |}.
Proof. intros. by split; cbn. Qed.

Lemma register_inv s d w e t l :
  s ≠ Retryable → ledger_inv l → ledger_inv (register s d w e t l).1.
Proof.
  intros Hs Hl. unfold register. destruct (is_empty_str d) eqn:Ed; cbn [orb]; [done|].
  case_match; [done|]. apply map_Forall_insert_2; [|done]. apply record_inv_plain; [|done].
  intros ->. done.
Qed.

(** A record that leaves the retryable state has no retry time. *)
Lemma record_inv_settled k r r' :
  record_inv k r → dr_digest r' = dr_digest r → dr_attempts r' = dr_attempts r →
  dr_state r' ≠ Retryable → dr_next_retry_at r' = None → record_inv k r'.
Proof.
  intros [] Ed Ea Es En. by split; rewrite ?Ed, ?Ea, ?En.
Qed.

Lemma record_inv_no_retry k r : record_inv k r → dr_state r ≠ Retryable → dr_next_retry_at r = None.
Proof. intros [_ _ _ Hr _] Hs. destruct (dr_next_retry_at r); [|done]. exfalso. apply Hs, Hr. done. Qed.

Lemma ledger_apply_inv op l : ledger_inv l → ledger_inv (ledger_apply op l).
Proof.
  intros Hl. destruct op; cbn [ledger_apply].
  - apply map_Forall_empty.
  - by apply register_inv.
  - by apply register_inv.
  - unfold discard_if_state. repeat case_match; cbn; try done. by apply map_Forall_delete.
  - apply with_record_Forall; [|done]. intros k r Hi. case_match eqn:E; [done|]. cbn [fst].
    apply (record_inv_settled k r); try done. intros Es. cbn in Es. subst.
    apply negb_false_iff in E. by destruct (dr_state r).
  - apply with_record_Forall; [|done]. intros k r Hi. destruct (dr_state r) eqn:E; cbn [fst]; try done.
    apply (record_inv_settled k r); try done. apply (record_inv_no_retry k r Hi). by rewrite E.
  - apply with_record_Forall; [|done]. intros k r []. by split.
  - unfold register_recipient_received. destruct (is_empty_str d) eqn:Ed; [done|].
    destruct (l !! d) eqn:E; [done|]. apply map_Forall_insert_2; [|done].
    apply record_inv_plain; [|done]. by intros ->.
  - apply with_record_Forall; [|done]. intros k r Hi. destruct (dr_state r) eqn:E; cbn [fst]; try done.
    apply (record_inv_settled k r); try done. apply (record_inv_no_retry k r Hi). by rewrite E.
  - apply with_record_Forall; [|done]. intros k r Hi. destruct (dr_state r) eqn:E; cbn [fst]; try done;
      by apply (record_inv_settled k r).
  - cbn [expire_due fst]. apply map_Forall_fmap. intros k r Hk. cbn. case_match; [|by apply Hl].
    apply (record_inv_settled k r); try done. by apply Hl.
  - by apply schedule_retry_inv.
  - unfold schedule_retry_if_current. repeat case_match; cbn; try done. by apply schedule_retry_inv.
  - by apply mark_failed_inv.
  - unfold mark_failed_if_current. repeat case_match; cbn; try done. by apply mark_failed_inv.
  - apply with_record_Forall; [|done]. intros k r Hi. case_match; [done|]. cbn [fst].
    by apply (record_inv_settled k r).
Qed.

(** C9. Every ledger that operations reach from the empty one satisfies the invariant: records
    are filed under their digest, a retry time is set exactly while a record is retryable,
    and a retryable record has used one to five attempts. *)
Theorem ledger_reachable_inv l : rtc ledger_step ∅ l → ledger_inv l.
Proof.
  intros Hr. assert (Hs : ∀ x y, rtc ledger_step x y → ledger_inv x → ledger_inv y).
  { intros x y Hxy. induction Hxy as [|x y z [op ?] _ IH]; [done|]. intros Hx.
    by apply IH, ledger_apply_inv. }
  apply (Hs ∅); [done|]. apply map_Forall_empty.
Qed.

Lemma ledger_reachable_inv_witness :
  ledger_inv (ledger_apply (OpScheduleRetry "d" 100)
                (ledger_apply (OpRegisterQueued "d" (Some "w") None (Some "u")) ∅)).
Proof.
  apply ledger_reachable_inv. eapply rtc_l; [apply ledger_step_op|].
  eapply rtc_l; [apply ledger_step_op|]. apply rtc_refl.
Defined.

(** ** Receipts *)

(** How a record may come to be in a state: it was, it came from a given state by one of
    the given operations, or it was created by one. *)
Definition came_from (l : DeliveryLedger) (k : string) (s from : DeliveryState)
    (step created : Prop) : Prop :=
  (∃ r, l !! k = Some r ∧ dr_state r = s) ∨
  (∃ r, l !! k = Some r ∧ dr_state r = from ∧ step) ∨
  (l !! k = None ∧ created).

Lemma came_from_same l k s from step created r :
  l !! k = Some r → dr_state r = s → came_from l k s from step created.
Proof. left. eauto. Qed.
Lemma came_from_step l k s from (step created : Prop) r :
  l !! k = Some r → dr_state r = from → step → came_from l k s from step created.
Proof. right. left. eauto. Qed.
Create HintDb ledger.
#[local] Hint Resolve came_from_same came_from_step : ledger.

Lemma register_lookup s d w e t l k r' :
  (register s d w e t l).1 !! k = Some r' → l !! k = Some r' ∨ dr_state r' = s.
Proof.
  unfold register. case_match; [by auto|]. cbn [fst]. rewrite lookup_insert_Some. naive_solver.
Qed.

Ltac provenance r :=
  intros [[_ Hk]|(-> & r & Hk & ->)]%with_record_lookup;
  [ split; intros; eauto with ledger
  | repeat case_match; cbn [fst dr_state set_state set_attempts set_next_retry_at set_relay_id set_wire set_destination];
    split; intros; repeat case_match; simplify_eq/=; eauto with ledger ].

(** A record is only ever [RecipientReceived] because the recipient's daemon registered it,
    or because a relay-accepted record was acknowledged by the recipient; it is only ever
    [Decrypted] after having been [RecipientReceived]. No other operation, relay
    acknowledgements included, produces either state. *)
Theorem ledger_receipt_provenance op l k r' :
  ledger_apply op l !! k = Some r' →
  (dr_state r' = RecipientReceived →
   came_from l k RecipientReceived RelayAccepted
     (op = OpAcknowledgeRecipient k ∨ op = OpTransition k RecipientReceived)
     (∃ id, op = OpRegisterReceived k id)) ∧
  (dr_state r' = Decrypted →
   came_from l k Decrypted RecipientReceived
     (op = OpMarkDecrypted k ∨ op = OpTransition k Decrypted) False).
Proof.
  destruct op; cbn [ledger_apply].
  - unfold wipe. by rewrite lookup_empty.
  - intros [?| ->]%register_lookup; split; intros; simplify_eq; eauto with ledger.
  - intros [?| ->]%register_lookup; split; intros; simplify_eq; eauto with ledger.
  - unfold discard_if_state. repeat case_match; cbn [fst]; rewrite ?lookup_delete_Some;
      intros ?; destruct_and?; split; intros; eauto with ledger.
  - intros [[_ Hk]|(-> & r & Hk & ->)]%with_record_lookup; [split; intros; eauto with ledger|].
    destruct (valid_transition (dr_state r) to) eqn:Ev; cbn;
      [|split; intros; eauto with ledger].
    split; intros ->; destruct (dr_state r) eqn:Es; try done; eauto with ledger.
  - provenance r.
  - provenance r.
  - unfold register_recipient_received. case_match; [split; intros; eauto with ledger|].
    destruct (l !! d) eqn:E; cbn [fst]; [split; intros; eauto with ledger|].
    rewrite lookup_insert_Some. intros [[<- <-]|[_ ?]]; split; intros; try done; eauto with ledger.
    right. right. eauto.
  - provenance r.
  - provenance r.
  - cbn [expire_due fst]. rewrite lookup_fmap. destruct (l !! k) as [r|] eqn:E; [|done].
    intros [= <-]. case_match; split; intros; try done; eauto with ledger.
  - provenance r.
  - unfold schedule_retry_if_current. destruct (l !! d) eqn:E; [|split; intros; eauto with ledger].
    case_match; [split; intros; eauto with ledger|]. unfold schedule_retry. provenance r.
  - provenance r.
  - unfold mark_failed_if_current. destruct (l !! d) eqn:E; [|split; intros; eauto with ledger].
    case_match; [split; intros; eauto with ledger|]. unfold mark_failed. provenance r.
  - provenance r.
Qed.

Lemma ledger_receipt_provenance_witness :
  let l := ledger_apply (OpRegisterReceived "d" "relay-1") ∅ in
  came_from l "d" Decrypted RecipientReceived
    (OpMarkDecrypted "d" = OpMarkDecrypted "d" ∨ OpMarkDecrypted "d" = OpTransition "d" Decrypted)
    False.
Proof.
  exact (proj2 (ledger_receipt_provenance (OpMarkDecrypted "d")
                  (ledger_apply (OpRegisterReceived "d" "relay-1") ∅) "d"
                  (set_state Decrypted
                     {| dr_digest := "d"; dr_state := RecipientReceived; dr_attempts := 0;
                        dr_next_retry_at := None; dr_relay_id := Some "relay-1";
                        dr_wire := None; dr_expires_at := None; dr_destination := None |})
                  eq_refl) eq_refl).
Defined.

(** ** The retry schedule *)

Definition retriable (s : DeliveryState) : bool :=
  match s with
  | RecipientReceived | Decrypted | Failed | Cancelled => false
  | _ => true
  end.

Lemma schedule_retry_value l d now r :
  l !! d = Some r →
  schedule_retry d now l =
  if negb (retriable (dr_state r)) then (l, Ok false)
  else if (dr_attempts r <? 5)%N then
    (<[d := set_next_retry_at (Some (u64_saturating_add now (5 * 2 ^ dr_attempts r)%N))
              (set_state Retryable (set_attempts (dr_attempts r + 1) r))]> l, Ok true)
  else
    (<[d := set_next_retry_at None
              (set_state Failed (set_attempts (u8_saturating_add (dr_attempts r) 1) r))]> l,
     Ok false).
Proof.
  intros Hd. unfold schedule_retry, with_record. rewrite Hd.
  destruct (retriable (dr_state r)) eqn:Er; cbn [negb];
    [|destruct (dr_state r); try done; by rewrite insert_id].
  assert (Hm : ∀ (A : Type) (x y : A), match dr_state r with
          | RecipientReceived | Decrypted | Failed | Cancelled => x | _ => y end = y)
    by (intros; by destruct (dr_state r)).
  rewrite Hm. clear Hm Er. cbn [dr_attempts set_attempts set_state].
  destruct (dr_attempts r <? 5)%N eqn:Ea.
  - assert (dr_attempts r = 0 ∨ dr_attempts r = 1 ∨ dr_attempts r = 2 ∨ dr_attempts r = 3
            ∨ dr_attempts r = 4)%N as Hc by lia.
    by destruct Hc as [Hc|[Hc|[Hc|[Hc|Hc]]]]; rewrite Hc.
  - replace (5 <? _)%N with true; [done|]. unfold u8_saturating_add, u8_max. lia.
Qed.

(** A retry of a live record within its budget is scheduled 5, 10, 20, 40 and 80 seconds
    away; the sixth fails the record and clears its schedule; a settled record is left
    alone. *)
Theorem ledger_retry_schedule l d now r :
  l !! d = Some r →
  schedule_retry d now l =
  if negb (retriable (dr_state r)) then (l, Ok false)
  else if (dr_attempts r <? 5)%N then
    (<[d := set_next_retry_at (Some (u64_saturating_add now (5 * 2 ^ dr_attempts r)%N))
              (set_state Retryable (set_attempts (dr_attempts r + 1) r))]> l, Ok true)
  else
    (<[d := set_next_retry_at None
              (set_state Failed (set_attempts (u8_saturating_add (dr_attempts r) 1) r))]> l,
     Ok false).
Proof. apply schedule_retry_value. Qed.

Definition sample_record : DeliveryRecord :=
  {| dr_digest := "d"; dr_state := Queued; dr_attempts := 0; dr_next_retry_at := None;
     dr_relay_id := None; dr_wire := Some "w"; dr_expires_at := None;
     dr_destination := Some "u" |}.
Definition sample_ledger : DeliveryLedger :=
  ledger_apply (OpRegisterQueued "d" (Some "w") None (Some "u")) ∅.

Lemma ledger_retry_schedule_witness :
  (schedule_retry "d" 100 sample_ledger).2 = Ok true ∧
  (dr_next_retry_at <$> (schedule_retry "d" 100 sample_ledger).1 !! "d") = Some (Some 105%N).
Proof.
  rewrite (ledger_retry_schedule sample_ledger "d" 100 sample_record eq_refl).
  vm_compute. split; reflexivity.
Defined.

(** ** Due retries *)

(** After expiring what is due, the records offered for retry are exactly the queued or
    retryable ones that have a wire and a destination, whose retry time has come and whose
    expiry has not. *)
Theorem ledger_due_retries_spec now l r :
  r ∈ due_retries now (expire_due now l).1 ↔
  ∃ k, l !! k = Some r ∧ (dr_state r = Retryable ∨ dr_state r = Queued) ∧
    is_Some (dr_wire r) ∧ is_Some (dr_destination r) ∧
    (∀ t, dr_next_retry_at r = Some t → (t ≤ now)%N) ∧
    (∀ e, dr_expires_at r = Some e → (now < e)%N).
Proof.
  unfold due_retries. rewrite list_elem_of_filter, elem_of_btree_values. cbn [expire_due fst].
  assert (Hdue : ∀ r, retry_due now r = true ↔
      (dr_state r = Retryable ∨ dr_state r = Queued) ∧ is_Some (dr_wire r) ∧
      is_Some (dr_destination r) ∧ (∀ t, dr_next_retry_at r = Some t → (t ≤ now)%N)).
  { intros x. unfold retry_due. rewrite !andb_true_iff, !bool_decide_eq_true.
    destruct (dr_state x), (dr_next_retry_at x) as [t|]; rewrite ?N.leb_le; naive_solver. }
  split.
  - intros [Hr (k & Hk)]. rewrite lookup_fmap in Hk. destruct (l !! k) as [r0|] eqn:E; [|done].
    cbn in Hk. destruct (expiry_due now r0) eqn:Ee; simplify_eq.
    apply Hdue in Hr as (Hs & Hw & Hdst & Ht). exists k. split_and!; try done.
    intros e He. unfold expiry_due in Ee. rewrite He in Ee.
    destruct Hs as [Hs|Hs]; rewrite Hs, andb_true_r in Ee; lia.
  - intros (k & Hk & Hs & Hw & Hdst & Ht & He). split; [by apply Hdue|]. exists k.
    rewrite lookup_fmap, Hk. cbn. replace (expiry_due now r) with false; [done|].
    symmetry. unfold expiry_due. destruct (dr_expires_at r) as [e|]; [|done].
    specialize (He e eq_refl). rewrite (proj2 (N.leb_gt _ _) He). done.
Qed.

(** ** Restarts *)

(** The ledgers a restart accepts. *)
Definition persistable (l : DeliveryLedger) : Prop :=
  (N.of_nat (size l) ≤ MAX_RECORDS)%N ∧ map_Forall (λ k r, valid_persisted_record k r = true) l.

#[export] Instance persistable_dec l : Decision (persistable l).
Proof. unfold persistable. apply _. Defined.

Section restart.
Context `{JsonRoundTrip DeliveryLedger} {S : Type} `{RecordStoreLaws S}.

Lemma ledger_restore_persisted l s s' :
  store_inv s → persist l s = (s', Ok tt) →
  restore s' = if decide (persistable l) then Ok l else Err CorruptStore.
Proof using Type*.
  intros Hs. unfold persist, restore, encoded_bytes.
  destruct (json_to_vec l) as [b|] eqn:Hb; cbn [ok_or]; [|done]. intros Hp.
  rewrite (store_put_ok _ _ _ _ _ Hs Hp), view_update_eq, (json_roundtrip _ _ Hb).
  cbn [ok_or result_bind]. unfold persistable.
  destruct (MAX_RECORDS <? N.of_nat (size l))%N eqn:El; cbn [orb].
  { rewrite decide_False; [done|]. intros [? _]. lia. }
  destruct (existsb _ (btree_iter l)) eqn:Ee.
  - apply existsb_btree_iter in Ee as (k & r & Hk & Hv).
    rewrite decide_False; [done|]. intros [_ Hall]. specialize (Hall k r Hk).
    cbn in Hv. by rewrite Hall in Hv.
  - rewrite decide_True; [done|]. split; [lia|]. intros k r Hk.
    destruct (valid_persisted_record k r) eqn:Hv; [done|].
    assert (existsb (λ p, negb (valid_persisted_record p.1 p.2)) (btree_iter l) = true); [|congruence].
    apply existsb_btree_iter. exists k, r. cbn. by rewrite Hv.
Qed.

(** A persisted ledger is restored exactly, or refused as corrupt when one of its records
    is not one a restart accepts. *)
Theorem ledger_restart l s s' :
  store_inv s → persist l s = (s', Ok tt) →
  restore s' = if decide (persistable l) then Ok l else Err CorruptStore.
Proof using Type*. apply ledger_restore_persisted. Qed.

(** C28. Exhausting the retries of a record, or scheduling a retry of a record without a wire,
    is accepted and persisted, but makes the whole ledger unreadable at the next start. *)
Theorem ledger_exhausted_retry_breaks_restart l d r now s s' :
  l !! d = Some r → retriable (dr_state r) = true →
  (dr_attempts r = 5%N ∨ ((dr_attempts r < 5)%N ∧ dr_wire r = None)) →
  store_inv s → persist (schedule_retry d now l).1 s = (s', Ok tt) →
  restore s' = Err CorruptStore.
Proof using Type*.
  intros Hd Hr Hc Hs Hp. rewrite (ledger_restore_persisted _ _ _ Hs Hp).
  apply decide_False. intros [_ Hall].
  rewrite (schedule_retry_value l d now r Hd), Hr in Hall. cbn [negb] in Hall.
  destruct Hc as [Ha|[Ha Hw]].
  - rewrite Ha in Hall. specialize (Hall d _ (lookup_insert_eq _ _ _)).
    unfold valid_persisted_record in Hall. cbn in Hall. by rewrite !orb_true_r in Hall.
  - rewrite (proj2 (N.ltb_lt _ _) Ha) in Hall. specialize (Hall d _ (lookup_insert_eq _ _ _)).
    unfold valid_persisted_record in Hall. cbn -[N.ltb] in Hall. rewrite Hw in Hall.
    by rewrite !andb_false_r in Hall.
Qed.
End restart.

(** What an operation has to respect for the ledger to stay readable at the next start. *)
Definition record_complete (r : DeliveryRecord) : bool :=
  bool_decide (is_Some (dr_wire r)) && bool_decide (is_Some (dr_destination r)).
Definition op_admissible (l : DeliveryLedger) (op : LedgerOp) : bool :=
  match op with
  | OpRegisterEncrypted d w e t | OpRegisterQueued d w e t =>
    (slen d <=? MAX_DIGEST_BYTES)%N && bounded_opt MAX_WIRE_BYTES w
    && bounded_opt MAX_DESTINATION_BYTES t && (N.of_nat (size l) <? MAX_RECORDS)%N
    && match op with
       | OpRegisterQueued _ _ _ _ =>
         bool_decide (is_Some w) && bool_decide (is_Some t)
       | _ => true
       end
  | OpRegisterReceived d id =>
    (slen d <=? MAX_DIGEST_BYTES)%N && bounded_opt MAX_RELAY_ID_BYTES (Some id)
    && (N.of_nat (size l) <? MAX_RECORDS)%N
  | OpTransition d Queued => match l !! d with Some r => record_complete r | None => true end
  | OpBindRelayId _ id | OpAcceptRetry _ _ id => bounded_opt MAX_RELAY_ID_BYTES (Some id)
  | OpScheduleRetry d _ | OpScheduleRetryIf d _ _ =>
    match l !! d with
    | Some r => (dr_attempts r <? 5)%N && bool_decide (is_Some (dr_wire r))
    | None => true
    end
  | _ => true
  end.

(** The check of a restart, as a proposition. *)
Record valid_record (k : string) (r : DeliveryRecord) : Prop := {
  vr_key : is_empty_str k = false;
  vr_len : (slen k ≤ MAX_DIGEST_BYTES)%N;
  vr_digest : dr_digest r = k;
  vr_attempts : (dr_attempts r ≤ 5)%N;
  vr_relay : bounded_opt MAX_RELAY_ID_BYTES (dr_relay_id r) = true;
  vr_wire : bounded_opt MAX_WIRE_BYTES (dr_wire r) = true;
  vr_destination : bounded_opt MAX_DESTINATION_BYTES (dr_destination r) = true;
  vr_retry : dr_state r = Retryable →
    (0 < dr_attempts r)%N ∧ is_Some (dr_next_retry_at r) ∧ is_Some (dr_wire r);
  vr_queued : dr_state r = Queued → is_Some (dr_wire r) ∧ is_Some (dr_destination r);
  vr_settled : dr_state r ≠ Retryable → dr_next_retry_at r = None;
}.

Lemma valid_persisted_iff k r : valid_persisted_record k r = true ↔ valid_record k r.
Proof.
  unfold valid_persisted_record. rewrite andb_true_iff, negb_true_iff, !orb_false_iff, !negb_false_iff.
  unfold seqb. rewrite bool_decide_eq_true, !N.ltb_ge. split.
  - intros [((((((? & ?) & ?) & ?) & ?) & ?) & ?) Hs].
    split; try done; intros Hst; destruct (dr_state r); try done;
      rewrite ?andb_true_iff, ?N.ltb_lt, ?bool_decide_eq_true in Hs; naive_solver.
  - intros [?????? ? Hr Hq Hn]. split; [by auto 10|].
    destruct (dr_state r); rewrite ?andb_true_iff, ?N.ltb_lt, ?bool_decide_eq_true; naive_solver.
Qed.

(** A record that moves to a settled state, keeping its limits. *)
Lemma valid_record_settle k r r' :
  valid_record k r → dr_digest r' = dr_digest r → dr_attempts r' = dr_attempts r →
  bounded_opt MAX_RELAY_ID_BYTES (dr_relay_id r') = true →
  (dr_wire r' = dr_wire r ∨ dr_wire r' = None) →
  (dr_destination r' = dr_destination r ∨ dr_destination r' = None) →
  dr_state r' ≠ Retryable → dr_state r' ≠ Queued → dr_next_retry_at r' = None →
  valid_record k r'.
Proof.
  intros [] Hd Ha Hi Hw Ht H1 H2 Hn.
  split; rewrite ?Hd, ?Ha; try done;
    [destruct Hw as [-> | ->]; done|destruct Ht as [-> | ->]; done].
Qed.

Lemma persistable_insert l k r :
  persistable l → valid_record k r → (is_Some (l !! k) ∨ (N.of_nat (size l) < MAX_RECORDS)%N) →
  persistable (<[k := r]> l).
Proof.
  intros [Hs Hall] Hv Hk. split.
  - destruct (l !! k) eqn:E; [by rewrite map_size_insert_Some|].
    rewrite map_size_insert_None by done. destruct Hk as [[? ?]|?]; [done|lia].
  - apply map_Forall_insert_2; [by apply valid_persisted_iff|done].
Qed.

Lemma persistable_with_record {A} d (f : DeliveryRecord → DeliveryRecord * result A EnvelopeError) l :
  persistable l → (∀ r, l !! d = Some r → valid_record d r → valid_record d (f r).1) →
  persistable (with_record d f l).1.
Proof.
  intros Hl Hf. unfold with_record. destruct (l !! d) as [r|] eqn:Hd; [|done].
  destruct (f r) as [r' res] eqn:E. cbn [fst]. apply persistable_insert; [done| |by eauto].
  replace r' with (f r).1 by (by rewrite E). apply Hf; [done|].
  apply valid_persisted_iff. by apply Hl.
Qed.

Lemma persistable_retry l d now :
  persistable l →
  (∀ r, l !! d = Some r → (dr_attempts r < 5)%N ∧ is_Some (dr_wire r)) →
  persistable (schedule_retry d now l).1.
Proof.
  intros Hl Hr. destruct (l !! d) as [r|] eqn:Hd.
  - destruct (Hr r eq_refl) as [Ha Hw]. rewrite (schedule_retry_value l d now r Hd).
    destruct (negb (retriable (dr_state r))); [done|]. rewrite (proj2 (N.ltb_lt _ _) Ha).
    cbn [fst]. apply persistable_insert; [done| |by eauto].
    assert (valid_record d r) as [] by (apply valid_persisted_iff; by apply Hl).
    split; cbn; try done; try lia. intros _. split; [lia|]. by eauto.
  - unfold schedule_retry, with_record. by rewrite Hd.
Qed.

Lemma persistable_failed l d : persistable l → persistable (mark_failed d l).1.
Proof.
  intros Hl. apply persistable_with_record; [done|]. intros r _ Hv. case_match; [done|].
  apply (valid_record_settle d r); cbn; auto. by destruct Hv.
Qed.

Lemma persistable_register s d w e t l :
  persistable l → (slen d ≤ MAX_DIGEST_BYTES)%N → bounded_opt MAX_WIRE_BYTES w = true →
  bounded_opt MAX_DESTINATION_BYTES t = true → (N.of_nat (size l) < MAX_RECORDS)%N →
  s ≠ Retryable → (s = Queued → is_Some w ∧ is_Some t) →
  persistable (register s d w e t l).1.
Proof.
  intros Hl ???? Hs Hq. unfold register. destruct (is_empty_str d) eqn:Ed; [done|].
  case_match; [done|]. apply persistable_insert; [done| |by auto]. by split.
Qed.

(** From a ledger that a restart accepts, every operation within its side conditions (key
    and value limits, a wire and destination for queued records, retries within budget and
    with a wire) leads to one that a restart accepts. *)
Theorem ledger_persistable_preserved op l :
  persistable l → op_admissible l op = true → persistable (ledger_apply op l).
Proof.
  intros Hl Hop. destruct op; cbn [ledger_apply op_admissible] in *;
    rewrite ?andb_true_iff, ?N.leb_le, ?N.ltb_lt, ?bool_decide_eq_true in Hop.
  - split; [done|apply map_Forall_empty].
  - destruct_and?. by apply persistable_register.
  - destruct_and?. by apply persistable_register.
  - unfold discard_if_state. repeat case_match; try done. cbn [fst]. destruct Hl as [Hs Ha].
    split; [|by apply map_Forall_delete]. rewrite map_size_delete. case_match; cbn; lia.
  - apply persistable_with_record; [done|]. intros r Hd Hv.
    destruct (valid_transition (dr_state r) to) eqn:Et; cbn [negb fst]; [|done].
    rewrite Hd in Hop. unfold record_complete in Hop.
    destruct Hv, (dr_state r), to; try done; split; cbn; try done.
    all: rewrite andb_true_iff, !bool_decide_eq_true in Hop; done.
  - apply persistable_with_record; [done|]. intros r _ Hv. pose proof Hv as [].
    destruct (dr_state r) eqn:Es; cbn [fst]; try done. apply (valid_record_settle d r); cbn; auto.
  - apply persistable_with_record; [done|]. intros r _ []. by split.
  - unfold register_recipient_received. destruct (is_empty_str d) eqn:Ed; [done|].
    destruct (l !! d) eqn:E; [done|]. destruct_and?. apply persistable_insert; [done| |by auto].
    by split.
  - apply persistable_with_record; [done|]. intros r _ Hv. pose proof Hv as [].
    destruct (dr_state r) eqn:Es; cbn [fst]; try done. apply (valid_record_settle d r); cbn; auto.
  - apply persistable_with_record; [done|]. intros r _ Hv. pose proof Hv as [].
    destruct (dr_state r) eqn:Es; cbn [fst]; try done; apply (valid_record_settle d r); cbn; auto.
  - cbn [expire_due fst]. destruct Hl as [Hs Ha]. split; [by rewrite map_size_fmap|].
    apply map_Forall_fmap. intros k r Hk. specialize (Ha k r Hk). cbn in *.
    apply valid_persisted_iff in Ha as Hv. case_match; [|done].
    apply valid_persisted_iff, (valid_record_settle k r); cbn; auto. by destruct Hv.
  - apply persistable_retry; [done|]. intros r Hd. rewrite Hd in Hop.
    rewrite andb_true_iff, N.ltb_lt, bool_decide_eq_true in Hop. done.
  - unfold schedule_retry_if_current. destruct (l !! d) as [r|] eqn:Hd; [|done].
    case_match; [done|]. apply persistable_retry; [done|]. intros r' Hd'. simplify_eq.
    rewrite andb_true_iff, N.ltb_lt, bool_decide_eq_true in Hop. done.
  - by apply persistable_failed.
  - unfold mark_failed_if_current. repeat case_match; try done. by apply persistable_failed.
  - apply persistable_with_record; [done|]. intros r _ Hv. case_match; [done|].
    apply (valid_record_settle d r); cbn; auto.
Qed.

(** ** Witnesses *)

Import Reference.
#[local] Existing Instance Reference.json.
#[local] Existing Instance Reference.json_laws.

Lemma persisted_on_sample (l : DeliveryLedger) :
  (persist l (Sample.store0, Sample.world1)).2 = Ok tt →
  persist l (Sample.store0, Sample.world1)
  = ((persist l (Sample.store0, Sample.world1)).1, Ok tt).
Proof. intros <-. by destruct (persist l _). Qed.

Lemma ledger_restart_witness :
  restore (persist sample_ledger (Sample.store0, Sample.world1)).1 = Ok sample_ledger.
Proof.
  rewrite (ledger_restart sample_ledger (Sample.store0, Sample.world1) _ Sample.sample_store_inv
             (persisted_on_sample sample_ledger ltac:(vm_compute; reflexivity))).
  vm_compute. reflexivity.
Defined.

Definition exhausted_ledger : DeliveryLedger :=
  <["d" := set_attempts 5 sample_record]> sample_ledger.

Lemma ledger_exhausted_retry_breaks_restart_witness :
  restore (persist (schedule_retry "d" 100 exhausted_ledger).1 (Sample.store0, Sample.world1)).1
  = Err CorruptStore.
Proof.
  exact (ledger_exhausted_retry_breaks_restart exhausted_ledger "d" (set_attempts 5 sample_record)
           100 (Sample.store0, Sample.world1) _ eq_refl eq_refl (or_introl eq_refl) Sample.sample_store_inv
           (persisted_on_sample (schedule_retry "d" 100 exhausted_ledger).1
              ltac:(vm_compute; reflexivity))).
Defined.

Lemma ledger_persistable_preserved_witness :
  persistable (ledger_apply (OpScheduleRetry "d" 100) sample_ledger).
Proof.
  apply ledger_persistable_preserved; [|reflexivity].
  apply (bool_decide_eq_true _). vm_compute. reflexivity.
Defined.
