(* ===== verification/RelayEnvelope.v ===== *)
(** * The relay envelope ([apps/daemon/src/delivery.rs], [RelayEnvelope])

    What the relay sees of a message: an opaque mailbox, a random id, a coarse expiry and
    the padded ciphertext; and its JSON wire form. *)
From Stdlib Require Import Ascii NArith Lia ZifyBool ZifyN.
From stdpp Require Import base gmap strings list.
From S2P Require Import Prelude Text Interfaces DeliveryLedger.

Definition VERSION : N := 1.
Definition BLOCK_SIZE : N := 256.
Definition MAX_CIPHERTEXT_BYTES : N := 96 * 1024.
Definition MAX_MAILBOX_BYTES : N := 128.
Definition EXPIRY_BUCKET_SECONDS : N := 300.
Definition MAX_ENVELOPE_TTL_SECONDS : N := 7 * 24 * 60 * 60.

Record RelayEnvelope := {
  re_version : N;
  re_mailbox : string;
  re_envelope_id : string;
  re_expires_at : N;
  re_ciphertext : bytes;
  re_padding : bytes;
}.

(** [WireEnvelope] and [OwnedWireEnvelope]: the fields of the JSON object. *)
Record WireEnvelope := {
  we_v : N; we_m : string; we_i : string; we_e : N; we_c : string; we_p : string }.

Definition hex (b : bytes) : string := of_bytes (hex_b b).

Definition decode_hex (value : string) : option bytes :=
  if negb (slen value mod 2 =? 0)%N || negb (forallb is_ascii_hexdigit (as_bytes value))
  then None
  else decode_pairs (as_bytes value).

(** The quotation mark and the backslash are bytes 34 and 92. *)
Definition validate_mailbox (mailbox : string) : result unit EnvelopeError :=
  if is_empty_str mailbox
     || (MAX_MAILBOX_BYTES <? slen mailbox)%N
     || negb (forallb (λ b, is_ascii_graphic b && negb (byte_n b =? 34)%N && negb (byte_n b =? 92)%N)
                (as_bytes mailbox))
  then Err InvalidMailbox
  else Ok tt.

(** [getrandom::fill] of [n] bytes: the bytes drawn, or [None] when the call failed. *)
Definition fill (n : N) (drawn : option bytes) : result bytes EnvelopeError :=
  match drawn with
  | Some b => if (blen b =? n)%N then Ok b else Err InvalidWire
  | None => Err InvalidWire
  end.

Definition create (mailbox : string) (ciphertext : bytes) (expires_at now : N)
    (drawn_padding drawn_id : option bytes) : result RelayEnvelope EnvelopeError :=
  let? _ := validate_mailbox mailbox in
  if bool_decide (ciphertext = []) then Err InvalidCiphertext
  else if (MAX_CIPHERTEXT_BYTES <? blen ciphertext)%N then Err TooLarge
  else if (expires_at <=? now)%N
          || (u64_saturating_add now MAX_ENVELOPE_TTL_SECONDS <? expires_at)%N
  then Err InvalidExpiry
  else
    let padded_len := (div_ceil (blen ciphertext) BLOCK_SIZE * BLOCK_SIZE)%N in
    let? padding := fill (padded_len - blen ciphertext) drawn_padding in
    let? id := fill 16 drawn_id in
    Ok {| re_version := VERSION;
          re_mailbox := mailbox;
          re_envelope_id := hex id;
          re_expires_at :=
            u64_wrapping_mul (div_ceil expires_at EXPIRY_BUCKET_SECONDS) EXPIRY_BUCKET_SECONDS;
          re_ciphertext := ciphertext;
          re_padding := padding |}.

Section wire.
Context `{JsonCodec WireEnvelope}.

Definition to_wire (self : RelayEnvelope) : result string EnvelopeError :=
  if negb (re_version self =? VERSION)%N
     || (MAX_CIPHERTEXT_BYTES + BLOCK_SIZE <? blen (re_ciphertext self) + blen (re_padding self))%N
  then Err InvalidWire
  else
    let? json := ok_or (json_to_vec {| we_v := re_version self; we_m := re_mailbox self;
                                       we_i := re_envelope_id self; we_e := re_expires_at self;
                                       we_c := hex (re_ciphertext self);
                                       we_p := hex (re_padding self) |}) InvalidWire in
    Ok (of_bytes json).

Definition from_wire (wire : string) (now : N) : result RelayEnvelope EnvelopeError :=
  let? parsed := ok_or (json_from_slice (as_bytes wire)) InvalidWire in
  if negb (we_v parsed =? VERSION)%N
     || (we_e parsed <=? now)%N
     || (u64_saturating_add now MAX_ENVELOPE_TTL_SECONDS <? we_e parsed)%N
  then Err (if (we_e parsed <=? now)%N then Expired else InvalidWire)
  else
    let? _ := validate_mailbox (we_m parsed) in
    if negb (slen (we_i parsed) =? 32)%N
       || negb (forallb is_ascii_hexdigit (as_bytes (we_i parsed)))
    then Err InvalidWire
    else
      let? ciphertext := ok_or (decode_hex (we_c parsed)) InvalidWire in
      let? padding := ok_or (decode_hex (we_p parsed)) InvalidWire in
      if bool_decide (ciphertext = [])
         || (MAX_CIPHERTEXT_BYTES <? blen ciphertext)%N
         || (MAX_CIPHERTEXT_BYTES + BLOCK_SIZE <? blen ciphertext + blen padding)%N
      then Err TooLarge
      else if negb ((blen ciphertext + blen padding) mod BLOCK_SIZE =? 0)%N then Err InvalidWire
      else
        Ok {| re_version := we_v parsed; re_mailbox := we_m parsed;
              re_envelope_id := we_i parsed; re_expires_at := we_e parsed;
              re_ciphertext := ciphertext; re_padding := padding |}.

Definition digest `{Crypto} (self : RelayEnvelope) : result string EnvelopeError :=
  let? wire := to_wire self in
  Ok (hex (sha256 (as_bytes wire))).
End wire.

(** ** Lemmas *)

Lemma slen_hex b : slen (hex b) = (2 * blen b)%N.
Proof. unfold slen, blen, hex. rewrite <-length_as_bytes, as_of_bytes, length_hex_b. lia. Qed.

Lemma decode_hex_hex b : decode_hex (hex b) = Some b.
Proof.
  unfold decode_hex. rewrite slen_hex, (N.mul_comm 2), N.Div0.mod_mul. cbn [N.eqb negb orb].
  unfold hex. by rewrite as_of_bytes, hex_b_hexdigit, decode_pairs_hex.
Qed.

Lemma validate_mailbox_cases m : validate_mailbox m = Ok tt ∨ validate_mailbox m = Err InvalidMailbox.
Proof. unfold validate_mailbox. case_match; auto. Qed.

Lemma fill_ok n d b : fill n d = Ok b → blen b = n.
Proof. unfold fill. destruct d; [|done]. case_match eqn:E; [|done]. intros [= ->]. by apply N.eqb_eq. Qed.

Lemma div_ceil_spec a b : (0 < b)%N → (a ≤ div_ceil a b * b < a + b)%N.
Proof.
  intros Hb. unfold div_ceil. pose proof (N.div_mod a b) as Hd. pose proof (N.mod_lt a b) as Hm.
  case_match eqn:E; nia.
Qed.

(** A well-formed envelope: what the relay may see and what a receiver accepts. *)
Record envelope_wf (e : RelayEnvelope) : Prop := {
  ew_version : re_version e = VERSION;
  ew_mailbox : validate_mailbox (re_mailbox e) = Ok tt;
  ew_id_len : slen (re_envelope_id e) = 32%N;
  ew_id_hex : forallb is_ascii_hexdigit (as_bytes (re_envelope_id e)) = true;
  ew_nonempty : re_ciphertext e ≠ [];
  ew_bound : (blen (re_ciphertext e) ≤ MAX_CIPHERTEXT_BYTES)%N;
  ew_total : (blen (re_ciphertext e) + blen (re_padding e) ≤ MAX_CIPHERTEXT_BYTES + BLOCK_SIZE)%N;
  ew_blocks : ((blen (re_ciphertext e) + blen (re_padding e)) mod BLOCK_SIZE = 0)%N;
}.

(** What a successful [create] checked and built. *)
Lemma create_inv mailbox ciphertext expires_at now dp di e :
  create mailbox ciphertext expires_at now dp di = Ok e →
  envelope_wf e ∧ re_mailbox e = mailbox ∧ re_ciphertext e = ciphertext ∧
  (now < expires_at ≤ u64_saturating_add now MAX_ENVELOPE_TTL_SECONDS)%N ∧
  (blen ciphertext + blen (re_padding e) = div_ceil (blen ciphertext) BLOCK_SIZE * BLOCK_SIZE)%N ∧
  re_expires_at e = u64_wrapping_mul (div_ceil expires_at EXPIRY_BUCKET_SECONDS) EXPIRY_BUCKET_SECONDS.
Proof.
  unfold create. destruct (validate_mailbox_cases mailbox) as [Hm|Hm]; rewrite Hm;
    cbn [result_bind]; [|done].
  case_bool_decide as Hne; [done|].
  destruct (MAX_CIPHERTEXT_BYTES <? blen ciphertext)%N eqn:Hl; [done|].
  destruct (expires_at <=? now)%N eqn:He1; [done|].
  destruct (u64_saturating_add now MAX_ENVELOPE_TTL_SECONDS <? expires_at)%N eqn:He2; [done|].
  cbn [orb]. destruct (fill _ dp) as [pad|] eqn:Hp; cbn [result_bind]; [|done].
  destruct (fill 16 di) as [id|] eqn:Hi; cbn [result_bind]; [|done]. intros [= <-].
  apply fill_ok in Hp, Hi.
  pose proof (div_ceil_spec (blen ciphertext) BLOCK_SIZE ltac:(done)) as Hd.
  assert (Hsum : (blen ciphertext + blen pad = div_ceil (blen ciphertext) BLOCK_SIZE * BLOCK_SIZE)%N) by lia.
  split_and!; cbn; try done; try lia. split; cbn; try done.
  - rewrite slen_hex, Hi. done.
  - unfold hex. rewrite as_of_bytes. apply hex_b_hexdigit.
  - lia.
  - unfold MAX_CIPHERTEXT_BYTES, BLOCK_SIZE in *. lia.
  - rewrite Hsum. apply N.Div0.mod_mul.
Qed.

Section wire_lemmas.
Context `{JsonRoundTrip WireEnvelope}.

(** Decoding what [to_wire] wrote, at any time. *)
Lemma from_to_wire e wire now :
  envelope_wf e → to_wire e = Ok wire →
  from_wire wire now =
  if (re_expires_at e <=? now)%N then Err Expired
  else if (u64_saturating_add now MAX_ENVELOPE_TTL_SECONDS <? re_expires_at e)%N then Err InvalidWire
  else Ok e.
Proof using Type*.
  intros [Hv Hm Hil Hih Hne Hb Ht Hbl]. unfold to_wire. rewrite Hv, N.eqb_refl. cbn [negb orb].
  rewrite (proj2 (N.ltb_ge _ _) Ht).
  destruct (json_to_vec _) as [json|] eqn:Hj; cbn [ok_or result_bind]; [|done]. intros [= <-].
  unfold from_wire. rewrite as_of_bytes, (json_roundtrip _ _ Hj).
  cbn [ok_or result_bind we_v we_m we_i we_e we_c we_p]. rewrite N.eqb_refl. cbn [negb orb].
  destruct (re_expires_at e <=? now)%N eqn:He; cbn [orb]; [done|].
  destruct (_ <? re_expires_at e)%N; [done|].
  rewrite Hm, Hil, Hih, !decode_hex_hex. cbn [result_bind N.eqb negb orb ok_or Pos.eqb].
  rewrite bool_decide_false, (proj2 (N.ltb_ge _ _) Hb), (proj2 (N.ltb_ge _ _) Ht), Hbl by done.
  cbn. f_equal. by destruct e; cbn in *; subst.
Qed.
End wire_lemmas.

(** ** Properties *)

(** Metadata minimisation: an envelope shows the relay a ciphertext padded to whole
    256-byte blocks, with less than a block of padding, and an expiry rounded up to the
    next five-minute boundary. *)
Theorem envelope_create_is_padded_and_bucketed mailbox ciphertext expires_at now dp di e :
  create mailbox ciphertext expires_at now dp di = Ok e →
  envelope_wf e ∧ re_ciphertext e = ciphertext ∧ (blen (re_padding e) < BLOCK_SIZE)%N ∧
  ((expires_at + 299 ≤ u64_max)%N →
   (re_expires_at e mod 300 = 0 ∧ expires_at ≤ re_expires_at e < expires_at + 300)%N).
Proof.
  intros (Hwf & _ & Hc & Hexp & Hpad & He)%create_inv. split_and!; [done..| |].
  - pose proof (div_ceil_spec (blen ciphertext) BLOCK_SIZE ltac:(done)). unfold BLOCK_SIZE in *. lia.
  - intros Hmax. rewrite He. unfold u64_wrapping_mul.
    pose proof (div_ceil_spec expires_at EXPIRY_BUCKET_SECONDS ltac:(done)).
    unfold EXPIRY_BUCKET_SECONDS in *.
    rewrite (N.mod_small (_ * 300) (u64_max + 1)) by (unfold u64_max in *; lia).
    split; [apply N.Div0.mod_mul|lia].
Qed.

Section wire_properties.
Context `{JsonRoundTrip WireEnvelope}.

(** C22. A created envelope survives the wire unchanged, at every time before its expiry at
    which the expiry is within the seven-day limit; at or after its expiry it is
    refused as expired. *)
Theorem envelope_wire_roundtrip mailbox ciphertext expires_at now dp di e wire later :
  create mailbox ciphertext expires_at now dp di = Ok e →
  to_wire e = Ok wire →
  from_wire wire later =
  if (re_expires_at e <=? later)%N then Err Expired
  else if (u64_saturating_add later MAX_ENVELOPE_TTL_SECONDS <? re_expires_at e)%N
  then Err InvalidWire
  else Ok e.
Proof using Type*. intros [Hwf _]%create_inv. by apply from_to_wire. Qed.

(** Rounding the expiry up defeats the limit it was checked against: an envelope created
    with the longest accepted expiry, off a five-minute boundary, is rejected by a
    receiver whose clock agrees with the sender's. *)
Theorem envelope_longest_ttl_is_rejected mailbox ciphertext now dp di e wire :
  (now + MAX_ENVELOPE_TTL_SECONDS + 299 ≤ u64_max)%N →
  ((now + MAX_ENVELOPE_TTL_SECONDS) mod 300 ≠ 0)%N →
  create mailbox ciphertext (now + MAX_ENVELOPE_TTL_SECONDS) now dp di = Ok e →
  to_wire e = Ok wire →
  from_wire wire now = Err InvalidWire.
Proof using Type*.
  intros Hmax Hmod Hc Hw. apply create_inv in Hc as (Hwf & _ & _ & _ & _ & He).
  rewrite (from_to_wire _ _ _ Hwf Hw).
  assert (Hgt : (now + MAX_ENVELOPE_TTL_SECONDS < re_expires_at e)%N).
  { rewrite He. unfold u64_wrapping_mul.
    pose proof (div_ceil_spec (now + MAX_ENVELOPE_TTL_SECONDS) EXPIRY_BUCKET_SECONDS ltac:(done)) as Hd.
    unfold EXPIRY_BUCKET_SECONDS in *. rewrite N.mod_small by (unfold u64_max in *; lia).
    assert (div_ceil (now + MAX_ENVELOPE_TTL_SECONDS) 300 * 300 ≠ now + MAX_ENVELOPE_TTL_SECONDS)%N; [|lia].
    intros E. apply Hmod. rewrite <-E. apply N.Div0.mod_mul. }
  replace (re_expires_at e <=? now)%N with false by lia.
  replace (u64_saturating_add now MAX_ENVELOPE_TTL_SECONDS <? re_expires_at e)%N with true; [done|].
  unfold u64_saturating_add, u64_max in *. lia.
Qed.
End wire_properties.

(** ** Witnesses *)

#[export] Instance WireEnvelope_eq_dec : EqDecision WireEnvelope.
Proof. solve_decision. Defined.
#[export] Instance WireEnvelope_countable : Countable WireEnvelope.
Proof.
  refine (inj_countable' (λ w, (we_v w, we_m w, we_i w, we_e w, we_c w, we_p w))
            (λ '(a, b, c, d, e, f), Build_WireEnvelope a b c d e f) _).
  by intros [].
Defined.

#[local] Existing Instance Reference.json.
#[local] Existing Instance Reference.json_laws.

Definition sample_create (expires_at : N) : result RelayEnvelope EnvelopeError :=
  create "mailbox" ["c"%char] expires_at 1000 (Some (replicate 255 "p"%char))
    (Some (replicate 16 "i"%char)).
Definition sample_envelope (expires_at : N) : RelayEnvelope :=
  match sample_create expires_at with
  | Ok e => e
  | Err _ => {| re_version := 0; re_mailbox := EmptyString; re_envelope_id := EmptyString; re_expires_at := 0;
                re_ciphertext := []; re_padding := [] |}
  end.
Definition sample_wire (expires_at : N) : string :=
  match to_wire (sample_envelope expires_at) with Ok w => w | Err _ => EmptyString end.

Lemma envelope_create_is_padded_and_bucketed_witness :
  (re_expires_at (sample_envelope 2000) mod 300 = 0 ∧
   2000 ≤ re_expires_at (sample_envelope 2000) < 2000 + 300)%N.
Proof.
  apply (envelope_create_is_padded_and_bucketed "mailbox" ["c"%char] 2000 1000
           (Some (replicate 255 "p"%char)) (Some (replicate 16 "i"%char)) (sample_envelope 2000));
    [vm_compute; reflexivity|vm_compute; discriminate].
Defined.

Lemma envelope_wire_roundtrip_witness :
  from_wire (sample_wire 2000) 1500 = Ok (sample_envelope 2000).
Proof.
  rewrite (envelope_wire_roundtrip "mailbox" ["c"%char] 2000 1000
             (Some (replicate 255 "p"%char)) (Some (replicate 16 "i"%char))
             (sample_envelope 2000) (sample_wire 2000) 1500); vm_compute; reflexivity.
Defined.

Lemma envelope_longest_ttl_is_rejected_witness :
  from_wire (sample_wire (1000 + MAX_ENVELOPE_TTL_SECONDS)) 1000 = Err InvalidWire.
Proof.
  apply (envelope_longest_ttl_is_rejected "mailbox" ["c"%char] 1000
           (Some (replicate 255 "p"%char)) (Some (replicate 16 "i"%char))
           (sample_envelope (1000 + MAX_ENVELOPE_TTL_SECONDS)));
    [vm_compute; discriminate|vm_compute; discriminate|vm_compute; reflexivity..].
Defined.
