(* ===== verification/Bridge.v ===== *)
(** * The loopback bridge ([apps/daemon/src/bridge.rs])

    The browser talks to the daemon over a loopback HTTP origin. A one-time bootstrap token
    is exchanged for a session (cookie and CSRF token, stored as hashes); every request is
    authorised against the exact origin, host, UI version, session and, when it changes
    state, the CSRF token. Instants of the monotonic clock are nanoseconds. *)
From Stdlib Require Import Ascii NArith Lia ZifyBool ZifyN.
From stdpp Require Import base gmap strings list.
From S2P Require Import Prelude Text Interfaces ProtocolGate.

Definition TOKEN_BYTES : nat := 32.
Definition DEFAULT_SESSION_TTL_SECONDS : N := 15 * 60.
Definition MAX_UI_VERSION_BYTES : N := 64.

Inductive BridgeError :=
| NonLoopbackBind | InvalidUiOrigin | InvalidUiVersion | InvalidRequestOrigin | InvalidHost
| InvalidBootstrap | BootstrapAlreadyConsumed | SessionInvalid | CsrfRequired
| RandomnessUnavailable.
#[export] Instance BridgeError_eq_dec : EqDecision BridgeError.
Proof. solve_decision. Defined.

(** ** Addresses ([std::net::IpAddr]) *)

(** Four octets, or eight 16-bit segments. *)
Inductive IpAddr :=
| V4 (a b c d : N)
| V6 (segments : list N).

Definition is_loopback (ip : IpAddr) : bool :=
  match ip with
  | V4 a _ _ _ => (a =? 127)%N
  | V6 s => bool_decide (s = [0; 0; 0; 0; 0; 0; 0; 1]%N)
  end.

Definition display_v4 (a b c d : N) : string :=
  join 46 [u64_to_string a; u64_to_string b; u64_to_string c; u64_to_string d].

(** [{:x}]: hexadecimal without leading zeros. *)
Fixpoint hex_digits (fuel : nat) (n : N) (acc : bytes) : bytes :=
  match fuel with
  | O => acc
  | S f =>
    let acc := nibble_byte (n mod 16) :: acc in
    if (n <? 16)%N then acc else hex_digits f (n / 16) acc
  end.
Definition display_segment (n : N) : string := of_bytes (hex_digits 4 n []).

(** The first longest run of zero segments: its start and length. *)
Fixpoint longest_run (l : list N) (i cur_start cur_len best_start best_len : nat) : nat * nat :=
  match l with
  | [] => (best_start, best_len)
  | x :: t =>
    if (x =? 0)%N then
      let start := if (cur_len =? 0)%nat then i else cur_start in
      let len := S cur_len in
      if (best_len <? len)%nat then longest_run t (S i) start len start len
      else longest_run t (S i) start len best_start best_len
    else longest_run t (S i) 0 0 best_start best_len
  end.

Definition display_v6 (s : list N) : string :=
  match s with
  | [0; 0; 0; 0; 0; 65535; g; h]%N =>
    "::ffff:" +:+ display_v4 (g / 256) (g mod 256) (h / 256) (h mod 256)
  | _ =>
    let '(start, len) := longest_run s 0 0 0 0 0 in
    if (1 <? len)%nat then
      join 58 (map display_segment (take start s)) +:+ "::"
        +:+ join 58 (map display_segment (drop (start + len) s))
    else join 58 (map display_segment s)
  end.

Definition expected_host (bind_host : IpAddr) (port : N) : string :=
  match bind_host with
  | V4 a b c d => display_v4 a b c d +:+ ":" +:+ u64_to_string port
  | V6 s => "[" +:+ display_v6 s +:+ "]:" +:+ u64_to_string port
  end.

Definition is_exact_loopback_origin (origin : string) (bind_host : IpAddr) (port : N) : bool :=
  seqb origin ("http://" +:+ expected_host bind_host port).

(** ** Configuration *)

Record BridgeConfig := {
  bc_bind_host : IpAddr;
  bc_port : N;
  bc_ui_origin : string;
  bc_ui_version : string;
  bc_session_ttl_seconds : N;
}.

Definition config_new (bind_host : IpAddr) (port : N) (ui_origin ui_version : string)
  : result BridgeConfig BridgeError :=
  if negb (is_loopback bind_host) then Err NonLoopbackBind
  else if negb (is_exact_loopback_origin ui_origin bind_host port) then Err InvalidUiOrigin
  else if is_empty_str ui_version
          || (MAX_UI_VERSION_BYTES <? slen ui_version)%N
          || existsb (λ ch, char_is_control ch || char_is_whitespace ch) (chars ui_version)
  then Err InvalidUiVersion
  else
    Ok {| bc_bind_host := bind_host; bc_port := port; bc_ui_origin := ui_origin;
          bc_ui_version := ui_version; bc_session_ttl_seconds := DEFAULT_SESSION_TTL_SECONDS |}.

Definition with_session_ttl (c : BridgeConfig) (seconds : N) : BridgeConfig :=
  {| bc_bind_host := bc_bind_host c; bc_port := bc_port c; bc_ui_origin := bc_ui_origin c;
     bc_ui_version := bc_ui_version c; bc_session_ttl_seconds := N.max seconds 1 |}.

(** ** The bridge *)

Record SessionCredentials := {
  sc_cookie : string;
  sc_set_cookie : string;
  sc_csrf_token : string;
  sc_expires_at : N;
  sc_ui_version : string;
}.

Record SessionState := {
  ss_cookie_hash : bytes;
  ss_csrf_hash : bytes;
  ss_ttl : TtlContract;
  ss_started : N;
}.

Record LocalBridge := {
  lb_config : BridgeConfig;
  lb_bootstrap_hash : option bytes;
  lb_bootstrap_token : option string;
  lb_session : option SessionState;
}.

Record BridgeRequest := {
  br_origin : string;
  br_host : string;
  br_method : string;
  br_cookie : string;
  br_csrf_token : option string;
  br_ui_version : string;
}.

Definition set_session (s : option SessionState) (b : LocalBridge) : LocalBridge :=
  {| lb_config := lb_config b; lb_bootstrap_hash := lb_bootstrap_hash b;
     lb_bootstrap_token := lb_bootstrap_token b; lb_session := s |}.
Definition consume_bootstrap (b : LocalBridge) : LocalBridge :=
  {| lb_config := lb_config b; lb_bootstrap_hash := None; lb_bootstrap_token := None;
     lb_session := lb_session b |}.

Definition hex_bytes (b : bytes) : string := of_bytes (hex_b b).

(** The bytes [getrandom] drew, or [None] when it failed. *)
Definition random_token (drawn : option bytes) : result string BridgeError :=
  match drawn with
  | Some b => if (length b =? TOKEN_BYTES)%nat then Ok (hex_bytes b) else Err RandomnessUnavailable
  | None => Err RandomnessUnavailable
  end.

(** The accumulated difference of two equally long slices. *)
Fixpoint xor_difference (a b : bytes) (difference : N) : N :=
  match a, b with
  | x :: a', y :: b' => xor_difference a' b' (N.lor difference (N.lxor (byte_n x) (byte_n y)))
  | _, _ => difference
  end.
Definition constant_time_equal (left right : bytes) : bool :=
  if negb (length left =? length right)%nat then false
  else (xor_difference left right 0 =? 0)%N.

Definition is_state_changing_method (method : string) : bool :=
  existsb (seqb method) ["POST"; "PUT"; "PATCH"; "DELETE"].

(** [started.elapsed().as_secs()]. *)
Definition elapsed_secs (started mono_now : N) : N := (mono_now - started) / 1000000000.

Section bridge.
Context `{Crypto}.

Definition hash_token (token : string) : bytes := sha256 (as_bytes token).

Definition bridge_new (config : BridgeConfig) (drawn : option bytes)
  : result LocalBridge BridgeError :=
  let? bootstrap := random_token drawn in
  Ok {| lb_config := config; lb_bootstrap_hash := Some (hash_token bootstrap);
        lb_bootstrap_token := Some bootstrap; lb_session := None |}.

Definition bootstrap_url (b : LocalBridge) (ui_path : string) : result string BridgeError :=
  if contains_byte 35 ui_path || contains_byte 63 ui_path
     || contains_byte 10 ui_path || contains_byte 13 ui_path
  then Err InvalidUiOrigin
  else
    let? token := ok_or (lb_bootstrap_token b) BootstrapAlreadyConsumed in
    Ok (bc_ui_origin (lb_config b) +:+ ui_path +:+ "#ad_bootstrap=" +:+ token).

Definition check_origin_host (b : LocalBridge) (origin host : string) : result unit BridgeError :=
  if negb (seqb origin (bc_ui_origin (lb_config b))) then Err InvalidRequestOrigin
  else if negb (seqb host (expected_host (bc_bind_host (lb_config b)) (bc_port (lb_config b))))
  then Err InvalidHost
  else Ok tt.

Definition issue_session (now mono_now : N) (drawn_cookie drawn_csrf : option bytes)
  : Mut LocalBridge SessionCredentials BridgeError :=
  let! cookie := mut_lift (random_token drawn_cookie) in
  let! csrf_token := mut_lift (random_token drawn_csrf) in
  λ b,
    let seconds := bc_session_ttl_seconds (lb_config b) in
    let ttl := {| issued_at := now; ttl_seconds := seconds |} in
    (set_session (Some {| ss_cookie_hash := hash_token cookie;
                          ss_csrf_hash := hash_token csrf_token;
                          ss_ttl := ttl; ss_started := mono_now |}) b,
     Ok {| sc_set_cookie :=
             "ad_session=" +:+ cookie +:+ "; Path=/; HttpOnly; SameSite=Strict; Max-Age="
               +:+ u64_to_string seconds;
           sc_cookie := cookie;
           sc_csrf_token := csrf_token;
           sc_expires_at := ttl_expires_at ttl;
           sc_ui_version := bc_ui_version (lb_config b) |}).

Definition exchange (origin host token ui_version : string) (now mono_now : N)
    (drawn_cookie drawn_csrf : option bytes)
  : Mut LocalBridge SessionCredentials BridgeError :=
  λ b,
    match check_origin_host b origin host with
    | Err e => (b, Err e)
    | Ok _ =>
      if negb (seqb ui_version (bc_ui_version (lb_config b))) then (b, Err InvalidBootstrap)
      else
        match lb_bootstrap_hash b with
        | None => (b, Err BootstrapAlreadyConsumed)
        | Some expected =>
          if negb (constant_time_equal expected (hash_token token)) then (b, Err InvalidBootstrap)
          else issue_session now mono_now drawn_cookie drawn_csrf (consume_bootstrap b)
        end
    end.

Definition renew (origin host cookie csrf_token ui_version : string) (now mono_now : N)
    (drawn_cookie drawn_csrf : option bytes)
  : Mut LocalBridge SessionCredentials BridgeError :=
  λ b,
    match check_origin_host b origin host with
    | Err e => (b, Err e)
    | Ok _ =>
      if negb (seqb ui_version (bc_ui_version (lb_config b))) then (b, Err SessionInvalid)
      else
        match lb_session b with
        | None => (b, Err SessionInvalid)
        | Some session =>
          if negb (constant_time_equal (ss_cookie_hash session) (hash_token cookie))
             || negb (constant_time_equal (ss_csrf_hash session) (hash_token csrf_token))
          then (b, Err SessionInvalid)
          else issue_session now mono_now drawn_cookie drawn_csrf b
        end
    end.

Definition authorize (b : LocalBridge) (request : BridgeRequest) (now mono_now : N)
  : result unit BridgeError :=
  let? _ := check_origin_host b (br_origin request) (br_host request) in
  if negb (seqb (br_ui_version request) (bc_ui_version (lb_config b))) then Err SessionInvalid
  else
    let? session := ok_or (lb_session b) SessionInvalid in
    if ttl_is_expired (ss_ttl session) now (elapsed_secs (ss_started session) mono_now)
       || negb (constant_time_equal (ss_cookie_hash session) (hash_token (br_cookie request)))
    then Err SessionInvalid
    else if is_state_changing_method (br_method request)
            && negb (constant_time_equal (ss_csrf_hash session)
                       (hash_token (default EmptyString (br_csrf_token request))))
    then Err CsrfRequired
    else Ok tt.

Definition invalidate_session (b : LocalBridge) : LocalBridge := set_session None b.
End bridge.

(** ** Lemmas *)

Lemma xor_difference_zero a b d :
  length a = length b → xor_difference a b d = 0%N ↔ d = 0%N ∧ a = b.
Proof.
  revert b d. induction a as [|x a IH]; intros [|y b] d Hl; try done; cbn [xor_difference].
  - naive_solver.
  - rewrite IH by (cbn in Hl; lia). rewrite N.lor_eq_0_iff, N.lxor_eq_0_iff. split.
    + intros [[-> Hxy] ->]. split; [done|]. f_equal. by rewrite <-(n_byte_byte_n x), Hxy, n_byte_byte_n.
    + intros [-> [= -> ->]]. done.
Qed.

Lemma constant_time_equal_true a b : constant_time_equal a b = true ↔ a = b.
Proof.
  unfold constant_time_equal. destruct (length a =? length b)%nat eqn:E; cbn [negb].
  - apply Nat.eqb_eq in E. rewrite N.eqb_eq, xor_difference_zero by done. naive_solver.
  - apply Nat.eqb_neq in E. split; [done|]. by intros ->.
Qed.

Lemma constant_time_equal_refl a : constant_time_equal a a = true.
Proof. by apply constant_time_equal_true. Qed.
#[export] Hint Rewrite constant_time_equal_refl : rust.

(** ** Runs of the bridge *)

Inductive BridgeOp :=
| OpExchange (origin host token ui_version : string) (now mono : N) (d1 d2 : option bytes)
| OpRenew (origin host cookie csrf ui_version : string) (now mono : N) (d1 d2 : option bytes)
| OpInvalidate.

Section runs.
Context `{Crypto}.

(** The bridge after an operation, and whether it was a successful exchange. *)
Definition bridge_apply (op : BridgeOp) (b : LocalBridge) : LocalBridge * bool :=
  match op with
  | OpExchange o h t v now mono d1 d2 =>
    let '(b', r) := exchange o h t v now mono d1 d2 b in (b', is_ok r)
  | OpRenew o h c t v now mono d1 d2 => ((renew o h c t v now mono d1 d2 b).1, false)
  | OpInvalidate => (invalidate_session b, false)
  end.

Fixpoint bridge_run (ops : list BridgeOp) (b : LocalBridge) : LocalBridge * nat :=
  match ops with
  | [] => (b, 0)
  | op :: t =>
    let '(b1, ok) := bridge_apply op b in
    let '(b2, n) := bridge_run t b1 in
    (b2, (if ok then S n else n))
  end.

Lemma issue_session_cases now mono d1 d2 b b' r :
  issue_session now mono d1 d2 b = (b', r) →
  match r with
  | Ok c => ∃ cookie csrf, random_token d1 = Ok cookie ∧ random_token d2 = Ok csrf ∧
      b' = set_session (Some {| ss_cookie_hash := hash_token cookie; ss_csrf_hash := hash_token csrf;
                                ss_ttl := {| issued_at := now; ttl_seconds := bc_session_ttl_seconds (lb_config b) |};
                                ss_started := mono |}) b ∧
      sc_cookie c = cookie ∧ sc_csrf_token c = csrf ∧
      sc_ui_version c = bc_ui_version (lb_config b) ∧
      sc_expires_at c = u64_saturating_add now (bc_session_ttl_seconds (lb_config b))
  | Err _ => b' = b
  end.
Proof using Type.
  unfold issue_session, mut_bind, mut_lift.
  destruct (random_token d1) as [cookie|] eqn:E1; [|by intros [= <- <-]].
  destruct (random_token d2) as [csrf|] eqn:E2; [|by intros [= <- <-]].
  intros [= <- <-]. exists cookie, csrf. by split_and!.
Qed.

Lemma exchange_cases o h t v now mono d1 d2 b b' r :
  exchange o h t v now mono d1 d2 b = (b', r) →
  (b' = b ∧ is_ok r = false) ∨
  (o = bc_ui_origin (lb_config b) ∧
   h = expected_host (bc_bind_host (lb_config b)) (bc_port (lb_config b)) ∧
   v = bc_ui_version (lb_config b) ∧
   lb_bootstrap_hash b = Some (hash_token t) ∧
   issue_session now mono d1 d2 (consume_bootstrap b) = (b', r)).
Proof using Type.
  unfold exchange, check_origin_host.
  destruct (seqb o _) eqn:Eo; cbn [negb]; [|intros [= <- <-]; by left].
  destruct (seqb h _) eqn:Eh; cbn [negb]; [|intros [= <- <-]; by left].
  destruct (seqb v _) eqn:Ev; cbn [negb]; [|intros [= <- <-]; by left].
  destruct (lb_bootstrap_hash b) as [e|]; [|intros [= <- <-]; by left].
  destruct (constant_time_equal e (hash_token t)) eqn:Ec; cbn [negb]; [|intros [= <- <-]; by left].
  apply constant_time_equal_true in Ec as ->. apply seqb_true in Eo, Eh, Ev.
  intros Hi. right. by split_and!.
Qed.

Lemma renew_cases o h c t v now mono d1 d2 b b' r :
  renew o h c t v now mono d1 d2 b = (b', r) →
  (b' = b ∧ is_ok r = false) ∨
  (is_Some (lb_session b) ∧ issue_session now mono d1 d2 b = (b', r)).
Proof using Type.
  unfold renew. destruct (check_origin_host b o h); [|intros [= <- <-]; by left].
  case_match; [intros [= <- <-]; by left|].
  destruct (lb_session b) as [s|] eqn:Es; [|intros [= <- <-]; by left].
  case_match; [intros [= <- <-]; by left|]. eauto.
Qed.

(** What is left of the bootstrap, as a number of possible exchanges. *)
Definition bootstraps_left (b : LocalBridge) : nat :=
  match lb_bootstrap_hash b with Some _ => 1 | None => 0 end.

Lemma issue_session_bootstrap now mono d1 d2 b b' r :
  issue_session now mono d1 d2 b = (b', r) → lb_bootstrap_hash b' = lb_bootstrap_hash b.
Proof using Type.
  intros Hi%issue_session_cases. destruct r; [destruct Hi as (? & ? & _ & _ & -> & _)|subst]; done.
Qed.

Lemma bridge_apply_bootstrap op b b' ok :
  bridge_apply op b = (b', ok) →
  (bootstraps_left b' + (if ok then 1 else 0) ≤ bootstraps_left b)%nat.
Proof using Type.
  destruct op as [o h t v now mono d1 d2|o h c t v now mono d1 d2|]; cbn [bridge_apply].
  - destruct (exchange _ _ _ _ _ _ _ _ b) as [b1 r] eqn:He. intros [= <- <-].
    apply exchange_cases in He as [[-> ->]|(_ & _ & _ & Hb & Hi)]; [lia|].
    apply issue_session_bootstrap in Hi. unfold bootstraps_left. rewrite Hi, Hb. cbn.
    case_match; lia.
  - intros [= <- <-]. destruct (renew _ _ _ _ _ _ _ _ _ b) as [b1 r] eqn:Hr. cbn [fst].
    apply renew_cases in Hr as [[-> _]|[_ Hi]]; [lia|].
    apply issue_session_bootstrap in Hi. unfold bootstraps_left. rewrite Hi. lia.
  - intros [= <- <-]. cbn. unfold bootstraps_left. cbn. lia.
Qed.

Lemma bridge_run_bootstrap ops b b' n :
  bridge_run ops b = (b', n) → (bootstraps_left b' + n ≤ bootstraps_left b)%nat.
Proof using Type.
  revert b b' n. induction ops as [|op ops IH]; intros b b' n; cbn [bridge_run].
  { intros [= <- <-]. lia. }
  destruct (bridge_apply op b) as [b1 ok] eqn:Ha. destruct (bridge_run ops b1) as [b2 m] eqn:Hr.
  intros [= <- <-]. apply bridge_apply_bootstrap in Ha. apply IH in Hr. destruct ok; lia.
Qed.

Lemma bridge_apply_session op b b' ok :
  bridge_apply op b = (b', ok) → is_Some (lb_session b') → is_Some (lb_session b) ∨ ok = true.
Proof using Type.
  destruct op as [o h t v now mono d1 d2|o h c t v now mono d1 d2|]; cbn [bridge_apply].
  - destruct (exchange _ _ _ _ _ _ _ _ b) as [b1 r] eqn:He. intros [= <- <-].
    apply exchange_cases in He as [[-> ->]|(_ & _ & _ & _ & Hi)]; [by auto|].
    apply issue_session_cases in Hi. destruct r; [by auto|]. subst. by auto.
  - intros [= <- <-]. destruct (renew _ _ _ _ _ _ _ _ _ b) as [b1 r] eqn:Hr. cbn [fst].
    apply renew_cases in Hr as [[-> _]|[Hs _]]; auto.
  - intros [= <- <-]. cbn. by intros [? ?].
Qed.

Lemma bridge_run_session ops b b' n :
  bridge_run ops b = (b', n) → is_Some (lb_session b') → is_Some (lb_session b) ∨ (0 < n)%nat.
Proof using Type.
  revert b b' n. induction ops as [|op ops IH]; intros b b' n; cbn [bridge_run].
  { intros [= <- <-]. auto. }
  destruct (bridge_apply op b) as [b1 ok] eqn:Ha. destruct (bridge_run ops b1) as [b2 m] eqn:Hr.
  intros [= <- <-] Hs. destruct (IH _ _ _ Hr Hs) as [Hs1|Hn]; [|right; destruct ok; lia].
  destruct (bridge_apply_session _ _ _ _ Ha Hs1) as [?| ->]; [by left|right; lia].
Qed.

(** ** Properties *)

(** C3. The bootstrap token of a new bridge opens at most one session: whatever requests are
    made, in any order, at most one exchange succeeds, and a session exists only if one
    did. *)
Theorem bridge_bootstrap_is_one_time config drawn b ops b' n :
  bridge_new config drawn = Ok b → bridge_run ops b = (b', n) →
  (n ≤ 1)%nat ∧ (is_Some (lb_session b') → n = 1%nat) ∧
  (n = 1%nat → lb_bootstrap_hash b' = None).
Proof using Type.
  unfold bridge_new. destruct (random_token drawn) as [tok|]; cbn [result_bind]; [|done].
  intros [= <-] Hr. pose proof (bridge_run_bootstrap _ _ _ _ Hr) as Hb.
  unfold bootstraps_left at 2 in Hb. cbn in Hb. split; [lia|]. split.
  - intros Hs. destruct (bridge_run_session _ _ _ _ Hr Hs) as [[? ?]|?]; [done|lia].
  - intros ->. unfold bootstraps_left in Hb. destruct (lb_bootstrap_hash b'); [lia|done].
Qed.

(** A request is authorised exactly when it names the configured origin, host and UI
    version, there is a session that neither clock has expired, its cookie hashes to the
    session's, and, for a state-changing method, so does its CSRF token. *)
Theorem bridge_authorize_iff b req now mono :
  authorize b req now mono = Ok tt ↔
  br_origin req = bc_ui_origin (lb_config b) ∧
  br_host req = expected_host (bc_bind_host (lb_config b)) (bc_port (lb_config b)) ∧
  br_ui_version req = bc_ui_version (lb_config b) ∧
  ∃ s, lb_session b = Some s ∧
    (elapsed_secs (ss_started s) mono < ttl_seconds (ss_ttl s))%N ∧
    (now < ttl_expires_at (ss_ttl s))%N ∧
    ss_cookie_hash s = hash_token (br_cookie req) ∧
    (is_state_changing_method (br_method req) = true →
     ss_csrf_hash s = hash_token (default EmptyString (br_csrf_token req))).
Proof using Type.
  unfold authorize, check_origin_host, ttl_is_expired.
  destruct (seqb (br_origin req) _) eqn:Eo; cbn [negb result_bind];
    [apply seqb_true in Eo|unfold seqb in Eo; bool_props; naive_solver].
  destruct (seqb (br_host req) _) eqn:Eh; cbn [negb result_bind];
    [apply seqb_true in Eh|unfold seqb in Eh; bool_props; naive_solver].
  destruct (seqb (br_ui_version req) _) eqn:Ev; cbn [negb];
    [apply seqb_true in Ev|unfold seqb in Ev; bool_props; naive_solver].
  destruct (lb_session b) as [s|]; cbn [ok_or result_bind]; [|naive_solver].
  destruct (ttl_seconds (ss_ttl s) <=? _)%N eqn:E1; cbn [orb]; [split; [done|naive_solver lia]|].
  destruct (ttl_expires_at (ss_ttl s) <=? now)%N eqn:E2; cbn [orb]; [split; [done|naive_solver lia]|].
  destruct (constant_time_equal (ss_cookie_hash s) _) eqn:Ec; cbn [negb].
  - apply constant_time_equal_true in Ec.
    destruct (is_state_changing_method (br_method req)); cbn [andb].
    + destruct (constant_time_equal (ss_csrf_hash s) _) eqn:Et; cbn [negb].
      * apply constant_time_equal_true in Et. split; [|done]. intros _. split_and!; try done.
        exists s. split_and!; try done; lia.
      * split; [done|]. intros (_ & _ & _ & s' & [= <-] & _ & _ & _ & Ht).
        specialize (Ht eq_refl). apply constant_time_equal_true in Ht. congruence.
    + split; [|done]. intros _. split_and!; try done. exists s. split_and!; try done; lia.
  - split; [done|]. intros (_ & _ & _ & s' & [= <-] & _ & _ & Hc & _).
    apply constant_time_equal_true in Hc. congruence.
Qed.

(** The credentials an exchange hands out authorise every request that presents them to
    the configured origin and host, until either clock reaches the session's TTL; and the
    session's bootstrap token is gone. *)
Theorem bridge_exchanged_credentials_authorize o h t v now mono d1 d2 b b' c req now' mono' :
  exchange o h t v now mono d1 d2 b = (b', Ok c) →
  br_origin req = o → br_host req = h → br_ui_version req = sc_ui_version c →
  br_cookie req = sc_cookie c → br_csrf_token req = Some (sc_csrf_token c) →
  (now' < sc_expires_at c)%N →
  (elapsed_secs mono mono' < bc_session_ttl_seconds (lb_config b))%N →
  authorize b' req now' mono' = Ok tt ∧ lb_bootstrap_hash b' = None ∧
  lb_bootstrap_token b' = None.
Proof using Type.
  intros [[_ ?]|(-> & -> & _ & _ & Hi)]%exchange_cases; [done|].
  apply issue_session_cases in Hi as (cookie & csrf & _ & _ & -> & <- & <- & Hv & He).
  intros Ho Hh Hu Hc Ht Hn Hm. split; [|done]. cbn in Hv, He.
  unfold authorize, check_origin_host, set_session, consume_bootstrap. cbn [lb_config lb_session].
  rewrite Ho, Hh, Hu, Hv, !seqb_refl. cbn [negb result_bind ok_or ss_ttl ss_started ss_cookie_hash ss_csrf_hash].
  unfold ttl_is_expired, ttl_expires_at. cbn [ttl_seconds issued_at].
  rewrite (proj2 (N.leb_gt _ _) Hm), <-He, (proj2 (N.leb_gt _ _) Hn), Hc, Ht. cbn [default orb].
  rewrite !constant_time_equal_refl. by rewrite andb_false_r.
Qed.
End runs.

(** The constant-time comparison decides equality. *)
Theorem bridge_constant_time_equal_decides (a b : bytes) :
  constant_time_equal a b = bool_decide (a = b).
Proof.
  apply eq_true_iff_eq. by rewrite constant_time_equal_true, bool_decide_eq_true.
Qed.

(** ** Witnesses *)

Module BridgeSample.
Import Reference.
Definition config : BridgeConfig :=
  match config_new (V4 127 0 0 1) 4173 "http://127.0.0.1:4173" "1.0.0" with
  | Ok c => c
  | Err _ => {| bc_bind_host := V4 0 0 0 0; bc_port := 0; bc_ui_origin := EmptyString; bc_ui_version := EmptyString;
                bc_session_ttl_seconds := 0 |}
  end.
Definition draw (c : ascii) : option bytes := Some (replicate 32 c).
Definition bridge : LocalBridge :=
  match bridge_new config (draw "b") with
  | Ok b => b
  | Err _ => {| lb_config := config; lb_bootstrap_hash := None; lb_bootstrap_token := None;
                lb_session := None |}
  end.
Definition op : BridgeOp :=
  OpExchange "http://127.0.0.1:4173" "127.0.0.1:4173" (default EmptyString (lb_bootstrap_token bridge))
    "1.0.0" 100 7 (draw "c") (draw "d").
Definition exchanged : LocalBridge * result SessionCredentials BridgeError :=
  exchange "http://127.0.0.1:4173" "127.0.0.1:4173" (default EmptyString (lb_bootstrap_token bridge))
    "1.0.0" 100 7 (draw "c") (draw "d") bridge.
Definition credentials : SessionCredentials :=
  match exchanged.2 with
  | Ok c => c
  | Err _ => {| sc_cookie := EmptyString; sc_set_cookie := EmptyString; sc_csrf_token := EmptyString; sc_expires_at := 0;
                sc_ui_version := EmptyString |}
  end.
Definition request : BridgeRequest :=
  {| br_origin := "http://127.0.0.1:4173"; br_host := "127.0.0.1:4173"; br_method := "POST";
     br_cookie := sc_cookie credentials; br_csrf_token := Some (sc_csrf_token credentials);
     br_ui_version := "1.0.0" |}.

Lemma bridge_bootstrap_is_one_time_witness :
  (bridge_run [op; op; OpInvalidate; op] bridge).2 = 1%nat ∧
  lb_bootstrap_hash (bridge_run [op; op; OpInvalidate; op] bridge).1 = None.
Proof.
  destruct (bridge_run [op; op; OpInvalidate; op] bridge) as [b' n] eqn:E.
  assert (Hn : n = 1%nat) by (apply (f_equal snd) in E; vm_compute in E; by symmetry).
  split; [exact Hn|]. assert (Hnew : bridge_new config (draw "b") = Ok bridge) by (vm_compute; reflexivity).
  exact (proj2 (proj2 (bridge_bootstrap_is_one_time config (draw "b") bridge _ b' n Hnew E)) Hn).
Defined.

Lemma bridge_exchanged_credentials_authorize_witness :
  authorize exchanged.1 request 500 1000000007 = Ok tt.
Proof.
  apply (bridge_exchanged_credentials_authorize "http://127.0.0.1:4173" "127.0.0.1:4173"
           (default EmptyString (lb_bootstrap_token bridge)) "1.0.0" 100 7 (draw "c") (draw "d") bridge
           exchanged.1 credentials request 500 1000000007); vm_compute; reflexivity.
Defined.
End BridgeSample.
