(* ===== verification/Identity.v ===== *)
(** * Account and device identity ([apps/daemon/src/identity.rs])

    The account root key, the certificates it signs for devices, their revocations and the
    binding of an MLS credential to a certificate. A signing key is its 32-byte seed;
    Ed25519 is the parameter [Crypto]. *)
From Stdlib Require Import Ascii NArith Lia ZifyBool ZifyN.
From stdpp Require Import base gmap strings list.
From S2P Require Import Prelude Text Interfaces.

Definition IDENTITY_KEY_BYTES : nat := 32.
Definition MAX_DEVICE_ID_BYTES : N := 64.
Definition MAX_DISPLAY_NAME_BYTES : N := 96.
Definition DOMAIN_CERTIFICATE : bytes :=
  as_bytes "another-dimension/daemon/device-certificate/v1".
Definition DOMAIN_REVOCATION : bytes :=
  as_bytes "another-dimension/daemon/device-revocation/v1".
Definition DOMAIN_MLS_CREDENTIAL : bytes :=
  as_bytes "another-dimension/daemon/mls-credential/v1".

Inductive IdentityError :=
| RandomnessUnavailable | InvalidSeed | InvalidDeviceId | InvalidDisplayName
| InvalidRelayOrigin | InvalidCertificate | ExpiredCertificate | CertificateNotYetValid
| DeviceAlreadyRevoked.
#[export] Instance IdentityError_eq_dec : EqDecision IdentityError.
Proof. solve_decision. Defined.

Record AccountRootKey := { root_seed : bytes }.

Record DeviceCertificate := {
  dc_account_public_key : bytes;
  dc_device_id : string;
  dc_device_public_key : bytes;
  dc_protocol_package_hash : bytes;
  dc_issued_at : N;
  dc_expires_at : N;
  dc_signature : bytes;
  dc_revoked : bool;
}.
#[export] Instance DeviceCertificate_eq_dec : EqDecision DeviceCertificate.
Proof. solve_decision. Defined.

Record DeviceIdentity := { di_seed : bytes; di_certificate : DeviceCertificate }.

Record MlsCredentialBinding := {
  mb_account_public_key : bytes;
  mb_device_id : string;
  mb_device_public_key : bytes;
  mb_protocol_package_hash : bytes;
  mb_issued_at : N;
  mb_expires_at : N;
  mb_certificate_signature : bytes;
  mb_device_proof : bytes;
}.

Record DeviceRevocation := {
  rv_account_public_key : bytes;
  rv_device_id : string;
  rv_device_public_key : bytes;
  rv_revoked_at : N;
  rv_signature : bytes;
}.

Record ProfileIdentity := {
  pi_account_id : string;
  pi_display_name : string;
  pi_relay_origin : option string;
}.

Definition encode_hex (b : bytes) : string := of_bytes (hex_b b).
Definition account_id_from_public (public_key : bytes) : string := "ad1pk" +:+ encode_hex public_key.

Definition validate_device_id (value : string) : result string IdentityError :=
  if is_empty_str value
     || (MAX_DEVICE_ID_BYTES <? slen value)%N
     || negb (forallb is_url_safe (as_bytes value))
  then Err InvalidDeviceId
  else Ok value.

(** A length-prefixed field. *)
Definition append_bytes (value : bytes) : bytes := be_bytes 4 (blen value) ++ value.

Definition certificate_message (account : bytes) (device_id : string) (device package : bytes)
    (issued expires : N) : bytes :=
  DOMAIN_CERTIFICATE ++ append_bytes account ++ append_bytes (as_bytes device_id)
    ++ append_bytes device ++ append_bytes package ++ be_bytes 8 issued ++ be_bytes 8 expires.

Definition revocation_message (account : bytes) (device_id : string) (device : bytes)
    (revoked_at : N) : bytes :=
  DOMAIN_REVOCATION ++ append_bytes account ++ append_bytes (as_bytes device_id)
    ++ append_bytes device ++ be_bytes 8 revoked_at.

Definition credential_message (c : DeviceCertificate) : bytes :=
  DOMAIN_MLS_CREDENTIAL ++ append_bytes (dc_account_public_key c)
    ++ append_bytes (as_bytes (dc_device_id c)) ++ append_bytes (dc_device_public_key c)
    ++ append_bytes (dc_protocol_package_hash c) ++ be_bytes 8 (dc_issued_at c)
    ++ be_bytes 8 (dc_expires_at c) ++ append_bytes (dc_signature c).

Definition identity_valid_relay_origin (value : string) : bool :=
  match split_once "://" value with
  | None => false
  | Some (scheme, rest) =>
    negb ((negb (seqb scheme "http") && negb (seqb scheme "https"))
          || is_empty_str rest || contains_byte 47 rest || contains_byte 64 rest
          || contains_byte 63 rest || contains_byte 35 rest
          || existsb char_is_whitespace (chars rest))
  end.

Section identity.
Context `{Crypto}.

(** ** The root key *)

Definition from_seed (seed : bytes) : AccountRootKey := {| root_seed := seed |}.
Definition draw_key (drawn : option bytes) : result bytes IdentityError :=
  match drawn with
  | Some seed => if (length seed =? IDENTITY_KEY_BYTES)%nat then Ok seed else Err RandomnessUnavailable
  | None => Err RandomnessUnavailable
  end.
Definition generate (drawn : option bytes) : result AccountRootKey IdentityError :=
  let? seed := draw_key drawn in Ok (from_seed seed).
Definition root_public_key (root : AccountRootKey) : bytes := ed_public (root_seed root).
Definition root_account_id (root : AccountRootKey) : string :=
  account_id_from_public (root_public_key root).
Definition root_sign (root : AccountRootKey) (message : bytes) : bytes :=
  ed_sign (root_seed root) message.

(** ** Certificates *)

Definition certificate_signed (root : AccountRootKey) (device_id : string)
    (device_public_key protocol_package_hash : bytes) (issued_at expires_at : N)
  : DeviceCertificate :=
  let account_public_key := root_public_key root in
  {| dc_account_public_key := account_public_key;
     dc_device_id := device_id;
     dc_device_public_key := device_public_key;
     dc_protocol_package_hash := protocol_package_hash;
     dc_issued_at := issued_at;
     dc_expires_at := expires_at;
     dc_signature :=
       ed_sign (root_seed root)
         (certificate_message account_public_key device_id device_public_key
            protocol_package_hash issued_at expires_at);
     dc_revoked := false |}.

Definition issue_device (root : AccountRootKey) (device_id : string) (package_hash : bytes)
    (issued_at expires_at : N) (drawn : option bytes) : result DeviceIdentity IdentityError :=
  let? device_id := validate_device_id device_id in
  if (expires_at <=? issued_at)%N then Err InvalidCertificate
  else
    let? device_seed := draw_key drawn in
    Ok {| di_seed := device_seed;
          di_certificate :=
            certificate_signed root device_id (ed_public device_seed) package_hash
              issued_at expires_at |}.

Definition issue_device_for_public_key (root : AccountRootKey) (device_id : string)
    (device_public_key package_hash : bytes) (issued_at expires_at : N)
  : result DeviceCertificate IdentityError :=
  let? device_id := validate_device_id device_id in
  if (expires_at <=? issued_at)%N then Err InvalidCertificate
  else Ok (certificate_signed root device_id device_public_key package_hash issued_at expires_at).

Definition verify_signature (c : DeviceCertificate) : result unit IdentityError :=
  if (dc_expires_at c <=? dc_issued_at c)%N || is_err (validate_device_id (dc_device_id c))
  then Err InvalidCertificate
  else if negb (ed_valid_public (dc_account_public_key c)) then Err InvalidCertificate
  else if ed_verify_strict (dc_account_public_key c)
            (certificate_message (dc_account_public_key c) (dc_device_id c)
               (dc_device_public_key c) (dc_protocol_package_hash c) (dc_issued_at c)
               (dc_expires_at c)) (dc_signature c)
  then Ok tt else Err InvalidCertificate.

Definition verify_integrity (c : DeviceCertificate) : result unit IdentityError :=
  verify_signature c.

Definition certificate_verify (c : DeviceCertificate) (now : N) : result unit IdentityError :=
  if dc_revoked c then Err InvalidCertificate
  else if (now <? dc_issued_at c)%N then Err CertificateNotYetValid
  else if (dc_expires_at c <=? now)%N then Err ExpiredCertificate
  else if (dc_expires_at c <=? dc_issued_at c)%N || is_err (validate_device_id (dc_device_id c))
  then Err InvalidCertificate
  else verify_signature c.

(** [DeviceCertificateParts] has the certificate's fields. *)
Definition from_parts (parts : DeviceCertificate) : result DeviceCertificate IdentityError :=
  let? _ := verify_signature parts in Ok parts.

(** ** Revocation *)

Definition revoke_device (root : AccountRootKey) (c : DeviceCertificate) (revoked_at : N)
  : result DeviceRevocation IdentityError :=
  if dc_revoked c || negb (beqb (dc_account_public_key c) (root_public_key root))
  then Err DeviceAlreadyRevoked
  else
    Ok {| rv_account_public_key := root_public_key root;
          rv_device_id := dc_device_id c;
          rv_device_public_key := dc_device_public_key c;
          rv_revoked_at := revoked_at;
          rv_signature :=
            ed_sign (root_seed root)
              (revocation_message (root_public_key root) (dc_device_id c)
                 (dc_device_public_key c) revoked_at) |}.

Definition matches_revocation (c : DeviceCertificate) (r : DeviceRevocation) : bool :=
  beqb (dc_account_public_key c) (rv_account_public_key r)
  && seqb (dc_device_id c) (rv_device_id r)
  && beqb (dc_device_public_key c) (rv_device_public_key r).

Definition revocation_verify (r : DeviceRevocation) (c : DeviceCertificate)
  : result unit IdentityError :=
  if negb (matches_revocation c r) || is_err (validate_device_id (rv_device_id r))
  then Err InvalidCertificate
  else if negb (ed_valid_public (rv_account_public_key r)) then Err InvalidCertificate
  else if ed_verify_strict (rv_account_public_key r)
            (revocation_message (rv_account_public_key r) (rv_device_id r)
               (rv_device_public_key r) (rv_revoked_at r)) (rv_signature r)
  then Ok tt else Err InvalidCertificate.

Definition set_revoked (c : DeviceCertificate) : DeviceCertificate :=
  {| dc_account_public_key := dc_account_public_key c; dc_device_id := dc_device_id c;
     dc_device_public_key := dc_device_public_key c;
     dc_protocol_package_hash := dc_protocol_package_hash c; dc_issued_at := dc_issued_at c;
     dc_expires_at := dc_expires_at c; dc_signature := dc_signature c; dc_revoked := true |}.

Definition apply_revocation (r : DeviceRevocation) : Mut DeviceCertificate unit IdentityError :=
  λ c,
    match verify_signature c with
    | Err e => (c, Err e)
    | Ok _ =>
      match revocation_verify r c with
      | Err e => (c, Err e)
      | Ok _ => (set_revoked c, Ok tt)
      end
    end.

(** ** MLS credential bindings *)

Definition mls_credential_binding (d : DeviceIdentity) : MlsCredentialBinding :=
  let c := di_certificate d in
  {| mb_account_public_key := dc_account_public_key c;
     mb_device_id := dc_device_id c;
     mb_device_public_key := dc_device_public_key c;
     mb_protocol_package_hash := dc_protocol_package_hash c;
     mb_issued_at := dc_issued_at c;
     mb_expires_at := dc_expires_at c;
     mb_certificate_signature := dc_signature c;
     mb_device_proof := ed_sign (di_seed d) (credential_message c) |}.

Definition binding_certificate (b : MlsCredentialBinding) : DeviceCertificate :=
  {| dc_account_public_key := mb_account_public_key b;
     dc_device_id := mb_device_id b;
     dc_device_public_key := mb_device_public_key b;
     dc_protocol_package_hash := mb_protocol_package_hash b;
     dc_issued_at := mb_issued_at b;
     dc_expires_at := mb_expires_at b;
     dc_signature := mb_certificate_signature b;
     dc_revoked := false |}.

Definition binding_verify (b : MlsCredentialBinding) (now : N) : result unit IdentityError :=
  let certificate := binding_certificate b in
  let? _ := certificate_verify certificate now in
  if negb (ed_valid_public (mb_device_public_key b)) then Err InvalidCertificate
  else if ed_verify_strict (mb_device_public_key b) (credential_message certificate)
            (mb_device_proof b)
  then Ok tt else Err InvalidCertificate.

(** ** Profile *)

Definition profile_from_account (root : AccountRootKey) (display_name : string)
    (relay_origin : option string) : result ProfileIdentity IdentityError :=
  if is_empty_str display_name
     || (MAX_DISPLAY_NAME_BYTES <? slen display_name)%N
     || existsb char_is_control (chars display_name)
  then Err InvalidDisplayName
  else if match relay_origin with
          | Some origin => negb (identity_valid_relay_origin origin)
          | None => false
          end
  then Err InvalidRelayOrigin
  else Ok {| pi_account_id := root_account_id root; pi_display_name := display_name;
             pi_relay_origin := relay_origin |}.
End identity.

(** ** Lemmas *)

Lemma validate_device_id_cases v :
  validate_device_id v = Ok v ∨ validate_device_id v = Err InvalidDeviceId.
Proof. unfold validate_device_id. case_match; auto. Qed.

Lemma validate_device_id_ok v id : validate_device_id v = Ok id → id = v ∧ (slen v ≤ MAX_DEVICE_ID_BYTES)%N.
Proof. unfold validate_device_id. case_match eqn:E; [done|]. intros [= <-]. bool_props. split; [done|lia]. Qed.

(** A length-prefixed field followed by anything is read back unambiguously. *)
Lemma append_bytes_inj a b x y :
  (blen a ≤ u32_max)%N → (blen b ≤ u32_max)%N →
  append_bytes a ++ x = append_bytes b ++ y → a = b ∧ x = y.
Proof.
  intros Ha Hb. unfold append_bytes. rewrite <-!app_assoc. intros E.
  apply app_inj_1 in E as [El E]; [|by rewrite !length_be_bytes].
  apply (f_equal be_value) in El. rewrite !be_value_u32 in El by done.
  apply app_inj_1 in E; [done|]. unfold blen in El. lia.
Qed.

Lemma be_bytes8_inj m n x y :
  (m ≤ u64_max)%N → (n ≤ u64_max)%N → be_bytes 8 m ++ x = be_bytes 8 n ++ y → m = n ∧ x = y.
Proof.
  intros Hm Hn E. apply app_inj_1 in E as [El E]; [|by rewrite !length_be_bytes].
  apply (f_equal be_value) in El. by rewrite !be_value_u64 in El.
Qed.

Lemma domain_differs (d e x y : bytes) i :
  (d !! i : option ascii) ≠ e !! i → (i < length d)%nat → (i < length e)%nat → d ++ x ≠ e ++ y.
Proof.
  intros Hne Hd He E. apply Hne. by rewrite <-(lookup_app_l d x), <-(lookup_app_l e y), E.
Qed.

Section identity_lemmas.
Context `{CryptoLaws}.

Lemma certificate_signed_signature root id pk ph i e :
  validate_device_id id = Ok id → (i < e)%N →
  verify_signature (certificate_signed root id pk ph i e) = Ok tt.
Proof using Type*.
  intros Hid He. unfold verify_signature. cbn [certificate_signed dc_expires_at dc_issued_at dc_device_id
    dc_account_public_key dc_device_public_key dc_protocol_package_hash dc_signature].
  rewrite Hid, (proj2 (N.leb_gt _ _) He). unfold root_public_key.
  by rewrite ed_public_valid, ed_verify_strict_sign.
Qed.

Lemma certificate_verify_window c now :
  verify_signature c = Ok tt → dc_revoked c = false →
  certificate_verify c now =
  if (now <? dc_issued_at c)%N then Err CertificateNotYetValid
  else if (dc_expires_at c <=? now)%N then Err ExpiredCertificate else Ok tt.
Proof using Type.
  intros Hv Hr. unfold certificate_verify. rewrite Hr, Hv.
  assert (E : (dc_expires_at c <=? dc_issued_at c)%N || is_err (validate_device_id (dc_device_id c)) = false).
  { unfold verify_signature in Hv. by destruct (_ || _). }
  by rewrite E.
Qed.
End identity_lemmas.

(** ** Properties *)

(** What is signed determines what is meant: two certificate messages agree only when all
    their fields do, likewise two revocation messages, and a certificate, a revocation and
    a credential message never agree, so that no signature made for one can be presented
    for another. *)
Theorem identity_messages_unambiguous
    acc id dev pkg i e acc' id' dev' pkg' i' e' rid rdev rat cert :
  length acc = 32%nat → length acc' = 32%nat → length dev = 32%nat → length dev' = 32%nat →
  length pkg = 32%nat → length pkg' = 32%nat →
  (slen id ≤ MAX_DEVICE_ID_BYTES)%N → (slen id' ≤ MAX_DEVICE_ID_BYTES)%N →
  (i ≤ u64_max)%N → (e ≤ u64_max)%N → (i' ≤ u64_max)%N → (e' ≤ u64_max)%N →
  (certificate_message acc id dev pkg i e = certificate_message acc' id' dev' pkg' i' e' →
   acc = acc' ∧ id = id' ∧ dev = dev' ∧ pkg = pkg' ∧ i = i' ∧ e = e') ∧
  (revocation_message acc id dev i = revocation_message acc' id' dev' i' →
   acc = acc' ∧ id = id' ∧ dev = dev' ∧ i = i') ∧
  certificate_message acc id dev pkg i e ≠ revocation_message acc' rid rdev rat ∧
  certificate_message acc id dev pkg i e ≠ credential_message cert ∧
  revocation_message acc' rid rdev rat ≠ credential_message cert.
Proof.
  intros Ha Ha' Hd Hd' Hp Hp' Hi Hi' ????.
  assert (L32 : ∀ b : bytes, length b = 32%nat → (blen b ≤ u32_max)%N)
    by (intros b Hb; unfold blen; rewrite Hb; done).
  assert (Lid : ∀ s, (slen s ≤ MAX_DEVICE_ID_BYTES)%N → (blen (as_bytes s) ≤ u32_max)%N).
  { intros s Hs. unfold blen. rewrite length_as_bytes. unfold slen, MAX_DEVICE_ID_BYTES, u32_max in *. lia. }
  split_and!.
  - unfold certificate_message. intros E%(inj (app DOMAIN_CERTIFICATE)).
    apply append_bytes_inj in E as [-> E]; auto. apply append_bytes_inj in E as [Eid E]; auto.
    apply append_bytes_inj in E as [-> E]; auto. apply append_bytes_inj in E as [-> E]; auto.
    apply be_bytes8_inj in E as [-> E]; auto.
    rewrite <-(app_nil_r (be_bytes 8 e)), <-(app_nil_r (be_bytes 8 e')) in E.
    apply be_bytes8_inj in E as [-> _]; auto. apply (inj as_bytes) in Eid. auto 10.
  - unfold revocation_message. intros E%(inj (app DOMAIN_REVOCATION)).
    apply append_bytes_inj in E as [-> E]; auto. apply append_bytes_inj in E as [Eid E]; auto.
    apply append_bytes_inj in E as [-> E]; auto.
    rewrite <-(app_nil_r (be_bytes 8 i)), <-(app_nil_r (be_bytes 8 i')) in E.
    apply be_bytes8_inj in E as [-> _]; auto. apply (inj as_bytes) in Eid. auto.
  - apply (domain_differs _ _ _ _ 32); vm_compute; [discriminate|lia|lia].
  - apply (domain_differs _ _ _ _ 25); vm_compute; [discriminate|lia|lia].
  - apply (domain_differs _ _ _ _ 25); vm_compute; [discriminate|lia|lia].
Qed.

Section identity_properties.
Context `{CryptoLaws}.

(** A certificate the root issues verifies exactly within its validity window, and the
    revocation the root issues for it is accepted and final: after it, no time makes the
    certificate verify again. *)
Theorem identity_certificate_lifecycle root id pk ph i e c :
  issue_device_for_public_key root id pk ph i e = Ok c →
  (∀ now, certificate_verify c now =
     if (now <? i)%N then Err CertificateNotYetValid
     else if (e <=? now)%N then Err ExpiredCertificate else Ok tt) ∧
  (∀ revoked_at, ∃ r,
     revoke_device root c revoked_at = Ok r ∧
     apply_revocation r c = (set_revoked c, Ok tt) ∧
     (∀ now, certificate_verify (set_revoked c) now = Err InvalidCertificate) ∧
     revoke_device root (set_revoked c) revoked_at = Err DeviceAlreadyRevoked).
Proof using Type*.
  unfold issue_device_for_public_key.
  destruct (validate_device_id_cases id) as [Hid|Hid]; rewrite Hid; cbn [result_bind]; [|done].
  destruct (e <=? i)%N eqn:He; [done|]. apply N.leb_gt in He. intros [= <-].
  pose proof (certificate_signed_signature root id pk ph i e Hid He) as Hsig.
  split; [intros now; by rewrite certificate_verify_window|].
  intros revoked_at. eexists. split_and!.
  - unfold revoke_device. cbn [certificate_signed dc_revoked dc_account_public_key]. by rewrite beqb_refl.
  - unfold apply_revocation. rewrite Hsig. unfold revocation_verify, matches_revocation.
    cbn [certificate_signed dc_account_public_key dc_device_id dc_device_public_key
         rv_account_public_key rv_device_id rv_device_public_key rv_revoked_at rv_signature].
    rewrite !beqb_refl, seqb_refl, Hid. unfold root_public_key.
    by rewrite ed_public_valid, ed_verify_strict_sign.
  - done.
  - done.
Qed.

(** The MLS binding a device derives from its certificate verifies exactly when the
    certificate does. *)
Theorem identity_binding_follows_certificate root id ph i e drawn d now :
  issue_device root id ph i e drawn = Ok d →
  binding_verify (mls_credential_binding d) now = certificate_verify (di_certificate d) now.
Proof using Type*.
  unfold issue_device.
  destruct (validate_device_id_cases id) as [Hid|Hid]; rewrite Hid; cbn [result_bind]; [|done].
  destruct (e <=? i)%N eqn:He; [done|].
  destruct (draw_key drawn) as [seed|]; cbn [result_bind]; [|done]. intros [= <-].
  unfold binding_verify. set (c := certificate_signed root id (ed_public seed) ph i e).
  replace (binding_certificate _) with c by done. cbn [mls_credential_binding di_certificate di_seed
    mb_device_public_key mb_device_proof].
  change (dc_device_public_key c) with (ed_public seed).
  rewrite ed_public_valid, ed_verify_strict_sign. cbn [negb].
  by destruct (certificate_verify c now) as [[]|].
Qed.
End identity_properties.

(** ** Witnesses *)

Import Reference.

Definition sample_root : AccountRootKey := from_seed (replicate 32 "r"%char).
Definition sample_certificate : DeviceCertificate :=
  certificate_signed sample_root "device-1" (replicate 32 "d"%char) (replicate 32 "p"%char) 100 200.

Lemma identity_messages_unambiguous_witness :
  certificate_message (replicate 32 "a"%char) "device-1" (replicate 32 "d"%char)
    (replicate 32 "p"%char) 1 2
  ≠ revocation_message (replicate 32 "a"%char) "device-1" (replicate 32 "d"%char) 1.
Proof.
  refine (proj1 (proj2 (proj2 (identity_messages_unambiguous
    (replicate 32 "a"%char) "device-1" (replicate 32 "d"%char) (replicate 32 "p"%char) 1 2
    (replicate 32 "a"%char) "device-1" (replicate 32 "d"%char) (replicate 32 "p"%char) 1 2
    "device-1" (replicate 32 "d"%char) 1 sample_certificate _ _ _ _ _ _ _ _ _ _ _ _))));
    (reflexivity || (vm_compute; discriminate)).
Defined.

Lemma identity_certificate_lifecycle_witness :
  certificate_verify sample_certificate 150 = Ok tt.
Proof.
  rewrite (proj1 (identity_certificate_lifecycle sample_root "device-1" (replicate 32 "d"%char)
             (replicate 32 "p"%char) 100 200 sample_certificate eq_refl) 150%N).
  reflexivity.
Defined.

Definition sample_device : DeviceIdentity :=
  {| di_seed := replicate 32 "d"%char;
     di_certificate := certificate_signed sample_root "device-1" (ed_public (replicate 32 "d"%char))
                         (replicate 32 "p"%char) 100 200 |}.

Lemma identity_binding_follows_certificate_witness :
  binding_verify (mls_credential_binding sample_device) 250
  = certificate_verify (di_certificate sample_device) 250.
Proof.
  exact (identity_binding_follows_certificate sample_root "device-1" (replicate 32 "p"%char) 100 200
           (Some (replicate 32 "d"%char)) sample_device 250 eq_refl).
Defined.
