(* ===== verification/DeviceRegistry.v ===== *)
(** * The device registry ([apps/daemon/src/device.rs])

    The account's devices by id, each with its certificate, state and revocation time, and
    a bounded log of changes; registration, revocation, authorisation and the JSON form
    with its validation. *)
From Stdlib Require Import Ascii NArith Lia ZifyBool ZifyN.
From stdpp Require Import base gmap strings list relations.
From S2P Require Import Prelude Collections Interfaces Model Identity.

Definition MAX_DEVICE_EVENTS : nat := 64.

Inductive DeviceChangeKind := Registered | Revoked.
Record DeviceChangeEvent := { ev_device_id : string; ev_kind : DeviceChangeKind; ev_at : N }.

Record DeviceRecord := {
  dv_certificate : DeviceCertificate;
  dv_state : DeviceState;
  dv_revoked_at : option N;
}.

Record DeviceRegistry := {
  dg_account_public_key : bytes;
  dg_devices : gmap string DeviceRecord;
  dg_events : list DeviceChangeEvent;
}.

Inductive DeviceRegistryError :=
| IdentityErr (e : IdentityError)
| WrongAccount | DuplicateDevice | UnknownDevice | DeviceNotActive | RegistryCorrupt.
#[export] Instance DeviceRegistryError_eq_dec : EqDecision DeviceRegistryError.
Proof. solve_decision. Defined.

(** The JSON object: [RegistryWire] with its [DeviceRecordWire]s, whose certificate fields
    are those of a certificate. *)
Record DeviceRecordWire := {
  dw_certificate : DeviceCertificate;
  dw_state : DeviceState;
  dw_revoked_at : option N;
}.
Record RegistryWire := {
  rw_account_public_key : bytes;
  rw_devices : list DeviceRecordWire;
  rw_events : list DeviceChangeEvent;
}.

Definition new_for_public_key (account_public_key : bytes) : DeviceRegistry :=
  {| dg_account_public_key := account_public_key; dg_devices := ∅; dg_events := [] |}.

Definition record_event (event : DeviceChangeEvent) (events : list DeviceChangeEvent)
  : list DeviceChangeEvent :=
  let events := events ++ [event] in
  if (MAX_DEVICE_EVENTS <? length events)%nat
  then drop (length events - MAX_DEVICE_EVENTS) events
  else events.

Definition set_devices (d : gmap string DeviceRecord) (event : DeviceChangeEvent)
    (g : DeviceRegistry) : DeviceRegistry :=
  {| dg_account_public_key := dg_account_public_key g; dg_devices := d;
     dg_events := record_event event (dg_events g) |}.

Section registry.
Context `{Crypto}.

Definition registry_new (root : AccountRootKey) : DeviceRegistry :=
  new_for_public_key (root_public_key root).

Definition belongs_to (g : DeviceRegistry) (root : AccountRootKey) : bool :=
  beqb (dg_account_public_key g) (root_public_key root).

Definition register (c : DeviceCertificate) (now : N)
  : Mut DeviceRegistry unit DeviceRegistryError :=
  λ g,
    if negb (beqb (dc_account_public_key c) (dg_account_public_key g)) then (g, Err WrongAccount)
    else
      match certificate_verify c now with
      | Err e => (g, Err (IdentityErr e))
      | Ok _ =>
        match dg_devices g !! dc_device_id c with
        | Some _ => (g, Err DuplicateDevice)
        | None =>
          (set_devices
             (<[dc_device_id c := {| dv_certificate := c; dv_state := DeviceActive;
                                     dv_revoked_at := None |}]> (dg_devices g))
             {| ev_device_id := dc_device_id c; ev_kind := Registered; ev_at := now |} g,
           Ok tt)
        end
      end.

Definition revoke (root : AccountRootKey) (device_id : string) (revoked_at : N)
  : Mut DeviceRegistry DeviceRevocation DeviceRegistryError :=
  λ g,
    if negb (beqb (root_public_key root) (dg_account_public_key g)) then (g, Err WrongAccount)
    else
      match dg_devices g !! device_id with
      | None => (g, Err UnknownDevice)
      | Some record =>
        if negb (bool_decide (dv_state record = DeviceActive)) then (g, Err DeviceNotActive)
        else
          match revoke_device root (dv_certificate record) revoked_at with
          | Err e => (g, Err (IdentityErr e))
          | Ok revocation =>
            match apply_revocation revocation (dv_certificate record) with
            | (_, Err e) => (g, Err (IdentityErr e))
            | (c, Ok _) =>
              (set_devices
                 (<[device_id := {| dv_certificate := c; dv_state := DeviceRevoked;
                                    dv_revoked_at := Some revoked_at |}]> (dg_devices g))
                 {| ev_device_id := device_id; ev_kind := Revoked; ev_at := revoked_at |} g,
               Ok revocation)
            end
          end
      end.

Definition authorize (g : DeviceRegistry) (device_id : string) (now : N)
  : result unit DeviceRegistryError :=
  match dg_devices g !! device_id with
  | None => Err UnknownDevice
  | Some record =>
    if negb (bool_decide (dv_state record = DeviceActive)) then Err DeviceNotActive
    else map_err IdentityErr (certificate_verify (dv_certificate record) now)
  end.

(** ** Encoding *)

Definition record_wire (r : DeviceRecord) : DeviceRecordWire :=
  {| dw_certificate := dv_certificate r; dw_state := dv_state r; dw_revoked_at := dv_revoked_at r |}.
Definition registry_wire (g : DeviceRegistry) : RegistryWire :=
  {| rw_account_public_key := dg_account_public_key g;
     rw_devices := map record_wire (btree_values (dg_devices g));
     rw_events := dg_events g |}.

(** The conversions of the byte vectors to fixed-size arrays. *)
Definition sizes_ok (c : DeviceCertificate) : bool :=
  (length (dc_account_public_key c) =? 32)%nat && (length (dc_device_public_key c) =? 32)%nat
  && (length (dc_protocol_package_hash c) =? 32)%nat && (length (dc_signature c) =? 64)%nat.

Fixpoint decode_devices (account_public_key : bytes) (items : list DeviceRecordWire)
    (devices : gmap string DeviceRecord) : result (gmap string DeviceRecord) DeviceRegistryError :=
  match items with
  | [] => Ok devices
  | item :: t =>
    if negb (sizes_ok (dw_certificate item)) then Err RegistryCorrupt
    else
      let? c := map_err IdentityErr (from_parts (dw_certificate item)) in
      if negb (beqb (dc_account_public_key c) account_public_key)
         || bool_decide (is_Some (devices !! dc_device_id c))
         || is_err (verify_integrity c)
         || bool_decide (dw_state item = DeviceProvisioning)
         || negb (Bool.eqb (dc_revoked c) (bool_decide (dw_state item = DeviceRevoked)))
         || negb (Bool.eqb (dc_revoked c) (bool_decide (is_Some (dw_revoked_at item))))
      then Err RegistryCorrupt
      else
        decode_devices account_public_key t
          (<[dc_device_id c := {| dv_certificate := c; dv_state := dw_state item;
                                  dv_revoked_at := dw_revoked_at item |}]> devices)
  end.

Context `{JsonCodec RegistryWire}.

Definition encode (g : DeviceRegistry) : result bytes DeviceRegistryError :=
  ok_or (json_to_vec (registry_wire g)) RegistryCorrupt.

Definition decode (b : bytes) : result DeviceRegistry DeviceRegistryError :=
  let? wire := ok_or (json_from_slice b) RegistryCorrupt in
  if negb (length (rw_account_public_key wire) =? 32)%nat then Err RegistryCorrupt
  else
    let? devices := decode_devices (rw_account_public_key wire) (rw_devices wire) ∅ in
    if (MAX_DEVICE_EVENTS <? length (rw_events wire))%nat
       || existsb (λ e, is_empty_str (ev_device_id e)) (rw_events wire)
    then Err RegistryCorrupt
    else Ok {| dg_account_public_key := rw_account_public_key wire;
               dg_devices := devices; dg_events := rw_events wire |}.
End registry.

(** ** Invariant *)

(** A record under [id]: the certificate names that device and the registry's account,
    carries the account's signature, and is revoked exactly when the record is. *)
Record device_ok `{Crypto} (account : bytes) (id : string) (r : DeviceRecord) : Prop := {
  do_id : dc_device_id (dv_certificate r) = id;
  do_account : dc_account_public_key (dv_certificate r) = account;
  do_sizes : sizes_ok (dv_certificate r) = true;
  do_signature : verify_signature (dv_certificate r) = Ok tt;
  do_state : dv_state r ≠ DeviceProvisioning;
  do_revoked : dc_revoked (dv_certificate r) = bool_decide (dv_state r = DeviceRevoked);
  do_revoked_at : dc_revoked (dv_certificate r) = bool_decide (is_Some (dv_revoked_at r));
}.

Record registry_inv `{Crypto} (g : DeviceRegistry) : Prop := {
  gi_account : length (dg_account_public_key g) = 32%nat;
  gi_devices : map_Forall (device_ok (dg_account_public_key g)) (dg_devices g);
  gi_events : (length (dg_events g) ≤ MAX_DEVICE_EVENTS)%nat;
  gi_event_ids : Forall (λ e, ev_device_id e ≠ EmptyString) (dg_events g);
}.

(** One registration or revocation, with any arguments; a certificate handed to [register]
    is a [DeviceCertificate], whose fields have their sizes. *)
Inductive registry_step `{Crypto} : relation DeviceRegistry :=
| step_register c now g : sizes_ok c = true → registry_step g (register c now g).1
| step_revoke root id at_ g : registry_step g (revoke root id at_ g).1.

(** ** Lemmas *)

Lemma record_event_length e l :
  (length l ≤ MAX_DEVICE_EVENTS)%nat → (length (record_event e l) ≤ MAX_DEVICE_EVENTS)%nat.
Proof.
  intros Hl. unfold record_event. case_match eqn:E; [rewrite length_drop; lia|].
  apply Nat.ltb_ge in E. lia.
Qed.

Lemma record_event_Forall (P : DeviceChangeEvent → Prop) e l :
  Forall P l → P e → Forall P (record_event e l).
Proof.
  intros Hl He. unfold record_event. assert (Forall P (l ++ [e])) by (apply Forall_app; auto).
  case_match; [|done]. by apply Forall_drop.
Qed.

Section registry_lemmas.
Context `{Crypto}.

Lemma certificate_verify_inv c now :
  certificate_verify c now = Ok tt → verify_signature c = Ok tt ∧ dc_revoked c = false.
Proof using Type. unfold certificate_verify. repeat (case_match; [done|]). done. Qed.

Lemma verify_signature_id c : verify_signature c = Ok tt → dc_device_id c ≠ EmptyString.
Proof using Type.
  unfold verify_signature. intros Hv E. rewrite E in Hv. cbn in Hv. by rewrite orb_true_r in Hv.
Qed.

Lemma registry_register_inv c now g :
  sizes_ok c = true → registry_inv g → registry_inv (register c now g).1.
Proof using Type.
  intros Hs Hg. unfold register. destruct (beqb _ _) eqn:Ea; cbn [negb]; [|done].
  destruct (certificate_verify c now) as [[]|] eqn:Hv; [|done].
  destruct (dg_devices g !! dc_device_id c) eqn:Hd; [done|].
  apply certificate_verify_inv in Hv as [Hsig Hr]. apply beqb_true in Ea.
  destruct Hg as [Ha Hds He Hi]. split; cbn; [done| | |].
  - apply map_Forall_insert_2; [|done]. by split; cbn.
  - by apply record_event_length.
  - apply record_event_Forall; [done|]. by apply verify_signature_id.
Qed.

Lemma set_revoked_signature c : verify_signature (set_revoked c) = verify_signature c.
Proof using Type. done. Qed.

Lemma apply_revocation_ok r c c' : apply_revocation r c = (c', Ok tt) → c' = set_revoked c.
Proof using Type. unfold apply_revocation. repeat case_match; by intros [= <-]. Qed.

Lemma revoke_inv root id at_ g : registry_inv g → registry_inv (revoke root id at_ g).1.
Proof using Type.
  intros Hg. unfold revoke. destruct (beqb _ _) eqn:Ea; cbn [negb]; [|done].
  destruct (dg_devices g !! id) as [r|] eqn:Hd; [|done].
  case_bool_decide as Hs; cbn [negb]; [|done].
  destruct (revoke_device root (dv_certificate r) at_) as [rev|]; [|done].
  destruct (apply_revocation rev (dv_certificate r)) as [c [[]|]] eqn:Hap; [|done].
  apply apply_revocation_ok in Hap as ->. destruct Hg as [Ha Hds He Hi].
  destruct (Hds id r Hd) as [????? Hrv Hrt]. split; cbn; [done| | |].
  - apply map_Forall_insert_2; [|done]. by split; cbn.
  - by apply record_event_length.
  - apply record_event_Forall; [done|]. cbn. subst id. by apply verify_signature_id.
Qed.

Lemma decode_devices_ok account items devices :
  (∀ item, item ∈ items → device_ok account (dc_device_id (dw_certificate item))
     {| dv_certificate := dw_certificate item; dv_state := dw_state item;
        dv_revoked_at := dw_revoked_at item |}) →
  NoDup (map (λ i, dc_device_id (dw_certificate i)) items) →
  (∀ item, item ∈ items → devices !! dc_device_id (dw_certificate item) = None) →
  decode_devices account items devices =
  Ok (foldl (λ m i, <[dc_device_id (dw_certificate i) :=
                        {| dv_certificate := dw_certificate i; dv_state := dw_state i;
                           dv_revoked_at := dw_revoked_at i |}]> m) devices items).
Proof using Type.
  revert devices. induction items as [|item items IH]; intros devices Hok Hnd Hnone; [done|].
  cbn [decode_devices foldl]. apply NoDup_cons in Hnd as [Hnin Hnd].
  destruct (Hok item ltac:(left)) as [_ Hacc Hsz Hsig Hst Hrv Hrt]. cbn in *.
  rewrite Hsz. unfold from_parts, verify_integrity. rewrite Hsig. cbn [negb result_bind map_err].
  rewrite Hacc, beqb_refl, Hnone, !bool_decide_false, Hsig by (done || left || by intros [? ?]).
  cbn [negb orb is_err is_ok]. rewrite <-Hrv, <-Hrt, eqb_reflx. cbn [negb orb].
  apply IH; [intros i Hi; apply Hok; by right|done|].
  intros i Hi. rewrite lookup_insert_ne; [apply Hnone; by right|].
  intros E. apply Hnin. rewrite E. by apply (list_elem_of_fmap_2 (λ i, dc_device_id (dw_certificate i))).
Qed.
End registry_lemmas.

(** ** Properties *)

Section registry_properties.
Context `{CryptoLaws}.

(** Every registry that registrations and revocations reach from a new one is consistent:
    each certificate is filed under its device id, belongs to the account, carries a valid
    signature and is revoked exactly when its record is; the change log stays within 64
    entries. *)
Theorem registry_reachable_inv root g :
  rtc registry_step (registry_new root) g → registry_inv g.
Proof using Type*.
  intros Hr. assert (Hs : ∀ x y, rtc registry_step x y → registry_inv x → registry_inv y).
  { intros x y Hxy. induction Hxy as [|x y z [c now ?|? ? ?] _ IH]; [done|..]; intros Hx; apply IH;
      [by apply registry_register_inv|by apply revoke_inv]. }
  apply (Hs (registry_new root)); [done|]. split; cbn.
  - apply ed_public_length.
  - apply map_Forall_empty.
  - lia.
  - constructor.
Qed.

(** A device is authorised exactly while it is registered, active and inside the validity
    window of its certificate. *)
Theorem registry_authorize_iff g id now :
  registry_inv g →
  authorize g id now = Ok tt ↔
  ∃ r, dg_devices g !! id = Some r ∧ dv_state r = DeviceActive ∧
       (dc_issued_at (dv_certificate r) ≤ now < dc_expires_at (dv_certificate r))%N.
Proof using Type.
  intros Hg. unfold authorize. destruct (dg_devices g !! id) as [r|] eqn:Hd; [|naive_solver].
  destruct (gi_devices g Hg id r Hd) as [_ _ _ Hsig _ Hrv _].
  destruct (decide (dv_state r = DeviceActive)) as [Hs|Hs];
    [rewrite bool_decide_true by done|rewrite bool_decide_false by done]; cbn [negb];
    [|split; [done|]; by intros (? & [= <-] & ? & _)].
  assert (Hr : dc_revoked (dv_certificate r) = false) by (by rewrite Hrv, Hs).
  rewrite (certificate_verify_window _ now Hsig Hr). split.
  - intros Hv. exists r. repeat case_match; simplify_eq/=. split_and!; [done..|lia|lia].
  - intros (? & [= <-] & _ & Hw). replace (now <? _)%N with false by lia.
    by replace (_ <=? now)%N with false by lia.
Qed.

Lemma registry_step_revoked g g' id r :
  registry_step g g' → dg_devices g !! id = Some r → dv_state r = DeviceRevoked →
  dg_devices g' !! id = Some r.
Proof using Type.
  intros [c now g0 _|root id' at_ g0] Hd Hs.
  - unfold register. repeat case_match; try done. cbn. rewrite lookup_insert_ne; [done|]. congruence.
  - unfold revoke. destruct (negb _); [done|].
    destruct (dg_devices g0 !! id') as [r'|] eqn:Hd'; [|done].
    case_bool_decide as Hs'; cbn [negb]; [|done]. repeat case_match; try done. cbn.
    rewrite lookup_insert_ne; [done|]. intros ->. simplify_eq. congruence.
Qed.

(** C13. Revocation is final: once a device is revoked, no sequence of registrations and
    revocations authorises it again, at any time. *)
Theorem registry_revocation_is_final root id at_ g g1 rev g2 now :
  revoke root id at_ g = (g1, Ok rev) → rtc registry_step g1 g2 →
  authorize g2 id now = Err DeviceNotActive.
Proof using Type.
  intros Hr Hsteps.
  assert (∃ r, dg_devices g1 !! id = Some r ∧ dv_state r = DeviceRevoked) as (r & Hd & Hs).
  { unfold revoke in Hr. repeat case_match; simplify_eq. cbn. rewrite lookup_insert_eq. eauto. }
  clear Hr. induction Hsteps as [|x y z Hxy _ IH].
  - unfold authorize. by rewrite Hd, Hs.
  - apply IH. by eapply registry_step_revoked.
Qed.

(** A consistent registry survives its JSON form unchanged. *)
Theorem registry_roundtrip `{JsonRoundTrip RegistryWire} g b :
  registry_inv g → encode g = Ok b → decode b = Ok g.
Proof using Type.
  intros Hg. unfold encode, decode. destruct (json_to_vec _) as [b'|] eqn:Hj;
    cbn [ok_or]; [|done].
  intros [= ->]. rewrite (json_roundtrip _ _ Hj). cbn [ok_or result_bind registry_wire rw_account_public_key
    rw_devices rw_events]. rewrite (gi_account g Hg). cbn [Nat.eqb negb].
  set (entry := λ r : DeviceRecord, (dc_device_id (dv_certificate r), r)).
  assert (Hent : entry <$> btree_values (dg_devices g) = btree_iter (dg_devices g)).
  { unfold btree_values. rewrite <-list_fmap_compose. rewrite <-(list_fmap_id (btree_iter _)) at 2.
    apply list_fmap_ext. intros i [k r] Hi. cbn. apply list_elem_of_lookup_2, elem_of_btree_iter in Hi.
    unfold entry. cbn. by rewrite (do_id _ _ _ (gi_devices g Hg k r Hi)). }
  rewrite decode_devices_ok.
  - cbn [result_bind].
    replace (MAX_DEVICE_EVENTS <? length (dg_events g))%nat with false
      by (symmetry; apply Nat.ltb_ge, Hg).
    replace (existsb _ (dg_events g)) with false; cycle 1.
    { symmetry. apply not_true_iff_false. intros (e & He & Hemp)%existsb_exists.
      pose proof (gi_event_ids g Hg) as Hi. rewrite Forall_forall in Hi.
      apply (Hi e); [by apply list_elem_of_In|by apply is_empty_str_spec]. }
    cbn [orb]. destruct g as [acc dev evs]. cbn in *. f_equal. f_equal.
    rewrite <-(btree_iter_to_map dev) at 2. rewrite <-Hent, <-(right_id_L ∅ (∪) (list_to_map _)).
    rewrite <-foldl_insert_list_to_map by (rewrite Hent; apply NoDup_btree_keys).
    generalize (btree_values dev) (∅ : gmap string DeviceRecord). clear.
    induction l as [|[c s a] l IH]; intros m; cbn; [done|]. apply IH.
  - intros item Hi. apply list_elem_of_fmap in Hi as ([c s a] & -> & Hr).
    apply elem_of_btree_values in Hr as [k Hk]. cbn.
    pose proof (gi_devices g Hg k _ Hk) as Hok. by rewrite <-(do_id _ _ _ Hok) in Hok.
  - pose proof (NoDup_btree_keys (dg_devices g)) as Hnd. unfold btree_keys in Hnd.
    rewrite <-Hent in Hnd. rewrite <-list_fmap_compose in Hnd. by rewrite map_map.
  - intros. apply lookup_empty.
Qed.
End registry_properties.

(** ** Witnesses *)

#[export] Instance DeviceChangeKind_eq_dec : EqDecision DeviceChangeKind.
Proof. solve_decision. Defined.
#[export] Instance DeviceChangeEvent_eq_dec : EqDecision DeviceChangeEvent.
Proof. solve_decision. Defined.
#[export] Instance DeviceRecordWire_eq_dec : EqDecision DeviceRecordWire.
Proof. solve_decision. Defined.
#[export] Instance RegistryWire_eq_dec : EqDecision RegistryWire.
Proof. solve_decision. Defined.
Module RegistrySample.
Import Reference.
Definition root : AccountRootKey := sample_root.
Definition g0 : DeviceRegistry := registry_new root.
Definition g1 : DeviceRegistry := (register sample_certificate 150 g0).1.
Definition g2 : DeviceRegistry := (revoke root "device-1" 160 g1).1.

Lemma step1 : registry_step g0 g1.
Proof. exact (step_register sample_certificate 150 g0 eq_refl). Qed.
Lemma step2 : registry_step g1 g2.
Proof. exact (step_revoke root "device-1" 160 g1). Qed.

Lemma registry_reachable_inv_witness : registry_inv g2.
Proof.
  exact (registry_reachable_inv root g2
           (@rtc_l _ registry_step g0 g1 g2 step1
              (@rtc_l _ registry_step g1 g2 g2 step2 (@rtc_refl _ registry_step g2)))).
Defined.

Lemma g1_inv : registry_inv g1.
Proof.
  apply registry_register_inv; [reflexivity|]. split; [apply (ed_public_length (root_seed root))|..]; cbn.
  - apply map_Forall_empty.
  - lia.
  - constructor.
Qed.

Lemma registry_authorize_iff_witness : authorize g1 "device-1" 150 = Ok tt.
Proof.
  apply (registry_authorize_iff g1 "device-1" 150 g1_inv).
  exists {| dv_certificate := sample_certificate; dv_state := DeviceActive; dv_revoked_at := None |}.
  vm_compute. split_and!; congruence.
Defined.

Lemma g2_revoked : ∃ rev, revoke root "device-1" 160 g1 = (g2, Ok rev).
Proof.
  assert (Hok : is_ok (revoke root "device-1" 160 g1).2 = true) by (vm_compute; reflexivity).
  unfold g2. exact (call_ok (revoke root "device-1" 160 g1) Hok).
Qed.

Lemma registry_revocation_is_final_witness : authorize g2 "device-1" 150 = Err DeviceNotActive.
Proof.
  destruct g2_revoked as [rev E].
  exact (registry_revocation_is_final root "device-1" 160 g1 g2 rev g2 150 E
           (@rtc_refl _ registry_step g2)).
Defined.

#[local] Instance codec : JsonCodec RegistryWire := json_table [registry_wire g1].
#[local] Instance codec_laws : JsonRoundTrip RegistryWire := json_table_laws [registry_wire g1].

Lemma registry_roundtrip_witness :
  ∃ b, encode g1 = Ok b ∧ decode b = Ok g1.
Proof.
  assert (E : encode g1 = Ok []) by (vm_compute; reflexivity).
  exists []. split; [exact E|]. exact (registry_roundtrip g1 [] g1_inv E).
Defined.
End RegistrySample.
