(* ===== verification/Trust.v ===== *)
(** * Relay trust ([apps/daemon/src/trust.rs])

    The pin of a relay's TLS certificate, and the signed manifest of relay keys: a
    line-oriented file, parsed into the key identifiers it allows and revokes. *)
From Stdlib Require Import Ascii NArith Lia ZifyBool ZifyN.
From stdpp Require Import base gmap strings list.
From S2P Require Import Prelude Text Interfaces Fs.

Definition MAX_MANIFEST_BYTES : N := 64 * 1024.
Definition MAX_TRUST_KEYS : N := 256.

Inductive TrustError := TrustIo | Invalid.
#[export] Instance TrustError_eq_dec : EqDecision TrustError.
Proof. solve_decision. Defined.

Definition hex (input : bytes) : string := of_bytes (hex_b input).

Definition decode (value : string) (expected : N) : option bytes :=
  if negb (slen value =? expected * 2)%N || negb (forallb is_ascii_hexdigit (as_bytes value))
  then None
  else decode_pairs (as_bytes value).

(** ** The TLS pin *)

Definition TlsCertificatePin : Type := bytes.

Definition parse (value : string) : result TlsCertificatePin TrustError :=
  let? rest :=
    ok_or match strip_prefix "sha256:" value with
          | Some r => Some r
          | None => strip_prefix "sha256/" value
          end Invalid in
  let? contents := ok_or (decode rest 32) Invalid in
  if (length contents =? 32)%nat then Ok contents else Err Invalid.

Definition as_text (pin : TlsCertificatePin) : string := "sha256:" +:+ of_bytes (hex_b pin).

Definition relay_tls_pin_record_key (origin : string) : string := "relay-tls-pin/" +:+ origin.

(** ** The manifest *)

(** [str::split_inclusive('\n')]. *)
Fixpoint split_inclusive (b : bytes) : list bytes :=
  match b with
  | [] => []
  | x :: t =>
    if (byte_n x =? 10)%N then [x] :: split_inclusive t
    else match split_inclusive t with
         | [] => [[x]]
         | l :: r => (x :: l) :: r
         end
  end.

(** [str::strip_suffix('\n')]. *)
Definition strip_newline (b : bytes) : option bytes :=
  match rev b with
  | x :: r => if (byte_n x =? 10)%N then Some (rev r) else None
  | [] => None
  end.

Record RelayTrust := {
  rt_allowed_key_ids : list string;
  rt_revoked_key_ids : list string;
}.

(** [field]: the value of the next line. *)
Definition field (lines : list bytes) (name : string) : option (string * list bytes) :=
  match lines with
  | [] => None
  | value :: rest =>
    v ← strip_prefix_b (as_bytes name) value;
    w ← strip_newline v;
    Some (of_bytes w, rest)
  end.

(** What the loop over the lines has collected, and whether it saw the end of the payload. *)
Record ManifestLoop := {
  ml_payload : bytes;
  ml_trust : RelayTrust;
  ml_saw_end : bool;
  ml_rest : list bytes;
}.

Section manifest.
Context `{Crypto}.

(** One [key=] line. *)
Definition key_line (value : string) (t : RelayTrust) : result RelayTrust TrustError :=
  let? p := ok_or (split_once "," value) Invalid in
  let '(key_id, public_key) := p in
  if negb (bool_decide (is_Some (decode key_id 32)))
     || negb (bool_decide (is_Some (decode public_key 32)))
  then Err Invalid
  else
    let? public_key_bytes := ok_or (decode public_key 32) Invalid in
    if negb (seqb (hex (sha256 public_key_bytes)) key_id)
       || existsb (λ id, seqb id key_id) (rt_allowed_key_ids t)
    then Err Invalid
    else if (MAX_TRUST_KEYS <=? blen (rt_allowed_key_ids t))%N then Err Invalid
    else Ok {| rt_allowed_key_ids := rt_allowed_key_ids t ++ [key_id];
               rt_revoked_key_ids := rt_revoked_key_ids t |}.

Definition revoked_line (key_id : string) (t : RelayTrust) : result RelayTrust TrustError :=
  if negb (bool_decide (is_Some (decode key_id 32))) then Err Invalid
  else Ok {| rt_allowed_key_ids := rt_allowed_key_ids t;
             rt_revoked_key_ids := rt_revoked_key_ids t ++ [key_id] |}.

(** The body of the loop for a line that does not end the payload. *)
Definition payload_line (trimmed : bytes) (t : RelayTrust) : result RelayTrust TrustError :=
  match strip_prefix_b (as_bytes "key=") trimmed with
  | Some value => key_line (of_bytes value) t
  | None =>
    match strip_prefix_b (as_bytes "revoked=") trimmed with
    | Some key_id => revoked_line (of_bytes key_id) t
    | None => Err Invalid
    end
  end.

Fixpoint payload_lines (lines : list bytes) (payload : bytes) (t : RelayTrust)
  : result ManifestLoop TrustError :=
  match lines with
  | [] => Ok {| ml_payload := payload; ml_trust := t; ml_saw_end := false; ml_rest := [] |}
  | line :: rest =>
    let payload := payload ++ line in
    match strip_newline line with
    | None => Err Invalid
    | Some trimmed =>
      if beqb trimmed (as_bytes "payload-end") then
        Ok {| ml_payload := payload; ml_trust := t; ml_saw_end := true; ml_rest := rest |}
      else
        match payload_line trimmed t with
        | Err e => Err e
        | Ok t => payload_lines rest payload t
        end
    end
  end.

(** From the text of the manifest. *)
Definition parse_manifest (raw : string) (expected_bootstrap_key : bytes)
  : result RelayTrust TrustError :=
  if (MAX_MANIFEST_BYTES <? slen raw)%N then Err Invalid
  else
    match split_inclusive (as_bytes raw) with
    | [] => Err Invalid
    | header :: lines =>
      if negb (beqb header (as_bytes "ADRELAYTRUST1" ++ [n_byte 10])) then Err Invalid
      else
        let? p := ok_or (field lines "bootstrap=") Invalid in
        let '(bootstrap, lines) := p in
        if negb (seqb bootstrap (hex expected_bootstrap_key)) then Err Invalid
        else
          let? l := payload_lines lines
                      (as_bytes ("bootstrap=" +:+ bootstrap) ++ [n_byte 10])
                      {| rt_allowed_key_ids := []; rt_revoked_key_ids := [] |} in
          if negb (ml_saw_end l) || (blen (rt_allowed_key_ids (ml_trust l)) =? 0)%N then Err Invalid
          else
            match ml_rest l with
            | [] => Err Invalid
            | signature_line :: after =>
              let? signature :=
                ok_or (v ← strip_prefix_b (as_bytes "signature=") signature_line; strip_newline v)
                  Invalid in
              if negb (blen after =? 0)%N
                 || negb (bool_decide (is_Some (decode (of_bytes signature) 64)))
              then Err Invalid
              else
                let? signature_bytes := ok_or (decode (of_bytes signature) 64) Invalid in
                if negb (length signature_bytes =? 64)%nat then Err Invalid
                else if negb (ed_valid_public expected_bootstrap_key) then Err Invalid
                else if negb (ed_verify expected_bootstrap_key (ml_payload l) signature_bytes)
                then Err Invalid
                else if existsb (λ id, negb (existsb (λ allowed, seqb allowed id)
                                               (rt_allowed_key_ids (ml_trust l))))
                          (rt_revoked_key_ids (ml_trust l))
                then Err Invalid
                else Ok (ml_trust l)
            end
    end.

(** [fs::read_to_string] fails on a file that is not UTF-8. *)
Definition from_manifest (path : string) (expected_bootstrap_key : bytes) (w : World)
  : World * result RelayTrust TrustError :=
  let '(w, r) := fs_read path w in
  (w, match r with
      | ReadOk b =>
        match from_utf8 b with
        | Some raw => parse_manifest raw expected_bootstrap_key
        | None => Err TrustIo
        end
      | _ => Err TrustIo
      end).

Definition allows (t : RelayTrust) (public_key : bytes) : bool :=
  let key_id := hex (sha256 public_key) in
  existsb (λ id, seqb id key_id) (rt_allowed_key_ids t)
  && negb (existsb (λ id, seqb id key_id) (rt_revoked_key_ids t)).
End manifest.

(** ** Lemmas *)

Definition nl : bytes := [n_byte 10].

Lemma split_inclusive_concat b : concat (split_inclusive b) = b.
Proof.
  induction b as [|x b IH]; [done|]. cbn [split_inclusive]. case_match; cbn [concat app].
  - by rewrite IH.
  - destruct (split_inclusive b) as [|l r]; cbn [concat app] in *; by rewrite <-IH.
Qed.

Lemma split_inclusive_line l r :
  n_byte 10 ∉ l → split_inclusive (l ++ nl ++ r) = (l ++ nl) :: split_inclusive r.
Proof.
  induction l as [|x l IH]; intros Hn; [done|]. cbn [app split_inclusive].
  rewrite not_elem_of_cons in Hn. destruct Hn as [Hx Hn].
  destruct (byte_n x =? 10)%N eqn:E.
  - apply N.eqb_eq in E. exfalso. apply Hx. rewrite <-(n_byte_byte_n x). by rewrite E.
  - by rewrite IH.
Qed.

Lemma strip_newline_Some l r : strip_newline l = Some r ↔ l = r ++ nl.
Proof.
  unfold strip_newline, nl. split.
  - destruct (rev l) as [|x t] eqn:E; [done|]. case_match eqn:En; [|done]. intros [= <-].
    apply N.eqb_eq in En. rewrite <-(rev_involutive l), E. cbn [rev]. f_equal.
    by rewrite <-(n_byte_byte_n x), En.
  - intros ->. rewrite rev_app_distr. cbn. by rewrite rev_involutive.
Qed.

Lemma decode_hex_ids b : length b = 32 → decode (hex b) 32 = Some b.
Proof.
  intros Hl. unfold decode, hex. rewrite as_of_bytes, hex_b_hexdigit.
  unfold slen. rewrite <-length_as_bytes, as_of_bytes, length_hex_b, Hl. cbn. apply decode_pairs_hex.
Qed.

Lemma decode_length v n b : decode v n = Some b → N.of_nat (length b) = n.
Proof.
  unfold decode, slen. destruct (_ || _) eqn:E; [done|]. intros Hd.
  apply decode_pairs_length in Hd. rewrite length_as_bytes in Hd. lia.
Qed.

Section manifests.
Context `{CryptoLaws}.

Lemma existsb_seqb id l : existsb (λ x, seqb x id) l = true ↔ id ∈ l.
Proof using Type.
  rewrite existsb_exists. split.
  - intros (x & Hx%list_elem_of_In & E). by apply seqb_true in E as <-.
  - intros Hx%list_elem_of_In. exists id. split; [done|apply seqb_refl].
Qed.

(** The keys a manifest can allow: the digests of 32-byte keys, without repetition. *)
Record trust_wf (t : RelayTrust) : Prop := {
  tw_nodup : NoDup (rt_allowed_key_ids t);
  tw_bound : (blen (rt_allowed_key_ids t) ≤ MAX_TRUST_KEYS)%N;
  tw_digest : ∀ id, id ∈ rt_allowed_key_ids t → ∃ pk, length pk = 32 ∧ id = hex (sha256 pk);
}.

Lemma key_line_wf v t t' : key_line v t = Ok t' → trust_wf t → trust_wf t'.
Proof using Type.
  unfold key_line. destruct (split_once "," v) as [[key_id pk]|]; cbn [ok_or result_bind]; [|done].
  destruct (_ || _); [done|]. destruct (decode pk 32) as [b|] eqn:Hd; cbn [ok_or result_bind]; [|done].
  destruct (_ || _) eqn:E; [done|]. destruct (_ <=? _)%N eqn:Hb; [done|]. intros [= <-] [Hn Hl Hg].
  apply orb_false_iff in E as [E1 E2]. apply negb_false_iff, seqb_true in E1 as <-.
  split; cbn.
  - apply NoDup_app. split_and!; [done| |apply NoDup_singleton].
    intros x Hx Hx'%list_elem_of_singleton. subst x. apply existsb_seqb in Hx. congruence.
  - unfold blen in *. rewrite length_app. cbn. lia.
  - intros id [Hid|Hid%list_elem_of_singleton]%elem_of_app; [by apply Hg|].
    exists b. split; [|done]. apply decode_length in Hd. lia.
Qed.

Lemma payload_line_wf l t t' : payload_line l t = Ok t' → trust_wf t → trust_wf t'.
Proof using Type.
  unfold payload_line. destruct (strip_prefix_b (as_bytes "key=") l); [apply key_line_wf|].
  destruct (strip_prefix_b _ l); [|done]. unfold revoked_line. case_match; [done|].
  intros [= <-] [? ? ?]. by split.
Qed.

(** The loop consumes whole lines, and every byte of them goes into the payload. *)
Lemma payload_lines_spec lines p t l :
  payload_lines lines p t = Ok l → ml_saw_end l = true → trust_wf t →
  trust_wf (ml_trust l) ∧
  ∃ mid, lines = mid ++ (as_bytes "payload-end" ++ nl) :: ml_rest l ∧
    ml_payload l = p ++ concat mid ++ as_bytes "payload-end" ++ nl.
Proof using Type.
  revert p t. induction lines as [|line rest IH]; intros p t; cbn [payload_lines].
  { by intros [= <-]. }
  destruct (strip_newline line) as [trimmed|] eqn:Hs; [|done].
  apply strip_newline_Some in Hs as ->. destruct (beqb _ _) eqn:Ee.
  - intros [= <-] _ Hw. apply beqb_true in Ee as ->. split; [done|]. exists []. done.
  - destruct (payload_line trimmed t) as [t'|] eqn:Hp; [|done]. intros Hl Hend Hw.
    destruct (IH _ _ Hl Hend (payload_line_wf _ _ _ Hp Hw)) as (Hw' & mid & -> & ->).
    split; [done|]. exists ((trimmed ++ nl) :: mid). split; [done|].
    cbn [concat]. by rewrite <-!app_assoc.
Qed.

(** C24. A manifest is accepted only if its signature line verifies, under the expected
    bootstrap key, over every other byte of the file after the header. The keys it allows
    are distinct digests of 32-byte keys, at least one and at most 256, and it revokes only
    keys it lists. *)
Theorem trust_manifest_authentic raw key t :
  parse_manifest raw key = Ok t →
  (∃ body signature, as_bytes raw
     = as_bytes "ADRELAYTRUST1" ++ nl
       ++ (as_bytes ("bootstrap=" +:+ hex key) ++ nl ++ body ++ as_bytes "payload-end" ++ nl)
       ++ as_bytes "signature=" ++ as_bytes signature ++ nl ∧
     ∃ sig, decode signature 64 = Some sig ∧
       ed_verify key (as_bytes ("bootstrap=" +:+ hex key) ++ nl ++ body
                      ++ as_bytes "payload-end" ++ nl) sig = true) ∧
  trust_wf t ∧ rt_allowed_key_ids t ≠ [] ∧
  ∀ id, id ∈ rt_revoked_key_ids t → id ∈ rt_allowed_key_ids t.
Proof using Type.
  unfold parse_manifest. destruct (_ <? _)%N; [done|].
  pose proof (split_inclusive_concat (as_bytes raw)) as Hraw.
  destruct (split_inclusive (as_bytes raw)) as [|header lines]; [done|].
  destruct (beqb header _) eqn:Eh; cbn [negb]; [|done]. apply beqb_true in Eh as ->.
  destruct lines as [|l1 lines]; unfold field; cbn [ok_or result_bind]; [done|].
  destruct (strip_prefix_b _ l1) as [v|] eqn:E1; cbn [mbind option_bind ok_or result_bind]; [|done].
  apply strip_prefix_b_Some in E1 as ->.
  destruct (strip_newline v) as [bs|] eqn:E2; cbn [mbind option_bind ok_or result_bind]; [|done]. apply strip_newline_Some in E2 as ->.
  destruct (seqb _ (hex key)) eqn:E3; cbn [negb]; [|done]. apply seqb_true in E3.
  assert (bs = as_bytes (hex key)) as -> by (by rewrite <-E3, as_of_bytes). rewrite of_as_bytes.
  destruct (payload_lines _ _ _) as [l|] eqn:El; cbn [result_bind]; [|done].
  destruct (ml_saw_end l) eqn:Hend; cbn [negb orb]; [|done].
  apply payload_lines_spec in El as (Hw & mid & -> & Hpay);
    [|done|by split; cbn; [constructor|done|intros ? ?%not_elem_of_nil]].
  destruct (_ =? 0)%N eqn:Hne; [done|].
  destruct (ml_rest l) as [|sl after]; [done|].
  destruct (strip_prefix_b _ sl) as [v|] eqn:E4; cbn [mbind option_bind ok_or result_bind]; [|done]. apply strip_prefix_b_Some in E4 as ->.
  destruct (strip_newline v) as [sg|] eqn:E5; cbn [mbind option_bind ok_or result_bind]; [|done]. apply strip_newline_Some in E5 as ->.
  destruct after; cbn [blen length N.of_nat N.eqb negb orb]; [|done].
  destruct (decode (of_bytes sg) 64) as [sig|] eqn:E6; cbn [ok_or result_bind]; [|by case_bool_decide].
  destruct (negb (bool_decide _)); [done|]. destruct (negb (_ =? 64)%nat); [done|].
  destruct (negb (ed_valid_public key)); [done|].
  destruct (ed_verify key (ml_payload l) sig) eqn:Hv; cbn [negb]; [|done].
  destruct (existsb _ _) eqn:Hr; [done|]. intros [= <-].
  split_and!; [|done|by intros E; rewrite E in Hne|].
  - exists (concat mid), (of_bytes sg). rewrite as_of_bytes. split.
    + rewrite <-Hraw. cbn [concat]. rewrite concat_app. cbn [concat].
      by rewrite !as_bytes_app, !app_nil_r, <-!app_assoc.
    + exists sig. split; [done|]. rewrite Hpay in Hv. by rewrite <-app_assoc in Hv.
  - intros id Hid. destruct (decide (id ∈ rt_allowed_key_ids (ml_trust l))) as [|Hn]; [done|].
    enough (existsb (λ id, negb (existsb (λ allowed, seqb allowed id) (rt_allowed_key_ids (ml_trust l))))
              (rt_revoked_key_ids (ml_trust l)) = true) by congruence.
    apply existsb_exists. exists id. split; [by apply list_elem_of_In|]. apply negb_true_iff.
    apply not_true_iff_false. by rewrite existsb_seqb.
Qed.

(** ** Manifests as they are written *)

Definition key_id (pk : bytes) : string := hex (sha256 pk).
Definition key_entry (pk : bytes) : bytes :=
  as_bytes "key=" ++ as_bytes (key_id pk +:+ "," +:+ hex pk) ++ nl.
Definition revoked_entry (pk : bytes) : bytes := as_bytes "revoked=" ++ as_bytes (key_id pk) ++ nl.
Definition manifest_payload (key : bytes) (keys revoked : list bytes) : bytes :=
  as_bytes ("bootstrap=" +:+ hex key) ++ nl ++ concat (map key_entry keys)
  ++ concat (map revoked_entry revoked) ++ as_bytes "payload-end" ++ nl.
Definition manifest_text (seed : bytes) (keys revoked : list bytes) : string :=
  let payload := manifest_payload (ed_public seed) keys revoked in
  of_bytes (as_bytes "ADRELAYTRUST1" ++ nl ++ payload
            ++ as_bytes "signature=" ++ as_bytes (hex (ed_sign seed payload)) ++ nl).

Lemma hex_no_newline b : n_byte 10 ∉ as_bytes (hex b).
Proof using Type.
  unfold hex. rewrite as_of_bytes. eapply forallb_not_elem; [apply hex_b_hexdigit|done].
Qed.
Lemma hex_no_comma b : n_byte 44 ∉ as_bytes (hex b).
Proof using Type.
  unfold hex. rewrite as_of_bytes. eapply forallb_not_elem; [apply hex_b_hexdigit|done].
Qed.

Lemma not_elem_line (l : string) b :
  line_ok l = true → n_byte 10 ∉ b → n_byte 10 ∉ as_bytes l ++ b.
Proof using Type. intros Hl Hb. rewrite elem_of_app. intros [Hx|Hx]; [by apply line_ok_sep in Hx|done]. Qed.

Lemma key_text_no_newline pk : n_byte 10 ∉ as_bytes (key_id pk +:+ "," +:+ hex pk).
Proof using Type.
  rewrite !as_bytes_app, !elem_of_app. intros [Hx|[Hx|Hx]]; [by apply hex_no_newline in Hx| |by apply hex_no_newline in Hx].
  by apply (line_ok_sep ",") in Hx.
Qed.

Lemma split_inclusive_entries (f : bytes → bytes) (l : list bytes) r :
  (∀ x, ∃ y, f x = y ++ nl ∧ n_byte 10 ∉ y) →
  split_inclusive (concat (map f l) ++ r) = map f l ++ split_inclusive r.
Proof using Type.
  intros Hf. induction l as [|x l IH]; [done|]. cbn [map concat app].
  destruct (Hf x) as (y & Hy & Hn). rewrite Hy, <-!app_assoc, split_inclusive_line by done.
  by rewrite IH.
Qed.

Lemma key_entry_line pk : ∃ y, key_entry pk = y ++ nl ∧ n_byte 10 ∉ y.
Proof using Type.
  exists (as_bytes "key=" ++ as_bytes (key_id pk +:+ "," +:+ hex pk)). unfold key_entry.
  split; [by rewrite <-app_assoc|]. by apply not_elem_line, key_text_no_newline.
Qed.
Lemma revoked_entry_line pk : ∃ y, revoked_entry pk = y ++ nl ∧ n_byte 10 ∉ y.
Proof using Type.
  exists (as_bytes "revoked=" ++ as_bytes (key_id pk)). unfold revoked_entry.
  split; [by rewrite <-app_assoc|]. by apply not_elem_line, hex_no_newline.
Qed.

Lemma payload_line_key pk t :
  length pk = 32 → key_id pk ∉ rt_allowed_key_ids t →
  (blen (rt_allowed_key_ids t) < MAX_TRUST_KEYS)%N →
  payload_line (as_bytes "key=" ++ as_bytes (key_id pk +:+ "," +:+ hex pk)) t
  = Ok {| rt_allowed_key_ids := rt_allowed_key_ids t ++ [key_id pk];
          rt_revoked_key_ids := rt_revoked_key_ids t |}.
Proof using All.
  intros Hl Hn Hb. unfold payload_line. rewrite strip_prefix_b_app, of_as_bytes. unfold key_line.
  assert (split_once "," (key_id pk +:+ "," +:+ hex pk) = Some (key_id pk, hex pk)) as ->.
  { unfold split_once. rewrite !as_bytes_app.
    change (as_bytes ",") with [n_byte 44]. cbn [app].
    rewrite split_once_byte by apply hex_no_comma. by rewrite !of_as_bytes. }
  cbn [ok_or result_bind]. pose proof (decode_hex_ids pk Hl) as D2.
  pose proof (decode_hex_ids (sha256 pk) (sha256_length pk)) as D1. fold (key_id pk) in D1.
  rewrite !bool_decide_true by eauto. rewrite D2. cbn [negb orb ok_or result_bind].
  fold (key_id pk). rewrite seqb_refl. cbn [negb orb].
  replace (existsb _ _) with false by (symmetry; apply not_true_iff_false; by rewrite existsb_seqb).
  by rewrite (proj2 (N.leb_gt _ _) Hb).
Qed.

Lemma payload_line_revoked pk t :
  payload_line (as_bytes "revoked=" ++ as_bytes (key_id pk)) t
  = Ok {| rt_allowed_key_ids := rt_allowed_key_ids t;
          rt_revoked_key_ids := rt_revoked_key_ids t ++ [key_id pk] |}.
Proof using All.
  unfold payload_line. change (strip_prefix_b (as_bytes "key=") _) with (@None bytes).
  rewrite strip_prefix_b_app, of_as_bytes. unfold revoked_line, key_id.
  pose proof (decode_hex_ids (sha256 pk) (sha256_length pk)). by rewrite bool_decide_true by eauto.
Qed.

Lemma payload_lines_step line rest p t t' :
  line ≠ as_bytes "payload-end" → payload_line line t = Ok t' →
  payload_lines ((line ++ nl) :: rest) p t = payload_lines rest (p ++ line ++ nl) t'.
Proof using Type.
  intros Hne Hp. cbn [payload_lines]. rewrite (proj2 (strip_newline_Some (line ++ nl) line) eq_refl).
  replace (beqb line _) with false by (symmetry; by apply bool_decide_eq_false). by rewrite Hp.
Qed.

Lemma key_not_end x : as_bytes "key=" ++ x ≠ as_bytes "payload-end".
Proof using Type. discriminate. Qed.
Lemma revoked_not_end x : as_bytes "revoked=" ++ x ≠ as_bytes "payload-end".
Proof using Type. discriminate. Qed.

Lemma payload_lines_keys keys rest p t :
  Forall (λ pk, length pk = 32) keys → NoDup (rt_allowed_key_ids t ++ map key_id keys) →
  (blen (rt_allowed_key_ids t ++ map key_id keys) ≤ MAX_TRUST_KEYS)%N →
  payload_lines (map key_entry keys ++ rest) p t
  = payload_lines rest (p ++ concat (map key_entry keys))
      {| rt_allowed_key_ids := rt_allowed_key_ids t ++ map key_id keys;
         rt_revoked_key_ids := rt_revoked_key_ids t |}.
Proof using All.
  revert p t. induction keys as [|pk keys IH]; intros p t Hl Hn Hb.
  { cbn. rewrite !app_nil_r. by destruct t. }
  apply Forall_cons in Hl as [Hpk Hl]. cbn [map] in Hn, Hb |- *. cbn [concat app].
  unfold key_entry at 1. rewrite (app_assoc (as_bytes "key=")).
  rewrite (payload_lines_step _ _ _ _ _ (key_not_end _) (payload_line_key pk t Hpk
    ltac:(apply NoDup_app in Hn as (_ & Hn & _); intros ?; by eapply Hn; [|left])
    ltac:(unfold blen in *; rewrite length_app in Hb; cbn in Hb; lia))).
  rewrite IH; cbn [rt_allowed_key_ids rt_revoked_key_ids]; rewrite <-?app_assoc; try done.
  unfold key_entry. by rewrite <-!app_assoc.
Qed.

Lemma payload_lines_revoked revoked rest p t :
  payload_lines (map revoked_entry revoked ++ rest) p t
  = payload_lines rest (p ++ concat (map revoked_entry revoked))
      {| rt_allowed_key_ids := rt_allowed_key_ids t;
         rt_revoked_key_ids := rt_revoked_key_ids t ++ map key_id revoked |}.
Proof using All.
  revert p t. induction revoked as [|pk l IH]; intros p t.
  { cbn. rewrite !app_nil_r. by destruct t. }
  cbn [map concat app]. unfold revoked_entry at 1. rewrite (app_assoc (as_bytes "revoked=")).
  rewrite (payload_lines_step _ _ _ _ _ (revoked_not_end _) (payload_line_revoked pk t)).
  rewrite IH. cbn [rt_allowed_key_ids rt_revoked_key_ids]. unfold revoked_entry.
  by rewrite <-!app_assoc.
Qed.
Lemma split_manifest seed keys revoked :
  split_inclusive (as_bytes (manifest_text seed keys revoked))
  = (as_bytes "ADRELAYTRUST1" ++ nl) :: (as_bytes ("bootstrap=" +:+ hex (ed_public seed)) ++ nl)
    :: map key_entry keys ++ map revoked_entry revoked
    ++ [as_bytes "payload-end" ++ nl;
        as_bytes "signature="
        ++ as_bytes (hex (ed_sign seed (manifest_payload (ed_public seed) keys revoked))) ++ nl].
Proof using Type.
  unfold manifest_text. cbn zeta. rewrite as_of_bytes.
  set (sig := hex (ed_sign _ _)). unfold manifest_payload.
  rewrite <-!app_assoc. rewrite split_inclusive_line by (by apply (line_ok_sep "ADRELAYTRUST1")).
  rewrite split_inclusive_line by
    (rewrite as_bytes_app; apply (not_elem_line "bootstrap="); [done|apply hex_no_newline]).
  rewrite (split_inclusive_entries key_entry) by apply key_entry_line.
  rewrite (split_inclusive_entries revoked_entry) by apply revoked_entry_line.
  rewrite split_inclusive_line by (by apply (line_ok_sep "payload-end")).
  do 4 f_equal. rewrite (app_assoc (as_bytes "signature=")). f_equal.
  rewrite <-(app_nil_r nl) at 1.
  rewrite split_inclusive_line by (apply not_elem_line; [done|apply hex_no_newline]). done.
Qed.

Lemma decode_signature seed m : decode (hex (ed_sign seed m)) 64 = Some (ed_sign seed m).
Proof using All.
  unfold decode, hex. rewrite as_of_bytes, hex_b_hexdigit. unfold slen.
  rewrite <-length_as_bytes, as_of_bytes, length_hex_b, ed_sign_length. cbn. apply decode_pairs_hex.
Qed.

(** A manifest signed with the bootstrap key is accepted, and the trust it gives allows a
    relay key exactly when the manifest lists that key's digest and does not revoke it. *)
Theorem trust_manifest_decides seed keys revoked :
  keys ≠ [] → Forall (λ pk, length pk = 32) keys → NoDup (map key_id keys) →
  (blen keys ≤ MAX_TRUST_KEYS)%N → (∀ pk, pk ∈ revoked → key_id pk ∈ map key_id keys) →
  (slen (manifest_text seed keys revoked) ≤ MAX_MANIFEST_BYTES)%N →
  ∃ t, parse_manifest (manifest_text seed keys revoked) (ed_public seed) = Ok t ∧
    ∀ pk, allows t pk = true ↔
      key_id pk ∈ map key_id keys ∧ key_id pk ∉ map key_id revoked.
Proof using All.
  intros Hne Hlen Hnd Hmax Hrev Hsize.
  exists {| rt_allowed_key_ids := map key_id keys; rt_revoked_key_ids := map key_id revoked |}. split.
  - unfold parse_manifest. rewrite (proj2 (N.ltb_ge _ _) Hsize), split_manifest.
    fold nl. rewrite beqb_refl. cbn [negb field]. rewrite as_bytes_app, <-app_assoc, strip_prefix_b_app.
    cbn [mbind option_bind]. rewrite (proj2 (strip_newline_Some _ _) eq_refl).
    cbn [mbind option_bind ok_or result_bind]. rewrite of_as_bytes, seqb_refl. cbn [negb].
    rewrite payload_lines_keys; [|done|done|by unfold blen in *; cbn; rewrite length_map].
    rewrite payload_lines_revoked. cbn [payload_lines rt_allowed_key_ids rt_revoked_key_ids app].
    rewrite (proj2 (strip_newline_Some _ _) eq_refl), beqb_refl.
    cbn [result_bind ml_saw_end ml_trust ml_rest ml_payload negb orb rt_allowed_key_ids rt_revoked_key_ids].
    destruct keys as [|k0 keys]; [done|].
    replace (blen (map key_id (k0 :: keys)) =? 0)%N with false by (symmetry; unfold blen; cbn; lia).
    rewrite strip_prefix_b_app. cbn [mbind option_bind].
    rewrite (proj2 (strip_newline_Some _ _) eq_refl). cbn [ok_or result_bind].
    rewrite of_as_bytes, decode_signature, bool_decide_true by eauto.
    cbn [ok_or result_bind negb orb blen length N.of_nat N.eqb].
    rewrite ed_sign_length, ed_public_valid. cbn [Nat.eqb negb].
    replace (ed_verify _ _ _) with true.
    2:{ symmetry. etransitivity; [|apply (ed_verify_sign seed (manifest_payload (ed_public seed) (k0 :: keys) revoked))].
        f_equal. unfold manifest_payload. by rewrite as_bytes_app, <-!app_assoc. }
    cbn [negb]. replace (existsb _ _) with false; [done|]. symmetry. apply not_true_iff_false.
    rewrite existsb_exists. intros (id & Hin & Hb). apply list_elem_of_In, list_elem_of_fmap in Hin as (pk & -> & Hpk).
    apply negb_true_iff, not_true_iff_false in Hb. apply Hb, existsb_seqb. by apply Hrev.
  - intros pk. unfold allows. cbn [rt_allowed_key_ids rt_revoked_key_ids]. fold (key_id pk).
    rewrite andb_true_iff, negb_true_iff, <-not_true_iff_false, !existsb_seqb. done.
Qed.
End manifests.

(** ** The pin *)

(** The text of a pin parses to that pin, and a text without one of the two explicit
    prefixes never parses. *)
Theorem trust_pin_roundtrip pin value :
  (length pin = 32 → parse (as_text pin) = Ok pin) ∧
  (strip_prefix "sha256:" value = None → strip_prefix "sha256/" value = None →
   parse value = Err Invalid).
Proof.
  split.
  - intros Hl. unfold parse, as_text. rewrite (proj2 (strip_prefix_Some "sha256:" _ _) eq_refl).
    cbn [ok_or result_bind]. fold (hex pin). rewrite decode_hex_ids by done. cbn [ok_or result_bind].
    by rewrite Hl.
  - intros E1 E2. unfold parse. by rewrite E1, E2.
Qed.

Module TrustSample.
Import Reference.
Definition seed : bytes := replicate 32 (n_byte 7).
Definition relay (n : N) : bytes := replicate 32 (n_byte n).
Definition keys : list bytes := [relay 1; relay 2].

Lemma trust_manifest_decides_witness :
  ∃ t, parse_manifest (manifest_text seed keys [relay 2]) (ed_public seed) = Ok t ∧
    ∀ pk, allows t pk = true ↔
      key_id pk ∈ map key_id keys ∧ key_id pk ∉ map key_id [relay 2].
Proof.
  apply (trust_manifest_decides seed keys [relay 2]).
  - discriminate.
  - repeat constructor.
  - apply (bool_decide_eq_true _). vm_compute. reflexivity.
  - vm_compute. discriminate.
  - intros pk Hpk. apply list_elem_of_singleton in Hpk as ->. right. left.
  - vm_compute. discriminate.
Defined.

Lemma trust_manifest_authentic_witness :
  trust_wf {| rt_allowed_key_ids := map key_id keys; rt_revoked_key_ids := [] |}.
Proof.
  apply (trust_manifest_authentic (manifest_text seed keys []) (ed_public seed)).
  vm_compute. reflexivity.
Defined.
End TrustSample.
