(* ===== verification/Invite.v ===== *)
(** * Signed invites ([apps/daemon/src/authority.rs])

    Creating an invite (code and signed payload), verifying one, and the check that an
    inbox URL belongs to the relay an invite names. *)
From Stdlib Require Import Ascii NArith Lia ZifyBool ZifyN.
From stdpp Require Import base gmap strings list.
From S2P Require Import Prelude Text Interfaces Identity DeviceRegistry.

Definition MAX_INVITE_TTL_SECONDS : N := 10 * 60.

Record VerifiedInvite := {
  vi_account_id : string;
  vi_device_id : string;
  vi_expires_at : N;
  vi_relay_origin : string;
  vi_inbox_url : option string;
  vi_conversation_id : option string;
}.
#[export] Instance VerifiedInvite_eq_dec : EqDecision VerifiedInvite.
Proof. solve_decision. Defined.

(** [hex_bytes] and [hex_decode] of [bridge_http.rs]. *)
Definition hex_bytes (b : bytes) : string := of_bytes (hex_b b).
Definition hex_decode (value : string) : option bytes :=
  if is_empty_str value || negb (slen value mod 2 =? 0)%N then None
  else decode_pairs (as_bytes value).

Definition validate_bound_inbox_url `{UriParser} (relay_origin inbox_url : string)
  : result unit unit :=
  let? uri := ok_or (uri_parse inbox_url) tt in
  let? scheme := ok_or (uri_scheme uri) tt in
  if negb (seqb scheme "http") && negb (seqb scheme "https") then Err tt
  else
    let? authority := ok_or (uri_authority uri) tt in
    if negb (seqb (scheme +:+ "://" +:+ authority) relay_origin)
       || bool_decide (is_Some (uri_query uri))
       || negb (starts_with "/api/v1/inbox/" (uri_path uri))
    then Err tt
    else
      let capability := last_field 47 (uri_path uri) in
      if negb (slen capability =? 43)%N || negb (forallb is_url_safe (as_bytes capability))
      then Err tt
      else Ok tt.

(** [lines.next().filter(|value| !value.is_empty())]. *)
Definition nonempty_line (l : option string) : option string :=
  match l with Some v => if is_empty_str v then None else Some v | None => None end.

(** The code without its dashes. *)
Definition strip_dashes (code : string) : string :=
  of_bytes (filter (λ b, byte_n b ≠ 45%N) (as_bytes code)).

Section invites.
Context `{Crypto, UriParser}.

Definition verify_signed_invite_with_code (expected_code : option string)
    (signed_invite : string) (now : N) : option VerifiedInvite :=
  match split 46 signed_invite with
  | [tag; p; s] =>
    if negb (seqb tag "ADDAINV1") then None
    else
      payload ← hex_decode p;
      signature ← hex_decode s;
      if negb (length signature =? 64)%nat then None
      else
        text ← from_utf8 payload;
        match split 10 text with
        | header :: account_id :: device_id :: code_hash :: expires :: relay_origin :: rest =>
          if negb (seqb header "another-dimension/invite/v1") then None
          else
            expires_at ← parse_u64 expires;
            let inbox_url := nonempty_line (rest !! 0) in
            let conversation_id := nonempty_line (rest !! 1) in
            if bool_decide (is_Some (rest !! 2))
               || negb (starts_with "ad1pk" account_id)
               || (expires_at <=? now)%N
               || (u64_saturating_add now MAX_INVITE_TTL_SECONDS <? expires_at)%N
            then None
            else if match conversation_id with
                    | Some v => negb (starts_with "adconv" v) || (80 <? slen v)%N
                    | None => false
                    end
            then None
            else if match inbox_url with
                    | Some u => is_err (validate_bound_inbox_url relay_origin u)
                    | None => false
                    end
            then None
            else
              key_hex ← strip_prefix "ad1pk" account_id;
              public_key ← hex_decode key_hex;
              if negb (length public_key =? 32)%nat
                 || negb (forallb is_ascii_hexdigit (as_bytes code_hash))
                 || negb (slen code_hash =? 64)%N
              then None
              else if match expected_code with
                      | Some code =>
                        is_empty_str code
                        || negb (seqb code_hash (hex_bytes (sha256 (as_bytes (strip_dashes code)))))
                      | None => false
                      end
              then None
              else if negb (ed_valid_public public_key) then None
              else if ed_verify public_key payload signature then
                Some {| vi_account_id := account_id; vi_device_id := device_id;
                        vi_expires_at := expires_at; vi_relay_origin := relay_origin;
                        vi_inbox_url := inbox_url; vi_conversation_id := conversation_id |}
              else None
        | _ => None
        end
  | _ => None
  end.

Definition verify_signed_invite (code signed_invite : string) (now : N) : option VerifiedInvite :=
  verify_signed_invite_with_code (Some code) signed_invite now.
Definition verify_signed_invite_unbound (signed_invite : string) (now : N)
  : option VerifiedInvite :=
  verify_signed_invite_with_code None signed_invite now.

(** The seven lines an invite signs, after its header. *)
Definition invite_payload (account_id device_id code_hash : string) (expires_at : N)
    (relay_origin inbox_url conversation_id : string) : string :=
  join 10 ["another-dimension/invite/v1"; account_id; device_id; code_hash;
           u64_to_string expires_at; relay_origin; inbox_url; conversation_id].

(** The part of [InviteAuthority] that [create] reads and writes. *)
Record InviteIssuer := {
  ii_root : option AccountRootKey;
  ii_device_id : string;
  ii_relay_origin : string;
  ii_inbox_url : option string;
  ii_device_registry : DeviceRegistry;
  ii_pending : option (bytes * N);
}.

(** [InviteAuthority::create]: a code drawn at random and the signed invite. The code is
    hexadecimal, so its normalisation is ASCII upper case. *)
Definition create (now : N) (conversation_id : option string) (drawn : option bytes)
    (a : InviteIssuer) : InviteIssuer * option (string * string) :=
  match authorize (ii_device_registry a) (ii_device_id a) now, ii_root a, drawn with
  | Ok _, Some root, Some b =>
    if negb (length b =? 32)%nat then (a, None)
    else
      let code := to_ascii_uppercase (hex_bytes b) in
      let expires_at := u64_saturating_add now 600 in
      let code_hash := sha256 (as_bytes (to_ascii_uppercase (strip_dashes code))) in
      let payload :=
        invite_payload (root_account_id root) (ii_device_id a) (hex_bytes code_hash) expires_at
          (ii_relay_origin a) (default EmptyString (ii_inbox_url a)) (default EmptyString conversation_id) in
      let signature := root_sign root (as_bytes payload) in
      ({| ii_root := ii_root a; ii_device_id := ii_device_id a;
          ii_relay_origin := ii_relay_origin a; ii_inbox_url := ii_inbox_url a;
          ii_device_registry := ii_device_registry a;
          ii_pending := Some (code_hash, expires_at) |},
       Some (code, "ADDAINV1." +:+ hex_bytes (as_bytes payload) +:+ "." +:+ hex_bytes signature))
  | _, _, _ => (a, None)
  end.
End invites.

(** ** Lemmas *)

Lemma hex_decode_bytes b : b ≠ [] → hex_decode (hex_bytes b) = Some b.
Proof.
  intros Hb. unfold hex_decode, hex_bytes. rewrite hex_nonempty, hex_even by done.
  cbn [negb orb]. by rewrite as_of_bytes, decode_pairs_hex.
Qed.

Lemma hex_no_byte c b : is_ascii_hexdigit (n_byte c) = false → n_byte c ∉ as_bytes (hex_bytes b).
Proof.
  intros Hc. unfold hex_bytes. rewrite as_of_bytes.
  eapply forallb_not_elem; [apply hex_b_hexdigit|done].
Qed.

(** A code made of hexadecimal digits has no dashes to strip. *)
Lemma strip_dashes_code b :
  strip_dashes (to_ascii_uppercase (hex_bytes b)) = to_ascii_uppercase (hex_bytes b).
Proof.
  unfold strip_dashes, to_ascii_uppercase, hex_bytes. rewrite !as_of_bytes. f_equal.
  apply filter_all. apply Forall_forall. intros x Hx.
  apply list_elem_of_fmap in Hx as (y & -> & Hy).
  pose proof (hex_b_lower b) as Hl. rewrite Forall_forall in Hl. specialize (Hl y Hy).
  unfold to_ascii_uppercase_byte. unfold is_ascii_digit, in_range in *.
  destruct ((97 <=? byte_n y)%N && (byte_n y <=? 122)%N) eqn:E.
  - rewrite byte_n_n_byte by (pose proof (byte_n_lt y); lia). lia.
  - lia.
Qed.

Section invite_lemmas.
Context `{CryptoLaws, UriParser}.

(** The fields of an invite that its verification accepts. *)
Record invite_fields_ok (device_id relay_origin : string) (inbox conv : option string) : Prop := {
  if_device : line_ok device_id = true;
  if_origin : line_ok relay_origin = true;
  if_inbox : ∀ u, inbox = Some u →
    line_ok u = true ∧ u ≠ EmptyString ∧ validate_bound_inbox_url relay_origin u = Ok tt;
  if_conv : ∀ v, conv = Some v →
    line_ok v = true ∧ starts_with "adconv" v = true ∧ (slen v ≤ 80)%N;
}.

Lemma root_account_line root : line_ok (root_account_id root) = true.
Proof using Type. unfold root_account_id, account_id_from_public. rewrite line_ok_app. apply hex_line. Qed.

Lemma nonempty_default o : (∀ v, o = Some v → v ≠ EmptyString) →
  nonempty_line (Some (default EmptyString o)) = o.
Proof using Type.
  intros Ho. destruct o as [v|]; [|done]. specialize (Ho v eq_refl). cbn. by destruct v.
Qed.

(** The payload, split into its lines. *)
Lemma invite_payload_lines acc dev hash expires origin inbox conv :
  line_ok acc = true → line_ok dev = true → line_ok hash = true → line_ok origin = true →
  line_ok inbox = true → line_ok conv = true →
  split 10 (invite_payload acc dev hash expires origin inbox conv)
  = ["another-dimension/invite/v1"; acc; dev; hash; u64_to_string expires; origin; inbox; conv] ∧
  utf8_valid (as_bytes (invite_payload acc dev hash expires origin inbox conv)) = true.
Proof using Type.
  intros. assert (Hl : Forall (λ s, line_ok s = true)
    ["another-dimension/invite/v1"; acc; dev; hash; u64_to_string expires; origin; inbox; conv]).
  { repeat constructor; try done. apply u64_line. }
  split; [by apply lines_split|by apply lines_utf8].
Qed.

Lemma default_line o : (∀ v, o = Some v → line_ok v = true) → line_ok (default EmptyString o) = true.
Proof using Type. destruct o; [by auto|done]. Qed.

(** Verifying a well-formed signed invite. *)
Lemma verify_invite_value root dev hash expires origin inbox conv code now :
  length hash = 32%nat → (expires ≤ u64_max)%N →
  invite_fields_ok dev origin inbox conv →
  (now < expires ≤ u64_saturating_add now MAX_INVITE_TTL_SECONDS)%N →
  let payload := invite_payload (root_account_id root) dev (hex_bytes hash) expires origin
                   (default EmptyString inbox) (default EmptyString conv) in
  verify_signed_invite_with_code code
    ("ADDAINV1." +:+ hex_bytes (as_bytes payload) +:+ "." +:+ hex_bytes (root_sign root (as_bytes payload)))
    now
  = if match code with
       | Some c => is_empty_str c || negb (seqb (hex_bytes hash) (hex_bytes (sha256 (as_bytes (strip_dashes c)))))
       | None => false
       end
    then None
    else Some {| vi_account_id := root_account_id root; vi_device_id := dev; vi_expires_at := expires;
                 vi_relay_origin := origin; vi_inbox_url := inbox; vi_conversation_id := conv |}.
Proof using Type*.
  intros Hh Hmax [Hd Ho Hi Hc] Hnow payload.
  destruct (invite_payload_lines (root_account_id root) dev (hex_bytes hash) expires origin
              (default EmptyString inbox) (default EmptyString conv)) as [Hlines Hutf];
    [apply root_account_line|done|apply hex_line|done|apply default_line; naive_solver..|].
  fold payload in Hlines, Hutf. unfold verify_signed_invite_with_code.
  replace ("ADDAINV1." +:+ _) with
    (join 46 ["ADDAINV1"; hex_bytes (as_bytes payload); hex_bytes (root_sign root (as_bytes payload))]);
    cycle 1.
  { unfold join. cbn [map join_b]. apply as_bytes_inj. rewrite as_of_bytes, !as_bytes_app. done. }
  rewrite split_join; [|done|repeat constructor; [vm_compute; set_solver|by apply hex_no_byte..]].
  rewrite seqb_refl. cbn [negb].
  rewrite (hex_decode_bytes (as_bytes payload)); cycle 1.
  { intros E%(f_equal of_bytes). rewrite of_as_bytes in E. by rewrite E in Hlines. }
  cbn [mbind option_bind]. unfold root_sign.
  rewrite hex_decode_bytes by (intros E; pose proof (ed_sign_length (root_seed root) (as_bytes payload)) as L;
                               rewrite E in L; done).
  cbn [mbind option_bind]. rewrite ed_sign_length, Nat.eqb_refl. cbn [negb].
  unfold from_utf8. rewrite Hutf, of_as_bytes. cbn [mbind option_bind]. rewrite Hlines.
  rewrite seqb_refl. cbn [negb]. rewrite parse_u64_to_string by done. cbn [mbind option_bind].
  cbn [lookup list_lookup]. rewrite !nonempty_default; cycle 1.
  { intros v Hv ->. by destruct (Hi _ Hv) as (_ & ? & _). }
  { intros v Hv ->. by destruct (Hc _ Hv) as (_ & ? & _). }
  assert (Hacc : strip_prefix "ad1pk" (root_account_id root) = Some (hex_bytes (root_public_key root)))
    by (by apply strip_prefix_Some).
  replace (starts_with "ad1pk" (root_account_id root)) with true
    by (symmetry; apply starts_with_true; eexists; reflexivity).
  rewrite bool_decide_false by (by intros [? ?]).
  replace (expires <=? now)%N with false by lia. rewrite (proj2 (N.ltb_ge _ _)) by lia.
  cbn [negb orb]. replace (match conv with Some v => _ | None => false end) with false; cycle 1.
  { destruct conv as [v|]; [|done]. destruct (Hc v eq_refl) as (_ & -> & Hl). cbn. lia. }
  replace (match inbox with Some u => _ | None => false end) with false; cycle 1.
  { destruct inbox as [u|]; [|done]. by destruct (Hi u eq_refl) as (_ & _ & ->). }
  rewrite Hacc. cbn [mbind option_bind]. unfold root_public_key.
  pose proof (ed_public_length (root_seed root)) as Lp.
  rewrite hex_decode_bytes by (intros E; rewrite E in Lp; done). cbn [mbind option_bind].
  rewrite Lp. unfold hex_bytes at 1. rewrite as_of_bytes, hex_b_hexdigit.
  unfold hex_bytes at 1. rewrite slen_of_bytes. unfold blen. rewrite length_hex_b, Hh.
  cbn [Nat.eqb negb orb]. replace (_ =? 64)%N with true by done. cbn [negb].
  destruct (match code with Some c => _ | None => false end); [done|].
  by rewrite ed_public_valid, ed_verify_sign.
Qed.
End invite_lemmas.

(** ** Properties *)

Section invite_properties.
Context `{CryptoLaws, UriParser}.

Lemma invite_create_inv a now conv drawn a' code signed :
  create now conv drawn a = (a', Some (code, signed)) →
  ∃ root b, ii_root a = Some root ∧ length b = 32%nat ∧
    authorize (ii_device_registry a) (ii_device_id a) now = Ok tt ∧
    code = to_ascii_uppercase (hex_bytes b) ∧
    (let payload := invite_payload (root_account_id root) (ii_device_id a)
                      (hex_bytes (sha256 (as_bytes code))) (u64_saturating_add now 600)
                      (ii_relay_origin a) (default EmptyString (ii_inbox_url a))
                      (default EmptyString conv) in
     signed = "ADDAINV1." +:+ hex_bytes (as_bytes payload) +:+ "."
                +:+ hex_bytes (root_sign root (as_bytes payload))) ∧
    ii_pending a' = Some (sha256 (as_bytes code), u64_saturating_add now 600).
Proof using Type.
  unfold create. destruct (authorize _ _ now) as [[]|]; [|done].
  destruct (ii_root a) as [root|]; [|done]. destruct drawn as [b|]; [|done].
  destruct (length b =? 32)%nat eqn:Hb; cbn [negb]; [|done]. intros [= <- <- <-].
  exists root, b. apply Nat.eqb_eq in Hb. rewrite strip_dashes_code, to_upper_idem. by split_and!.
Qed.

(** C23. An invite that [create] signs is accepted by [verify_signed_invite] with its code from
    the moment it was made until ten minutes later, with exactly the account, device,
    relay, inbox and conversation of the issuer; with a code that hashes differently it is
    refused. Only an authorised device creates one. The texts of the issuer must be ones
    an invite can carry, and the expiry must fit 64 bits. *)
Theorem invite_create_verifies a now conv drawn a' code signed now' :
  create now conv drawn a = (a', Some (code, signed)) →
  invite_fields_ok (ii_device_id a) (ii_relay_origin a) (ii_inbox_url a) conv →
  (now + 600 ≤ u64_max)%N → (now ≤ now' < now + 600)%N →
  authorize (ii_device_registry a) (ii_device_id a) now = Ok tt ∧
  ∃ root, ii_root a = Some root ∧
    verify_signed_invite code signed now' =
      Some {| vi_account_id := root_account_id root; vi_device_id := ii_device_id a;
              vi_expires_at := now + 600; vi_relay_origin := ii_relay_origin a;
              vi_inbox_url := ii_inbox_url a; vi_conversation_id := conv |} ∧
    ∀ code', sha256 (as_bytes (strip_dashes code')) ≠ sha256 (as_bytes code) →
      verify_signed_invite code' signed now' = None.
Proof using Type*.
  intros (root & b & Hroot & Hb & Hauth & Hcode & Hsigned & _)%invite_create_inv Hf Hmax Hnow.
  split; [done|]. exists root. split; [done|]. cbv zeta in Hsigned.
  assert (Hsat : u64_saturating_add now 600 = (now + 600)%N) by (unfold u64_saturating_add; lia).
  rewrite Hsat in Hsigned. unfold verify_signed_invite. subst signed.
  assert (Hexp : (now' < now + 600 ≤ u64_saturating_add now' MAX_INVITE_TTL_SECONDS)%N).
  { unfold u64_saturating_add, MAX_INVITE_TTL_SECONDS. lia. }
  rewrite !verify_invite_value by (done || apply sha256_length). split.
  - rewrite Hcode, strip_dashes_code, seqb_refl.
    replace (is_empty_str _) with false; [done|]. destruct b as [|x b]; [done|].
    unfold hex_bytes, to_ascii_uppercase. rewrite as_of_bytes. done.
  - intros code' Hne. rewrite verify_invite_value by (done || apply sha256_length).
    replace (seqb _ _) with false; [by rewrite orb_true_r|]. symmetry.
    apply bool_decide_eq_false. intros E. apply Hne.
    apply (f_equal as_bytes) in E. unfold hex_bytes in E. rewrite !as_of_bytes in E.
    by apply (inj hex_b) in E.
Qed.
End invite_properties.

(** ** Witnesses *)

Module InviteSample.
Import Reference.
Definition issuer : InviteIssuer :=
  {| ii_root := Some sample_root; ii_device_id := "device-1";
     ii_relay_origin := "https://relay.example"; ii_inbox_url := None;
     ii_device_registry := RegistrySample.g1; ii_pending := None |}.
Definition drawn : option bytes := Some (replicate 32 "z"%char).
Definition created : InviteIssuer * option (string * string) := create 150 (Some "adconv1") drawn issuer.
Definition code : string := to_ascii_uppercase (hex_bytes (replicate 32 "z"%char)).
Definition signed : string := default EmptyString (snd <$> created.2).

Lemma invite_create_verifies_witness :
  vi_account_id <$> verify_signed_invite code signed 300 = Some (root_account_id sample_root).
Proof.
  assert (Hc : create 150 (Some "adconv1") drawn issuer = (created.1, Some (code, signed)))
    by (vm_compute; reflexivity).
  assert (Hf : invite_fields_ok (ii_device_id issuer) (ii_relay_origin issuer) (ii_inbox_url issuer)
                 (Some "adconv1")).
  { split; try (vm_compute; reflexivity); [done|]. intros v [= <-].
    split_and!; [vm_compute; reflexivity..|vm_compute; discriminate]. }
  destruct (invite_create_verifies issuer 150 (Some "adconv1") drawn created.1 code signed 300
              Hc Hf ltac:(vm_compute; discriminate) ltac:(split; vm_compute; congruence))
    as (_ & root & [= <-] & -> & _). reflexivity.
Defined.
End InviteSample.

(** The code of an invite is drawn in upper case and creation normalises case, but
    verification only strips dashes: the same code typed in lower case is refused. *)
Theorem invite_lowercase_code_refused :
  @verify_signed_invite Reference.crypto Reference.uri_parser InviteSample.code
    InviteSample.signed 300 ≠ None ∧
  @verify_signed_invite Reference.crypto Reference.uri_parser
    (hex_bytes (replicate 32 "z"%char)) InviteSample.signed 300 = None ∧
  to_ascii_uppercase (hex_bytes (replicate 32 "z"%char)) = InviteSample.code.
Proof. split_and!; [vm_compute; discriminate|vm_compute; reflexivity..]. Qed.
