(* ===== verification/Receipt.v ===== *)
(** * Relay receipts ([apps/daemon/src/authority.rs], [verify_relay_receipt])

    The daemon's check of the receipt a relay signs when it hands out an invite, and the
    normal form of an invite code that the check and the relay share. *)
From Stdlib Require Import Ascii NArith Lia ZifyBool ZifyN.
From stdpp Require Import base gmap strings list.
From S2P Require Import Prelude Text Interfaces Trust Invite.

(** [code.chars().filter(|c| *c != '-').flat_map(char::to_uppercase).collect()]. *)
Definition normalize_code `{UnicodeCase} (code : string) : string :=
  collect_chars (flat_map char_to_uppercase (List.filter (λ c, negb (c =? 45)%N) (chars code))).

Section receipts.
Context `{Crypto, UnicodeCase}.

Definition verify_relay_receipt (code signed_invite receipt : string) (invite : VerifiedInvite)
    (public_key : option bytes) (relay_trust : option RelayTrust) (now : N) : bool :=
  match split 46 receipt with
  | [p0; p1; p2; p3; p4; p5; p6] =>
    if negb (seqb p0 "ADRECEIPT1") then false
    else
      match public_key with
      | None => false
      | Some public_key =>
        if match relay_trust with Some trust => negb (allows trust public_key) | None => false end
        then false
        else
          let expected_key_id := sha256 public_key in
          let origin := from_utf8 (default [] (hex_decode p2)) in
          let code_hash := sha256 (as_bytes (normalize_code code)) in
          let invite_digest := sha256 (as_bytes signed_invite) in
          let consumed_at := parse_u64 p5 in
          let signature :=
            v ← hex_decode p6; if (length v =? 64)%nat then Some v else None in
          let verifying_key := if ed_valid_public public_key then Some public_key else None in
          let signed_body := fst <$> rsplit_once 46 receipt in
          bool_decide (origin = Some (vi_relay_origin invite))
          && seqb p1 (hex_bytes expected_key_id)
          && seqb p3 (hex_bytes code_hash)
          && seqb p4 (hex_bytes invite_digest)
          && match consumed_at with
             | Some value => (value <=? u64_saturating_add now 300)%N
             | None => false
             end
          && match signature, verifying_key, signed_body with
             | Some signature, Some key, Some body => ed_verify_strict key (as_bytes body) signature
             | _, _, _ => false
             end
      end
  | _ => false
  end.
End receipts.

(** ** The normal form of an ASCII code *)

Lemma utf8_encode_ascii c : (c < 128)%N → utf8_encode c = [n_byte c].
Proof. intros Hc. unfold utf8_encode. by rewrite (proj2 (N.ltb_lt _ _) Hc). Qed.

(** On ASCII text, filtering and raising characters is filtering and raising bytes. *)
Lemma collect_upper_ascii `{UnicodeCaseLaws} (keep : N → bool) code :
  is_ascii code = true →
  collect_chars (flat_map char_to_uppercase (List.filter keep (chars code)))
  = of_bytes (map to_ascii_uppercase_byte (List.filter (λ b, keep (byte_n b)) (as_bytes code))).
Proof.
  unfold is_ascii, chars, collect_chars. intros Ha.
  rewrite utf8_spans_ascii, map_map by done. f_equal. revert Ha.
  induction (as_bytes code) as [|b l IH]; [done|]. cbn [forallb]. intros Hb. bool_props.
  cbn [map List.filter]. unfold span_char at 1. cbn [fst default id].
  destruct (keep (byte_n b)); [|by apply IH]. cbn [flat_map map].
  assert (Hlt : (byte_n b < 128)%N) by (unfold is_ascii_byte in *; lia).
  rewrite (char_to_uppercase_ascii _ Hlt). cbn [app flat_map]. rewrite IH by done.
  rewrite utf8_encode_ascii; [|unfold in_range; destruct (_ && _) eqn:?; lia].
  cbn [app]. f_equal. unfold to_ascii_uppercase_byte.
  destruct (in_range 97 122 (byte_n b)); [done|apply n_byte_byte_n].
Qed.

(** The normal form drops the dashes of an ASCII code and raises its letters. *)
Lemma normalize_ascii `{UnicodeCaseLaws} code :
  is_ascii code = true → normalize_code code = to_ascii_uppercase (strip_dashes code).
Proof.
  intros Ha. unfold normalize_code. rewrite collect_upper_ascii by done.
  unfold to_ascii_uppercase, strip_dashes. rewrite as_of_bytes. do 2 f_equal.
  induction (as_bytes code) as [|b l IH]; [done|]. cbn [List.filter]. rewrite filter_cons.
  destruct (byte_n b =? 45)%N eqn:E; cbn [negb].
  - by rewrite decide_False by lia.
  - rewrite decide_True by lia. by rewrite IH.
Qed.
