(* ===== verification/Pairing.v ===== *)
(** * Contact pairing ([apps/daemon/src/pairing.rs])

    The pairing state machine: an invite is created, a peer verified, its safety number
    compared, the pairing approved, and only then may messages be sent. [PairingOp] is the
    set of its methods; the properties are about runs of them. *)
From Stdlib Require Import Ascii NArith Lia ZifyBool ZifyN.
From stdpp Require Import base gmap strings list relations.
From S2P Require Import Prelude Text Interfaces ProtocolGate StoreFormat RecordStore StorageLaws StorageProps Invite.

Definition PAIRING_SNAPSHOT_VERSION : N := 1.

Inductive PairingState := Idle | InviteCreated | Verified | Established | Rejected.
#[export] Instance PairingState_eq_dec : EqDecision PairingState.
Proof. solve_decision. Defined.

Definition pairing_state_str (s : PairingState) : string :=
  match s with
  | Idle => "idle"
  | InviteCreated => "invite-created"
  | Verified => "verified"
  | Established => "established"
  | Rejected => "rejected"
  end.

Inductive PairingError :=
| InvalidTransition | SelfInvite | Expired | Duplicate | SafetyMismatch | BindingChanged.
#[export] Instance PairingError_eq_dec : EqDecision PairingError.
Proof. solve_decision. Defined.

Record PairingSnapshot := {
  sn_schema_version : N;
  sn_state : PairingState;
  sn_peer : option VerifiedInvite;
  sn_safety_verified : bool;
}.
#[export] Instance PairingSnapshot_eq_dec : EqDecision PairingSnapshot.
Proof. solve_decision. Defined.

Record PairingSession := {
  ps_local_account_id : string;
  ps_local_device_id : string;
  ps_state : PairingState;
  ps_peer : option VerifiedInvite;
  ps_safety_verified : bool;
}.

(** A session of the same local identity. *)
Definition set_pairing (state : PairingState) (peer : option VerifiedInvite) (verified : bool)
    (s : PairingSession) : PairingSession :=
  {| ps_local_account_id := ps_local_account_id s; ps_local_device_id := ps_local_device_id s;
     ps_state := state; ps_peer := peer; ps_safety_verified := verified |}.

Definition pairing_new (local_account_id local_device_id : string) : PairingSession :=
  {| ps_local_account_id := local_account_id; ps_local_device_id := local_device_id;
     ps_state := Idle; ps_peer := None; ps_safety_verified := false |}.

Definition valid_relay_origin (value : string) : bool :=
  match split_once "://" value with
  | None => false
  | Some (scheme, authority) =>
    (seqb scheme "http" || seqb scheme "https")
    && negb (is_empty_str authority)
    && (slen authority <=? 2 * 1024)%N
    && negb (contains_byte 47 authority) && negb (contains_byte 64 authority)
    && negb (contains_byte 63 authority) && negb (contains_byte 35 authority)
    && negb (existsb (λ c, char_is_whitespace c || char_is_control c) (chars authority))
  end.

Definition mark_invite_created : Mut PairingSession unit PairingError :=
  λ s,
    match ps_state s with
    | Idle | InviteCreated | Rejected | Established =>
      (set_pairing InviteCreated (ps_peer s) (ps_safety_verified s) s, Ok tt)
    | Verified => (s, Err InvalidTransition)
    end.

Definition approve (now : N) : Mut PairingSession unit PairingError :=
  λ s,
    match ps_peer s with
    | None => (s, Err InvalidTransition)
    | Some peer =>
      if (vi_expires_at peer <=? now)%N then (s, Err Expired)
      else if negb (bool_decide (ps_state s = Verified)) then
        (s, Err (if bool_decide (ps_state s = Established) then Duplicate else InvalidTransition))
      else if negb (ps_safety_verified s) then (s, Err InvalidTransition)
      else (set_pairing Established (ps_peer s) (ps_safety_verified s) s, Ok tt)
    end.

Definition unverify_safety : Mut PairingSession unit PairingError :=
  λ s,
    if negb (bool_decide (ps_state s = Established)) || negb (ps_safety_verified s)
    then (s, Err InvalidTransition)
    else (set_pairing (ps_state s) (ps_peer s) false s, Ok tt).

Definition can_message (s : PairingSession) : bool :=
  bool_decide (ps_state s = Established) && ps_safety_verified s.

Definition can_message_at (s : PairingSession) (now : N) : bool :=
  can_message s
  && match ps_peer s with Some peer => (now <? N.max (vi_expires_at peer) now)%N | None => false end.

Definition reject : Mut PairingSession unit PairingError :=
  λ s,
    match ps_state s with
    | Verified | Established => (set_pairing Rejected None false s, Ok tt)
    | _ => (s, Err InvalidTransition)
    end.

Definition invalidate_binding : Mut PairingSession unit PairingError :=
  λ s,
    if negb (bool_decide (ps_state s = Established)) then (s, Err InvalidTransition)
    else (set_pairing Rejected None false s, Ok tt).

Definition snapshot (s : PairingSession) : PairingSnapshot :=
  {| sn_schema_version := PAIRING_SNAPSHOT_VERSION; sn_state := ps_state s; sn_peer := ps_peer s;
     sn_safety_verified := ps_safety_verified s |}.

(** [[a, b].sort_unstable()]. *)
Definition sorted_pair (a b : string) : string * string :=
  if bool_decide (String.le a b) then (a, b) else (b, a).

Section pairing.
Context `{UriParser}.

Definition valid_verified_peer (peer : VerifiedInvite) : bool :=
  is_ok (validate_protocol_identifier (vi_account_id peer))
  && is_ok (validate_protocol_identifier (vi_device_id peer))
  && valid_relay_origin (vi_relay_origin peer)
  && match vi_inbox_url peer with
     | Some inbox => is_ok (validate_bound_inbox_url (vi_relay_origin peer) inbox)
     | None => true
     end
  && match vi_conversation_id peer with
     | Some conversation =>
       negb (is_empty_str conversation) && (slen conversation <=? 128)%N
       && forallb is_url_safe (as_bytes conversation)
     | None => true
     end.

Definition verify_peer (peer : VerifiedInvite) (now : N) : Mut PairingSession unit PairingError :=
  λ s,
    if negb (valid_verified_peer peer) then (s, Err InvalidTransition)
    else if seqb (vi_account_id peer) (ps_local_account_id s) then (s, Err SelfInvite)
    else if (vi_expires_at peer <=? now)%N then (s, Err Expired)
    else
      match ps_state s with
      | Idle | InviteCreated | Rejected => (set_pairing Verified (Some peer) false s, Ok tt)
      | Verified => (s, Err Duplicate)
      | Established =>
        match ps_peer s with
        | None => (s, Err InvalidTransition)
        | Some trusted =>
          if seqb (vi_account_id trusted) (vi_account_id peer) then (s, Err BindingChanged)
          else (set_pairing Established (Some peer) true s, Ok tt)
        end
      end.

Context `{Crypto}.

Definition safety_transcript (accounts devices : string * string) : string :=
  join 10 ["another-dimension/safety/v1"; "account-a=" +:+ accounts.1; "account-b=" +:+ accounts.2;
           "device-a=" +:+ devices.1; "device-b=" +:+ devices.2].

Definition safety_number (s : PairingSession) : option string :=
  match ps_peer s with
  | None => None
  | Some peer =>
    let accounts := sorted_pair (ps_local_account_id s) (vi_account_id peer) in
    let devices := sorted_pair (ps_local_device_id s) (vi_device_id peer) in
    Some ("sha256-" +:+ hex_bytes (sha256 (as_bytes (safety_transcript accounts devices))))
  end.

Definition confirm_safety (value : string) : Mut PairingSession unit PairingError :=
  λ s,
    let can_reconfirm :=
      bool_decide (ps_state s = Verified)
      || (bool_decide (ps_state s = Established) && negb (ps_safety_verified s)) in
    if negb can_reconfirm then (s, Err InvalidTransition)
    else if negb (ps_safety_verified s) && negb (bool_decide (safety_number s = Some (trim value)))
    then (s, Err SafetyMismatch)
    else (set_pairing (ps_state s) (ps_peer s) true s, Ok tt).

(** ** Persistence *)

Context `{JsonCodec PairingSnapshot} {S : Type} `{RecordStore S}.

Definition PAIRING_KEY : string := "pairing/state".

Definition pairing_persist (session : PairingSession) : Mut S unit StorageError :=
  λ s,
    match json_to_vec (snapshot session) with
    | None => (s, Err CorruptStore)
    | Some contents => store_put Contact PAIRING_KEY contents s
    end.

Definition valid_state_shape (n : PairingSnapshot) : bool :=
  match sn_state n with
  | Idle | InviteCreated => bool_decide (sn_peer n = None)
  | Verified | Established =>
    match sn_peer n with Some peer => valid_verified_peer peer | None => false end
  | Rejected => bool_decide (sn_peer n = None)
  end.

Definition pairing_restore (local_account_id local_device_id : string) (s : S)
  : result PairingSession StorageError :=
  let session := pairing_new local_account_id local_device_id in
  match store_get s Contact PAIRING_KEY with
  | None => Ok session
  | Some contents =>
    let? n := ok_or (json_from_slice contents) CorruptStore in
    if (PAIRING_SNAPSHOT_VERSION <? sn_schema_version n)%N then Err CorruptStore
    else if negb (valid_state_shape n)
            || (sn_safety_verified n
                && match sn_state n with Verified | Established => false | _ => true end)
    then Err CorruptStore
    else Ok (set_pairing (sn_state n) (sn_peer n) (sn_safety_verified n) session)
  end.
End pairing.

(** ** Runs *)

Inductive PairingOp :=
| OpMarkInviteCreated
| OpVerifyPeer (peer : VerifiedInvite) (now : N)
| OpApprove (now : N)
| OpConfirmSafety (value : string)
| OpUnverifySafety
| OpReject
| OpInvalidateBinding.

Section runs.
Context `{Crypto, UriParser}.

Definition pairing_apply (op : PairingOp) : Mut PairingSession unit PairingError :=
  match op with
  | OpMarkInviteCreated => mark_invite_created
  | OpVerifyPeer peer now => verify_peer peer now
  | OpApprove now => approve now
  | OpConfirmSafety value => confirm_safety value
  | OpUnverifySafety => unverify_safety
  | OpReject => reject
  | OpInvalidateBinding => invalidate_binding
  end.

Inductive pairing_step : relation PairingSession :=
| pairing_step_op op s : pairing_step s (pairing_apply op s).1.

(** A session knows a peer while it is verified or established: a well-formed one, of
    another account; an idle or rejected session knows none and has nothing verified. *)
Record pairing_inv (s : PairingSession) : Prop := {
  pv_peer : ∀ p, ps_peer s = Some p →
    valid_verified_peer p = true ∧ vi_account_id p ≠ ps_local_account_id s;
  pv_known : ps_state s = Verified ∨ ps_state s = Established → is_Some (ps_peer s);
  pv_none : ps_state s = Idle ∨ ps_state s = Rejected →
    ps_peer s = None ∧ ps_safety_verified s = false;
}.

Lemma pairing_new_inv a d : pairing_inv (pairing_new a d).
Proof using Type. split; cbn; [done| |done]. by intros [?|?]. Qed.

Lemma set_pairing_none_inv s : pairing_inv (set_pairing Rejected None false s).
Proof using Type. split; cbn; [done| |done]. by intros [?|?]. Qed.

Lemma set_pairing_known_inv st p v s :
  st = Verified ∨ st = Established → valid_verified_peer p = true →
  vi_account_id p ≠ ps_local_account_id s → pairing_inv (set_pairing st (Some p) v s).
Proof using Type.
  intros Hst Hv Hne. split; cbn; [by intros ? [= <-]|by eauto|]. intros [->| ->]; naive_solver.
Qed.

Lemma pairing_apply_inv op s : pairing_inv s → pairing_inv (pairing_apply op s).1.
Proof using Type.
  intros Hi. destruct op; cbn [pairing_apply].
  - unfold mark_invite_created. destruct Hi as [Hp Hk Hn].
    destruct (ps_state s) eqn:Es; cbn [fst]; split; cbn; rewrite ?Es; try done; naive_solver.
  - unfold verify_peer. destruct (valid_verified_peer peer) eqn:Hv; cbn [negb]; [|done].
    destruct (seqb _ (ps_local_account_id s)) eqn:Hself; [done|].
    unfold seqb in Hself. apply bool_decide_eq_false in Hself.
    destruct (_ <=? now)%N; [done|].
    destruct (ps_state s); cbn [fst]; try done; try (apply set_pairing_known_inv; auto; done).
    destruct (ps_peer s); [|done]. case_match; [done|]. apply set_pairing_known_inv; auto.
  - unfold approve. destruct (ps_peer s) as [p|] eqn:Ep; [|done]. case_match; [done|].
    case_match; [done|]. case_match; [done|]. cbn [fst]. destruct (pv_peer s Hi p Ep).
    apply set_pairing_known_inv; auto.
  - unfold confirm_safety. case_match eqn:E1; [done|]. case_match; [done|]. cbn [fst].
    destruct Hi as [Hp Hk Hn]. split; cbn; [done..|]. intros Hst. exfalso.
    rewrite negb_false_iff, orb_true_iff, andb_true_iff, !bool_decide_eq_true in E1.
    destruct Hst as [Hst|Hst]; rewrite Hst in E1; naive_solver.
  - unfold unverify_safety. case_match eqn:E1; [done|]. cbn [fst]. destruct Hi as [Hp Hk Hn].
    split; cbn; [done..|]. intros Hst. split; [|done]. by apply Hn.
  - unfold reject. destruct (ps_state s); cbn [fst]; try done; apply set_pairing_none_inv.
  - unfold invalidate_binding. case_match; [done|]. apply set_pairing_none_inv.
Qed.

Lemma pairing_apply_local op s :
  ps_local_account_id (pairing_apply op s).1 = ps_local_account_id s ∧
  ps_local_device_id (pairing_apply op s).1 = ps_local_device_id s.
Proof using Type.
  destruct op; cbn [pairing_apply]; unfold mark_invite_created, verify_peer, approve,
    confirm_safety, unverify_safety, reject, invalidate_binding; repeat case_match; done.
Qed.
End runs.

(** ** The safety number *)

Lemma string_le_total a b : String.le a b ∨ String.le b a.
Proof. destruct (total String.le a b); auto. Qed.

Lemma sorted_pair_comm a b : sorted_pair a b = sorted_pair b a.
Proof.
  unfold sorted_pair. destruct (decide (String.le a b)) as [H1|H1], (decide (String.le b a)) as [H2|H2];
    rewrite ?(bool_decide_true _ H1), ?(bool_decide_true _ H2), ?(bool_decide_false _ H1),
      ?(bool_decide_false _ H2); try done.
  - by rewrite (anti_symm String.le a b H1 H2).
  - by destruct (string_le_total a b).
Qed.

Lemma sorted_pair_line a b :
  line_ok a = true → line_ok b = true →
  line_ok (sorted_pair a b).1 = true ∧ line_ok (sorted_pair a b).2 = true.
Proof. unfold sorted_pair. by case_bool_decide. Qed.

Lemma safety_transcript_inj a1 a2 d1 d2 a1' a2' d1' d2' :
  Forall (λ s, line_ok s = true) [a1; a2; d1; d2; a1'; a2'; d1'; d2'] →
  safety_transcript (a1, a2) (d1, d2) = safety_transcript (a1', a2') (d1', d2') →
  (a1, a2) = (a1', a2') ∧ (d1, d2) = (d1', d2').
Proof.
  rewrite !Forall_cons, Forall_nil. intros (?&?&?&?&?&?&?&?&_) E. unfold safety_transcript in E.
  cbn [fst snd] in E. apply (f_equal (split 10)) in E.
  rewrite !lines_split in E by
    (try done; repeat (apply Forall_cons_2; [rewrite ?line_ok_app, ?andb_true_iff; done|]); done).
  injection E as E1 E2 E3 E4.
  change (a1 = a1') in E1. change (a2 = a2') in E2. change (d1 = d1') in E3. change (d2 = d2') in E4.
  by subst.
Qed.

Lemma identifier_line value :
  is_ok (validate_protocol_identifier value) = true → line_ok value = true.
Proof.
  unfold validate_protocol_identifier, is_ascii, line_ok. case_match eqn:E; [done|]. intros _.
  rewrite !orb_false_iff, negb_false_iff in E. destruct E as [[_ Ha] Hc].
  rewrite forallb_forall in Ha |- *. intros b Hb. unfold line_byte. rewrite (Ha b Hb). cbn.
  destruct (byte_n b =? 10)%N eqn:E10; [|done]. apply N.eqb_eq in E10.
  enough (existsb is_ascii_control (as_bytes value) = true) by congruence.
  apply existsb_exists. exists b. split; [done|]. unfold is_ascii_control. by rewrite E10.
Qed.

Section theorems.
Context `{Crypto, UriParser}.

(** [t] is the session of the other side: each has the other as its peer. *)
Definition mirrored (s t : PairingSession) : Prop :=
  ∃ p q, ps_peer s = Some p ∧ ps_peer t = Some q ∧
    vi_account_id p = ps_local_account_id t ∧ vi_device_id p = ps_local_device_id t ∧
    vi_account_id q = ps_local_account_id s ∧ vi_device_id q = ps_local_device_id s.

Definition session_accounts (s : PairingSession) : option (string * string) :=
  (λ p, sorted_pair (ps_local_account_id s) (vi_account_id p)) <$> ps_peer s.
Definition session_devices (s : PairingSession) : option (string * string) :=
  (λ p, sorted_pair (ps_local_device_id s) (vi_device_id p)) <$> ps_peer s.

(** What the safety number of a session is the digest of. *)
Definition session_transcript (s : PairingSession) : option bytes :=
  (λ p, as_bytes (safety_transcript (sorted_pair (ps_local_account_id s) (vi_account_id p))
                    (sorted_pair (ps_local_device_id s) (vi_device_id p)))) <$> ps_peer s.
(** The transcripts of these two sessions are a collision of SHA-256. *)
Definition transcripts_collide (s t : PairingSession) : Prop :=
  ∃ x y, session_transcript s = Some x ∧ session_transcript t = Some y ∧ x ≠ y ∧ sha256 x = sha256 y.

(** The identities of a session are protocol identifiers. *)
Definition session_ids_ok (s : PairingSession) : Prop :=
  is_ok (validate_protocol_identifier (ps_local_account_id s)) = true ∧
  is_ok (validate_protocol_identifier (ps_local_device_id s)) = true ∧
  ∀ p, ps_peer s = Some p → valid_verified_peer p = true.

Lemma valid_verified_peer_ids p :
  valid_verified_peer p = true →
  line_ok (vi_account_id p) = true ∧ line_ok (vi_device_id p) = true.
Proof using Type.
  unfold valid_verified_peer. rewrite !andb_true_iff. intros [[[[Ha Hd] _] _] _].
  split; by apply identifier_line.
Qed.

Lemma safety_number_transcript s t n :
  session_ids_ok s → session_ids_ok t → safety_number s = Some n → safety_number t = Some n →
  (session_accounts s = session_accounts t ∧ session_devices s = session_devices t)
  ∨ transcripts_collide s t.
Proof using Type.
  intros (Ha & Hd & Hp) (Ha' & Hd' & Hp'). unfold safety_number, session_accounts, session_devices.
  unfold transcripts_collide, session_transcript. destruct (ps_peer s) as [p|]; [|done]. destruct (ps_peer t) as [q|]; [|done].
  destruct (valid_verified_peer_ids p (Hp p eq_refl)) as [Hpa Hpd].
  destruct (valid_verified_peer_ids q (Hp' q eq_refl)) as [Hqa Hqd].
  apply identifier_line in Ha, Hd, Ha', Hd'. cbn [fmap option_fmap option_map].
  pose proof (sorted_pair_line _ _ Ha Hpa) as [L1 L2].
  pose proof (sorted_pair_line _ _ Hd Hpd) as [L3 L4].
  pose proof (sorted_pair_line _ _ Ha' Hqa) as [L5 L6].
  pose proof (sorted_pair_line _ _ Hd' Hqd) as [L7 L8].
  destruct (sorted_pair _ _) as [a1 a2], (sorted_pair (ps_local_device_id s) _) as [d1 d2],
    (sorted_pair (ps_local_account_id t) _) as [a1' a2'],
    (sorted_pair (ps_local_device_id t) _) as [d1' d2'].
  intros E1 E2. rewrite <-E2 in E1.
  apply (inj Some) in E1. apply (f_equal as_bytes) in E1. rewrite !as_bytes_app in E1.
  apply app_inv_head in E1. unfold hex_bytes in E1. rewrite !as_of_bytes in E1.
  apply (inj hex_b) in E1.
  destruct (decide (as_bytes (safety_transcript (a1, a2) (d1, d2))
                    = as_bytes (safety_transcript (a1', a2') (d1', d2')))) as [Et|Ht].
  - left. apply (inj as_bytes) in Et. apply safety_transcript_inj in Et as [-> ->]; [done|].
    by repeat apply Forall_cons_2.
  - right. by eexists _, _.
Qed.

(** C25. The two sides of a pairing compute the same safety number; and two sessions that show
    the same number are about the same two accounts and the same two devices, unless
    their two transcripts are different texts with the same SHA-256. *)
Theorem pairing_safety_number_identifies s t :
  (mirrored s t → safety_number s = safety_number t) ∧
  (session_ids_ok s → session_ids_ok t → safety_number s = safety_number t →
   is_Some (safety_number s) →
   (session_accounts s = session_accounts t ∧ session_devices s = session_devices t)
   ∨ transcripts_collide s t).
Proof using Type.
  split.
  - intros (p & q & Hp & Hq & E1 & E2 & E3 & E4). unfold safety_number.
    rewrite Hp, Hq, E1, E2, E3, E4. cbn zeta.
    by rewrite (sorted_pair_comm (ps_local_account_id s)), (sorted_pair_comm (ps_local_device_id s)).
  - intros Hs Ht E [n Hn]. apply (safety_number_transcript s t n); congruence.
Qed.

(** ** What messaging requires *)

Definition pairing_run (ops : list PairingOp) (s : PairingSession) : PairingSession :=
  foldl (λ s op, (pairing_apply op s).1) s ops.

Lemma pairing_run_app ops ops' s : pairing_run (ops ++ ops') s = pairing_run ops' (pairing_run ops s).
Proof using Type. apply foldl_app. Qed.

Lemma pairing_run_inv ops a d : pairing_inv (pairing_run ops (pairing_new a d)).
Proof using Type.
  induction ops as [|op ops IH] using rev_ind; [apply pairing_new_inv|].
  rewrite pairing_run_app. by apply pairing_apply_inv.
Qed.

Lemma pairing_run_local ops a d :
  ps_local_account_id (pairing_run ops (pairing_new a d)) = a ∧
  ps_local_device_id (pairing_run ops (pairing_new a d)) = d.
Proof using Type.
  induction ops as [|op ops IH] using rev_ind; [done|]. rewrite pairing_run_app. cbn [pairing_run foldl].
  by destruct (pairing_apply_local op (pairing_run ops (pairing_new a d))) as [-> ->].
Qed.

(** The safety number of the peer of the moment was confirmed during the run. *)
Definition compared (ops : list PairingOp) (s : PairingSession) : Prop :=
  ∃ before value after, ops = before ++ OpConfirmSafety value :: after ∧
    safety_number (pairing_run before s) = Some (trim value).

(** Nothing gained yet: neither the flag nor the established state. *)
Definition unproven (s : PairingSession) : Prop :=
  ps_state s ≠ Established ∧ ps_safety_verified s = false.

Lemma pairing_apply_unproven op s :
  unproven s →
  unproven (pairing_apply op s).1 ∨
  ∃ value, op = OpConfirmSafety value ∧ safety_number s = Some (trim value).
Proof using Type.
  intros [Hst Hv]. unfold unproven.
  destruct op; cbn [pairing_apply];
    unfold mark_invite_created, verify_peer, approve, confirm_safety, unverify_safety, reject,
      invalidate_binding; rewrite ?Hv; cbn [negb];
    repeat case_match; cbn [fst ps_state ps_safety_verified set_pairing]; auto; try done;
    try (left; split; congruence).
  right. eexists. split; [done|]. by rewrite andb_true_l, negb_false_iff, bool_decide_eq_true in *.
Qed.

Lemma pairing_run_unproven ops s : unproven s → unproven (pairing_run ops s) ∨ compared ops s.
Proof using Type.
  intros Hs. induction ops as [|op ops IH] using rev_ind; [by left|].
  rewrite pairing_run_app. destruct IH as [IH|(b & v & a & -> & E)].
  - destruct (pairing_apply_unproven op _ IH) as [|(v & -> & E)]; [by left|].
    right. by exists ops, v, [].
  - right. exists b, v, (a ++ [op]). by rewrite <-app_assoc.
Qed.

(** C4. A new session may send messages only after a run in which the user confirmed the safety
    number of the peer the session had at that moment; and then the session is established
    with a well-formed peer of another account. *)
Theorem pairing_messaging_requires_comparison ops a d :
  can_message (pairing_run ops (pairing_new a d)) = true →
  compared ops (pairing_new a d) ∧
  ∃ p, ps_peer (pairing_run ops (pairing_new a d)) = Some p ∧ valid_verified_peer p = true ∧
    vi_account_id p ≠ ps_local_account_id (pairing_run ops (pairing_new a d)).
Proof using Type.
  unfold can_message. rewrite andb_true_iff, bool_decide_eq_true. intros [Hst Hv].
  pose proof (pairing_run_inv ops a d) as Hi. split.
  - destruct (pairing_run_unproven ops (pairing_new a d)) as [[? ?]|]; [by split|congruence|done].
  - destruct (pv_known _ Hi (or_intror Hst)) as [p Hp]. exists p.
    by destruct (pv_peer _ Hi p Hp).
Qed.

(** C26. The flag belongs to the session, not to the peer: in an established session whose user
    has withdrawn the verification, verifying the invite of a further account makes that
    account the peer and sets the flag again, with no comparison. *)
Theorem pairing_new_peer_inherits_safety s p q now :
  can_message s = true → ps_peer s = Some p → valid_verified_peer q = true →
  vi_account_id q ≠ ps_local_account_id s → vi_account_id q ≠ vi_account_id p →
  (now < vi_expires_at q)%N →
  can_message (pairing_run [OpUnverifySafety] s) = false ∧
  can_message (pairing_run [OpUnverifySafety; OpVerifyPeer q now] s) = true ∧
  ps_peer (pairing_run [OpUnverifySafety; OpVerifyPeer q now] s) = Some q.
Proof using Type.
  unfold can_message. rewrite andb_true_iff, bool_decide_eq_true.
  intros [Hst Hv] Hp Hq Hl Hne Hnow.
  assert (pairing_run [OpUnverifySafety] s = set_pairing Established (Some p) false s) as E.
  { cbn. unfold unverify_safety. by rewrite Hst, Hv, Hp, bool_decide_true. }
  assert (pairing_run [OpUnverifySafety; OpVerifyPeer q now] s
          = set_pairing Established (Some q) true s) as ->.
  { change [OpUnverifySafety; OpVerifyPeer q now] with ([OpUnverifySafety] ++ [OpVerifyPeer q now]).
    rewrite pairing_run_app, E. cbn. unfold verify_peer. rewrite Hq. cbn.
    unfold seqb. rewrite (bool_decide_false _ Hl), (proj2 (N.leb_gt _ _) Hnow).
    by rewrite bool_decide_false by congruence. }
  by rewrite E.
Qed.

(** ** Restart *)

Context `{JsonRoundTrip PairingSnapshot} {S : Type} `{RecordStoreLaws S}.

(** An invite is out and the peer of an earlier pairing is still there. *)
Definition stale_invite (s : PairingSession) : bool :=
  bool_decide (ps_state s = InviteCreated)
  && (bool_decide (is_Some (ps_peer s)) || ps_safety_verified s).

(** What a restart makes of a session that was persisted. *)
Lemma pairing_restore_persisted s st st' :
  pairing_inv s → store_inv st → pairing_persist s st = (st', Ok tt) →
  pairing_restore (ps_local_account_id s) (ps_local_device_id s) st'
  = if stale_invite s then Err CorruptStore else Ok s.
Proof using All.
  intros Hi Hinv. unfold pairing_persist, pairing_restore.
  destruct (json_to_vec (snapshot s)) as [b|] eqn:Ej; [|done]. intros Hput.
  rewrite (store_put_ok _ _ _ _ _ Hinv Hput), view_update_eq, (json_roundtrip _ _ Ej).
  cbn [ok_or result_bind sn_schema_version snapshot]. cbn [N.ltb N.compare].
  assert (set_pairing (ps_state s) (ps_peer s) (ps_safety_verified s)
            (pairing_new (ps_local_account_id s) (ps_local_device_id s)) = s) as Es
    by (destruct s; reflexivity).
  unfold stale_invite, valid_state_shape. cbn [sn_state sn_peer sn_safety_verified snapshot].
  destruct Hi as [Hp Hk Hn], (ps_state s) eqn:Est; cbn.
  all: rewrite ?Es; try (destruct Hn as [-> ->]; auto; done).
  - destruct (ps_peer s) eqn:Ep; [by destruct (ps_safety_verified s)|].
    destruct (ps_safety_verified s); by rewrite ?Es.
  - destruct Hk as [p Ep]; [auto|]. rewrite Ep in *. destruct (Hp p eq_refl) as [-> _].
    cbn. by rewrite andb_false_r.
  - destruct Hk as [p Ep]; [auto|]. rewrite Ep in *. destruct (Hp p eq_refl) as [-> _].
    cbn. by rewrite andb_false_r.
Qed.

(** A session that was persisted comes back from a restart exactly as it was, except when an
    invite was created while the pairing was established: that session is written, and
    refused as a corrupt store by the restart. *)
Theorem pairing_restart ops a d st st' :
  let s := pairing_run ops (pairing_new a d) in
  store_inv st → pairing_persist s st = (st', Ok tt) →
  pairing_restore a d st' = if stale_invite s then Err CorruptStore else Ok s.
Proof using All.
  intros s Hinv Hput. destruct (pairing_run_local ops a d) as [El Ed].
  pose proof (pairing_restore_persisted _ _ _ (pairing_run_inv ops a d) Hinv Hput) as Hr.
  by rewrite El, Ed in Hr.
Qed.
End theorems.

(** ** Samples *)

Module PairingSample.
Import Reference.

Definition peer (account : string) : VerifiedInvite :=
  {| vi_account_id := account; vi_device_id := "device-1"; vi_expires_at := 1000;
     vi_relay_origin := "https://relay.test"; vi_inbox_url := None; vi_conversation_id := None |}.
Definition alice : PairingSession := (verify_peer (peer "bob") 10 (pairing_new "alice" "device-1")).1.
Definition bob : PairingSession := (verify_peer (peer "alice") 10 (pairing_new "bob" "device-1")).1.

(** The number Alice reads to Bob. *)
Definition spoken : string := default EmptyString (safety_number alice).
Definition ops : list PairingOp :=
  [OpMarkInviteCreated; OpVerifyPeer (peer "bob") 10; OpConfirmSafety spoken; OpApprove 11].

Lemma pairing_safety_number_identifies_witness : safety_number alice = safety_number bob.
Proof.
  apply (proj1 (pairing_safety_number_identifies alice bob)).
  by exists (peer "bob"), (peer "alice").
Defined.

Lemma pairing_messaging_requires_comparison_witness :
  compared ops (pairing_new "alice" "device-1").
Proof.
  apply (pairing_messaging_requires_comparison ops "alice" "device-1"). vm_compute. reflexivity.
Defined.

Lemma pairing_new_peer_inherits_safety_witness :
  ps_peer (pairing_run [OpUnverifySafety; OpVerifyPeer (peer "carol") 20]
             (pairing_run ops (pairing_new "alice" "device-1"))) = Some (peer "carol").
Proof.
  apply (pairing_new_peer_inherits_safety _ (peer "bob") (peer "carol") 20);
    vm_compute; (reflexivity || discriminate).
Defined.

(** A further invite is created while the pairing is established. *)
Definition stale_ops : list PairingOp := ops ++ [OpMarkInviteCreated].
Abbreviation stale := (pairing_run stale_ops (pairing_new "alice" "device-1")).
Abbreviation st0 := (StorageProps.Sample.store0, StorageProps.Sample.world1).

#[local] Instance codec : JsonCodec PairingSnapshot := json_table [snapshot stale].
#[local] Instance codec_laws : JsonRoundTrip PairingSnapshot := json_table_laws [snapshot stale].

Lemma persist_stale : pairing_persist stale st0 = ((pairing_persist stale st0).1, Ok tt).
Proof.
  assert ((pairing_persist stale st0).2 = Ok tt) as <- by (vm_compute; reflexivity).
  apply surjective_pairing.
Qed.

Lemma pairing_restart_witness :
  pairing_restore "alice" "device-1" (pairing_persist stale st0).1 = Err CorruptStore.
Proof.
  pose proof (pairing_restart stale_ops "alice" "device-1" st0 (pairing_persist stale st0).1) as E.
  cbv zeta in E. rewrite (E StorageProps.Sample.sample_store_inv persist_stale).
  vm_compute. reflexivity.
Defined.
End PairingSample.
