(* ===== verification/Contacts.v ===== *)
(** * The contact directory ([apps/daemon/src/contacts.rs])

    The daemon's contacts, a map from account identifiers that lives in one record of the
    store: its operations, and the check its restart makes of every contact. *)
From Stdlib Require Import Ascii NArith Lia ZifyBool ZifyN.
From stdpp Require Import base gmap strings list.
From S2P Require Import Prelude Text Collections Interfaces ProtocolGate StoreFormat RecordStore StorageLaws StorageProps.

Definition DIRECTORY_VERSION : N := 1.
Definition MAX_ALIAS_BYTES : N := 128.
Definition MAX_PREVIEW_BYTES : N := 4 * 1024.
Definition MAX_CONTACTS : N := MAX_RECORDS.

Record ContactRecord := {
  ct_account_id : string;
  ct_device_id : string;
  ct_relay_origin : string;
  ct_inbox_url : option string;
  ct_alias : option string;
  ct_state : string;
  ct_conversation_id : option string;
  ct_last_message_preview : option string;
  ct_last_message_at : option N;
  ct_unread_count : N;
}.
#[export] Instance ContactRecord_eq_dec : EqDecision ContactRecord.
Proof. solve_decision. Defined.

(** [ContactDirectory]: the one field of the struct. *)
Abbreviation ContactDirectory := (gmap string ContactRecord).

Record DirectorySnapshot := { ds_version : N; ds_contacts : gmap string ContactRecord }.
#[export] Instance DirectorySnapshot_eq_dec : EqDecision DirectorySnapshot.
Proof. solve_decision. Defined.

Inductive ContactDirectoryError :=
| DuplicateDevice | ContactNotFound | InvalidAlias | Corrupt | InvalidState.

Definition contacts_new : ContactDirectory := ∅.

(** Field updates. *)
Definition set_alias_field (v : option string) (c : ContactRecord) : ContactRecord :=
  {| ct_account_id := ct_account_id c; ct_device_id := ct_device_id c;
     ct_relay_origin := ct_relay_origin c; ct_inbox_url := ct_inbox_url c; ct_alias := v;
     ct_state := ct_state c; ct_conversation_id := ct_conversation_id c;
     ct_last_message_preview := ct_last_message_preview c;
     ct_last_message_at := ct_last_message_at c; ct_unread_count := ct_unread_count c |}.
Definition set_state_field (v : string) (c : ContactRecord) : ContactRecord :=
  {| ct_account_id := ct_account_id c; ct_device_id := ct_device_id c;
     ct_relay_origin := ct_relay_origin c; ct_inbox_url := ct_inbox_url c; ct_alias := ct_alias c;
     ct_state := v; ct_conversation_id := ct_conversation_id c;
     ct_last_message_preview := ct_last_message_preview c;
     ct_last_message_at := ct_last_message_at c; ct_unread_count := ct_unread_count c |}.
Definition set_conversation_field (v : option string) (c : ContactRecord) : ContactRecord :=
  {| ct_account_id := ct_account_id c; ct_device_id := ct_device_id c;
     ct_relay_origin := ct_relay_origin c; ct_inbox_url := ct_inbox_url c; ct_alias := ct_alias c;
     ct_state := ct_state c; ct_conversation_id := v;
     ct_last_message_preview := ct_last_message_preview c;
     ct_last_message_at := ct_last_message_at c; ct_unread_count := ct_unread_count c |}.
(** The last message of a contact, and its unread count. *)
Definition set_activity (preview : option string) (at_ : option N) (unread : N) (c : ContactRecord)
  : ContactRecord :=
  {| ct_account_id := ct_account_id c; ct_device_id := ct_device_id c;
     ct_relay_origin := ct_relay_origin c; ct_inbox_url := ct_inbox_url c; ct_alias := ct_alias c;
     ct_state := ct_state c; ct_conversation_id := ct_conversation_id c;
     ct_last_message_preview := preview; ct_last_message_at := at_; ct_unread_count := unread |}.

(** [self.contacts.get_mut(account_id).ok_or(ContactNotFound)?], changed by [f]. *)
Definition with_contact (account_id : string) (f : ContactRecord → ContactRecord)
  : Mut ContactDirectory unit ContactDirectoryError :=
  λ d,
    match d !! account_id with
    | None => (d, Err ContactNotFound)
    | Some c => (<[account_id := f c]> d, Ok tt)
    end.

Definition upsert_verified_with_inbox (account_id device_id relay_origin : string)
    (inbox_url : option string) (now : N) : Mut ContactDirectory unit ContactDirectoryError :=
  λ d,
    let existing := d !! account_id in
    if match existing with
       | Some c => negb (seqb (ct_device_id c) device_id)
       | None => false
       end
    then (d, Err DuplicateDevice)
    else
      let contact :=
        {| ct_account_id := account_id;
           ct_device_id := device_id;
           ct_relay_origin := relay_origin;
           ct_inbox_url :=
             match inbox_url with Some u => Some u | None => existing ≫= ct_inbox_url end;
           ct_alias := existing ≫= ct_alias;
           ct_state := from_option ct_state "verified" existing;
           ct_conversation_id := existing ≫= ct_conversation_id;
           ct_last_message_preview := existing ≫= ct_last_message_preview;
           ct_last_message_at := existing ≫= ct_last_message_at;
           ct_unread_count := from_option ct_unread_count 0%N existing |} in
      let d := <[account_id := contact]> d in
      match d !! account_id with
      | Some c =>
        (<[account_id :=
            set_activity (ct_last_message_preview c)
              (Some (default now (ct_last_message_at c))) (ct_unread_count c) c]> d, Ok tt)
      | None => (d, Ok tt)
      end.

Definition upsert_verified (account_id device_id relay_origin : string) (now : N)
  : Mut ContactDirectory unit ContactDirectoryError :=
  upsert_verified_with_inbox account_id device_id relay_origin None now.

Definition set_alias (account_id alias : string)
  : Mut ContactDirectory unit ContactDirectoryError :=
  λ d,
    if (MAX_ALIAS_BYTES <? slen alias)%N || existsb char_is_control (chars alias)
    then (d, Err InvalidAlias)
    else
      with_contact account_id
        (set_alias_field (if negb (is_empty_str (trim alias)) then Some (trim alias) else None)) d.

(** [list]. *)
Definition contacts_list (d : ContactDirectory) : list ContactRecord := btree_values d.

Definition in_conversation (conversation_id : string) (c : ContactRecord) : bool :=
  bool_decide (ct_conversation_id c = Some conversation_id).

Definition for_conversation (d : ContactDirectory) (conversation_id : string)
  : option ContactRecord :=
  find_first (in_conversation conversation_id) (btree_values d).

Definition bind_conversation (account_id conversation_id : string)
  : Mut ContactDirectory unit ContactDirectoryError :=
  λ d,
    match d !! account_id with
    | None => (d, Err ContactNotFound)
    | Some c =>
      if is_empty_str conversation_id || (128 <? slen conversation_id)%N
         || negb (is_ascii conversation_id)
      then (d, Err InvalidAlias)
      else (<[account_id := set_conversation_field (Some conversation_id) c]> d, Ok tt)
    end.

Definition mark_read (account_id : string) : Mut ContactDirectory unit ContactDirectoryError :=
  with_contact account_id
    (λ c, set_activity (ct_last_message_preview c) (ct_last_message_at c) 0 c).

Definition mark_unread (account_id : string) (now : N)
  : Mut ContactDirectory unit ContactDirectoryError :=
  with_contact account_id
    (λ c, set_activity (ct_last_message_preview c) (Some now)
            (u32_saturating_add (ct_unread_count c) 1) c).

Definition block (account_id : string) : Mut ContactDirectory unit ContactDirectoryError :=
  with_contact account_id (set_state_field "blocked").

Definition unblock (account_id : string) : Mut ContactDirectory unit ContactDirectoryError :=
  with_contact account_id (set_state_field "verified").

Definition remove (account_id : string)
  : Mut ContactDirectory ContactRecord ContactDirectoryError :=
  λ d, (delete account_id d, ok_or (d !! account_id) ContactNotFound).

Definition is_blocked_conversation (d : ContactDirectory) (conversation_id : string) : bool :=
  existsb (λ c, seqb (ct_state c) "blocked" && in_conversation conversation_id c) (btree_values d).

(** [values_mut().find(..)]: the first contact of the conversation, in key order. *)
Definition record_message (conversation_id preview : string) (now : N) (background : bool)
  : Mut ContactDirectory unit ContactDirectoryError :=
  λ d,
    match find_first (λ p, in_conversation conversation_id p.2) (btree_iter d) with
    | None => (d, Err ContactNotFound)
    | Some (key, c) =>
      let unread :=
        if background then u32_saturating_add (ct_unread_count c) 1 else 0%N in
      (<[key := set_activity (Some preview) (Some now) unread c]> d, Ok tt)
    end.

Definition valid_bound_inbox (origin value : string) : bool :=
  starts_with (origin +:+ "/api/v1/inbox/") value
  && (slen value <=? 2 * 1024)%N
  && negb (contains_byte 63 value)
  && (let capability := last_field 47 value in
      (slen capability =? 43)%N && forallb is_url_safe (as_bytes capability)).

Definition valid_relay_origin (value : string) : bool :=
  match split_once "://" value with
  | None => false
  | Some (scheme, authority) =>
    (seqb scheme "http" || seqb scheme "https")
    && negb (is_empty_str authority)
    && (slen authority <=? 2 * 1024)%N
    && negb (contains_byte 47 authority) && negb (contains_byte 64 authority)
    && negb (contains_byte 63 authority) && negb (contains_byte 35 authority)
    && negb (existsb (λ c, char_is_whitespace c || char_is_control c) (chars authority))
  end.

Definition valid_conversation_id (value : string) : bool :=
  negb (is_empty_str value) && (slen value <=? 128)%N && forallb is_url_safe (as_bytes value).

(** [Option::is_none_or]. *)
Definition is_none_or {A} (p : A → bool) (o : option A) : bool :=
  match o with Some a => p a | None => true end.

Definition valid_persisted_contact (key : string) (c : ContactRecord) : bool :=
  seqb key (ct_account_id c)
  && is_ok (validate_protocol_identifier (ct_account_id c))
  && is_ok (validate_protocol_identifier (ct_device_id c))
  && valid_relay_origin (ct_relay_origin c)
  && is_none_or (valid_bound_inbox (ct_relay_origin c)) (ct_inbox_url c)
  && (seqb (ct_state c) "verified" || seqb (ct_state c) "blocked")
  && is_none_or (λ v, (slen v <=? MAX_ALIAS_BYTES)%N && negb (existsb char_is_control (chars v)))
       (ct_alias c)
  && is_none_or valid_conversation_id (ct_conversation_id c)
  && is_none_or (λ v, (slen v <=? MAX_PREVIEW_BYTES)%N) (ct_last_message_preview c).

Section persistence.
Context `{JsonCodec DirectorySnapshot} {S : Type} `{RecordStore S}.

Definition CONTACTS_KEY : string := "contacts/directory".

Definition snapshot_bytes (d : ContactDirectory) : result bytes StorageError :=
  ok_or (json_to_vec {| ds_version := DIRECTORY_VERSION; ds_contacts := d |}) CorruptStore.

Definition contacts_persist (d : ContactDirectory) : Mut S unit StorageError :=
  λ s,
    match snapshot_bytes d with
    | Err e => (s, Err e)
    | Ok contents => store_put Contact CONTACTS_KEY contents s
    end.

Definition contacts_restore (s : S) : result ContactDirectory StorageError :=
  match store_get s Contact CONTACTS_KEY with
  | None => Ok contacts_new
  | Some contents =>
    let? n := ok_or (json_from_slice contents) CorruptStore in
    if negb (ds_version n =? DIRECTORY_VERSION)%N then Err CorruptStore
    else if (MAX_CONTACTS <? N.of_nat (size (ds_contacts n)))%N
            || existsb (λ p, negb (valid_persisted_contact p.1 p.2)) (btree_iter (ds_contacts n))
    then Err CorruptStore
    else Ok (ds_contacts n)
  end.
End persistence.

(** ** Runs *)

Inductive ContactOp :=
| OpUpsert (account_id device_id relay_origin : string) (inbox_url : option string) (now : N)
| OpSetAlias (account_id alias : string)
| OpBind (account_id conversation_id : string)
| OpMarkRead (account_id : string)
| OpMarkUnread (account_id : string) (now : N)
| OpBlock (account_id : string)
| OpUnblock (account_id : string)
| OpRemove (account_id : string)
| OpRecordMessage (conversation_id preview : string) (now : N) (background : bool).

Definition forget {S A E} (m : Mut S A E) : Mut S unit E :=
  λ s, ((m s).1, let? _ := (m s).2 in Ok tt).

Definition contact_apply (op : ContactOp) : Mut ContactDirectory unit ContactDirectoryError :=
  match op with
  | OpUpsert a d o i now => upsert_verified_with_inbox a d o i now
  | OpSetAlias a v => set_alias a v
  | OpBind a c => bind_conversation a c
  | OpMarkRead a => mark_read a
  | OpMarkUnread a now => mark_unread a now
  | OpBlock a => block a
  | OpUnblock a => unblock a
  | OpRemove a => forget (remove a)
  | OpRecordMessage c p now b => record_message c p now b
  end.

Definition contacts_run (ops : list ContactOp) (d : ContactDirectory) : ContactDirectory :=
  foldl (λ d op, (contact_apply op d).1) d ops.

(** *** A blocked contact *)

(** What the run must not do for a contact to stay blocked in its conversation. *)
Definition releases (a : string) (op : ContactOp) : Prop :=
  match op with
  | OpUnblock a' | OpRemove a' | OpBind a' _ => a' = a
  | _ => False
  end.

Definition blocked_in (a conversation_id : string) (d : ContactDirectory) : Prop :=
  ∃ c, d !! a = Some c ∧ ct_state c = "blocked" ∧ ct_conversation_id c = Some conversation_id.

Lemma blocked_in_insert a conv d k f c :
  blocked_in a conv d → d !! k = Some c →
  (k = a → ct_state c = "blocked" → ct_conversation_id c = Some conv →
   ct_state (f c) = "blocked" ∧ ct_conversation_id (f c) = Some conv) →
  blocked_in a conv (<[k := f c]> d).
Proof.
  intros (c' & Hc' & Hs & Hv) Hk Hf. destruct (decide (k = a)) as [->|Hne].
  - rewrite Hk in Hc'. simplify_eq. exists (f c'). rewrite lookup_insert_eq.
    by destruct (Hf eq_refl Hs Hv).
  - exists c'. by rewrite lookup_insert_ne.
Qed.

Lemma blocked_in_with_contact a conv d k f :
  blocked_in a conv d →
  (k = a → ∀ c, ct_state c = "blocked" → ct_conversation_id c = Some conv →
   ct_state (f c) = "blocked" ∧ ct_conversation_id (f c) = Some conv) →
  blocked_in a conv (with_contact k f d).1.
Proof.
  intros Hb Hf. unfold with_contact. destruct (d !! k) as [c|] eqn:Hk; [|done].
  apply blocked_in_insert; auto.
Qed.

Lemma contact_apply_blocked a conv op d :
  ¬ releases a op → blocked_in a conv d → blocked_in a conv (contact_apply op d).1.
Proof.
  intros Hr Hb. destruct op; cbn [contact_apply releases] in *.
  - unfold upsert_verified_with_inbox. cbn zeta.
    match goal with |- context [if ?b then _ else _] => destruct b end; [done|].
    rewrite lookup_insert_eq. cbn [fst]. rewrite insert_insert_eq. destruct Hb as (c & Hc & Hs & Hv).
    destruct (decide (account_id = a)) as [->|Hne].
    + eexists. rewrite lookup_insert_eq. split; [done|]. by rewrite Hc.
    + exists c. by rewrite lookup_insert_ne.
  - unfold set_alias. case_match; [done|]. by apply blocked_in_with_contact.
  - unfold bind_conversation. destruct (d !! account_id) eqn:Hk; [|done]. case_match; [done|].
    apply blocked_in_insert; done.
  - by apply blocked_in_with_contact.
  - by apply blocked_in_with_contact.
  - by apply blocked_in_with_contact.
  - by apply blocked_in_with_contact.
  - destruct Hb as (c & Hc & ?). exists c. cbn. by rewrite lookup_delete_ne.
  - unfold record_message. destruct (find_first _ _) as [[k c]|] eqn:E; [|done].
    apply find_first_Some in E as (Hin & _). apply elem_of_btree_iter in Hin.
    cbn zeta. cbn [fst].
    apply (blocked_in_insert _ _ _ _ (set_activity (Some preview) (Some now) _)); done.
Qed.

Lemma blocked_in_conversation a conv d :
  blocked_in a conv d → is_blocked_conversation d conv = true.
Proof.
  intros (c & Hc & Hs & Hv). unfold is_blocked_conversation. apply existsb_exists. exists c.
  split; [apply list_elem_of_In, elem_of_btree_values; eauto|].
  unfold in_conversation. by rewrite Hs, Hv, seqb_refl, bool_decide_true.
Qed.

(** C27. Once a contact is blocked its conversation stays blocked through any sequence of directory
    operations (a renewed pairing and new messages included) that does not unblock, remove or
    rebind that contact. *)
Theorem contacts_block_is_sticky ops a conv d c :
  d !! a = Some c → ct_conversation_id c = Some conv → Forall (λ op, ¬ releases a op) ops →
  is_blocked_conversation (contacts_run (OpBlock a :: ops) d) conv = true.
Proof.
  intros Hc Hv Hops. apply (blocked_in_conversation a).
  assert (Hb : blocked_in a conv (contact_apply (OpBlock a) d).1).
  { cbn. unfold block, with_contact. rewrite Hc. eexists. cbn [fst]. by rewrite lookup_insert_eq. }
  cbn [contacts_run foldl]. revert Hb. generalize (contact_apply (OpBlock a) d).1. clear Hc.
  induction Hops as [|op ops Hop _ IH]; intros d' Hb; [done|]. apply IH.
  by apply contact_apply_blocked.
Qed.

(** *** Restart *)

(** The directories a restart accepts. *)
Definition restorable (d : ContactDirectory) : Prop :=
  (N.of_nat (size d) ≤ MAX_CONTACTS)%N ∧
  map_Forall (λ k c, valid_persisted_contact k c = true) d.
#[export] Instance restorable_dec d : Decision (restorable d).
Proof. unfold restorable. apply _. Defined.

(** The operations after which the directory can still be read back. *)
Definition contact_op_ok (op : ContactOp) (d : ContactDirectory) : bool :=
  match op with
  | OpUpsert a dev o i _ =>
    is_ok (validate_protocol_identifier a) && is_ok (validate_protocol_identifier dev)
    && valid_relay_origin o
    && is_none_or (valid_bound_inbox o)
         (match i with Some u => Some u | None => d !! a ≫= ct_inbox_url end)
    && (bool_decide (is_Some (d !! a)) || (N.of_nat (size d) <? MAX_CONTACTS)%N)
  | OpBind _ conv => valid_conversation_id conv
  | OpRecordMessage _ p _ _ => (slen p <=? MAX_PREVIEW_BYTES)%N
  | _ => true
  end.

(** A Rust string is valid UTF-8. *)
Definition contact_op_utf8 (op : ContactOp) : Prop :=
  match op with OpSetAlias _ v => utf8_valid (as_bytes v) = true | _ => True end.

Lemma restorable_update d k c c' :
  restorable d → d !! k = Some c → (restorable (<[k := c']> d) ↔ valid_persisted_contact k c' = true).
Proof.
  intros [Hs Hv] Hk. split.
  - intros [_ Hv']. apply Hv'. apply lookup_insert_eq.
  - intros Hc. split; [by rewrite map_size_insert_Some by eauto|].
    intros k' x. rewrite lookup_insert_Some. intros [[-> <-]|[_ ?]]; auto.
Qed.

Lemma restorable_add d k c' :
  restorable d → d !! k = None →
  (restorable (<[k := c']> d) ↔
   valid_persisted_contact k c' = true ∧ (N.of_nat (size d) < MAX_CONTACTS)%N).
Proof.
  intros [Hs Hv] Hk. unfold restorable. rewrite map_size_insert_None by done. split.
  - intros [? Hv']. split; [apply Hv'; apply lookup_insert_eq|lia].
  - intros [Hc ?]. split; [lia|]. intros k' x. rewrite lookup_insert_Some.
    intros [[-> <-]|[_ ?]]; auto.
Qed.

Lemma restorable_with_contact k f d :
  restorable d → (∀ c, valid_persisted_contact k c = true → valid_persisted_contact k (f c) = true) →
  restorable (with_contact k f d).1.
Proof.
  intros Hr Hf. unfold with_contact. destruct (d !! k) as [c|] eqn:Hk; [|done].
  apply (restorable_update d k c); [done..|]. apply Hf. by apply Hr.
Qed.

(** The checks on the fields that an update keeps carry over. *)
Ltac contact_fields :=
  unfold valid_persisted_contact in *;
  cbn [ct_account_id ct_device_id ct_relay_origin ct_inbox_url ct_alias ct_state ct_conversation_id
       ct_last_message_preview set_alias_field set_state_field set_conversation_field set_activity
       is_none_or] in *;
  rewrite !andb_true_iff in *; intuition.

Lemma valid_contact_bind k c conv :
  valid_persisted_contact k c = true →
  (valid_persisted_contact k (set_conversation_field (Some conv) c) = true ↔
   valid_conversation_id conv = true).
Proof. intros Hv. split; intros ?; contact_fields. Qed.

Lemma valid_contact_message k c p at_ n :
  valid_persisted_contact k c = true →
  (valid_persisted_contact k (set_activity (Some p) at_ n c) = true ↔
   (slen p <=? MAX_PREVIEW_BYTES)%N = true).
Proof. intros Hv. split; intros ?; contact_fields. Qed.

Lemma valid_contact_alias k c v :
  utf8_valid (as_bytes v) = true → (slen v ≤ MAX_ALIAS_BYTES)%N →
  existsb char_is_control (chars v) = false → valid_persisted_contact k c = true →
  valid_persisted_contact k
    (set_alias_field (if negb (is_empty_str (trim v)) then Some (trim v) else None) c) = true.
Proof.
  intros Hu Hl Hc Hv. pose proof (trim_length v Hu) as Hl'. pose proof (trim_chars _ v Hu Hc) as Hc'.
  assert (Ht : (slen (trim v) <=? MAX_ALIAS_BYTES)%N && negb (existsb char_is_control (chars (trim v)))
               = true) by (rewrite Hc'; apply andb_true_iff; split; [lia|done]).
  clear Hu Hl Hl' Hc Hc'. revert Ht Hv. unfold valid_persisted_contact.
  destruct (negb (is_empty_str _)); cbn [
    ct_account_id ct_device_id ct_relay_origin ct_inbox_url ct_alias ct_state ct_conversation_id
    ct_last_message_preview set_alias_field is_none_or]; intros Ht; rewrite ?Ht, !andb_true_iff; tauto.
Qed.

(** The contact that an upsert leaves, from the one that was there. *)
Definition upserted (existing : option ContactRecord) (a dev o : string) (i : option string) (now : N)
  : ContactRecord :=
  {| ct_account_id := a; ct_device_id := dev; ct_relay_origin := o;
     ct_inbox_url := match i with Some u => Some u | None => existing ≫= ct_inbox_url end;
     ct_alias := existing ≫= ct_alias;
     ct_state := from_option ct_state "verified" existing;
     ct_conversation_id := existing ≫= ct_conversation_id;
     ct_last_message_preview := existing ≫= ct_last_message_preview;
     ct_last_message_at := Some (default now (existing ≫= ct_last_message_at));
     ct_unread_count := from_option ct_unread_count 0%N existing |}.

Lemma upsert_spec a dev o i now d d' :
  upsert_verified_with_inbox a dev o i now d = (d', Ok tt) →
  d' = <[a := upserted (d !! a) a dev o i now]> d.
Proof.
  unfold upsert_verified_with_inbox. cbn zeta.
  match goal with |- context [if ?b then _ else _] => destruct b end; [done|].
  rewrite lookup_insert_eq. intros [= <-]. by rewrite insert_insert_eq.
Qed.

Lemma valid_contact_upserted existing a dev o i now :
  (∀ c, existing = Some c → valid_persisted_contact a c = true) →
  (valid_persisted_contact a (upserted existing a dev o i now) = true ↔
   is_ok (validate_protocol_identifier a) && is_ok (validate_protocol_identifier dev)
   && valid_relay_origin o
   && is_none_or (valid_bound_inbox o)
        (match i with Some u => Some u | None => existing ≫= ct_inbox_url end) = true).
Proof.
  intros Hv. destruct existing as [c|].
  - specialize (Hv c eq_refl). unfold upserted. cbn [mbind option_bind from_option].
    split; intros ?; contact_fields. apply seqb_refl.
  - unfold upserted. cbn [mbind option_bind from_option]. split; intros ?; contact_fields.
    apply seqb_refl.
Qed.

(** A restart reads back exactly the directory that was persisted, if every contact in it
    passes the restart's checks; otherwise it reports a corrupt store. *)
Theorem contacts_restart `{JsonRoundTrip DirectorySnapshot} {S : Type} `{RecordStoreLaws S}
    (d : ContactDirectory) (st st' : S) :
  store_inv st → contacts_persist d st = (st', Ok tt) →
  contacts_restore st' = if decide (restorable d) then Ok d else Err CorruptStore.
Proof.
  intros Hinv. unfold contacts_persist, contacts_restore, snapshot_bytes.
  destruct (json_to_vec _) as [b|] eqn:Ej; cbn [ok_or]; [|done]. intros Hput.
  rewrite (store_put_ok _ _ _ _ _ Hinv Hput), view_update_eq, (json_roundtrip _ _ Ej).
  cbn [ok_or result_bind ds_version ds_contacts N.eqb negb].
  destruct (existsb _ _) eqn:Eb.
  - rewrite orb_true_r. cbn. rewrite decide_False; [done|]. intros [_ Hv].
    apply existsb_btree_iter in Eb as (k & c & Hk & Hn). cbn in Hn. by rewrite (Hv k c Hk) in Hn.
  - rewrite orb_false_r. unfold DIRECTORY_VERSION. cbn.
    destruct (MAX_CONTACTS <? N.of_nat (size d))%N eqn:Es.
    + rewrite decide_False; [done|]. intros [? _]. lia.
    + rewrite decide_True; [done|]. split; [lia|]. intros k c Hk.
      destruct (valid_persisted_contact k c) eqn:Hc; [done|].
      assert (existsb (λ p, negb (valid_persisted_contact p.1 p.2)) (btree_iter d) = true); [|congruence].
      apply existsb_btree_iter. exists k, c. cbn. by rewrite Hc.
Qed.

(** From a directory that a restart accepts, an operation that succeeds leads to one that a
    restart accepts exactly when its arguments pass the checks of the restart: well-formed
    identifiers and relay origin, an inbox (a new one or the one already known) on that relay,
    a conversation identifier of URL-safe characters, a preview and a directory within their
    limits. The operations make none of these checks themselves, except the alias's. *)
Theorem contacts_restorable_iff op d d' :
  contact_op_utf8 op → restorable d → contact_apply op d = (d', Ok tt) →
  (restorable d' ↔ contact_op_ok op d = true).
Proof.
  intros Hu Hr Ha. pose proof (f_equal fst Ha) as E. cbn [fst] in E.
  destruct op; cbn [contact_apply contact_op_ok contact_op_utf8] in *.
  - apply upsert_spec in Ha as ->. rewrite andb_true_iff, orb_true_iff, bool_decide_eq_true, N.ltb_lt.
    rewrite <-(valid_contact_upserted (d !! account_id) _ _ _ _ now) by (intros; by apply Hr).
    destruct (d !! account_id) as [c|] eqn:Hk.
    + rewrite (restorable_update d _ c) by done. naive_solver.
    + rewrite restorable_add by done. split; [tauto|]. intros [? [[? ?]|?]]; [done|tauto].
  - rewrite <-E. unfold set_alias. unfold set_alias in Ha. destruct (_ || _) eqn:Eg; [done|].
    apply orb_false_iff in Eg as [? ?]. split; [done|]. intros _. apply restorable_with_contact; [done|].
    intros c Hc. apply valid_contact_alias; [done|lia|done..].
  - unfold bind_conversation in Ha. destruct (d !! account_id) as [c|] eqn:Hk; [|done].
    destruct (_ || _) in Ha; [done|]. injection Ha as <-.
    rewrite (restorable_update d _ c) by done. apply valid_contact_bind. by apply Hr.
  - rewrite <-E. split; [done|]. intros _. apply restorable_with_contact; [done|]. intros; contact_fields.
  - rewrite <-E. split; [done|]. intros _. apply restorable_with_contact; [done|]. intros; contact_fields.
  - rewrite <-E. split; [done|]. intros _. apply restorable_with_contact; [done|]. intros; contact_fields.
  - rewrite <-E. split; [done|]. intros _. apply restorable_with_contact; [done|]. intros; contact_fields.
  - rewrite <-E. split; [done|]. intros _. cbn. destruct Hr as [Hs Hv].
    split; [rewrite map_size_delete; destruct (d !! account_id); cbn; lia|].
    intros k c. rewrite lookup_delete_Some. intros [_ ?]. by apply Hv.
  - unfold record_message in Ha. destruct (find_first _ _) as [[k c]|] eqn:Ef; [|done].
    apply find_first_Some in Ef as (Hin & _). apply elem_of_btree_iter in Hin.
    injection Ha as <-. rewrite (restorable_update d k c) by done.
    apply valid_contact_message. by apply Hr.
Qed.

(** ** Samples *)

Module ContactSample.
Import Reference.

Definition inbox (origin : string) : string :=
  origin +:+ "/api/v1/inbox/" +:+ of_bytes (replicate 43 (n_byte 97)).
Definition d0 : ContactDirectory :=
  contacts_run
    [OpUpsert "bob" "device-1" "https://relay.test" (Some (inbox "https://relay.test")) 10;
     OpBind "bob" "conv-1"] contacts_new.
Definition bob : ContactRecord := default (upserted None EmptyString EmptyString EmptyString None 0) (d0 !! "bob").

(** Bob pairs again, from another relay, and sends a message. *)
Definition later : list ContactOp :=
  [OpUpsert "bob" "device-1" "https://other.test" None 20; OpRecordMessage "conv-1" "hi" 21 true].

Lemma contacts_block_is_sticky_witness :
  is_blocked_conversation (contacts_run (OpBlock "bob" :: later) d0) "conv-1" = true.
Proof.
  apply (contacts_block_is_sticky later "bob" "conv-1" d0 bob); [vm_compute; reflexivity..|].
  repeat constructor; intros [].
Defined.

(** The pairing from another relay keeps the inbox of the old one. *)
Definition moved : ContactDirectory := contacts_run (take 1 later) d0.

Lemma contacts_restorable_iff_witness : ¬ restorable moved.
Proof.
  intros Hr.
  apply (contacts_restorable_iff (OpUpsert "bob" "device-1" "https://other.test" None 20) d0 moved I)
    in Hr; [vm_compute in Hr; discriminate| |vm_compute; reflexivity].
  apply (bool_decide_eq_true _). vm_compute. reflexivity.
Defined.

Definition snapshot : DirectorySnapshot := {| ds_version := 1; ds_contacts := moved |}.
#[local] Instance codec : JsonCodec DirectorySnapshot := json_table [snapshot].
#[local] Instance codec_laws : JsonRoundTrip DirectorySnapshot := json_table_laws [snapshot].

Lemma contacts_restart_witness :
  contacts_restore (contacts_persist moved (StorageProps.Sample.store0, StorageProps.Sample.world1)).1
  = Err CorruptStore.
Proof.
  rewrite (contacts_restart moved (StorageProps.Sample.store0, StorageProps.Sample.world1) _
             StorageProps.Sample.sample_store_inv).
  - vm_compute. reflexivity.
  - match goal with |- ?p = _ => assert (p.2 = Ok tt) as E by (vm_compute; reflexivity) end.
    rewrite <-E. apply surjective_pairing.
Defined.
End ContactSample.
