(* ===== verification/Relay.v ===== *)
(** * The relay ([apps/relay/src/main.rs])

    The relay process: a rate window, one inbox behind a capability, invite codes that can be
    consumed once, and blobs uploaded in chunks. Each handler is a function from the state of
    the process and the file system to a new state and a response; the times it reads are its
    arguments. A handler holds the lock of what it changes until it returns, so a run of the
    relay is a sequence of handler calls. *)
From Stdlib Require Import Ascii NArith ZArith Lia ZifyBool ZifyN.
From stdpp Require Import base gmap strings list.
From S2P Require Import Prelude Text Collections Interfaces JsonValue Fs Receipt.

Definition MAX_ENVELOPE_BYTES : N := 96 * 1024.
Definition MAX_INBOX_ITEMS : N := 256.
Definition MAX_INVITES : N := 256.
Definition MAX_RELAY_BODY_BYTES : N := 192 * 1024.
Definition MAX_BLOB_BYTES : N := 32 * 1024 * 1024.
Definition TTL_SECONDS : N := 7 * 24 * 60 * 60.
Definition RATE_WINDOW_SECONDS : N := 60.
Definition MAX_REQUESTS_PER_WINDOW : N := 120.
Definition MAX_PAIRING_RESPONSES : N := 32.

(** ** State *)

Record RateWindow := { started_at : N; requests : N }.

Record Item := { it_id : string; it_envelope : string; it_received_at : N }.
#[export] Instance Item_eq_dec : EqDecision Item.
Proof. solve_decision. Defined.

Record RelayInvite := {
  iv_version : N;
  iv_code_hash : string;
  iv_invite : string;
  iv_invite_digest : string;
  iv_created_at : N;
  iv_expires_at : N;
  iv_consumed_at : option N;
  iv_pairing_responses : list Value;
}.

(** The fields of [AppState] that never change. *)
Record RelayConfig := {
  rc_data_dir : string;
  rc_capability : string;
  rc_origin : string;
  rc_receipt_key : bytes;
}.
Definition inbox_path (c : RelayConfig) : string := rc_data_dir c +:+ "/relay-inbox.json".
Definition invites_path (c : RelayConfig) : string := rc_data_dir c +:+ "/invite-codes.json".
Definition blob_dir (c : RelayConfig) : string := rc_data_dir c +:+ "/blobs".

(** The fields behind locks, and the file system. *)
Record AppState := {
  rs_items : list Item;
  rs_invites : list RelayInvite;
  rs_window : RateWindow;
  rs_world : World;
}.
Definition set_items (l : list Item) (s : AppState) : AppState :=
  {| rs_items := l; rs_invites := rs_invites s; rs_window := rs_window s; rs_world := rs_world s |}.
Definition set_invites (l : list RelayInvite) (s : AppState) : AppState :=
  {| rs_items := rs_items s; rs_invites := l; rs_window := rs_window s; rs_world := rs_world s |}.
Definition set_window (r : RateWindow) (s : AppState) : AppState :=
  {| rs_items := rs_items s; rs_invites := rs_invites s; rs_window := r; rs_world := rs_world s |}.
Definition set_world (w : World) (s : AppState) : AppState :=
  {| rs_items := rs_items s; rs_invites := rs_invites s; rs_window := rs_window s; rs_world := w |}.

(** ** Requests and responses *)

(** [headers.get(name).and_then(|v| v.to_str().ok())]. *)
Definition Headers : Type := string → option string.

Inductive Body := Json (v : Value) | Binary (b : bytes).
Record Response := { rp_status : N; rp_headers : list (string * string); rp_body : Body }.

Definition response (status : N) (v : Value) : Response :=
  {| rp_status := status;
     rp_headers := [("content-type", "application/json"); ("cache-control", "no-store");
                    ("x-content-type-options", "nosniff"); ("referrer-policy", "no-referrer")];
     rp_body := Json v |}.
Definition error (status : N) (v : string) : Response := response status (Object [("error", Str v)]).

(** [HeaderMap::insert]: the new value replaces the old one. *)
Definition insert_header (name value : string) (l : list (string * string)) : list (string * string) :=
  List.filter (λ p, negb (seqb p.1 name)) l ++ [(name, value)].

Definition number (n : N) : Value := Num (PosInt n).

Definition relay_hex (b : bytes) : string := of_bytes (hex_b b).

(** [now() + seconds] on a 64-bit clock. *)
Definition clock_add (t seconds : N) : N := u64_wrapping_add t seconds.

(** ** Helpers *)

Definition rate_limited (now : N) (s : AppState) : AppState * bool :=
  let window :=
    if (RATE_WINDOW_SECONDS <=? saturating_sub now (started_at (rs_window s)))%N
    then {| started_at := now; requests := 0 |}
    else rs_window s in
  let window :=
    {| started_at := started_at window; requests := u32_saturating_add (requests window) 1 |} in
  (set_window window s, (MAX_REQUESTS_PER_WINDOW <? requests window)%N).

Definition valid_blob_id (value : string) : bool :=
  in_range 32 128 (slen value) && forallb is_url_safe (as_bytes value).

Definition header_usize (headers : Headers) (name : string) (default_value : N) : option N :=
  match headers name with
  | Some v => parse_u64 v
  | None => Some default_value
  end.

Definition relay_hex_decode (value : string) : Outcome (option bytes) :=
  if negb (slen value mod 2 =? 0)%N then Returns None else hex_pairs (as_bytes value).

(** [let Some(x) = .. else { return false }] on a call that can panic. *)
Definition or_false {A} (o : Outcome (option A)) (k : A → Outcome bool) : Outcome bool :=
  match o with
  | Panics => Panics
  | Returns None => Returns false
  | Returns (Some a) => k a
  end.

Section relay.
Context `{Crypto, UnicodeCase}.

Definition validate_invite (invite expected_origin : string) (now : N) : Outcome bool :=
  match split 46 invite with
  | [tag; p; s] =>
    if negb (seqb tag "ADDAINV1") then Returns false
    else
      or_false (relay_hex_decode p) (λ payload,
      or_false (relay_hex_decode s) (λ signature,
      match from_utf8 payload with
      | None => Returns false
      | Some text =>
        let lines := split 10 text in
        if negb (in_range 6 8 (blen lines))
           || negb (bool_decide (lines !! 0 = Some "another-dimension/invite/v1"))
        then Returns false
        else
          let line i := default EmptyString (lines !! i) in
          let account := default EmptyString (strip_prefix "ad1pk" (line 1)) in
          or_false (relay_hex_decode account) (λ public_bytes,
          if negb (length public_bytes =? 32)%nat then Returns false
          else if negb (ed_valid_public public_bytes) then Returns false
          else if negb (length signature =? 64)%nat then Returns false
          else
            match parse_u64 (line 4) with
            | None => Returns false
            | Some expires =>
              if (expires <=? now)%N || negb (seqb (line 5) expected_origin) then Returns false
              else
                or_false (relay_hex_decode (line 3)) (λ _,
                Returns (ed_verify public_bytes payload signature))
            end)
      end))
  | _ => Returns false
  end.

Definition ALPHABET : bytes := as_bytes "0123456789ABCDEFGHJKMNPQRSTVWXYZ".

(** [invite_code], from the 32 bytes drawn. *)
Definition invite_code (drawn : bytes) : string :=
  let raw := map (λ b, nth (N.to_nat (byte_n b mod 32)) ALPHABET (n_byte 48)) (take 26 drawn) in
  join 45 (map of_bytes (chunks 4 raw)).

Definition code_hash (code : string) : string := relay_hex (sha256 (as_bytes (normalize_code code))).

Definition receipt_body (key : bytes) (origin code invite : string) (timestamp : N) : string :=
  join 46 ["ADRECEIPT1"; relay_hex (sha256 (ed_public key)); relay_hex (as_bytes origin);
           code_hash code; relay_hex (sha256 (as_bytes invite)); u64_to_string timestamp].
Definition receipt (key : bytes) (origin code invite : string) (timestamp : N) : string :=
  let body := receipt_body key origin code invite timestamp in
  body +:+ "." +:+ relay_hex (ed_sign key (as_bytes body)).

Context `{JsonCodec Value, JsonCodec (list Item), JsonCodec (list RelayInvite)}.

(** [persist] and [persist_invites]: a temporary file renamed over the path. *)
Definition write_json (path : string) (contents : option bytes) (s : AppState) : AppState * bool :=
  match contents with
  | None => (s, false)
  | Some b =>
    let temp := path +:+ ".tmp" in
    let '(w, written) := fs_write temp b (rs_world s) in
    if written then
      let '(w, renamed) := fs_rename temp path w in (set_world w s, renamed)
    else (set_world w s, false)
  end.
Definition persist (c : RelayConfig) (s : AppState) : AppState * bool :=
  write_json (inbox_path c) (json_to_vec (rs_items s)) s.
Definition persist_invites (c : RelayConfig) (s : AppState) : AppState * bool :=
  write_json (invites_path c) (json_to_vec (rs_invites s)) s.

Definition item_ok (i : Item) : bool :=
  (slen (it_id i) =? 64)%N && (slen (it_envelope i) <=? MAX_ENVELOPE_BYTES)%N
  && starts_with "ADENV1." (it_envelope i).

Inductive LoadError := StateCorrupt | ExceedsLimits | LoadIo.

(** [load_store], after its directory was created. *)
Definition load_store (path : string) (w : World) : World * result (list Item) LoadError :=
  let '(w, r) := fs_read path w in
  (w, match r with
      | ReadOk b =>
        match json_from_slice b with
        | None => Err StateCorrupt
        | Some items =>
          if (MAX_INBOX_ITEMS <? blen items)%N || existsb (λ i, negb (item_ok i)) items
          then Err ExceedsLimits
          else Ok items
        end
      | ReadNotFound => Ok []
      | ReadFailed => Err LoadIo
      end).

(** The invite codes that [main] loads. *)
Definition load_invites (path : string) (w : World) : World * result (list RelayInvite) LoadError :=
  let '(w, r) := fs_read path w in
  (w, match r with
      | ReadOk b =>
        match json_from_slice b with
        | None => Err StateCorrupt
        | Some invites =>
          if (MAX_INVITES <? blen invites)%N
             || existsb (λ i, (96 * 1024 <? slen (iv_invite i))%N) invites
          then Err ExceedsLimits
          else Ok invites
        end
      | ReadNotFound => Ok []
      | ReadFailed => Err LoadIo
      end).

(** ** Handlers *)

(** The checks every inbox handler starts with. *)
Definition inbox_guard (c : RelayConfig) (capability : string) (headers : Headers)
  : option Response :=
  if negb (seqb capability (rc_capability c)) then Some (error 410 "capability_expired")
  else if negb (bool_decide (headers "x-ad-relay-capability" = Some (rc_capability c)))
  then Some (error 403 "relay_capability_required")
  else None.

Definition health : Response :=
  response 200 (Object [("ok", Bool true); ("protocol", number 1)]).

Definition info (c : RelayConfig) : Response :=
  let key := ed_public (rc_receipt_key c) in
  response 200
    (Object [("protocol", number 1); ("protocolVersions", Array [number 1]);
             ("inboxUrl", Str (rc_origin c +:+ "/api/v1/inbox/" +:+ rc_capability c));
             ("publicOrigin", Str (rc_origin c)); ("externalSecure", Bool false);
             ("listenerTls", Bool false); ("serveStatic", Bool false);
             ("highRiskAllowed", Bool false); ("highRiskTransport", Str "disabled");
             ("supportedTransports", Array [Str "loopback"]);
             ("transportMode", Str "local-or-http-low-risk"); ("networkScope", Str "loopback");
             ("maxEnvelopeBytes", number MAX_ENVELOPE_BYTES);
             ("maxAttachmentBytes", number (32 * 1024 * 1024));
             ("relayReceiptPublicKey", Str (relay_hex key));
             ("relayReceiptPublicKeyFingerprint", Str (relay_hex (sha256 key)))]).

Definition post_inbox (c : RelayConfig) (capability : string) (headers : Headers) (body : bytes)
    (t_rate t : N) (s : AppState) : AppState * Response :=
  let '(s, limited) := rate_limited t_rate s in
  if limited then (s, error 429 "rate_limit_exceeded")
  else
    match inbox_guard c capability headers with
    | Some refusal => (s, refusal)
    | None =>
      match json_from_slice body with
      | None => (s, error 400 "invalid_json")
      | Some body =>
        match value_get "envelope" body ≫= as_str with
        | None => (s, error 400 "invalid_envelope")
        | Some envelope =>
          if negb (starts_with "ADENV1." envelope) || (MAX_ENVELOPE_BYTES <? slen envelope)%N
          then (s, error 400 "invalid_envelope")
          else
            let id := relay_hex (sha256 (as_bytes envelope)) in
            if existsb (λ i, seqb (it_id i) id) (rs_items s) then
              (s, response 202 (Object [("accepted", Bool true); ("id", Str id);
                                        ("duplicate", Bool true)]))
            else if (MAX_INBOX_ITEMS <=? blen (rs_items s))%N then (s, error 429 "queue_full")
            else
              let item := {| it_id := id; it_envelope := envelope; it_received_at := t |} in
              let '(s, persisted) := persist c (set_items (rs_items s ++ [item]) s) in
              if persisted
              then (s, response 202 (Object [("accepted", Bool true); ("id", Str id)]))
              else (s, error 500 "storage_error")
        end
      end
    end.

Definition item_value (i : Item) : Value :=
  Object [("id", Str (it_id i)); ("envelope", Str (it_envelope i));
          ("receivedAt", number (it_received_at i))].

Definition get_inbox (c : RelayConfig) (capability : string) (headers : Headers)
    (t_rate t : N) (s : AppState) : AppState * Response :=
  let '(s, limited) := rate_limited t_rate s in
  if limited then (s, error 429 "rate_limit_exceeded")
  else
    match inbox_guard c capability headers with
    | Some refusal => (s, refusal)
    | None =>
      let cutoff := saturating_sub t TTL_SECONDS in
      let items := List.filter (λ i, (cutoff <=? it_received_at i)%N) (rs_items s) in
      let '(s, persisted) := persist c (set_items items s) in
      if persisted
      then (s, response 200 (Object [("protocol", number 1);
                                     ("items", Array (map item_value (rs_items s)))]))
      else (s, error 500 "storage_error")
    end.

Definition ack_inbox (c : RelayConfig) (capability : string) (headers : Headers) (body : bytes)
    (t_rate : N) (s : AppState) : AppState * Response :=
  let '(s, limited) := rate_limited t_rate s in
  if limited then (s, error 429 "rate_limit_exceeded")
  else
    match inbox_guard c capability headers with
    | Some refusal => (s, refusal)
    | None =>
      match json_from_slice body with
      | None => (s, error 400 "invalid_json")
      | Some body =>
        match value_get "ids" body ≫= as_array with
        | None => (s, error 400 "too_many_ids")
        | Some ids =>
          if negb (blen ids <=? MAX_INBOX_ITEMS)%N then (s, error 400 "too_many_ids")
          else
            let ids := omap as_str ids in
            let before := blen (rs_items s) in
            let items := List.filter (λ i, negb (existsb (seqb (it_id i)) ids)) (rs_items s) in
            let '(s, persisted) := persist c (set_items items s) in
            if persisted
            then (s, response 200 (Object [("acknowledged", number (before - blen (rs_items s)))]))
            else (s, error 500 "storage_error")
        end
      end
    end.

(** A handler that panics drops the connection: no response. *)
Definition create_invite (c : RelayConfig) (body : bytes) (t_rate t_check t : N) (s : AppState)
  : AppState * option Response :=
  let '(s, limited) := rate_limited t_rate s in
  if limited then (s, Some (error 429 "rate_limit_exceeded"))
  else
    match json_from_slice body with
    | None => (s, Some (error 400 "invalid_json"))
    | Some body =>
      let invite :=
        match value_get "invite" body ≫= as_str with
        | Some v =>
          if (slen v <=? 96 * 1024)%N then
            match validate_invite v (rc_origin c) t_check with
            | Panics => Panics
            | Returns true => Returns (Some v)
            | Returns false => Returns None
            end
          else Returns None
        | None => Returns None
        end in
      match invite with
      | Panics => (s, None)
      | Returns None => (s, Some (error 400 "invalid_signed_invite"))
      | Returns (Some invite) =>
        let '(w, drawn) := secure_random 32 (rs_world s) in
        let s := set_world w s in
        match drawn with
        | None => (s, Some (error 500 "random_generation_failed"))
        | Some drawn =>
          let code := invite_code drawn in
          let record :=
            {| iv_version := 1; iv_code_hash := code_hash code; iv_invite := invite;
               iv_invite_digest := relay_hex (sha256 (as_bytes invite)); iv_created_at := t;
               iv_expires_at := clock_add t 600; iv_consumed_at := None;
               iv_pairing_responses := [] |} in
          let invites := List.filter (λ i, (t <? iv_expires_at i)%N) (rs_invites s) in
          if (MAX_INVITES <=? blen invites)%N
          then (set_invites invites s, Some (error 429 "invite_queue_full"))
          else
            let '(s, persisted) := persist_invites c (set_invites (invites ++ [record]) s) in
            if persisted
            then (s, Some (response 201 (Object [("created", Bool true); ("code", Str code);
                                                 ("expiresAt", number (iv_expires_at record));
                                                 ("inviteDigest", Str (iv_invite_digest record))])))
            else (s, Some (error 500 "storage_error"))
        end
      end
    end.

Definition set_consumed_at (o : option N) (i : RelayInvite) : RelayInvite :=
  {| iv_version := iv_version i; iv_code_hash := iv_code_hash i; iv_invite := iv_invite i;
     iv_invite_digest := iv_invite_digest i; iv_created_at := iv_created_at i;
     iv_expires_at := iv_expires_at i; iv_consumed_at := o;
     iv_pairing_responses := iv_pairing_responses i |}.
Definition add_pairing_response (v : Value) (i : RelayInvite) : RelayInvite :=
  {| iv_version := iv_version i; iv_code_hash := iv_code_hash i; iv_invite := iv_invite i;
     iv_invite_digest := iv_invite_digest i; iv_created_at := iv_created_at i;
     iv_expires_at := iv_expires_at i; iv_consumed_at := iv_consumed_at i;
     iv_pairing_responses := iv_pairing_responses i ++ [v] |}.

(** [iter_mut().find(p)]: the first record that satisfies [p] and the list with it changed. *)
Fixpoint update_first {A} (p : A → bool) (f : A → A) (l : list A) : option (A * list A) :=
  match l with
  | [] => None
  | x :: t =>
    if p x then Some (x, f x :: t)
    else match update_first p f t with Some (y, t') => Some (y, x :: t') | None => None end
  end.

Definition consume_invite (c : RelayConfig) (body : bytes) (t_rate t : N) (s : AppState)
  : AppState * Response :=
  let '(s, limited) := rate_limited t_rate s in
  if limited then (s, error 429 "rate_limit_exceeded")
  else
    match json_from_slice body with
    | None => (s, error 400 "invalid_json")
    | Some body =>
      match value_get "code" body ≫= as_str with
      | None => (s, error 404 "invalid_or_expired")
      | Some code =>
        let live i :=
          seqb (iv_code_hash i) (code_hash code) && (t <? iv_expires_at i)%N
          && bool_decide (iv_consumed_at i = None) in
        match update_first live (set_consumed_at (Some t)) (rs_invites s) with
        | None => (s, error 404 "invalid_or_expired")
        | Some (record, invites) =>
          let payload :=
            Object [("consumed", Bool true); ("invite", Str (iv_invite record));
                    ("inviteDigest", Str (iv_invite_digest record));
                    ("receipt", Str (receipt (rc_receipt_key c) (rc_origin c) code
                                       (iv_invite record) t))] in
          let '(s, persisted) := persist_invites c (set_invites invites s) in
          if persisted then (s, response 200 payload) else (s, error 500 "storage_error")
        end
      end
    end.

Definition pairing (c : RelayConfig) (body : bytes) (t_rate t : N) (s : AppState)
  : AppState * Response :=
  let '(s, limited) := rate_limited t_rate s in
  if limited then (s, error 429 "rate_limit_exceeded")
  else
    match json_from_slice body with
    | None => (s, error 400 "invalid_json")
    | Some body =>
      match value_get "code" body ≫= as_str with
      | None => (s, error 404 "invalid_or_expired")
      | Some code =>
        let used i :=
          seqb (iv_code_hash i) (code_hash code) && (t <? iv_expires_at i)%N
          && bool_decide (is_Some (iv_consumed_at i)) in
        match find_first used (rs_invites s) with
        | None => (s, error 404 "invalid_or_expired")
        | Some record =>
          if bool_decide (value_get "read" body ≫= as_bool = Some true) then
            (s, response 200 (Object [("available", Bool (negb (blen (iv_pairing_responses record) =? 0)%N));
                                      ("responses", Array (iv_pairing_responses record))]))
          else
            let accepted v :=
              is_object v
              && match json_to_vec v with Some b => (blen b <=? 128 * 1024)%N | None => false end in
            match value_get "response" body with
            | Some v =>
              if negb (accepted v) then (s, error 400 "invalid_pairing_response")
              else if (MAX_PAIRING_RESPONSES <=? blen (iv_pairing_responses record))%N
              then (s, error 409 "pairing_response_queue_full")
              else
                let invites :=
                  from_option snd (rs_invites s)
                    (update_first used (add_pairing_response v) (rs_invites s)) in
                let '(s, persisted) := persist_invites c (set_invites invites s) in
                if persisted then (s, response 201 (Object [("accepted", Bool true)]))
                else (s, error 500 "storage_error")
            | None => (s, error 400 "invalid_pairing_response")
            end
        end
      end
    end.

(** ** Blobs *)

Definition blob_file (c : RelayConfig) (id : string) : string :=
  blob_dir c +:+ "/" +:+ id +:+ ".blob".
Definition blob_meta (c : RelayConfig) (id : string) : string :=
  blob_dir c +:+ "/" +:+ id +:+ ".meta.json".

Inductive Method := GET | POST | DELETE.

Definition blob_url (id : string) : Value := Str ("/api/v1/blobs/" +:+ id).

(** The [DELETE] arm of [blob_impl]: failures are ignored. *)
Definition blob_delete (c : RelayConfig) (id : string) (s : AppState) : AppState * Response :=
  let '(w, _) := fs_remove (blob_file c id) (rs_world s) in
  let '(w, _) := fs_remove (blob_meta c id) w in
  (set_world w s, response 200 (Object [("deleted", Bool true)])).

(** The [GET] arm: a range of the file. *)
Definition blob_get (c : RelayConfig) (id : string) (headers : Headers) (s : AppState)
  : AppState * Response :=
  let '(w, r) := fs_read (blob_file c id) (rs_world s) in
  let s := set_world w s in
  match r with
  | ReadOk b =>
    match header_usize headers "x-ad-blob-offset" 0 with
    | Some offset =>
      if negb (offset <=? blen b)%N then (s, error 400 "invalid_blob_range")
      else
        let length :=
          N.min (default 0%N (header_usize headers "x-ad-blob-length" (blen b - offset)))
            (blen b - offset) in
        let base := response 200 (Object [("error", Str "binary")]) in
        (s, {| rp_status := 200;
               rp_headers :=
                 insert_header "x-ad-blob-total" (u64_to_string (blen b))
                   (insert_header "x-ad-blob-offset" (u64_to_string offset)
                      (insert_header "content-type" "application/octet-stream" (rp_headers base)));
               rp_body := Binary (take (N.to_nat length) (drop (N.to_nat offset) b)) |})
    | None => (s, error 400 "invalid_blob_range")
    end
  | _ => (s, error 404 "blob_not_found")
  end.

(** What the upload answers for a range that is already there: [None] when the file ends
    where the chunk starts. *)
Definition blob_overlap (id : string) (offset total : N) (body existing : bytes) (t : N)
  : option Response :=
  if (offset <? blen existing)%N then
    let end_ := u64_saturating_add offset (blen body) in
    if (end_ <=? blen existing)%N
       && beqb (take (length body) (drop (N.to_nat offset) existing)) body
    then
      let complete := (blen existing =? total)%N in
      Some (response (if complete then 201 else 202)
              (Object [("accepted", Bool true); ("complete", Bool complete);
                       ("duplicate", Bool true); ("received", number (blen existing));
                       ("total", number total); ("expiresAt", number (clock_add t TTL_SECONDS));
                       ("blobUrl", blob_url id)]))
    else Some (error 409 "blob_chunk_conflict")
  else if negb (offset =? blen existing)%N then Some (error 400 "blob_offset_mismatch")
  else None.

(** Writing a chunk at the end of the file, then the metadata. *)
Definition blob_append (c : RelayConfig) (id : string) (offset total : N) (body : bytes)
    (t_meta t : N) (s : AppState) : AppState * Response :=
  let '(w, opened) := fs_open (blob_file c id) (rs_world s) in
  match opened with
  | None =>
    (set_world w s,
     if negb (offset =? 0)%N then error 400 "blob_offset_mismatch"
     else error 500 "blob_storage_error")
  | Some target =>
    let '(w, len) := fs_len target w in
    if negb (bool_decide (len = Some offset)) then (set_world w s, error 400 "blob_offset_mismatch")
    else
      let '(w, sought) := fs_seek w in
      if negb sought then (set_world w s, error 500 "blob_storage_error")
      else
        let '(w, written) := fs_write_at target offset body w in
        if negb written then (set_world w s, error 500 "blob_storage_error")
        else
          let received := (offset + blen body)%N in
          let complete := (received =? total)%N in
          let metadata :=
            Object [("version", number 1); ("total", number total); ("received", number received);
                    ("complete", Bool complete); ("expiresAt", number (clock_add t_meta TTL_SECONDS))] in
          let '(w, recorded) := fs_write (blob_meta c id) (default [] (json_to_vec metadata)) w in
          let s := set_world w s in
          if negb recorded then (s, error 500 "blob_storage_error")
          else
            (s, response (if complete then 201 else 202)
                  (Object [("accepted", Bool true); ("complete", Bool complete);
                           ("received", number received); ("total", number total);
                           ("expiresAt", number (clock_add t TTL_SECONDS));
                           ("blobUrl", blob_url id)]))
  end.

(** The upload arm. *)
Definition blob_post (c : RelayConfig) (id : string) (headers : Headers) (body : bytes)
    (t_dup t_meta t : N) (s : AppState) : AppState * Response :=
  match header_usize headers "x-ad-blob-offset" 0, header_usize headers "x-ad-blob-total" 0 with
  | None, _ => (s, error 400 "invalid_blob_metadata")
  | _, None => (s, error 400 "invalid_blob_metadata")
  | Some offset, Some total =>
    if negb ((0 <? total)%N && (total <=? MAX_BLOB_BYTES)%N)
    then (s, error 400 "invalid_blob_metadata")
    else if (total <? offset)%N || (total <? offset + blen body)%N
    then (s, error 400 "blob_chunk_out_of_bounds")
    else
      let '(w, r) := fs_read (blob_file c id) (rs_world s) in
      let s := set_world w s in
      match r with
      | ReadOk existing =>
        match blob_overlap id offset total body existing t_dup with
        | Some answer => (s, answer)
        | None => blob_append c id offset total body t_meta t s
        end
      | _ => blob_append c id offset total body t_meta t s
      end
  end.

(** [blob_impl], with the bodies of its three callers. *)
Definition blob_impl (c : RelayConfig) (id : string) (headers : Headers) (body : bytes)
    (method : Method) (t_rate t_dup t_meta t : N) (s : AppState) : AppState * Response :=
  let '(s, limited) := rate_limited t_rate s in
  if limited then (s, error 429 "rate_limit_exceeded")
  else if negb (valid_blob_id id) then (s, error 400 "invalid_blob_id")
  else if negb (bool_decide (headers "x-ad-relay-capability" = Some (rc_capability c)))
  then (s, error 403 "relay_capability_required")
  else
    match method with
    | DELETE => blob_delete c id s
    | GET => blob_get c id headers s
    | POST => blob_post c id headers body t_dup t_meta t s
    end.
End relay.
