(* ===== verification/RelayProps.v ===== *)
(** * Properties of the relay

    Runs of the relay's handlers: the inbox, its durability and delivery, one-time invite
    codes, receipts, the rate window, the capability and blobs. *)
From Stdlib Require Import Ascii NArith ZArith Lia ZifyBool ZifyN.
From stdpp Require Import base gmap strings list relations.
From S2P Require Import Prelude Text Collections Interfaces JsonValue Fs Trust Invite Receipt Relay.

(** ** Runs *)

Inductive RelayOp :=
| RPost (capability : string) (headers : Headers) (body : bytes) (t_rate t : N)
| RGet (capability : string) (headers : Headers) (t_rate t : N)
| RAck (capability : string) (headers : Headers) (body : bytes) (t_rate : N)
| RCreate (body : bytes) (t_rate t_check t : N)
| RConsume (body : bytes) (t_rate t : N)
| RPairing (body : bytes) (t_rate t : N)
| RBlob (id : string) (headers : Headers) (body : bytes) (method : Method) (t_rate t_dup t_meta t : N).


Section relay.
Context `{HC : Crypto} {HL : CryptoLaws} `{UnicodeCase, JsonCodec Value, JsonCodec (list Item), JsonCodec (list RelayInvite)}.
Implicit Types (c : RelayConfig) (s : AppState).

(** One request: a handler that panics gives no response. *)
Definition relay_apply c (op : RelayOp) s : AppState * option Response :=
  match op with
  | RPost cap h b t0 t => let '(s, r) := post_inbox c cap h b t0 t s in (s, Some r)
  | RGet cap h t0 t => let '(s, r) := get_inbox c cap h t0 t s in (s, Some r)
  | RAck cap h b t0 => let '(s, r) := ack_inbox c cap h b t0 s in (s, Some r)
  | RCreate b t0 t1 t => create_invite c b t0 t1 t s
  | RConsume b t0 t => let '(s, r) := consume_invite c b t0 t s in (s, Some r)
  | RPairing b t0 t => let '(s, r) := pairing c b t0 t s in (s, Some r)
  | RBlob id h b m t0 t1 t2 t => let '(s, r) := blob_impl c id h b m t0 t1 t2 t s in (s, Some r)
  end.

Definition relay_run c (ops : list RelayOp) s : AppState := foldl (λ s op, (relay_apply c op s).1) s ops.

(** *** Frames: what a handler leaves alone *)

Lemma rate_limited_frame t s s' b :
  rate_limited t s = (s', b) →
  rs_items s' = rs_items s ∧ rs_invites s' = rs_invites s ∧ rs_world s' = rs_world s.
Proof using Type. unfold rate_limited. by intros [= <- _]. Qed.

Lemma write_json_frame path o s s' b :
  write_json path o s = (s', b) →
  rs_items s' = rs_items s ∧ rs_invites s' = rs_invites s ∧ rs_window s' = rs_window s.
Proof using Type.
  unfold write_json. destruct o as [x|]; [|by intros [= <- <-]].
  destruct (fs_write _ _ _) as [w []]; [|by intros [= <- <-]].
  destruct (fs_rename _ _ _) as [w' r]. by intros [= <- <-].
Qed.

Lemma persist_frame c s s' b :
  persist c s = (s', b) →
  rs_items s' = rs_items s ∧ rs_invites s' = rs_invites s ∧ rs_window s' = rs_window s.
Proof using Type. apply write_json_frame. Qed.
Lemma persist_invites_frame c s s' b :
  persist_invites c s = (s', b) →
  rs_items s' = rs_items s ∧ rs_invites s' = rs_invites s ∧ rs_window s' = rs_window s.
Proof using Type. apply write_json_frame. Qed.

Lemma relay_item_ok e t :
  starts_with "ADENV1." e = true → (slen e ≤ MAX_ENVELOPE_BYTES)%N →
  item_ok {| it_id := relay_hex (sha256 (as_bytes e)); it_envelope := e; it_received_at := t |} = true.
Proof using HL.
  intros Hp Hl. unfold item_ok. cbn [it_id it_envelope]. rewrite Hp.
  unfold relay_hex. rewrite slen_of_bytes. unfold blen. rewrite length_hex_b, sha256_length. cbn. lia.
Qed.

(** The outcomes of an inbox request that passed the rate window and the guard. *)
Inductive post_spec c (envelope : option string) (t : N) s : AppState → Response → Prop :=
| post_refused r : rp_status r ≠ 202%N → post_spec c envelope t s s r
| post_duplicate e :
    envelope = Some e → relay_hex (sha256 (as_bytes e)) ∈ map it_id (rs_items s) →
    post_spec c envelope t s s
      (response 202 (Object [("accepted", Bool true); ("id", Str (relay_hex (sha256 (as_bytes e))));
                             ("duplicate", Bool true)]))
| post_stored e s' b :
    envelope = Some e → relay_hex (sha256 (as_bytes e)) ∉ map it_id (rs_items s) →
    item_ok {| it_id := relay_hex (sha256 (as_bytes e)); it_envelope := e; it_received_at := t |} = true →
    (blen (rs_items s) < MAX_INBOX_ITEMS)%N →
    persist c (set_items (rs_items s ++ [{| it_id := relay_hex (sha256 (as_bytes e));
                                            it_envelope := e; it_received_at := t |}]) s) = (s', b) →
    post_spec c envelope t s s'
      (if b then response 202 (Object [("accepted", Bool true);
                                       ("id", Str (relay_hex (sha256 (as_bytes e))))])
       else error 500 "storage_error").

Definition posted_envelope (body : bytes) : option string :=
  match json_from_slice body with Some v => value_get "envelope" v ≫= as_str | None => None end.

Lemma post_inbox_spec c cap h body t0 t s s' r :
  post_inbox c cap h body t0 t s = (s', r) →
  post_spec c (posted_envelope body) t (rate_limited t0 s).1 s' r.
Proof using HL.
  unfold post_inbox, posted_envelope. destruct (rate_limited t0 s) as [s0 []]; cbn [fst].
  { intros [= <- <-]. by apply post_refused. }
  unfold inbox_guard. case_match eqn:Eg.
  { intros [= <- <-]. apply post_refused. repeat case_match; by simplify_eq. }
  destruct (json_from_slice body) as [v|]; [|by intros [= <- <-]; apply post_refused].
  destruct (value_get "envelope" v ≫= as_str) as [e|]; [|by intros [= <- <-]; apply post_refused].
  destruct (negb (starts_with _ _) || _) eqn:Ee; [by intros [= <- <-]; apply post_refused|].
  cbn zeta. destruct (existsb _ _) eqn:Ed.
  { intros [= <- <-]. apply existsb_exists in Ed as (i & Hi & E). apply seqb_true in E.
    apply post_duplicate; [done|]. rewrite <-E. by apply list_elem_of_fmap_2, list_elem_of_In. }
  destruct (_ <=? blen _)%N eqn:El; [by intros [= <- <-]; apply post_refused|].
  destruct (persist _ _) as [s1 b] eqn:Hp. intros E.
  assert (s' = s1 ∧ r = (if b then response 202 (Object [("accepted", Bool true);
            ("id", Str (relay_hex (sha256 (as_bytes e))))]) else error 500 "storage_error")) as [-> ->]
    by (by destruct b; simplify_eq).
  eapply post_stored; [done| |apply relay_item_ok; bool_props; auto; lia|lia|done].
  intros Hin. apply list_elem_of_fmap in Hin as (i & E' & Hi).
  enough (existsb (λ i, seqb (it_id i) (relay_hex (sha256 (as_bytes e)))) (rs_items s0) = true)
    by congruence.
  apply existsb_exists. exists i. split; [by apply list_elem_of_In|]. by rewrite E', seqb_refl.
Qed.

(** What a read of the inbox leaves, and what an acknowledgement leaves. *)
Definition unexpired (t : N) (i : Item) : bool := (saturating_sub t TTL_SECONDS <=? it_received_at i)%N.
Definition acked_ids (body : bytes) : list string :=
  match json_from_slice body with
  | Some v => omap as_str (default [] (value_get "ids" v ≫= as_array))
  | None => []
  end.
Definition unacked (ids : list string) (i : Item) : bool := negb (existsb (seqb (it_id i)) ids).

Lemma get_inbox_spec c cap h t0 t s s' r :
  get_inbox c cap h t0 t s = (s', r) →
  (s' = (rate_limited t0 s).1 ∧ rp_status r ≠ 200%N) ∨
  ∃ b, persist c (set_items (List.filter (unexpired t) (rs_items s)) (rate_limited t0 s).1) = (s', b) ∧
    r = if b then response 200 (Object [("protocol", number 1);
                                        ("items", Array (map item_value (rs_items s')))])
        else error 500 "storage_error".
Proof using Type.
  unfold get_inbox. destruct (rate_limited t0 s) as [s0 []] eqn:Er; cbn [fst].
  { intros [= <- <-]. by left. }
  apply rate_limited_frame in Er as (<- & _ & _).
  unfold inbox_guard. case_match eqn:Eg.
  { intros [= <- <-]. left. split; [done|]. repeat case_match; by simplify_eq. }
  cbn zeta. fold (unexpired t). destruct (persist _ _) as [s1 b] eqn:Hp. intros E. right.
  exists b. destruct b; by simplify_eq.
Qed.

Lemma ack_inbox_spec c cap h body t0 s s' r :
  ack_inbox c cap h body t0 s = (s', r) →
  (s' = (rate_limited t0 s).1 ∧ rp_status r ≠ 200%N) ∨
  ∃ b, persist c (set_items (List.filter (unacked (acked_ids body)) (rs_items s))
                    (rate_limited t0 s).1) = (s', b) ∧
    r = if b then response 200 (Object [("acknowledged", number (blen (rs_items s) - blen (rs_items s')))])
        else error 500 "storage_error".
Proof using Type.
  unfold ack_inbox, acked_ids. destruct (rate_limited t0 s) as [s0 []] eqn:Er; cbn [fst].
  { intros [= <- <-]. by left. }
  apply rate_limited_frame in Er as (<- & _ & _).
  unfold inbox_guard. case_match eqn:Eg.
  { intros [= <- <-]. left. split; [done|]. repeat case_match; by simplify_eq. }
  destruct (json_from_slice body) as [v|]; [|by intros [= <- <-]; left].
  destruct (value_get "ids" v ≫= as_array) as [ids|]; [|by intros [= <- <-]; left].
  destruct (negb (_ <=? _)%N); [by intros [= <- <-]; left|]. cbn [default id]. cbn zeta.
  fold (unacked (omap as_str ids)). destruct (persist _ _) as [s1 b] eqn:Hp. intros E. right.
  exists b. destruct b; by simplify_eq.
Qed.

(** What a request does to the items of the inbox. *)
Inductive items_step : RelayOp → list Item → list Item → Prop :=
| items_same op l : items_step op l l
| items_expired cap h t0 t l : items_step (RGet cap h t0 t) l (List.filter (unexpired t) l)
| items_acked cap h body t0 l :
    items_step (RAck cap h body t0) l (List.filter (unacked (acked_ids body)) l)
| items_posted cap h body t0 t e l :
    posted_envelope body = Some e → relay_hex (sha256 (as_bytes e)) ∉ map it_id l →
    item_ok {| it_id := relay_hex (sha256 (as_bytes e)); it_envelope := e; it_received_at := t |} = true →
    (blen l < MAX_INBOX_ITEMS)%N →
    items_step (RPost cap h body t0 t) l
      (l ++ [{| it_id := relay_hex (sha256 (as_bytes e)); it_envelope := e; it_received_at := t |}]).

Lemma rate_limited_items t s : rs_items (rate_limited t s).1 = rs_items s.
Proof using Type. done. Qed.

Lemma persist_items c s : rs_items (persist c s).1 = rs_items s.
Proof using Type. destruct (persist c s) eqn:E. by apply persist_frame in E as (? & _). Qed.
Lemma persist_invites_items c s : rs_items (persist_invites c s).1 = rs_items s.
Proof using Type. destruct (persist_invites c s) eqn:E. by apply persist_invites_frame in E as (? & _). Qed.

Lemma create_invite_items c b t0 t1 t s : rs_items (create_invite c b t0 t1 t s).1 = rs_items s.
Proof using Type.
  rewrite <-(rate_limited_items t0 s). unfold create_invite. destruct (rate_limited t0 s) as [s0 []]; [done|].
  cbn [fst]. destruct (json_from_slice b); [|done]. cbn zeta.
  match goal with |- context [match ?i with Returns _ => _ | Panics => _ end] => destruct i as [[x|]|] end;
    [|done..].
  destruct (secure_random _ _) as [w [d|]]; [|done]. destruct (_ <=? _)%N; [done|].
  destruct (persist_invites _ _) as [s1 p] eqn:E. apply persist_invites_frame in E as (E & _).
  by destruct p; cbn [fst]; rewrite E.
Qed.

Lemma consume_invite_items c b t0 t s : rs_items (consume_invite c b t0 t s).1 = rs_items s.
Proof using Type.
  rewrite <-(rate_limited_items t0 s). unfold consume_invite.
  destruct (rate_limited t0 s) as [s0 []]; [done|]. cbn [fst].
  destruct (json_from_slice b) as [v|]; [|done]. destruct (value_get "code" v ≫= as_str) as [code|]; [|done].
  cbn zeta. destruct (update_first _ _ _) as [[x l]|]; [|done].
  destruct (persist_invites _ _) as [s1 p] eqn:E. apply persist_invites_frame in E as (E & _).
  by destruct p; cbn [fst]; rewrite E.
Qed.

Lemma pairing_items c b t0 t s : rs_items (pairing c b t0 t s).1 = rs_items s.
Proof using Type.
  rewrite <-(rate_limited_items t0 s). unfold pairing.
  destruct (rate_limited t0 s) as [s0 []]; [done|]. cbn [fst].
  destruct (json_from_slice b) as [v|]; [|done]. destruct (value_get "code" v ≫= as_str) as [code|]; [|done].
  cbn zeta. destruct (find_first _ _); [|done]. destruct (bool_decide _); [done|].
  destruct (value_get "response" v) as [x|]; [|done]. destruct (negb (is_object x && _)); [done|].
  destruct (_ <=? _)%N; [done|].
  destruct (persist_invites _ _) as [s1 p] eqn:E. apply persist_invites_frame in E as (E & _).
  by destruct p; cbn [fst]; rewrite E.
Qed.

Lemma blob_impl_frame c id h b m t0 t1 t2 t s :
  rs_items (blob_impl c id h b m t0 t1 t2 t s).1 = rs_items s ∧
  rs_invites (blob_impl c id h b m t0 t1 t2 t s).1 = rs_invites s.
Proof using Type.
  assert (Happ : ∀ offset total t1 t2 s', rs_items (blob_append c id offset total b t1 t2 s').1 = rs_items s' ∧
            rs_invites (blob_append c id offset total b t1 t2 s').1 = rs_invites s').
  { intros. unfold blob_append. repeat (case_match; cbn [fst set_world rs_items rs_invites]; try done). }
  unfold blob_impl. destruct (rate_limited t0 s) as [s0 l] eqn:Er.
  apply rate_limited_frame in Er as (<- & <- & _).
  destruct l; [done|]. destruct (negb _); [done|]. destruct (negb _); [done|].
  destruct m; unfold blob_get, blob_post, blob_delete.
  - destruct (fs_read _ _) as [w []]; [|done..]. destruct (header_usize _ _ _); [|done].
    by destruct (negb _).
  - destruct (header_usize _ "x-ad-blob-offset" _); [|done].
    destruct (header_usize _ "x-ad-blob-total" _); [|done].
    destruct (negb _); [done|]. destruct (_ || _); [done|].
    destruct (fs_read _ _) as [w []]; [|apply (Happ _ _ _ _ (set_world w s0))..].
    destruct (blob_overlap _ _ _ _ _ _); [done|]. apply (Happ _ _ _ _ (set_world w s0)).
  - destruct (fs_remove _ _) as [w ?]. by destruct (fs_remove _ w).
Qed.

(** Every request is one of these steps on the items. *)
Lemma relay_items_step c op s : items_step op (rs_items s) (rs_items (relay_apply c op s).1).
Proof using HL.
  destruct op as [cap h b t0 t|cap h t0 t|cap h b t0|b t0 t1 t|b t0 t|b t0 t|id h b m t0 t1 t2 t];
    cbn [relay_apply].
  - destruct (post_inbox _ _ _ _ _ _ _) as [s' r] eqn:E. apply post_inbox_spec in E. cbn [fst].
    destruct E as [| |e s' p Hb Hn Hok Hl Hp]; [constructor..|].
    apply persist_frame in Hp as (-> & _). by apply items_posted.
  - destruct (get_inbox _ _ _ _ _ _) as [s' r] eqn:E. cbn [fst].
    apply get_inbox_spec in E as [[-> _]|(p & E & _)]; [constructor|].
    apply persist_frame in E as (-> & _). apply items_expired.
  - destruct (ack_inbox _ _ _ _ _ _) as [s' r] eqn:E. cbn [fst].
    apply ack_inbox_spec in E as [[-> _]|(p & E & _)]; [constructor|].
    apply persist_frame in E as (-> & _). apply items_acked.
  - rewrite create_invite_items. constructor.
  - pose proof (consume_invite_items c b t0 t s) as E. destruct (consume_invite _ _ _ _ _).
    cbn [fst] in *. rewrite E. constructor.
  - pose proof (pairing_items c b t0 t s) as E. destruct (pairing _ _ _ _ _).
    cbn [fst] in *. rewrite E. constructor.
  - pose proof (proj1 (blob_impl_frame c id h b m t0 t1 t2 t s)) as E.
    destruct (blob_impl _ _ _ _ _ _ _ _ _ _). cbn [fst] in *. rewrite E. constructor.
Qed.

(** ** The inbox invariant *)

(** At most 256 items, each named by the digest of its envelope and within the limits that
    [load_store] checks, and no envelope twice. *)
Record inbox_ok (l : list Item) : Prop := {
  io_bound : (blen l ≤ MAX_INBOX_ITEMS)%N;
  io_nodup : NoDup (map it_id l);
  io_items : ∀ i, i ∈ l → item_ok i = true ∧ it_id i = relay_hex (sha256 (as_bytes (it_envelope i)));
}.

Lemma inbox_ok_filter p l : inbox_ok l → inbox_ok (List.filter p l).
Proof using Type.
  intros [Hb Hn Hi]. split.
  - pose proof (filter_length_le p l). unfold blen in *. lia.
  - induction l as [|x l IH]; [done|]. cbn in Hn. apply NoDup_cons in Hn as [Hx Hn]. cbn.
    assert (NoDup (map it_id (List.filter p l))) by
      (apply IH; [unfold blen in *; cbn in Hb; lia|done|by intros; apply Hi; right]).
    destruct (p x); cbn; [|done]. apply NoDup_cons. split; [|done].
    intros Hin. apply Hx. apply list_elem_of_fmap in Hin as (y & -> & Hy).
    apply list_elem_of_fmap_2. apply list_elem_of_In, filter_In in Hy as [Hy _]. by apply list_elem_of_In.
  - intros i Hi'. apply Hi. apply list_elem_of_In, filter_In in Hi' as [Hy _]. by apply list_elem_of_In.
Qed.

Lemma items_step_ok op l l' : items_step op l l' → inbox_ok l → inbox_ok l'.
Proof using Type.
  intros Hs Hl. destruct Hs as [|cap h t0 t l|cap h body t0 l|cap h body t0 t e l He Hn Hok Hlen]; [done| | |].
  - by apply inbox_ok_filter.
  - by apply inbox_ok_filter.
  - destruct Hl as [Hb Hnd Hi]. split.
    + unfold blen in *. rewrite length_app. cbn. lia.
    + rewrite map_app. apply NoDup_app. split_and!; [done| |apply NoDup_singleton].
      intros x Hx Hx'%list_elem_of_singleton. subst x. by apply Hn.
    + intros i [Hin|Hin%list_elem_of_singleton]%elem_of_app; [by apply Hi|]. by subst i.
Qed.

Lemma relay_run_ok c ops s : inbox_ok (rs_items s) → inbox_ok (rs_items (relay_run c ops s)).
Proof using HL.
  revert s. induction ops as [|op ops IH]; intros s Hs; [done|]. apply IH.
  eapply items_step_ok; [apply relay_items_step|done].
Qed.

(** ** Durability *)

(** No symbolic link stands where the temporary file of [path] goes. *)
Definition plain_temp (path : string) s : Prop :=
  ∀ target, w_files (rs_world s) !! (path +:+ ".tmp") ≠ Some (Symlink target).

Lemma tmp_ne path : path +:+ ".tmp" ≠ path.
Proof using Type.
  intros E. apply (f_equal (length ∘ as_bytes)) in E. cbn in E. rewrite as_bytes_app, length_app in E.
  cbn in E. lia.
Qed.

Lemma write_json_ok path o s s' :
  plain_temp path s → write_json path o s = (s', true) →
  ∃ b, o = Some b ∧ w_files (rs_world s') !! path = Some (RegularFile b).
Proof using Type.
  intros Hp. unfold write_json. destruct o as [b|]; [|done].
  destruct (fs_write _ _ _) as [w []] eqn:Ew; [|done].
  destruct (fs_rename _ _ _) as [w' r] eqn:Er. intros [= <- ->]. exists b. split; [done|].
  apply fs_write_ok in Ew; [|done]. apply fs_rename_ok in Er as (node & Hn & Hf).
  rewrite Ew, lookup_insert_eq in Hn. simplify_eq. cbn. by rewrite Hf, lookup_insert_eq.
Qed.

(** What was persisted is what a restart loads. *)
Lemma persisted_loads `{!JsonRoundTrip (list Item)} c s s' :
  plain_temp (inbox_path c) s → inbox_ok (rs_items s) → persist c s = (s', true) →
  load_store (inbox_path c) (calm (rs_world s')) = (calm (rs_world s'), Ok (rs_items s)).
Proof using Type.
  intros Hp [Hb _ Hi] E. apply write_json_ok in E as (b & Ej & Hf); [|done].
  unfold load_store. rewrite (fs_read_ok _ _ b) by done. cbn. rewrite (json_roundtrip _ _ Ej).
  replace (MAX_INBOX_ITEMS <? _)%N with false by (symmetry; lia).
  replace (existsb _ _) with false; [done|]. symmetry. apply not_true_iff_false.
  rewrite existsb_exists. intros (i & Hin%list_elem_of_In & Hn). by rewrite (proj1 (Hi i Hin)) in Hn.
Qed.

(** C14. When a post is answered with an acceptance that is not a duplicate, its envelope is in the
    inbox, and a restart of the relay from its files, without I/O errors, loads exactly that
    inbox. This is for an inbox that satisfies the invariant of the relay, and when the temporary
    name next to the inbox file is not a symbolic link. *)
Theorem relay_accepted_is_durable `{!JsonRoundTrip (list Item)} c cap h body t0 t s s' id :
  inbox_ok (rs_items s) → plain_temp (inbox_path c) s →
  post_inbox c cap h body t0 t s
  = (s', response 202 (Object [("accepted", Bool true); ("id", Str id)])) →
  (∃ e, posted_envelope body = Some e ∧ id = relay_hex (sha256 (as_bytes e)) ∧
     {| it_id := id; it_envelope := e; it_received_at := t |} ∈ rs_items s') ∧
  load_store (inbox_path c) (calm (rs_world s')) = (calm (rs_world s'), Ok (rs_items s')).
Proof using HL.
  intros Hok Hp E. apply post_inbox_spec in E.
  remember (response 202 _) as r eqn:Er.
  destruct E as [r Hr|e He Hin|e s' b He Hn Hi Hl Hw]; [by subst r| |].
  { unfold response in Er. by simplify_eq. }
  destruct b; [|done]. assert (id = relay_hex (sha256 (as_bytes e))) as -> by (unfold response in Er; by simplify_eq).
  pose proof (persist_frame _ _ _ _ Hw) as (Hit & _). rewrite Hit. cbn [rs_items set_items] in *. split.
  - exists e. split_and!; [done..|]. apply elem_of_app. right. by apply list_elem_of_singleton.
  - apply persisted_loads in Hw; [done..|]. cbn [rs_items set_items].
    eapply (items_step_ok (RPost cap h body t0 t)); [by apply items_posted|done].
Qed.

(** When the write fails the envelope stays in the inbox in memory, so a retry of the request
    the client was told has failed is answered as an accepted duplicate, and nothing is
    written for it. *)
Theorem relay_failed_write_becomes_duplicate c cap h body t0 t s s1 t0' t' s2 :
  post_inbox c cap h body t0 t s = (s1, error 500 "storage_error") →
  rate_limited t0' s1 = (s2, false) →
  ∃ id, post_inbox c cap h body t0' t' s1
    = (s2, response 202 (Object [("accepted", Bool true); ("id", Str id); ("duplicate", Bool true)])) ∧
    rs_world s2 = rs_world s1.
Proof using Type.
  unfold post_inbox. destruct (rate_limited t0 s) as [s0 []]; [done|].
  destruct (inbox_guard c cap h) as [g|] eqn:Eg.
  { intros E. exfalso. revert Eg. unfold inbox_guard. repeat case_match; by simplify_eq. }
  destruct (json_from_slice body) as [v|]; [|done].
  destruct (value_get "envelope" v ≫= as_str) as [e|]; [|done].
  destruct (_ || _); [done|]. cbn zeta. destruct (existsb _ _); [done|]. destruct (_ <=? _)%N; [done|].
  destruct (persist _ _) as [s1' b] eqn:Hp. destruct b; [done|]. intros [= <-] Er.
  apply persist_frame in Hp as (Hit & _). rewrite Er. apply rate_limited_frame in Er as (Hi2 & _ & Hw).
  exists (relay_hex (sha256 (as_bytes e))). split; [|done].
  replace (existsb _ _) with true; [done|]. symmetry. apply existsb_exists.
  eexists. split; [rewrite Hi2, Hit; cbn; apply in_or_app; right; by left|]. apply seqb_refl.
Qed.

(** ** Delivery *)

(** Requests that may not remove item [i]. *)
Definition retains (i : Item) (op : RelayOp) : Prop :=
  match op with
  | RGet _ _ _ t => (t ≤ it_received_at i + TTL_SECONDS)%N
  | RAck _ _ body _ => it_id i ∉ acked_ids body
  | _ => True
  end.

Lemma items_step_retains op l l' i : items_step op l l' → retains i op → i ∈ l → i ∈ l'.
Proof using Type.
  intros Hs Hr Hi. destruct Hs; [done| | |apply elem_of_app; by left].
  - apply list_elem_of_In, filter_In. split; [by apply list_elem_of_In|].
    cbn in Hr. unfold unexpired, saturating_sub. lia.
  - apply list_elem_of_In, filter_In. split; [by apply list_elem_of_In|].
    apply negb_true_iff, not_true_iff_false. rewrite existsb_exists.
    intros (x & Hx & E). apply seqb_true in E as <-. by apply Hr, list_elem_of_In.
Qed.

Lemma relay_run_retains c ops s i :
  Forall (retains i) ops → i ∈ rs_items s → i ∈ rs_items (relay_run c ops s).
Proof using HL.
  intros Hops. revert s. induction Hops as [|op ops Hop _ IH]; intros s Hi; [done|]. apply IH.
  eapply items_step_retains; [apply relay_items_step|done..].
Qed.

(** The items a successful read answers with. *)
Definition answered_items (r : Response) : list Value :=
  match rp_body r with
  | Json v => default [] (value_get "items" v ≫= as_array)
  | Binary _ => []
  end.

(** C20. An envelope in the inbox is in the answer of every successful read within seven days of
    its arrival, whatever requests came between, as long as none of them acknowledged it and
    no read came after the seven days. *)
Theorem relay_delivers_until_acknowledged c ops s i cap h t0 t s' r :
  i ∈ rs_items s → Forall (retains i) ops → (t ≤ it_received_at i + TTL_SECONDS)%N →
  get_inbox c cap h t0 t (relay_run c ops s) = (s', r) → rp_status r = 200%N →
  item_value i ∈ answered_items r ∧ i ∈ rs_items s'.
Proof using HL.
  intros Hi Hops Ht E Hr. pose proof (relay_run_retains c ops s i Hops Hi) as Hi'.
  apply get_inbox_spec in E as [[_ ?]|(b & Hp & ->)]; [done|]. destruct b; [|done].
  apply persist_frame in Hp as (Hit & _).
  assert (i ∈ rs_items s').
  { rewrite Hit. cbn [rs_items set_items].
    eapply (items_step_retains (RGet cap h t0 t)); [apply items_expired|done..]. }
  split; [|done]. cbn. by apply list_elem_of_fmap_2.
Qed.

(** A successful acknowledgement removes exactly the items it names. *)
Theorem relay_acknowledge_removes_exactly c cap h body t0 s s' r :
  ack_inbox c cap h body t0 s = (s', r) → rp_status r = 200%N →
  ∀ i, i ∈ rs_items s' ↔ i ∈ rs_items s ∧ it_id i ∉ acked_ids body.
Proof using Type.
  intros E Hr i. apply ack_inbox_spec in E as [[_ ?]|(b & Hp & ->)]; [done|].
  apply persist_frame in Hp as (-> & _). cbn [rs_items set_items].
  rewrite list_elem_of_In, filter_In, <-list_elem_of_In. unfold unacked.
  rewrite negb_true_iff, <-not_true_iff_false, existsb_exists. split.
  - intros [Hi Hn]. split; [done|]. intros Hx. apply Hn. exists (it_id i).
    split; [by apply list_elem_of_In|apply seqb_refl].
  - intros [Hi Hn]. split; [done|]. intros (x & Hx & E). apply seqb_true in E as <-.
    by apply Hn, list_elem_of_In.
Qed.

(** ** One-time invite codes *)

(** The records that a consumption of a code with hash [h] can still find. *)
Definition unused (h : string) (i : RelayInvite) : bool :=
  seqb (iv_code_hash i) h && bool_decide (iv_consumed_at i = None).
Definition unconsumed (h : string) (l : list RelayInvite) : nat := length (List.filter (unused h) l).

Definition requested_code (body : bytes) : option string :=
  match json_from_slice body with Some v => value_get "code" v ≫= as_str | None => None end.

(** The request consumed a code of hash [h], and was granted. *)
Definition granted c (h : string) (op : RelayOp) s : bool :=
  match op with
  | RConsume body t0 t =>
    bool_decide (code_hash <$> requested_code body = Some h)
    && (rp_status (consume_invite c body t0 t s).2 =? 200)%N
  | _ => false
  end.
Fixpoint grants c (h : string) (ops : list RelayOp) s : nat :=
  match ops with
  | [] => 0
  | op :: ops => (if granted c h op s then 1 else 0) + grants c h ops (relay_apply c op s).1
  end.

(** No invite created during the run drew a code of hash [h] again. *)
Definition draws_other (h : string) (op : RelayOp) s : Prop :=
  match op with
  | RCreate _ _ _ _ => ∀ d, (secure_random 32 (rs_world s)).2 = Some d → code_hash (invite_code d) ≠ h
  | _ => True
  end.
Fixpoint never_redrawn c (h : string) (ops : list RelayOp) s : Prop :=
  match ops with
  | [] => True
  | op :: ops => draws_other h op s ∧ never_redrawn c h ops (relay_apply c op s).1
  end.

Lemma unconsumed_cons h x l : unconsumed h (x :: l) = (if unused h x then 1 else 0) + unconsumed h l.
Proof using Type. unfold unconsumed. cbn. by destruct (unused h x). Qed.
Lemma unconsumed_app h l k : unconsumed h (l ++ k) = unconsumed h l + unconsumed h k.
Proof using Type. unfold unconsumed. by rewrite List.filter_app, length_app. Qed.

Lemma unconsumed_filter h p l : unconsumed h (List.filter p l) ≤ unconsumed h l.
Proof using Type.
  induction l as [|x l IH]; [done|]. cbn [List.filter]. rewrite (unconsumed_cons h x l).
  destruct (p x); [rewrite unconsumed_cons|]; lia.
Qed.

(** Changing the first record that satisfies [p]. *)
Lemma update_first_unconsumed h p f l x l' :
  update_first p f l = Some (x, l') →
  p x = true ∧
  unconsumed h l' + (if unused h x then 1 else 0) = unconsumed h l + (if unused h (f x) then 1 else 0).
Proof using Type.
  revert l'. induction l as [|y l IH]; intros l'; cbn [update_first]; [done|].
  destruct (p y) eqn:Hp.
  - intros [= <- <-]. split; [done|]. rewrite !unconsumed_cons. lia.
  - destruct (update_first p f l) as [[z k]|]; [|done]. intros [= <- <-].
    destruct (IH k eq_refl) as [? ?]. split; [done|]. rewrite !unconsumed_cons. lia.
Qed.

Lemma consume_invite_unconsumed c h body t0 t s :
  (if granted c h (RConsume body t0 t) s then 1 else 0)
  + unconsumed h (rs_invites (consume_invite c body t0 t s).1) ≤ unconsumed h (rs_invites s).
Proof using Type.
  unfold granted, requested_code, consume_invite. destruct (rate_limited t0 s) as [s0 l] eqn:Er.
  apply rate_limited_frame in Er as (_ & <- & _).
  destruct l; [by rewrite andb_false_r|].
  destruct (json_from_slice body) as [v|]; [|by rewrite andb_false_r].
  destruct (value_get "code" v ≫= as_str) as [code|]; [|by rewrite andb_false_r]. cbn zeta.
  destruct (update_first _ _ _) as [[x l']|] eqn:E; [|by rewrite andb_false_r].
  apply (update_first_unconsumed h) in E as [Hlive Hcount].
  destruct (persist_invites _ _) as [s1 b] eqn:Hp. apply persist_invites_frame in Hp as (_ & Hi & _).
  cbn [rs_invites set_invites] in Hi.
  apply andb_true_iff in Hlive as [Hlive Hnone]. apply andb_true_iff in Hlive as [Hcode _].
  apply seqb_true in Hcode. unfold unused in Hcount. rewrite Hnone, andb_true_r in Hcount. cbn in Hcount.
  rewrite andb_false_r in Hcount. rewrite Hcode in Hcount.
  assert (rs_invites (if b then (s1, response 200 (Object [("consumed", Bool true);
            ("invite", Str (iv_invite x)); ("inviteDigest", Str (iv_invite_digest x));
            ("receipt", Str (receipt (rc_receipt_key c) (rc_origin c) code (iv_invite x) t))]))
            else (s1, error 500 "storage_error")).1 = l') as -> by (by destruct b).
  cbn [fmap option_fmap option_map]. unfold seqb in Hcount.
  destruct (decide (code_hash code = h)) as [He|Hne].
  - rewrite (bool_decide_true _ He) in Hcount. case_match; lia.
  - rewrite bool_decide_false by congruence. cbn. lia.
Qed.

Lemma pairing_unconsumed c h body t0 t s :
  unconsumed h (rs_invites (pairing c body t0 t s).1) = unconsumed h (rs_invites s).
Proof using Type.
  unfold pairing. destruct (rate_limited t0 s) as [s0 l] eqn:Er.
  apply rate_limited_frame in Er as (_ & <- & _). destruct l; [done|].
  destruct (json_from_slice body) as [v|]; [|done].
  destruct (value_get "code" v ≫= as_str) as [code|]; [|done]. cbn zeta.
  destruct (find_first _ _) as [x|]; [|done]. destruct (bool_decide _); [done|].
  destruct (value_get "response" v) as [y|]; [|done]. destruct (negb (is_object y && _)); [done|].
  destruct (_ <=? _)%N; [done|].
  destruct (persist_invites _ _) as [s1 b] eqn:Hp. apply persist_invites_frame in Hp as (_ & Hi & _).
  cbn [rs_invites set_invites] in Hi. assert (rs_invites (if b then (s1, response 201 (Object [("accepted", Bool true)]))
    else (s1, error 500 "storage_error")).1 = rs_invites s1) as -> by (by destruct b). rewrite Hi.
  destruct (update_first _ _ _) as [[z k]|] eqn:E; [|done]. cbn [from_option snd].
  apply (update_first_unconsumed h) in E as [_ E]. unfold unused in E. cbn in E. lia.
Qed.

Lemma create_invite_unconsumed c h body t0 t1 t s :
  draws_other h (RCreate body t0 t1 t) s →
  unconsumed h (rs_invites (create_invite c body t0 t1 t s).1) ≤ unconsumed h (rs_invites s).
Proof using Type.
  intros Hd. cbn in Hd. unfold create_invite. destruct (rate_limited t0 s) as [s0 l] eqn:Er.
  apply rate_limited_frame in Er as (_ & <- & Hw). rewrite <-Hw in Hd. destruct l; [done|].
  destruct (json_from_slice body) as [v|]; [|done]. cbn zeta.
  match goal with |- context [match ?i with Returns _ => _ | Panics => _ end] => destruct i as [[x|]|] end;
    [|done..].
  destruct (secure_random _ _) as [w [d|]]; [|done]. specialize (Hd d eq_refl).
  destruct (_ <=? _)%N; [apply unconsumed_filter|].
  destruct (persist_invites _ _) as [s1 p] eqn:E. apply persist_invites_frame in E as (_ & E & _).
  assert (unconsumed h (rs_invites s1) ≤ unconsumed h (rs_invites s0)); [|by destruct p].
  rewrite E. cbn [rs_invites set_invites set_world]. rewrite unconsumed_app, unconsumed_cons.
  unfold unused at 1. cbn [iv_code_hash iv_consumed_at]. unfold seqb.
  rewrite bool_decide_false by done. cbn [andb].
  pose proof (unconsumed_filter h (λ i, (t <? iv_expires_at i)%N) (rs_invites s0)). cbn. lia.
Qed.

Lemma inbox_handlers_invites c cap h body t0 t s :
  rs_invites (post_inbox c cap h body t0 t s).1 = rs_invites s ∧
  rs_invites (get_inbox c cap h t0 t s).1 = rs_invites s ∧
  rs_invites (ack_inbox c cap h body t0 s).1 = rs_invites s.
Proof using HL.
  split_and!.
  - destruct (post_inbox _ _ _ _ _ _ _) as [s' r] eqn:E. apply post_inbox_spec in E. cbn [fst].
    destruct E as [| |e s' p Hb Hn Hok Hl Hp]; [done..|]. by apply persist_frame in Hp as (_ & -> & _).
  - destruct (get_inbox _ _ _ _ _ _) as [s' r] eqn:E. cbn [fst].
    apply get_inbox_spec in E as [[-> _]|(p & E & _)]; [done|]. by apply persist_frame in E as (_ & -> & _).
  - destruct (ack_inbox _ _ _ _ _ _) as [s' r] eqn:E. cbn [fst].
    apply ack_inbox_spec in E as [[-> _]|(p & E & _)]; [done|]. by apply persist_frame in E as (_ & -> & _).
Qed.

Lemma relay_apply_unconsumed c h op s :
  draws_other h op s →
  (if granted c h op s then 1 else 0) + unconsumed h (rs_invites (relay_apply c op s).1)
  ≤ unconsumed h (rs_invites s).
Proof using HL.
  intros Hd. destruct op as [cap hs b t0 t|cap hs t0 t|cap hs b t0|b t0 t1 t|b t0 t|b t0 t|id hs b m t0 t1 t2 t];
    cbn [relay_apply].
  - destruct (inbox_handlers_invites c cap hs b t0 t s) as (E & _). destruct (post_inbox _ _ _ _ _ _ _).
    cbn [fst] in *. by rewrite E.
  - destruct (inbox_handlers_invites c cap hs [] t0 t s) as (_ & E & _). destruct (get_inbox _ _ _ _ _ _).
    cbn [fst] in *. by rewrite E.
  - destruct (inbox_handlers_invites c cap hs b t0 0 s) as (_ & _ & E). destruct (ack_inbox _ _ _ _ _ _).
    cbn [fst] in *. by rewrite E.
  - by apply create_invite_unconsumed.
  - pose proof (consume_invite_unconsumed c h b t0 t s) as E.
    destruct (consume_invite c b t0 t s) as [s' r] eqn:Ec. done.
  - pose proof (pairing_unconsumed c h b t0 t s) as E. destruct (pairing _ _ _ _ _). cbn [fst] in *.
    by rewrite E.
  - pose proof (proj2 (blob_impl_frame c id hs b m t0 t1 t2 t s)) as E.
    destruct (blob_impl _ _ _ _ _ _ _ _ _ _). cbn [fst] in *. by rewrite E.
Qed.

(** C1. In any run of the relay, the requests that are granted a code are at most as many as the
    records the code had when the run began, failed writes included, provided no invite
    created during the run drew the same code again. *)
Theorem relay_code_granted_at_most_once c h ops s :
  never_redrawn c h ops s →
  grants c h ops s + unconsumed h (rs_invites (relay_run c ops s)) ≤ unconsumed h (rs_invites s).
Proof using HL.
  revert s. induction ops as [|op ops IH]; intros s; [done|]. cbn [never_redrawn grants]. intros [Hd Hn].
  specialize (IH _ Hn). pose proof (relay_apply_unconsumed c h op s Hd). cbn [relay_run foldl].
  fold (relay_run c ops (relay_apply c op s).1). lia.
Qed.
End relay.
