(* ===== verification/RelayGuards.v ===== *)
(** * The relay's guards and receipts

    The rate window, the capability every inbox and blob request must show, the receipt a
    consumption hands out (checked by the daemon's own verifier), and the panic of the
    relay's hexadecimal decoder. *)
From Stdlib Require Import Ascii NArith ZArith Lia ZifyBool ZifyN.
From stdpp Require Import base gmap strings list.
From S2P Require Import Prelude Text Collections Interfaces JsonValue Fs Trust Invite Receipt Relay RelayProps.

Ltac in_list := apply list_elem_of_In; cbn; tauto.

(** ** The rate window *)

(** The requests at the times [ts] that the window lets through. *)
Fixpoint admitted (ts : list N) (s : AppState) : nat :=
  match ts with
  | [] => 0
  | t :: ts => (if (rate_limited t s).2 then 0 else 1) + admitted ts (rate_limited t s).1
  end.

Lemma rate_limited_within t s :
  (saturating_sub t (started_at (rs_window s)) < RATE_WINDOW_SECONDS)%N →
  rate_limited t s
  = (set_window {| started_at := started_at (rs_window s);
                   requests := u32_saturating_add (requests (rs_window s)) 1 |} s,
     (MAX_REQUESTS_PER_WINDOW <? u32_saturating_add (requests (rs_window s)) 1)%N).
Proof. intros Ht. unfold rate_limited. by rewrite (proj2 (N.leb_gt _ _) Ht). Qed.

Lemma window_arithmetic (n r : N) :
  (r ≤ u32_max)%N →
  ((if (MAX_REQUESTS_PER_WINDOW <? u32_saturating_add r 1)%N then 0 else 1)
   + N.min n (saturating_sub MAX_REQUESTS_PER_WINDOW (u32_saturating_add r 1)))%N
  = N.min (n + 1) (saturating_sub MAX_REQUESTS_PER_WINDOW r).
Proof.
  unfold saturating_sub, u32_saturating_add, MAX_REQUESTS_PER_WINDOW, u32_max. intros Hr.
  destruct (120 <? _)%N eqn:E; lia.
Qed.

(** Of the requests that arrive while a window lasts, exactly as many are let through as the
    window has left of its 120. *)
Theorem relay_rate_window ts s :
  Forall (λ t, saturating_sub t (started_at (rs_window s)) < RATE_WINDOW_SECONDS)%N ts →
  (requests (rs_window s) ≤ u32_max)%N →
  N.of_nat (admitted ts s)
  = N.min (blen ts) (saturating_sub MAX_REQUESTS_PER_WINDOW (requests (rs_window s))).
Proof.
  intros Hts. revert s Hts. induction ts as [|t ts IH]; intros s Hts Hr; [by rewrite N.min_0_l|].
  apply Forall_cons in Hts as [Ht Hts]. cbn [admitted].
  rewrite (rate_limited_within t s Ht). cbn [fst snd]. rewrite Nat2N.inj_add, IH; cbn [rs_window set_window
    started_at requests]; [|done|apply N.le_min_r].
  replace (blen (t :: ts)) with (blen ts + 1)%N by (unfold blen; cbn [length]; lia).
  rewrite <-window_arithmetic by done. by destruct (_ <? _)%N.
Qed.

Section guards.
Context `{HC : Crypto} {HL : CryptoLaws} `{UnicodeCase, JsonCodec Value, JsonCodec (list Item),
  JsonCodec (list RelayInvite)}.
Implicit Types (c : RelayConfig) (s : AppState).

(** ** Refused requests *)

Definition rate_time (op : RelayOp) : N :=
  match op with
  | RPost _ _ _ t _ | RGet _ _ t _ | RAck _ _ _ t | RCreate _ t _ _ | RConsume _ t _
  | RPairing _ t _ | RBlob _ _ _ _ t _ _ _ => t
  end.

(** The request shows the relay's capability where one is asked for. *)
Definition shows_capability c (op : RelayOp) : bool :=
  match op with
  | RPost cap h _ _ _ | RGet cap h _ _ | RAck cap h _ _ =>
    seqb cap (rc_capability c) && bool_decide (h "x-ad-relay-capability" = Some (rc_capability c))
  | RBlob _ h _ _ _ _ _ _ => bool_decide (h "x-ad-relay-capability" = Some (rc_capability c))
  | _ => true
  end.

Lemma inbox_guard_refuses c cap h :
  seqb cap (rc_capability c) && bool_decide (h "x-ad-relay-capability" = Some (rc_capability c)) = false →
  ∃ r, inbox_guard c cap h = Some r ∧ rp_status r ∈ [410; 403]%N.
Proof using Type.
  unfold inbox_guard. destruct (seqb cap _); cbn [negb andb].
  - intros ->. eexists. split; [done|]. in_list.
  - intros _. eexists. split; [done|]. in_list.
Qed.

(** A request over the rate limit, or one that does not show the capability, is answered with
    an error and changes neither the inbox, nor the invites, nor a file. *)
Theorem relay_refuses_without_effect c op s :
  (rate_limited (rate_time op) s).2 = true ∨ shows_capability c op = false →
  ∃ r, relay_apply c op s = ((rate_limited (rate_time op) s).1, Some r) ∧
    rp_status r ∈ [429; 410; 403; 400]%N.
Proof using Type.
  intros Hor. destruct op as [cap h b t0 t|cap h t0 t|cap h b t0|b t0 t1 t|b t0 t|b t0 t|id h b m t0 t1 t2 t];
    cbn [relay_apply rate_time shows_capability] in *;
    unfold post_inbox, get_inbox, ack_inbox, create_invite, consume_invite, pairing, blob_impl;
    destruct (rate_limited t0 s) as [s0 []]; cbn [fst snd] in *;
    try (eexists; split; [done|]; in_list); destruct Hor as [|Hor]; try done.
  - destruct (inbox_guard_refuses _ _ _ Hor) as (r & -> & Hr). exists r. split; [done|].
    apply list_elem_of_In in Hr. cbn in Hr. in_list.
  - destruct (inbox_guard_refuses _ _ _ Hor) as (r & -> & Hr). exists r. split; [done|].
    apply list_elem_of_In in Hr. cbn in Hr. in_list.
  - destruct (inbox_guard_refuses _ _ _ Hor) as (r & -> & Hr). exists r. split; [done|].
    apply list_elem_of_In in Hr. cbn in Hr. in_list.
  - destruct (negb (valid_blob_id id)); [eexists; split; [done|]; in_list|].
    rewrite Hor. cbn [negb]. eexists. split; [done|]. in_list.
Qed.

(** ** Receipts *)

Definition receipt_parts (key : bytes) (origin code invite : string) (t : N) : list string :=
  ["ADRECEIPT1"; relay_hex (sha256 (ed_public key)); relay_hex (as_bytes origin);
   code_hash code; relay_hex (sha256 (as_bytes invite)); u64_to_string t].

Lemma receipt_join key origin code invite t :
  receipt key origin code invite t
  = join 46 (receipt_parts key origin code invite t
             ++ [relay_hex (ed_sign key (as_bytes (receipt_body key origin code invite t)))]).
Proof using Type. by rewrite join_snoc. Qed.

Lemma hex_no_dot b : n_byte 46 ∉ as_bytes (relay_hex b).
Proof using Type. by apply (hex_no_byte 46). Qed.

Lemma receipt_no_dots key origin code invite t x :
  Forall (λ p, n_byte 46 ∉ as_bytes p) (receipt_parts key origin code invite t ++ [relay_hex x]).
Proof using Type.
  unfold receipt_parts. cbn [app].
  apply Forall_cons_2; [by apply (forallb_not_elem is_ascii_alphanumeric)|].
  do 4 (apply Forall_cons_2; [apply hex_no_dot|]).
  apply Forall_cons_2; [|apply Forall_cons_2; [apply hex_no_dot|done]].
  by apply (forallb_not_elem is_ascii_digit); [apply u64_digits|].
Qed.

Lemma receipt_verifies key origin code invite_text t invite trust now :
  utf8_valid (as_bytes origin) = true → (t ≤ u64_max)%N → vi_relay_origin invite = origin →
  match trust with Some tr => allows tr (ed_public key) = true | None => True end →
  (t ≤ u64_saturating_add now 300)%N →
  verify_relay_receipt code invite_text (receipt key origin code invite_text t) invite
    (Some (ed_public key)) trust now = true.
Proof using HL.
  intros Hu Ht Ho Htr Hnow. unfold verify_relay_receipt. rewrite receipt_join.
  rewrite split_join by (done || apply receipt_no_dots).
  rewrite rsplit_once_join by (done || apply receipt_no_dots).
  cbn [receipt_parts app]. rewrite seqb_refl. cbn [negb].
  replace (match trust with Some tr => negb (allows tr (ed_public key)) | None => false end) with false
    by (by destruct trust; [rewrite Htr|]).
  assert (Hor : from_utf8 (default [] (hex_decode (relay_hex (as_bytes origin)))) = Some origin).
  { destruct (decide (as_bytes origin = [])) as [E|E].
    - apply (f_equal of_bytes) in E. rewrite of_as_bytes in E. by subst origin; rewrite E.
    - unfold relay_hex. fold (hex_bytes (as_bytes origin)). rewrite hex_decode_bytes by done.
      cbn. unfold from_utf8. by rewrite Hu, of_as_bytes. }
  rewrite Hor, Ho, bool_decide_true by done. unfold code_hash, relay_hex.
  unfold hex_bytes. rewrite !seqb_refl, parse_u64_to_string by done.
  rewrite (proj2 (N.leb_le _ _) Hnow). cbn [andb].
  fold (hex_bytes (ed_sign key (as_bytes (receipt_body key origin code invite_text t)))).
  rewrite hex_decode_bytes
    by (intros E; apply (f_equal length) in E; rewrite ed_sign_length in E; done).
  cbn [mbind option_bind]. rewrite ed_sign_length, ed_public_valid. cbn [Nat.eqb fmap option_fmap option_map fst].
  apply ed_verify_strict_sign.
Qed.

Lemma update_first_elem {A} (p : A → bool) f l x l' :
  update_first p f l = Some (x, l') → x ∈ l ∧ p x = true.
Proof using Type.
  revert l'. induction l as [|y l IH]; intros l'; cbn [update_first]; [done|].
  destruct (p y) eqn:Hp.
  - intros [= <- _]. split; [by left|done].
  - destruct (update_first p f l) as [[z k]|]; [|done]. intros [= <- _].
    destruct (IH k eq_refl). split; [by right|done].
Qed.

(** A field of a JSON response. *)
Definition text_field (name : string) (r : Response) : option string :=
  match rp_body r with Json v => value_get name v ≫= as_str | Binary _ => None end.

(** C21. A granted consumption answers with an invite that was waiting under the code, unconsumed
    and unexpired, and with a receipt that the daemon's verifier accepts for that code and
    that invite: with the relay's receipt key, under any trust that allows that key, for an
    invite naming this relay, and from 300 seconds before the consumption on. The origin of the
    relay is UTF-8 and the time of the consumption a 64-bit number. *)
Theorem relay_grant_receipt_verifies c body t0 t s s' r :
  utf8_valid (as_bytes (rc_origin c)) = true → (t ≤ u64_max)%N →
  consume_invite c body t0 t s = (s', r) → rp_status r = 200%N →
  ∃ code record receipt_text,
    requested_code body = Some code ∧ record ∈ rs_invites s ∧
    iv_code_hash record = code_hash code ∧ iv_consumed_at record = None ∧
    (t < iv_expires_at record)%N ∧
    text_field "invite" r = Some (iv_invite record) ∧
    text_field "receipt" r = Some receipt_text ∧
    ∀ invite trust now, vi_relay_origin invite = rc_origin c →
      match trust with Some tr => allows tr (ed_public (rc_receipt_key c)) = true | None => True end →
      (t ≤ u64_saturating_add now 300)%N →
      verify_relay_receipt code (iv_invite record) receipt_text invite
        (Some (ed_public (rc_receipt_key c))) trust now = true.
Proof using HL.
  intros Hu Ht. unfold consume_invite, requested_code. destruct (rate_limited t0 s) as [s0 []] eqn:Er;
    [by intros [= <- <-]|].
  apply rate_limited_frame in Er as (_ & <- & _).
  destruct (json_from_slice body) as [v|]; [|by intros [= <- <-]].
  destruct (value_get "code" v ≫= as_str) as [code|]; [|by intros [= <- <-]]. cbn zeta.
  destruct (update_first _ _ _) as [[x l]|] eqn:E; [|by intros [= <- <-]].
  apply update_first_elem in E as [Hx Hlive]. apply andb_true_iff in Hlive as [Hlive Hn].
  apply andb_true_iff in Hlive as [Hc He].
  apply seqb_true in Hc. apply bool_decide_eq_true in Hn. apply N.ltb_lt in He.
  destruct (persist_invites _ _) as [s1 []]; intros [= <- <-]; [|done]. intros _.
  exists code, x, (receipt (rc_receipt_key c) (rc_origin c) code (iv_invite x) t).
  split_and!; [done..|]. intros invite trust now Ho Htr Hnow. by apply receipt_verifies.
Qed.

(** ** The decoder's panic *)

(** Four bytes where a pair of hexadecimal digits would end inside a character. *)
Definition split_character : string := of_bytes [n_byte 226; n_byte 130; n_byte 172; n_byte 48].
Definition hostile_invite : string := "ADDAINV1." +:+ split_character +:+ ".00".

(** An invite whose payload field holds a character of three bytes makes the handler panic:
    the connection is dropped with no response, where every other malformed invite is
    answered with an error. *)
Theorem relay_create_invite_panics c body t0 t1 t s :
  json_from_slice body = Some (Object [("invite", Str hostile_invite)]) →
  (rate_limited t0 s).2 = false →
  utf8_valid (as_bytes hostile_invite) = true ∧
  create_invite c body t0 t1 t s = ((rate_limited t0 s).1, None).
Proof using Type.
  intros Hb Hr. split; [vm_compute; reflexivity|]. unfold create_invite.
  destruct (rate_limited t0 s) as [s0 l]. cbn [snd] in Hr. subst l. rewrite Hb.
  change (value_get "invite" _ ≫= as_str) with (Some hostile_invite).
  cbv beta iota zeta. assert (validate_invite hostile_invite (rc_origin c) t1 = Panics) as ->.
  { unfold validate_invite. change (split 46 hostile_invite) with ["ADDAINV1"; split_character; "00"].
    done. }
  by destruct (slen hostile_invite <=? 96 * 1024)%N eqn:E; [|vm_compute in E].
Qed.
End guards.

(** ** Samples *)

Module RelaySample.
Import Reference.

Definition hash_code : string := "ABCD".
Definition bodies : list Value :=
  [Object [("envelope", Str "ADENV1.hello")]; Object [("code", Str hash_code)];
   Object [("invite", Str hostile_invite)]; Object [("ids", Array [])]].
Definition body (n : nat) : bytes := replicate n (n_byte 48).
#[export] Instance value_codec : JsonCodec Value :=
  {| json_to_vec := λ _, Some []; json_from_slice := λ b, bodies !! length b |}.
#[export] Instance invites_codec : JsonCodec (list RelayInvite) :=
  {| json_to_vec := λ _, Some []; json_from_slice := λ _, None |}.

Definition config : RelayConfig :=
  {| rc_data_dir := "data"; rc_capability := "cap"; rc_origin := "http://127.0.0.1:1422";
     rc_receipt_key := replicate 32 (n_byte 5) |}.
Definition headers : Headers := λ name, if seqb name "x-ad-relay-capability" then Some "cap" else None.
Definition invite : RelayInvite :=
  {| iv_version := 1; iv_code_hash := code_hash hash_code; iv_invite := "ADDAINV1.00.00";
     iv_invite_digest := "00"; iv_created_at := 100; iv_expires_at := 700; iv_consumed_at := None;
     iv_pairing_responses := [] |}.
Definition world (faults : list Fault) : World :=
  {| w_files := ∅; w_faults := faults; w_entropy := []; w_pid := 1 |}.
Definition start (faults : list Fault) : AppState :=
  {| rs_items := []; rs_invites := [invite]; rs_window := {| started_at := 100; requests := 0 |};
     rs_world := world faults |}.
Definition item : Item :=
  {| it_id := relay_hex (sha256 (as_bytes "ADENV1.hello")); it_envelope := "ADENV1.hello";
     it_received_at := 101 |}.
#[export] Instance items_codec : JsonCodec (list Item) := json_table [[]; [item]].
#[export] Instance items_codec_laws : JsonRoundTrip (list Item) := json_table_laws [[]; [item]].

Definition posted : AppState := (post_inbox config "cap" headers (body 0) 101 101 (start [])).1.

Lemma start_inbox_ok faults : inbox_ok (rs_items (start faults)).
Proof. split; cbn; [done|constructor|]. intros i Hi. by apply not_elem_of_nil in Hi. Qed.

Lemma relay_accepted_is_durable_witness :
  load_store (inbox_path config) (calm (rs_world posted)) = (calm (rs_world posted), Ok (rs_items posted)).
Proof.
  apply (relay_accepted_is_durable config "cap" headers (body 0) 101 101 (start []) posted (it_id item)).
  - apply start_inbox_ok.
  - intros target. vm_compute. discriminate.
  - vm_compute. reflexivity.
Defined.

(** The first write fails. *)
Definition failed : AppState :=
  (post_inbox config "cap" headers (body 0) 101 101 (start [FailBefore])).1.
Lemma relay_failed_write_becomes_duplicate_witness :
  ∃ id, post_inbox config "cap" headers (body 0) 102 102 failed
    = ((rate_limited 102 failed).1,
       response 202 (Object [("accepted", Bool true); ("id", Str id); ("duplicate", Bool true)])) ∧
    rs_world (rate_limited 102 failed).1 = rs_world failed.
Proof.
  apply (relay_failed_write_becomes_duplicate config "cap" headers (body 0) 101 101 (start [FailBefore])
           failed 102 102 (rate_limited 102 failed).1); vm_compute; reflexivity.
Defined.

Lemma relay_delivers_until_acknowledged_witness :
  item_value item ∈
    answered_items (get_inbox config "cap" headers 120 120
                      (relay_run config [RAck "cap" headers (body 3) 110] posted)).2.
Proof.
  apply (relay_delivers_until_acknowledged config [RAck "cap" headers (body 3) 110] posted item "cap"
           headers 120 120
           (get_inbox config "cap" headers 120 120
              (relay_run config [RAck "cap" headers (body 3) 110] posted)).1).
  - vm_compute. left.
  - constructor; [|constructor]. vm_compute. intros Hin. by apply not_elem_of_nil in Hin.
  - vm_compute. discriminate.
  - apply surjective_pairing.
  - vm_compute. reflexivity.
Defined.

Lemma relay_acknowledge_removes_exactly_witness :
  item ∈ rs_items (ack_inbox config "cap" headers (body 3) 110 posted).1 ↔
  item ∈ rs_items posted ∧ it_id item ∉ acked_ids (body 3).
Proof.
  apply (relay_acknowledge_removes_exactly config "cap" headers (body 3) 110 posted _ _
           (surjective_pairing _)).
  vm_compute. reflexivity.
Defined.

(** The code is asked for twice. *)
Definition twice : list RelayOp := [RConsume (body 1) 110 110; RConsume (body 1) 111 111].
Lemma relay_code_granted_at_most_once_witness :
  grants config (code_hash hash_code) twice (start [])
  + unconsumed (code_hash hash_code) (rs_invites (relay_run config twice (start []))) ≤ 1.
Proof.
  assert (unconsumed (code_hash hash_code) (rs_invites (start [])) = 1) as <- by (vm_compute; reflexivity).
  apply (relay_code_granted_at_most_once config (code_hash hash_code) twice (start [])).
  by repeat split.
Defined.

Lemma relay_rate_window_witness :
  N.of_nat (admitted (replicate 130 120%N) (start [])) = 120%N.
Proof.
  rewrite (relay_rate_window (replicate 130 120%N) (start [])); [vm_compute; reflexivity| |].
  - apply Forall_replicate. vm_compute. reflexivity.
  - vm_compute. discriminate.
Defined.

Lemma relay_refuses_without_effect_witness :
  ∃ r, relay_apply config (RGet "other" headers 101 101) (start [])
       = ((rate_limited 101 (start [])).1, Some r) ∧ rp_status r ∈ [429; 410; 403; 400]%N.
Proof.
  apply (relay_refuses_without_effect config (RGet "other" headers 101 101) (start [])).
  right. vm_compute. reflexivity.
Defined.

Lemma relay_grant_receipt_verifies_witness :
  ∃ code record receipt_text,
    requested_code (body 1) = Some code ∧ record ∈ rs_invites (start []) ∧
    iv_code_hash record = code_hash code ∧ iv_consumed_at record = None ∧
    (110 < iv_expires_at record)%N ∧
    text_field "invite" (consume_invite config (body 1) 110 110 (start [])).2 = Some (iv_invite record) ∧
    text_field "receipt" (consume_invite config (body 1) 110 110 (start [])).2 = Some receipt_text ∧
    ∀ invite trust now, vi_relay_origin invite = rc_origin config →
      match trust with Some tr => allows tr (ed_public (rc_receipt_key config)) = true | None => True end →
      (110 ≤ u64_saturating_add now 300)%N →
      verify_relay_receipt code (iv_invite record) receipt_text invite
        (Some (ed_public (rc_receipt_key config))) trust now = true.
Proof.
  apply (relay_grant_receipt_verifies config (body 1) 110 110 (start [])
           (consume_invite config (body 1) 110 110 (start [])).1).
  - vm_compute. reflexivity.
  - vm_compute. discriminate.
  - apply surjective_pairing.
  - vm_compute. reflexivity.
Defined.

Lemma relay_create_invite_panics_witness :
  create_invite config (body 2) 110 110 110 (start []) = ((rate_limited 110 (start [])).1, None).
Proof.
  apply (relay_create_invite_panics config (body 2) 110 110 110 (start [])); [reflexivity|].
  vm_compute. reflexivity.
Defined.
End RelaySample.
