(* ===== verification/RelayBlobs.v ===== *)
(** * The relay's blobs

    Uploads only ever append to a blob, whatever fails on the way, and chunks uploaded in
    order are read back as one file. *)
From Stdlib Require Import Ascii NArith ZArith Lia ZifyBool ZifyN.
From stdpp Require Import base gmap strings list.
From S2P Require Import Prelude Text Collections Interfaces JsonValue Fs Receipt Relay RelayProps RelayGuards.

(** ** The file operations on a regular file *)

Lemma fs_open_regular path b w :
  w_files w !! path = Some (RegularFile b) →
  w_files (fs_open path w).1 = w_files w ∧
  ∀ target, (fs_open path w).2 = Some target → target = path.
Proof.
  intros Hp. unfold fs_open. pose proof (next_fault_files w) as Hf.
  destruct (next_fault w) as [f w']. cbn [snd] in Hf. rewrite Hf, resolve_path_plain by (rewrite Hp; done).
  rewrite Hp. destruct f; split; naive_solver.
Qed.

Lemma fs_len_files target w : w_files (fs_len target w).1 = w_files w.
Proof.
  unfold fs_len. pose proof (next_fault_files w) as Hf. destruct (next_fault w) as [f w'].
  by destruct f; destruct (w_files w' !! target) as [[]|].
Qed.

Lemma fs_len_regular target b w n :
  w_files w !! target = Some (RegularFile b) → (fs_len target w).2 = Some n → n = blen b.
Proof.
  unfold fs_len. pose proof (next_fault_files w) as Hf. destruct (next_fault w) as [f w'].
  cbn [snd] in Hf. rewrite Hf. intros ->. destruct f; naive_solver.
Qed.

Lemma fs_seek_files w : w_files (fs_seek w).1 = w_files w.
Proof. apply fs_call_files. Qed.

(** A write at the end of a file appends a prefix of what is written: all of it when the call
    succeeds. *)
Lemma fs_write_at_end target b c w :
  w_files w !! target = Some (RegularFile b) →
  ∃ x, x `prefix_of` c ∧
    w_files (fs_write_at target (blen b) c w).1 = <[target := RegularFile (b ++ x)]> (w_files w) ∧
    ((fs_write_at target (blen b) c w).2 = true → x = c).
Proof.
  intros Hb. unfold fs_write_at. pose proof (next_fault_files w) as Hf.
  destruct (next_fault w) as [f w']. cbn [snd] in Hf. rewrite Hf, Hb.
  unfold blen. rewrite Nat2N.id.
  assert (Happ : ∀ x, take (length b) b ++ x ++ drop (length b + length x) b = b ++ x).
  { intros x. by rewrite take_ge, drop_ge, app_nil_r by lia. }
  destruct f; cbn [fst snd set_files w_files]; rewrite ?Happ, ?Hf.
  - by exists c.
  - exists []. rewrite app_nil_r, insert_id by done. split_and!; [apply prefix_nil|done|done].
  - by exists c.
  - exists (take n c). split_and!; [apply prefix_take|done|done].
Qed.

(** Writing elsewhere leaves a file alone. *)
Lemma fs_write_other path other c w :
  (∀ target, w_files w !! path ≠ Some (Symlink target)) → other ≠ path →
  w_files (fs_write path c w).1 !! other = w_files w !! other.
Proof.
  intros Hp Hne. unfold fs_write. pose proof (next_fault_files w) as Hf.
  destruct (next_fault w) as [f w']. cbn [snd] in Hf. rewrite Hf, resolve_path_plain by done.
  destruct f; cbn [fst]; rewrite ?Hf; try done;
    destruct (w_files w !! path) as [[]|]; cbn [fst set_files w_files]; rewrite ?Hf, ?lookup_insert_ne; done.
Qed.

Section blobs.
Context `{JsonCodec Value}.
Implicit Types (c : RelayConfig) (s : AppState).

Definition files_of s : gmap string Node := w_files (rs_world s).

Lemma blob_paths_differ c id : blob_file c id ≠ blob_meta c id.
Proof using Type.
  unfold blob_file, blob_meta. intros E. apply (f_equal as_bytes) in E.
  rewrite !as_bytes_app in E. apply app_inv_head, app_inv_head, app_inv_head in E. done.
Qed.

(** No symbolic link stands where the metadata of the blob goes. *)
Definition plain_meta c id s : Prop := ∀ target, files_of s !! blob_meta c id ≠ Some (Symlink target).

Lemma blob_append_grows c id offset total body t1 t s b :
  files_of s !! blob_file c id = Some (RegularFile b) → plain_meta c id s →
  ∃ x, x `prefix_of` body ∧
    files_of (blob_append c id offset total body t1 t s).1 !! blob_file c id = Some (RegularFile (b ++ x)).
Proof using Type.
  unfold files_of. intros Hb Hm. unfold blob_append.
  assert (Hsame : ∀ w, w_files w = w_files (rs_world s) →
            ∃ x, x `prefix_of` body ∧ w_files w !! blob_file c id = Some (RegularFile (b ++ x))).
  { intros w ->. exists []. rewrite app_nil_r. split; [apply prefix_nil|done]. }
  destruct (fs_open_regular _ _ _ Hb) as [Ho Ht]. destruct (fs_open _ _) as [w1 [target|]];
    cbn [fst snd] in *; [|by apply (Hsame w1)].
  rewrite (Ht target eq_refl) in *. clear Ht.
  pose proof (fs_len_files (blob_file c id) w1) as Hl.
  pose proof (fs_len_regular (blob_file c id) b w1) as Hlen. rewrite Ho in Hlen.
  destruct (fs_len _ w1) as [w2 len]. cbn [fst snd] in *.
  destruct (bool_decide (len = Some offset)) eqn:El; cbn [negb]; [|apply (Hsame w2); congruence].
  apply bool_decide_eq_true in El. rewrite (Hlen offset Hb El) in *. clear Hlen El.
  pose proof (fs_seek_files w2) as Hs. destruct (fs_seek w2) as [w3 []]; cbn [fst negb] in *;
    [|apply (Hsame w3); congruence].
  assert (w_files w3 !! blob_file c id = Some (RegularFile b)) as Hb3 by congruence.
  destruct (fs_write_at_end _ _ body w3 Hb3) as (x & Hx & Hw & _).
  destruct (fs_write_at _ _ _ w3) as [w4 []]; cbn [fst negb set_world rs_world] in *.
  2:{ exists x. split; [done|]. by rewrite Hw, lookup_insert_eq. }
  destruct (fs_write _ _ w4) as [w5 ok] eqn:E5.
  assert (w_files w5 !! blob_file c id = Some (RegularFile (b ++ x))) as Hfin.
  { pose proof (fs_write_other (blob_meta c id) (blob_file c id) (default [] (json_to_vec
      (Object [("version", number 1); ("total", number total); ("received", number (blen b + blen body));
               ("complete", Bool (blen b + blen body =? total)%N);
               ("expiresAt", number (clock_add t1 TTL_SECONDS))]))) w4) as Ho5.
    rewrite E5 in Ho5. cbn [fst] in Ho5. rewrite Ho5; [by rewrite Hw, lookup_insert_eq| |apply blob_paths_differ].
    intros tg. rewrite Hw, lookup_insert_ne by apply blob_paths_differ. rewrite Hs, Hl, Ho. apply Hm. }
  exists x. split; [done|]. by destruct ok.
Qed.

(** Whatever fails, and whatever offsets a client sends, an upload leaves the bytes a blob
    already has in place: it ends with those bytes followed by some prefix of the chunk. *)
Theorem relay_blob_append_only c id h body t0 t1 t2 t s b :
  files_of s !! blob_file c id = Some (RegularFile b) → plain_meta c id s →
  ∃ x, x `prefix_of` body ∧
    files_of (blob_impl c id h body POST t0 t1 t2 t s).1 !! blob_file c id
    = Some (RegularFile (b ++ x)).
Proof using Type.
  intros Hb Hm. unfold blob_impl. destruct (rate_limited t0 s) as [s0 l] eqn:Er.
  apply rate_limited_frame in Er as (_ & _ & Hw).
  assert (files_of s0 !! blob_file c id = Some (RegularFile b)) as Hb0 by (unfold files_of in *; by rewrite Hw).
  assert (plain_meta c id s0) as Hm0 by (unfold plain_meta, files_of in *; by rewrite Hw).
  assert (Hsame : ∃ x, x `prefix_of` body ∧ files_of s0 !! blob_file c id = Some (RegularFile (b ++ x))).
  { exists []. rewrite app_nil_r. split; [apply prefix_nil|done]. }
  destruct l; [done|]. destruct (negb _); [done|]. destruct (negb _); [done|].
  unfold blob_post. destruct (header_usize h "x-ad-blob-offset" 0) as [offset|]; [|done].
  destruct (header_usize h "x-ad-blob-total" 0) as [total|]; [|done].
  destruct (negb _); [done|]. destruct (_ || _); [done|].
  destruct (fs_read _ _) as [w r] eqn:E. pose proof (fs_read_files (blob_file c id) (rs_world s0)) as Hr.
  rewrite E in Hr. cbn [fst] in Hr.
  assert (Happ : ∃ x, x `prefix_of` body ∧
    files_of (blob_append c id offset total body t2 t (set_world w s0)).1 !! blob_file c id
    = Some (RegularFile (b ++ x))).
  { apply blob_append_grows; unfold plain_meta, files_of in *; cbn [rs_world set_world]; by rewrite Hr. }
  assert (Hsame' : ∃ x, x `prefix_of` body ∧
    files_of (set_world w s0) !! blob_file c id = Some (RegularFile (b ++ x))).
  { unfold files_of in *. cbn [rs_world set_world]. by rewrite Hr. }
  cbn zeta. destruct r; [|done..]. by destruct (blob_overlap _ _ _ _ _ _).
Qed.

(** ** Uploads with no failures *)

Definition upload_headers (offset total : N) : Headers :=
  λ name,
    if seqb name "x-ad-blob-offset" then Some (u64_to_string offset)
    else if seqb name "x-ad-blob-total" then Some (u64_to_string total)
    else None.

(** The chunks of a file, sent one after the other. *)
Fixpoint upload c (id : string) (total offset : N) (chunks : list bytes) (t : N) s : AppState :=
  match chunks with
  | [] => s
  | x :: rest =>
    upload c id total (offset + blen x) rest t
      (blob_post c id (upload_headers offset total) x t t t s).1
  end.

(** No failure is to come, the blob holds [b] (or does not exist, for an empty [b]), and the
    path of its metadata is a file or free. *)
Record blob_at c (id : string) (b : bytes) s : Prop := {
  ba_calm : w_faults (rs_world s) = [];
  ba_file : files_of s !! blob_file c id = Some (RegularFile b)
            ∨ files_of s !! blob_file c id = None ∧ b = [];
  ba_meta : files_of s !! blob_meta c id = None ∨ ∃ m, files_of s !! blob_meta c id = Some (RegularFile m);
}.

Lemma blob_append_calm c id total x t1 t b s :
  blob_at c id b s →
  blob_at c id (b ++ x) (blob_append c id (blen b) total x t1 t s).1 ∧
  rp_status (blob_append c id (blen b) total x t1 t s).2
  = if (blen b + blen x =? total)%N then 201%N else 202%N.
Proof using Type.
  intros [Hf Hb Hm]. unfold files_of in *. unfold blob_append.
  set (fl := w_files (rs_world s)) in *. set (w := rs_world s) in *.
  assert (∃ w1, fs_open (blob_file c id) w = (w1, Some (blob_file c id)) ∧ w_faults w1 = [] ∧
            w_files w1 = <[blob_file c id := RegularFile b]> fl) as (w1 & -> & Hf1 & Hw1).
  { unfold fs_open, next_fault. rewrite Hf. fold fl. destruct Hb as [Hb|[Hb ->]];
      rewrite resolve_path_plain, Hb by (rewrite Hb; done); eexists; split_and!; try done.
    symmetry. by apply insert_id. }
  assert (fs_len (blob_file c id) w1 = (w1, Some (blen b))) as ->.
  { unfold fs_len, next_fault. by rewrite Hf1, Hw1, lookup_insert_eq. }
  rewrite bool_decide_true by done. cbn [negb].
  assert (fs_seek w1 = (w1, true)) as -> by (unfold fs_seek, fs_call, next_fault; by rewrite Hf1).
  cbn [negb].
  destruct (fs_write_at_end (blob_file c id) b x w1) as (y & _ & Hw & Hy);
    [by rewrite Hw1, lookup_insert_eq|].
  assert (w_faults (fs_write_at (blob_file c id) (blen b) x w1).1 = [] ∧
          (fs_write_at (blob_file c id) (blen b) x w1).2 = true) as [Hf2 Hok].
  { unfold fs_write_at, next_fault. by rewrite Hf1, Hw1, lookup_insert_eq. }
  specialize (Hy Hok). subst y. destruct (fs_write_at _ _ _ w1) as [w2 ok]. cbn [fst snd] in *. subst ok.
  cbn [negb]. rewrite Hw1, insert_insert_eq in Hw. cbn zeta.
  match goal with |- context [fs_write _ ?m w2] => set (meta := m) end.
  assert (fs_write (blob_meta c id) meta w2
          = (set_files (<[blob_meta c id := RegularFile meta]> (w_files w2)) w2, true)) as ->.
  { assert (w_files w2 !! blob_meta c id = fl !! blob_meta c id) as Hm2
      by (rewrite Hw; apply lookup_insert_ne, blob_paths_differ).
    unfold fs_write, next_fault. rewrite Hf2.
    rewrite resolve_path_plain by (intros tg; rewrite Hm2; destruct Hm as [->|[m ->]]; done).
    rewrite Hm2. by destruct Hm as [->|[m ->]]. }
  cbn [negb fst snd]. split; [|by destruct (_ =? total)%N].
  split; unfold files_of; cbn [rs_world set_world set_files w_files w_faults]; [done| |].
  - left. rewrite lookup_insert_ne by (symmetry; apply blob_paths_differ). by rewrite Hw, lookup_insert_eq.
  - right. exists meta. apply lookup_insert_eq.
Qed.

Lemma blob_post_next c id total x t b s :
  blob_at c id b s → (0 < total ≤ MAX_BLOB_BYTES)%N → (blen b + blen x ≤ total)%N →
  blob_at c id (b ++ x) (blob_post c id (upload_headers (blen b) total) x t t t s).1 ∧
  rp_status (blob_post c id (upload_headers (blen b) total) x t t t s).2
  = if (blen b + blen x =? total)%N then 201%N else 202%N.
Proof using Type.
  intros Hat Ht Hlen. unfold blob_post.
  assert (header_usize (upload_headers (blen b) total) "x-ad-blob-offset" 0 = Some (blen b)) as ->.
  { unfold header_usize. cbn. apply parse_u64_to_string. unfold MAX_BLOB_BYTES, u64_max in *. lia. }
  assert (header_usize (upload_headers (blen b) total) "x-ad-blob-total" 0 = Some total) as ->.
  { unfold header_usize. cbn. apply parse_u64_to_string. unfold MAX_BLOB_BYTES, u64_max in *. lia. }
  assert (((0 <? total) && (total <=? MAX_BLOB_BYTES))%N = true) as -> by lia.
  assert (((total <? blen b) || (total <? blen b + blen x))%N = false) as -> by lia. cbn [negb].
  assert (fs_read (blob_file c id) (rs_world s) = (rs_world s, ReadOk b) ∨
          fs_read (blob_file c id) (rs_world s) = (rs_world s, ReadNotFound)) as Hr.
  { destruct Hat as [Hf [Hb|[Hb ->]] _]; [left; by apply fs_read_ok|right; by apply fs_read_missing]. }
  assert (set_world (rs_world s) s = s) as Hs by (by destruct s).
  destruct Hr as [-> | ->]; cbn zeta; rewrite Hs; [|by apply blob_append_calm].
  assert (blob_overlap id (blen b) total x b t = None) as ->; [|by apply blob_append_calm].
  unfold blob_overlap. by rewrite N.ltb_irrefl, N.eqb_refl.
Qed.

Lemma upload_at c id total chunks t b s :
  blob_at c id b s → (0 < total ≤ MAX_BLOB_BYTES)%N → (blen b + blen (concat chunks) ≤ total)%N →
  blob_at c id (b ++ concat chunks) (upload c id total (blen b) chunks t s).
Proof using Type.
  revert b s. induction chunks as [|x chunks IH]; intros b s Hat Ht Hlen; cbn [upload concat].
  { by rewrite app_nil_r. }
  assert (Hx : (blen (concat (x :: chunks)) = blen x + blen (concat chunks))%N)
    by (unfold blen; cbn; rewrite length_app; lia).
  rewrite Hx in Hlen. destruct (blob_post_next c id total x t b s Hat Ht) as [Hat' _]; [lia|].
  assert (Hbx : (blen b + blen x = blen (b ++ x))%N) by (unfold blen; rewrite length_app; lia).
  rewrite Hbx, app_assoc. apply IH; [done|done|]. rewrite <-Hbx. lia.
Qed.

(** A file uploaded in chunks of any sizes, in order and with no failures, is read back
    whole. *)
Theorem relay_blob_roundtrip c id chunks t s h :
  w_faults (rs_world s) = [] → files_of s !! blob_file c id = None →
  files_of s !! blob_meta c id = None →
  chunks ≠ [] → (0 < blen (concat chunks) ≤ MAX_BLOB_BYTES)%N →
  h "x-ad-blob-offset" = None → h "x-ad-blob-length" = None →
  let r := (blob_get c id h (upload c id (blen (concat chunks)) 0 chunks t s)).2 in
  rp_status r = 200%N ∧ rp_body r = Binary (concat chunks).
Proof using Type.
  intros Hf Hb Hm Hne Ht Ho Hl r.
  assert (Hat : blob_at c id [] s) by (split; auto).
  apply (upload_at c id (blen (concat chunks)) chunks t [] s) in Hat; [|done|reflexivity].
  cbn [app] in Hat. change (blen []) with 0%N in Hat. subst r.
  set (s' := upload _ _ _ _ _ _ _) in *. destruct Hat as [Hf' Hb' _].
  assert (files_of s' !! blob_file c id = Some (RegularFile (concat chunks))) as Hfile.
  { destruct Hb' as [|[_ E]]; [done|]. rewrite E in Ht. by destruct Ht. }
  unfold blob_get. rewrite (fs_read_ok _ _ _ Hf' Hfile). unfold header_usize. rewrite Ho, Hl.
  replace (negb _) with false by (symmetry; lia). cbn [snd rp_status rp_body default]. split; [done|].
  f_equal. unfold Datatypes.id. rewrite N.sub_0_r, N.min_id. change (N.to_nat 0) with 0. rewrite drop_0.
  apply take_ge. unfold blen. lia.
Qed.
End blobs.

Module BlobSample.
Import Reference RelaySample.

Definition blob_id : string := of_bytes (replicate 32 (n_byte 97)).
Definition chunk (n : N) : bytes := [n_byte n; n_byte n].
Definition no_headers : Headers := λ _, None.

Lemma relay_blob_roundtrip_witness :
  rp_body (blob_get config blob_id no_headers
             (upload config blob_id 4 0 [chunk 1; chunk 2] 110 (start []))).2
  = Binary (chunk 1 ++ chunk 2).
Proof.
  apply (relay_blob_roundtrip config blob_id [chunk 1; chunk 2] 110 (start []) no_headers);
    try reflexivity; [discriminate|vm_compute; by split].
Defined.

(** A conflicting chunk at an offset that is already written. *)
Definition uploaded : AppState := upload config blob_id 4 0 [chunk 1] 110 (start []).
Definition conflict_headers : Headers :=
  λ name, if seqb name "x-ad-relay-capability" then Some "cap" else upload_headers 1 4 name.
Lemma relay_blob_append_only_witness :
  ∃ x, x `prefix_of` chunk 3 ∧
    files_of (blob_impl config blob_id conflict_headers (chunk 3) POST 110 110 110 110 uploaded).1
      !! blob_file config blob_id = Some (RegularFile (chunk 1 ++ x)).
Proof.
  apply (relay_blob_append_only config blob_id conflict_headers (chunk 3) 110 110 110 110 uploaded (chunk 1)).
  - vm_compute. reflexivity.
  - intros target. vm_compute. discriminate.
Defined.
End BlobSample.
