(* ===== verification/Attachment.v ===== *)
(** * Attachments ([apps/daemon/src/attachment.rs])

    Chunked encryption of an attachment: in one call, as a blob with a descriptor, and as a
    job that is fed one chunk at a time; and decryption of a manifest, of a blob and of one
    chunk. *)
From Stdlib Require Import Ascii NArith Lia ZifyBool ZifyN.
From stdpp Require Import base gmap strings list.
From S2P Require Import Prelude Text Interfaces Fs.

Definition ATTACHMENT_VERSION : N := 1.
Definition CHUNK_SIZE : N := 64 * 1024.
Definition MAX_ATTACHMENT_BYTES : N := 32 * 1024 * 1024.

Record AttachmentChunk := { ac_index : N; ac_nonce : string; ac_ciphertext : string }.
#[export] Instance AttachmentChunk_eq_dec : EqDecision AttachmentChunk.
Proof. solve_decision. Defined.

Record AttachmentManifest := {
  am_version : N;
  am_chunk_size : N;
  am_original_size : N;
  am_chunks : list AttachmentChunk;
}.
#[export] Instance AttachmentManifest_eq_dec : EqDecision AttachmentManifest.
Proof. solve_decision. Defined.

Record AttachmentChunkDescriptor := { cd_index : N; cd_nonce : string; cd_ciphertext_size : N }.

Record AttachmentDescriptor := {
  ad_version : N;
  ad_blob_id : string;
  ad_key : bytes;
  ad_chunk_size : N;
  ad_original_size : N;
  ad_chunks : list AttachmentChunkDescriptor;
  ad_file_name : option string;
  ad_media_type : option string;
}.

Record EncryptedAttachment := { ea_descriptor : AttachmentDescriptor; ea_blob : bytes }.

Record AttachmentJob := {
  aj_blob_id : string;
  aj_key : bytes;
  aj_total : N;
  aj_next_index : N;
  aj_received : N;
  aj_chunks : list AttachmentChunkDescriptor;
  aj_blob : bytes;
  aj_file_name : option string;
  aj_media_type : option string;
}.

Inductive AttachmentError :=
| Empty | TooLarge | InvalidKey | InvalidManifest | InvalidChunk | AuthenticationFailed
| RandomnessUnavailable | Serialization.
#[export] Instance AttachmentError_eq_dec : EqDecision AttachmentError.
Proof. solve_decision. Defined.

Definition attachment_hex (value : bytes) : string := of_bytes (hex_b value).

Definition attachment_decode_hex (value : string) : option bytes :=
  if is_empty_str value || negb (slen value mod 2 =? 0)%N
     || negb (forallb is_ascii_hexdigit (as_bytes value))
  then None
  else decode_pairs (as_bytes value).

Definition attachment_blob_id (value : string) : bool :=
  in_range 32 128 (slen value) && forallb is_url_safe (as_bytes value).

(** The index is a [u32] and the size a [u64], big-endian. *)
Definition aad (index original_size : N) : bytes :=
  as_bytes "another-dimension/attachment/v1" ++ be_bytes 4 index ++ be_bytes 8 original_size.

(** [value.filter(|value| !value.is_empty())]. *)
Definition nonempty_str (value : option string) : option string :=
  match value with Some v => if is_empty_str v then None else Some v | None => None end.

(** The slash, the backslash and NUL are bytes 47, 92 and 0. *)
Definition sanitize_file_name (value : option string) : result (option string) AttachmentError :=
  match nonempty_str value with
  | None => Ok None
  | Some v =>
    if (255 <? slen v)%N || contains_byte 47 v || contains_byte 92 v || contains_byte 0 v
    then Err InvalidManifest
    else Ok (Some v)
  end.

Definition sanitize_media_type (value : option string) : result (option string) AttachmentError :=
  match nonempty_str value with
  | None => Ok None
  | Some v =>
    if (128 <? slen v)%N || negb (is_ascii v) || contains_byte 13 v || contains_byte 10 v
    then Err InvalidManifest
    else Ok (Some v)
  end.

(** [secure_random] into an array of [n] bytes. *)
Definition random_array (n : nat) : Mut World bytes AttachmentError :=
  λ w, let '(w, drawn) := secure_random n w in (w, ok_or drawn RandomnessUnavailable).

Definition generate_key : Mut World bytes AttachmentError := random_array 32.

(** [Aes256Gcm::new_from_slice]. *)
Definition cipher_new (key : bytes) : result bytes AttachmentError :=
  if (length key =? 32)%nat then Ok key else Err InvalidKey.

(** ** Validation *)

(** The loop of [validate_descriptor] over the chunks: their indexes and sizes, and the
    plaintext they add up to. *)
Fixpoint validate_chunks (count expected : N) (l : list AttachmentChunkDescriptor)
    (plaintext_size : N) : result N AttachmentError :=
  match l with
  | [] => Ok plaintext_size
  | chunk :: rest =>
    if negb (cd_index chunk =? expected)%N
       || (cd_ciphertext_size chunk <? 16)%N
       || (CHUNK_SIZE + 16 <? cd_ciphertext_size chunk)%N
       || match attachment_decode_hex (cd_nonce chunk) with
          | Some nonce => negb (length nonce =? 12)%nat
          | None => true
          end
    then Err InvalidChunk
    else
      match u64_checked_add plaintext_size (cd_ciphertext_size chunk - 16) with
      | None => Err TooLarge
      | Some plaintext_size =>
        if (expected + 1 <? count)%N && negb (cd_ciphertext_size chunk =? CHUNK_SIZE + 16)%N
        then Err InvalidChunk
        else validate_chunks count (expected + 1) rest plaintext_size
      end
  end.

Definition validate_descriptor (d : AttachmentDescriptor) : result unit AttachmentError :=
  if negb (attachment_blob_id (ad_blob_id d))
     || negb (ad_version d =? ATTACHMENT_VERSION)%N
     || negb (ad_chunk_size d =? CHUNK_SIZE)%N
     || (ad_original_size d =? 0)%N
     || (MAX_ATTACHMENT_BYTES <? ad_original_size d)%N
     || (blen (ad_chunks d) =? 0)%N
     || (div_ceil MAX_ATTACHMENT_BYTES CHUNK_SIZE <? blen (ad_chunks d))%N
  then Err InvalidManifest
  else
    let? _ := sanitize_file_name (ad_file_name d) in
    let? _ := sanitize_media_type (ad_media_type d) in
    let? plaintext_size := validate_chunks (blen (ad_chunks d)) 0 (ad_chunks d) 0 in
    if negb (plaintext_size =? ad_original_size d)%N then Err InvalidManifest else Ok tt.

Section attachments.
Context `{Crypto}.

(** ** One call *)

(** The closure of [encrypt] over the chunks, each with a nonce of its own; the first failure
    ends it. *)
Fixpoint encrypt_chunks (key : bytes) (size index : N) (l : list bytes)
  : Mut World (list AttachmentChunk) AttachmentError :=
  match l with
  | [] => mut_ret []
  | chunk :: rest =>
    λ w,
      let '(w, drawn) := random_array 12 w in
      match drawn with
      | Err e => (w, Err e)
      | Ok nonce =>
        match aes_encrypt key nonce (aad index size) chunk with
        | None => (w, Err AuthenticationFailed)
        | Some ciphertext =>
          let '(w, r) := encrypt_chunks key size (index + 1) rest w in
          (w, let? chunks := r in
              Ok ({| ac_index := index; ac_nonce := attachment_hex nonce;
                     ac_ciphertext := attachment_hex ciphertext |} :: chunks))
        end
      end
  end.

Definition encrypt (plaintext key : bytes) : Mut World AttachmentManifest AttachmentError :=
  λ w,
    if (blen plaintext =? 0)%N then (w, Err Empty)
    else if (MAX_ATTACHMENT_BYTES <? blen plaintext)%N then (w, Err TooLarge)
    else
      match cipher_new key with
      | Err e => (w, Err e)
      | Ok cipher =>
        let '(w, r) :=
          encrypt_chunks cipher (blen plaintext) 0 (chunks (N.to_nat CHUNK_SIZE) plaintext) w in
        (w, let? chunks := r in
            Ok {| am_version := ATTACHMENT_VERSION; am_chunk_size := CHUNK_SIZE;
                  am_original_size := blen plaintext; am_chunks := chunks |})
      end.

(** The loop of [decrypt]. *)
Fixpoint decrypt_chunks (key : bytes) (size count expected : N) (l : list AttachmentChunk)
    (plaintext : bytes) : result bytes AttachmentError :=
  match l with
  | [] => Ok plaintext
  | chunk :: rest =>
    if negb (ac_index chunk =? expected)%N then Err InvalidChunk
    else
      let? nonce := ok_or (attachment_decode_hex (ac_nonce chunk)) InvalidChunk in
      let? ciphertext := ok_or (attachment_decode_hex (ac_ciphertext chunk)) InvalidChunk in
      if negb (length nonce =? 12)%nat || (blen ciphertext <? 16)%N
         || (CHUNK_SIZE + 16 <? blen ciphertext)%N
      then Err InvalidChunk
      else
        let? chunk_plaintext :=
          ok_or (aes_decrypt key nonce (aad (ac_index chunk) size) ciphertext) AuthenticationFailed in
        if (CHUNK_SIZE <? blen chunk_plaintext)%N
           || ((expected + 1 <? count)%N && negb (blen chunk_plaintext =? CHUNK_SIZE)%N)
        then Err InvalidChunk
        else decrypt_chunks key size count (expected + 1) rest (plaintext ++ chunk_plaintext)
  end.

Definition decrypt (manifest : AttachmentManifest) (key : bytes) : result bytes AttachmentError :=
  if negb (am_version manifest =? ATTACHMENT_VERSION)%N
     || negb (am_chunk_size manifest =? CHUNK_SIZE)%N
     || (am_original_size manifest =? 0)%N
     || (MAX_ATTACHMENT_BYTES <? am_original_size manifest)%N
     || (blen (am_chunks manifest) =? 0)%N
  then Err InvalidManifest
  else if (div_ceil MAX_ATTACHMENT_BYTES CHUNK_SIZE <? blen (am_chunks manifest))%N then Err TooLarge
  else
    let? cipher := cipher_new key in
    let? plaintext :=
      decrypt_chunks cipher (am_original_size manifest) (blen (am_chunks manifest)) 0
        (am_chunks manifest) [] in
    if negb (blen plaintext =? am_original_size manifest)%N then Err InvalidManifest
    else Ok plaintext.

(** ** Blobs *)

(** The loop of [encrypt_for_blob]. *)
Fixpoint blob_of_chunks (l : list AttachmentChunk)
  : result (list AttachmentChunkDescriptor * bytes) AttachmentError :=
  match l with
  | [] => Ok ([], [])
  | chunk :: rest =>
    let? ciphertext := ok_or (attachment_decode_hex (ac_ciphertext chunk)) InvalidChunk in
    let? p := blob_of_chunks rest in
    Ok ({| cd_index := ac_index chunk; cd_nonce := ac_nonce chunk;
           cd_ciphertext_size := blen ciphertext |} :: p.1, ciphertext ++ p.2)
  end.

Definition encrypt_for_blob (plaintext key : bytes) (blob_id : string)
  : Mut World EncryptedAttachment AttachmentError :=
  λ w,
    if negb (attachment_blob_id blob_id) then (w, Err InvalidManifest)
    else
      let '(w, r) := encrypt plaintext key w in
      (w, let? manifest := r in
          let? p := blob_of_chunks (am_chunks manifest) in
          Ok {| ea_descriptor :=
                  {| ad_version := am_version manifest; ad_blob_id := blob_id; ad_key := key;
                     ad_chunk_size := am_chunk_size manifest;
                     ad_original_size := am_original_size manifest; ad_chunks := p.1;
                     ad_file_name := None; ad_media_type := None |};
                ea_blob := p.2 |}).

(** The loop of [decrypt_blob]: the chunks cut out of the blob, and where the last one ends. *)
Fixpoint cut_chunks (blob : bytes) (offset expected : N) (l : list AttachmentChunkDescriptor)
  : result (list AttachmentChunk * N) AttachmentError :=
  match l with
  | [] => Ok ([], offset)
  | chunk :: rest =>
    if negb (cd_index chunk =? expected)%N
       || (cd_ciphertext_size chunk <? 16)%N
       || (CHUNK_SIZE + 16 <? cd_ciphertext_size chunk)%N
       || negb (bool_decide (is_Some (u64_checked_add offset (cd_ciphertext_size chunk))))
    then Err InvalidChunk
    else
      let end_ := (offset + cd_ciphertext_size chunk)%N in
      if negb (end_ <=? blen blob)%N then Err InvalidChunk
      else
        let ciphertext :=
          take (N.to_nat (cd_ciphertext_size chunk)) (drop (N.to_nat offset) blob) in
        let? p := cut_chunks blob end_ (expected + 1) rest in
        Ok ({| ac_index := cd_index chunk; ac_nonce := cd_nonce chunk;
               ac_ciphertext := attachment_hex ciphertext |} :: p.1, p.2)
  end.

Definition decrypt_blob (d : AttachmentDescriptor) (blob : bytes) : result bytes AttachmentError :=
  let? _ := validate_descriptor d in
  let? p := cut_chunks blob 0 0 (ad_chunks d) in
  if negb (p.2 =? blen blob)%N then Err InvalidManifest
  else
    decrypt {| am_version := ad_version d; am_chunk_size := ad_chunk_size d;
               am_original_size := ad_original_size d; am_chunks := p.1 |} (ad_key d).

Definition decrypt_blob_chunk (d : AttachmentDescriptor) (index : N) (ciphertext : bytes)
  : result bytes AttachmentError :=
  let? _ := validate_descriptor d in
  let? chunk := ok_or (ad_chunks d !! N.to_nat index) InvalidChunk in
  if negb (cd_index chunk =? index)%N
     || negb (cd_ciphertext_size chunk =? blen ciphertext)%N
     || (blen ciphertext <? 16)%N || (CHUNK_SIZE + 16 <? blen ciphertext)%N
  then Err InvalidChunk
  else
    let? nonce := ok_or (attachment_decode_hex (cd_nonce chunk)) InvalidChunk in
    if negb (length nonce =? 12)%nat then Err InvalidChunk
    else
      let? cipher := cipher_new (ad_key d) in
      ok_or (aes_decrypt cipher nonce (aad index (ad_original_size d)) ciphertext)
        AuthenticationFailed.

(** ** Jobs *)

Definition start_with_metadata (blob_id : string) (total : N) (file_name media_type : option string)
  : Mut World AttachmentJob AttachmentError :=
  λ w,
    if negb (attachment_blob_id blob_id) then (w, Err InvalidManifest)
    else if (total =? 0)%N then (w, Err Empty)
    else if (MAX_ATTACHMENT_BYTES <? total)%N then (w, Err TooLarge)
    else
      match (let? file_name := sanitize_file_name file_name in
             let? media_type := sanitize_media_type media_type in
             Ok (file_name, media_type)) with
      | Err e => (w, Err e)
      | Ok (file_name, media_type) =>
        let '(w, key) := generate_key w in
        (w, let? key := key in
            Ok {| aj_blob_id := blob_id; aj_key := key; aj_total := total; aj_next_index := 0;
                  aj_received := 0; aj_chunks := []; aj_blob := []; aj_file_name := file_name;
                  aj_media_type := media_type |})
      end.

Definition start (blob_id : string) (total : N) : Mut World AttachmentJob AttachmentError :=
  start_with_metadata blob_id total None None.

(** The job after one more ciphertext: the last four statements of [append]. *)
Definition push_chunk (index : N) (nonce plaintext ciphertext : bytes) (j : AttachmentJob)
  : AttachmentJob :=
  {| aj_blob_id := aj_blob_id j; aj_key := aj_key j; aj_total := aj_total j;
     aj_next_index := u32_saturating_add (aj_next_index j) 1;
     aj_received := aj_received j + blen plaintext;
     aj_chunks := aj_chunks j ++ [{| cd_index := index; cd_nonce := attachment_hex nonce;
                                     cd_ciphertext_size := blen ciphertext |}];
     aj_blob := aj_blob j ++ ciphertext; aj_file_name := aj_file_name j;
     aj_media_type := aj_media_type j |}.

Definition append (index : N) (plaintext : bytes) : Mut (AttachmentJob * World) unit AttachmentError :=
  λ '(j, w),
    if negb (index =? aj_next_index j)%N || (blen plaintext =? 0)%N
       || (CHUNK_SIZE <? blen plaintext)%N
    then (j, w, Err InvalidChunk)
    else
      let offset := aj_received j in
      if (aj_total j <? offset + blen plaintext)%N
         || ((offset + blen plaintext <? aj_total j)%N && negb (blen plaintext =? CHUNK_SIZE)%N)
      then (j, w, Err InvalidChunk)
      else
        match cipher_new (aj_key j) with
        | Err e => (j, w, Err e)
        | Ok cipher =>
          let '(w, drawn) := random_array 12 w in
          match drawn with
          | Err e => (j, w, Err e)
          | Ok nonce =>
            match aes_encrypt cipher nonce (aad index (aj_total j)) plaintext with
            | None => (j, w, Err AuthenticationFailed)
            | Some ciphertext => (push_chunk index nonce plaintext ciphertext j, w, Ok tt)
            end
          end
        end.

Definition finish (j : AttachmentJob) : result EncryptedAttachment AttachmentError :=
  if negb (aj_received j =? aj_total j)%N || (blen (aj_blob j) =? 0)%N then Err InvalidManifest
  else
    Ok {| ea_descriptor :=
            {| ad_version := ATTACHMENT_VERSION; ad_blob_id := aj_blob_id j; ad_key := aj_key j;
               ad_chunk_size := CHUNK_SIZE; ad_original_size := aj_total j;
               ad_chunks := aj_chunks j; ad_file_name := aj_file_name j;
               ad_media_type := aj_media_type j |};
          ea_blob := aj_blob j |}.

Context `{JsonCodec AttachmentManifest}.

Definition serialize (m : AttachmentManifest) : result string AttachmentError :=
  let? b := ok_or (json_to_vec m) Serialization in Ok (of_bytes b).
Definition deserialize (value : string) : result AttachmentManifest AttachmentError :=
  ok_or (json_from_slice (as_bytes value)) InvalidManifest.
End attachments.
