(* ===== verification/AttachmentProps.v ===== *)
(** * Correctness of attachments

    A descriptor and a blob produced by a job decrypt to what was appended; feeding a job
    chunk by chunk is the one-call encryption; decryption returns only authenticated chunks in
    order; and decrypting chunk by chunk is decrypting the blob. *)
From Stdlib Require Import Ascii NArith Lia ZifyBool ZifyN.
From stdpp Require Import base gmap strings list.
From S2P Require Import Prelude Text Interfaces Fs Attachment.

Local Opaque CHUNK_SIZE MAX_ATTACHMENT_BYTES aad.

Lemma chunk_size_pos : (0 < CHUNK_SIZE)%N.
Proof. done. Qed.

Lemma max_chunks : div_ceil MAX_ATTACHMENT_BYTES CHUNK_SIZE = 512%N.
Proof. done. Qed.

Lemma max_is_chunks : (MAX_ATTACHMENT_BYTES = 512 * CHUNK_SIZE)%N.
Proof. done. Qed.

Lemma max_small : (MAX_ATTACHMENT_BYTES + CHUNK_SIZE + 512 * 17 < u32_max)%N.
Proof. done. Qed.

Lemma attachment_decode_hex_hex b :
  b ≠ [] → attachment_decode_hex (attachment_hex b) = Some b.
Proof.
  intros Hb. unfold attachment_decode_hex, attachment_hex.
  rewrite hex_nonempty, hex_even, as_of_bytes, hex_b_hexdigit by done.
  apply decode_pairs_hex.
Qed.

Lemma random_array_length n w w' b : random_array n w = (w', Ok b) → length b = n.
Proof.
  unfold random_array, secure_random, ok_or. destruct (w_entropy w); [done|].
  destruct (_ =? n)%nat eqn:E; intros; simplify_eq. by apply Nat.eqb_eq.
Qed.

(** ** Sealed parts

    A part is a nonce, a ciphertext and the plaintext under it. *)
Record part := Part { p_nonce : bytes; p_ciphertext : bytes; p_plaintext : bytes }.

Definition plain (l : list part) : bytes := concat (map p_plaintext l).
Definition cipher (l : list part) : bytes := concat (map p_ciphertext l).

(** The chunks of a manifest and of a descriptor that hold the parts, from an index on. *)
Fixpoint as_chunks (index : N) (l : list part) : list AttachmentChunk :=
  match l with
  | [] => []
  | p :: t => {| ac_index := index; ac_nonce := attachment_hex (p_nonce p);
                 ac_ciphertext := attachment_hex (p_ciphertext p) |} :: as_chunks (index + 1) t
  end.
Fixpoint as_descriptors (index : N) (l : list part) : list AttachmentChunkDescriptor :=
  match l with
  | [] => []
  | p :: t => {| cd_index := index; cd_nonce := attachment_hex (p_nonce p);
                 cd_ciphertext_size := blen (p_ciphertext p) |} :: as_descriptors (index + 1) t
  end.

(** Every part but the last is a full chunk, and the last one is not empty. *)
Fixpoint shaped (l : list part) : Prop :=
  match l with
  | [] => True
  | [p] => (0 < blen (p_plaintext p) ≤ CHUNK_SIZE)%N
  | p :: t => blen (p_plaintext p) = CHUNK_SIZE ∧ shaped t
  end.

Definition full (l : list part) : Prop := Forall (λ p, blen (p_plaintext p) = CHUNK_SIZE) l.

Lemma blen_as_chunks i l : blen (as_chunks i l) = blen l.
Proof.
  revert i. induction l as [|p l IH]; intros i; [done|]. cbn [as_chunks].
  by rewrite !blen_cons, IH.
Qed.
Lemma blen_as_descriptors i l : blen (as_descriptors i l) = blen l.
Proof.
  revert i. induction l as [|p l IH]; intros i; [done|]. cbn [as_descriptors].
  by rewrite !blen_cons, IH.
Qed.

Lemma as_descriptors_snoc i l p :
  as_descriptors i (l ++ [p]) =
  as_descriptors i l ++ [{| cd_index := i + blen l; cd_nonce := attachment_hex (p_nonce p);
                            cd_ciphertext_size := blen (p_ciphertext p) |}].
Proof.
  revert i. induction l as [|q l IH]; intros i; cbn [as_descriptors app].
  - by rewrite N.add_0_r.
  - rewrite IH, blen_cons. do 4 f_equal. lia.
Qed.

Lemma plain_snoc l p : plain (l ++ [p]) = plain l ++ p_plaintext p.
Proof. unfold plain. rewrite map_app, concat_app. cbn. by rewrite app_nil_r. Qed.
Lemma cipher_snoc l p : cipher (l ++ [p]) = cipher l ++ p_ciphertext p.
Proof. unfold cipher. rewrite map_app, concat_app. cbn. by rewrite app_nil_r. Qed.

Lemma plain_cons p l : plain (p :: l) = p_plaintext p ++ plain l.
Proof. done. Qed.
Lemma cipher_cons p l : cipher (p :: l) = p_ciphertext p ++ cipher l.
Proof. done. Qed.

(** What a shape says of the first part. *)
Lemma shaped_cons p l :
  shaped (p :: l) →
  (0 < blen (p_plaintext p) ≤ CHUNK_SIZE)%N ∧ (l ≠ [] → blen (p_plaintext p) = CHUNK_SIZE) ∧
  shaped l.
Proof.
  pose proof chunk_size_pos. destruct l as [|q l]; cbn [shaped]; [naive_solver|].
  intros [E ?]. rewrite E. split_and!; [lia|lia|done|done].
Qed.

Lemma full_shaped_snoc l p :
  full l → (0 < blen (p_plaintext p) ≤ CHUNK_SIZE)%N → shaped (l ++ [p]).
Proof.
  intros Hf Hp. induction Hf as [|q l Hq Hf IH]; [done|].
  cbn [app]. destruct (l ++ [p]) eqn:E; [by destruct l|]. by split.
Qed.

Lemma full_blen l : full l → (blen (plain l) = blen l * CHUNK_SIZE)%N.
Proof.
  induction 1 as [|p l Hp Hl IH]; [done|]. rewrite plain_cons, blen_app, blen_cons, IH, Hp. lia.
Qed.

(** The parts of a shape are at most as many as the chunks its plaintext takes. *)
Lemma shaped_count l : shaped l → l ≠ [] → (blen l * CHUNK_SIZE < blen (plain l) + CHUNK_SIZE)%N.
Proof.
  induction l as [|p l IH]; intros Hs Hl; [done|].
  apply shaped_cons in Hs as (Hp & Hfull & Hs). rewrite plain_cons, blen_app, blen_cons.
  destruct (decide (l = [])) as [->|Hl']; [change (blen (plain [])) with 0%N; change (blen []) with 0%N; lia|].
  rewrite Hfull by done. specialize (IH Hs Hl'). lia.
Qed.

Section props.
Context `{HC : Crypto} {HL : CryptoLaws}.

Fixpoint sealed (key : bytes) (size index : N) (l : list part) : Prop :=
  match l with
  | [] => True
  | p :: t => length (p_nonce p) = 12 ∧
              aes_encrypt key (p_nonce p) (aad index size) (p_plaintext p) = Some (p_ciphertext p) ∧
              sealed key size (index + 1) t
  end.

(** A part with its tag fits the bounds every loop checks. *)
Lemma sealed_part key size i p l :
  sealed key size i (p :: l) →
  blen (p_ciphertext p) = (blen (p_plaintext p) + 16)%N ∧ p_ciphertext p ≠ [] ∧
  p_nonce p ≠ [] ∧ aes_decrypt key (p_nonce p) (aad i size) (p_ciphertext p) = Some (p_plaintext p).
Proof using HL.
  intros (Hn & He & _). pose proof (aes_tag_length _ _ _ _ _ He) as Ht.
  split_and!; [unfold blen; lia| | |by eapply aes_decrypt_encrypt].
  - intros E. rewrite E in Ht. cbn in Ht. lia.
  - intros E. by rewrite E in Hn.
Qed.

Lemma sealed_snoc key size i l p :
  sealed key size i l → length (p_nonce p) = 12 →
  aes_encrypt key (p_nonce p) (aad (i + blen l) size) (p_plaintext p) = Some (p_ciphertext p) →
  sealed key size i (l ++ [p]).
Proof.
  revert i. induction l as [|q l IH]; intros i Hs Hn He; cbn [sealed app] in *.
  - by rewrite N.add_0_r in He.
  - destruct Hs as (? & ? & Hs). split_and!; [done..|]. apply IH; [done..|].
    rewrite blen_cons in He. by replace (i + 1 + blen l)%N with (i + (blen l + 1))%N by lia.
Qed.

Lemma decrypt_chunks_sealed key size count i l acc :
  sealed key size i l → shaped l → count = (i + blen l)%N →
  decrypt_chunks key size count i (as_chunks i l) acc = Ok (acc ++ plain l).
Proof using HL.
  revert i acc. induction l as [|p l IH]; intros i acc Hs Hsh Hc.
  { cbn. by rewrite app_nil_r. }
  pose proof (sealed_part _ _ _ _ _ Hs) as (Hlen & Hc0 & Hn0 & Hd). destruct Hs as (Hn & _ & Hs).
  apply shaped_cons in Hsh as (Hp & Hfull & Hsh). rewrite blen_cons in Hc.
  cbn [as_chunks decrypt_chunks ac_index ac_nonce ac_ciphertext]. rewrite N.eqb_refl.
  rewrite !attachment_decode_hex_hex by done. cbn [negb ok_or result_bind].
  rewrite Hn, Hd. cbn [Nat.eqb negb orb ok_or result_bind].
  replace (blen (p_ciphertext p) <? 16)%N with false by lia.
  replace (CHUNK_SIZE + 16 <? blen (p_ciphertext p))%N with false by lia.
  replace (CHUNK_SIZE <? blen (p_plaintext p))%N with false by lia. cbn [orb].
  replace ((i + 1 <? count)%N && _) with false.
  - rewrite IH by (done || lia). by rewrite plain_cons, app_assoc.
  - destruct l as [|q l]; [rewrite Hc; change (blen []) with 0%N; lia|].
    rewrite Hfull, N.eqb_refl by done. by rewrite andb_false_r.
Qed.

Lemma blob_of_sealed key size i l :
  sealed key size i l → blob_of_chunks (as_chunks i l) = Ok (as_descriptors i l, cipher l).
Proof using HL.
  revert i. induction l as [|p l IH]; intros i Hs; [done|].
  pose proof (sealed_part _ _ _ _ _ Hs) as (_ & Hc0 & _ & _). destruct Hs as (_ & _ & Hs).
  cbn [as_chunks blob_of_chunks ac_index ac_nonce ac_ciphertext].
  rewrite attachment_decode_hex_hex by done. cbn [ok_or result_bind]. by rewrite IH.
Qed.

Lemma cut_chunks_sealed key size i l pre post :
  sealed key size i l → shaped l → (blen (pre ++ cipher l ++ post) ≤ u64_max)%N →
  cut_chunks (pre ++ cipher l ++ post) (blen pre) i (as_descriptors i l)
  = Ok (as_chunks i l, (blen pre + blen (cipher l))%N).
Proof using HL.
  revert i pre. induction l as [|p l IH]; intros i pre Hs Hsh Hb.
  { cbn [as_descriptors cut_chunks as_chunks]. by rewrite N.add_0_r. }
  pose proof (sealed_part _ _ _ _ _ Hs) as (Hlen & _). destruct Hs as (_ & _ & Hs).
  apply shaped_cons in Hsh as (Hp & _ & Hsh). rewrite cipher_cons in *.
  specialize (IH (i + 1)%N (pre ++ p_ciphertext p) Hs Hsh). rewrite !blen_app in *.
  rewrite <-!app_assoc in *. specialize (IH ltac:(lia)).
  cbn [as_descriptors cut_chunks cd_index cd_nonce cd_ciphertext_size]. rewrite N.eqb_refl.
  replace (blen (p_ciphertext p) <? 16)%N with false by lia.
  replace (CHUNK_SIZE + 16 <? blen (p_ciphertext p))%N with false by lia.
  rewrite bool_decide_true by (unfold u64_checked_add; case_match; [done|lia]).
  cbn [negb orb]. rewrite !blen_app.
  replace (_ <=? _)%N with true by lia. cbn [negb]. rewrite IH. cbn [result_bind fst snd as_chunks].
  rewrite N.add_assoc. do 4 f_equal. unfold blen. rewrite !Nat2N.id.
  by rewrite drop_app_length, take_app_length.
Qed.

Lemma validate_chunks_sealed key size count i l acc :
  sealed key size i l → shaped l → count = (i + blen l)%N →
  (acc + blen (plain l) ≤ u64_max)%N →
  validate_chunks count i (as_descriptors i l) acc = Ok (acc + blen (plain l))%N.
Proof using HL.
  revert i acc. induction l as [|p l IH]; intros i acc Hs Hsh Hc Hb.
  { cbn. by rewrite N.add_0_r. }
  pose proof (sealed_part _ _ _ _ _ Hs) as (Hlen & _ & Hn0 & _). destruct Hs as (Hn & _ & Hs).
  apply shaped_cons in Hsh as (Hp & Hfull & Hsh). rewrite blen_cons in Hc.
  rewrite plain_cons, blen_app in *.
  cbn [as_descriptors validate_chunks cd_index cd_nonce cd_ciphertext_size]. rewrite N.eqb_refl.
  rewrite attachment_decode_hex_hex, Hn by done. cbn [Nat.eqb negb orb].
  replace (blen (p_ciphertext p) <? 16)%N with false by lia.
  replace (CHUNK_SIZE + 16 <? blen (p_ciphertext p))%N with false by lia. cbn [orb].
  unfold u64_checked_add. rewrite Hlen, N.add_sub.
  replace (acc + blen (p_plaintext p) <=? u64_max)%N with true by lia.
  replace ((i + 1 <? count)%N && _) with false.
  - rewrite IH by (done || lia). f_equal. lia.
  - destruct l as [|q l]; [rewrite Hc; change (blen []) with 0%N; lia|].
    rewrite Hfull, N.eqb_refl by done. by rewrite andb_false_r.
Qed.

(** ** Blobs *)

(** A descriptor of sealed parts. *)
Record describes (d : AttachmentDescriptor) (l : list part) : Prop := {
  ds_id : attachment_blob_id (ad_blob_id d) = true;
  ds_version : ad_version d = ATTACHMENT_VERSION;
  ds_key : length (ad_key d) = 32;
  ds_chunk_size : ad_chunk_size d = CHUNK_SIZE;
  ds_size : ad_original_size d = blen (plain l);
  ds_bound : (0 < blen (plain l) ≤ MAX_ATTACHMENT_BYTES)%N;
  ds_chunks : ad_chunks d = as_descriptors 0 l;
  ds_name : is_ok (sanitize_file_name (ad_file_name d)) = true;
  ds_type : is_ok (sanitize_media_type (ad_media_type d)) = true;
  ds_sealed : sealed (ad_key d) (blen (plain l)) 0 l;
  ds_shaped : shaped l;
}.

Lemma parts_count l :
  (0 < blen (plain l) ≤ MAX_ATTACHMENT_BYTES)%N → shaped l → (0 < blen l ≤ 512)%N.
Proof using Type.
  intros Hb Hs. destruct (decide (l = [])) as [->|Hl]; [change (blen (plain [])) with 0%N in Hb; lia|].
  pose proof (shaped_count l Hs Hl). pose proof max_is_chunks. pose proof chunk_size_pos.
  split; [destruct l; [done|]; rewrite blen_cons; lia|]. nia.
Qed.

Lemma cipher_blen key size i l :
  sealed key size i l → blen (cipher l) = (blen (plain l) + 16 * blen l)%N.
Proof using HL.
  revert i. induction l as [|p l IH]; intros i Hs; [done|].
  pose proof (sealed_part _ _ _ _ _ Hs) as (Hlen & _). destruct Hs as (_ & _ & Hs).
  rewrite cipher_cons, plain_cons, !blen_app, blen_cons, (IH _ Hs). lia.
Qed.

Lemma describes_valid d l : describes d l → validate_descriptor d = Ok tt.
Proof using HL.
  intros []. pose proof (parts_count l ds_bound0 ds_shaped0) as Hl. pose proof max_small.
  assert (u32_max < u64_max)%N by done.
  unfold validate_descriptor. rewrite ds_id0, ds_version0, ds_chunk_size0, ds_size0, ds_chunks0.
  rewrite blen_as_descriptors, max_chunks, !N.eqb_refl. cbn [negb orb].
  replace (blen (plain l) =? 0)%N with false by lia.
  replace (MAX_ATTACHMENT_BYTES <? blen (plain l))%N with false by lia.
  replace (blen l =? 0)%N with false by lia. replace (512 <? blen l)%N with false by lia.
  cbn [orb]. destruct (sanitize_file_name _); [|done]. destruct (sanitize_media_type _); [|done].
  cbn [result_bind].
  rewrite (validate_chunks_sealed _ _ _ _ _ _ ds_sealed0) by (done || lia).
  cbn [result_bind]. by rewrite N.add_0_l, N.eqb_refl.
Qed.

Lemma describes_decrypt d l : describes d l → decrypt_blob d (cipher l) = Ok (plain l).
Proof using HL.
  intros Hd. pose proof (describes_valid d l Hd) as Hv. destruct Hd.
  pose proof (parts_count l ds_bound0 ds_shaped0) as Hl. pose proof max_small.
  assert (u32_max < u64_max)%N by done.
  pose proof (cipher_blen _ _ _ _ ds_sealed0) as Hc. pose proof chunk_size_pos.
  unfold decrypt_blob. rewrite Hv, ds_chunks0. cbn [result_bind].
  pose proof (cut_chunks_sealed _ _ _ l [] [] ds_sealed0 ds_shaped0) as Hcut.
  rewrite app_nil_r in Hcut. cbn [app] in Hcut. change (blen []) with 0%N in Hcut.
  rewrite Hcut by lia. cbn [result_bind fst snd]. rewrite N.add_0_l, N.eqb_refl. cbn [negb].
  unfold decrypt, cipher_new. cbn [am_version am_chunk_size am_original_size am_chunks].
  rewrite ds_version0, ds_chunk_size0, ds_size0, ds_key0, blen_as_chunks, max_chunks, !N.eqb_refl.
  cbn [negb orb Nat.eqb result_bind].
  replace (blen (plain l) =? 0)%N with false by lia.
  replace (MAX_ATTACHMENT_BYTES <? blen (plain l))%N with false by lia.
  replace (blen l =? 0)%N with false by lia. replace (512 <? blen l)%N with false by lia.
  cbn [orb]. rewrite decrypt_chunks_sealed by done. cbn [result_bind app]. by rewrite N.eqb_refl.
Qed.

(** ** Jobs *)

(** A job that has accepted [l]. While plaintext is missing, every part is a full chunk. *)
Record job_inv (j : AttachmentJob) (l : list part) : Prop := {
  ji_id : attachment_blob_id (aj_blob_id j) = true;
  ji_key : length (aj_key j) = 32;
  ji_total : (0 < aj_total j ≤ MAX_ATTACHMENT_BYTES)%N;
  ji_name : is_ok (sanitize_file_name (aj_file_name j)) = true;
  ji_type : is_ok (sanitize_media_type (aj_media_type j)) = true;
  ji_next : aj_next_index j = blen l;
  ji_received : aj_received j = blen (plain l);
  ji_le : (aj_received j ≤ aj_total j)%N;
  ji_chunks : aj_chunks j = as_descriptors 0 l;
  ji_blob : aj_blob j = cipher l;
  ji_sealed : sealed (aj_key j) (aj_total j) 0 l;
  ji_shaped : shaped l;
  ji_full : (aj_received j < aj_total j)%N → full l;
}.

(** The sanitizers are idempotent: what they return passes them again. *)
Lemma sanitize_file_name_again v r :
  sanitize_file_name v = Ok r → is_ok (sanitize_file_name r) = true.
Proof using Type.
  unfold sanitize_file_name. destruct (nonempty_str v) as [x|] eqn:E; [|by intros [= <-]].
  destruct (_ || _) eqn:G; [done|]. intros [= <-]. cbn [nonempty_str].
  destruct (is_empty_str x); [done|]. by rewrite G.
Qed.
Lemma sanitize_media_type_again v r :
  sanitize_media_type v = Ok r → is_ok (sanitize_media_type r) = true.
Proof using Type.
  unfold sanitize_media_type. destruct (nonempty_str v) as [x|] eqn:E; [|by intros [= <-]].
  destruct (_ || _) eqn:G; [done|]. intros [= <-]. cbn [nonempty_str].
  destruct (is_empty_str x); [done|]. by rewrite G.
Qed.

Lemma start_inv id total name type w w' j :
  start_with_metadata id total name type w = (w', Ok j) →
  job_inv j [] ∧ aj_blob_id j = id ∧ aj_total j = total ∧
  sanitize_file_name name = Ok (aj_file_name j) ∧ sanitize_media_type type = Ok (aj_media_type j).
Proof using Type.
  unfold start_with_metadata. destruct (attachment_blob_id id) eqn:Hid; [|done]. cbn [negb].
  destruct (total =? 0)%N eqn:H0; [done|].
  destruct (MAX_ATTACHMENT_BYTES <? total)%N eqn:HM; [done|].
  destruct (sanitize_file_name name) as [n|] eqn:Hn; [|done].
  destruct (sanitize_media_type type) as [t|] eqn:Ht; [|done]. cbn [result_bind].
  destruct (generate_key w) as [w1 [k|]] eqn:Hk; [|done]. cbn [result_bind].
  intros [= <- <-]. split_and!; [|done..].
  apply sanitize_file_name_again in Hn. apply sanitize_media_type_again in Ht.
  apply random_array_length in Hk.
  split; cbn [aj_blob_id aj_key aj_total aj_file_name aj_media_type aj_next_index aj_received
              aj_chunks aj_blob]; first [done | lia | intros _; constructor].
Qed.

Lemma push_inv j l n c p :
  job_inv j l → length n = 12 → aes_encrypt (aj_key j) n (aad (blen l) (aj_total j)) p = Some c →
  (0 < blen p ≤ CHUNK_SIZE)%N → (aj_received j + blen p ≤ aj_total j)%N →
  ((aj_received j + blen p < aj_total j)%N → blen p = CHUNK_SIZE) →
  job_inv (push_chunk (blen l) n p c j) (l ++ [Part n c p]).
Proof using Type.
  intros [] Hn He Hp Hle Hmore. specialize (ji_full0 ltac:(lia)).
  pose proof (full_shaped_snoc l (Part n c p) ji_full0 Hp) as Hsh.
  assert (Hpl : blen (plain (l ++ [Part n c p])) = (blen (plain l) + blen p)%N)
    by (rewrite plain_snoc, blen_app; done).
  pose proof (parts_count _ ltac:(rewrite Hpl; lia) Hsh) as Hcount.
  rewrite blen_app in Hcount. change (blen [_]) with 1%N in Hcount.
  split; cbn [push_chunk aj_blob_id aj_key aj_total aj_file_name aj_media_type aj_next_index
              aj_received aj_chunks aj_blob]; try done.
  - rewrite blen_app, ji_next0. unfold u32_saturating_add. change (blen [_]) with 1%N.
    rewrite N.min_l; [done|]. unfold u32_max. lia.
  - by rewrite Hpl, ji_received0.
  - by rewrite as_descriptors_snoc, ji_chunks0.
  - by rewrite cipher_snoc, ji_blob0.
  - by apply sealed_snoc.
  - intros Hm. apply Forall_app. split; [done|]. constructor; [by apply Hmore|done].
Qed.

(** An [append] is refused and changes nothing, or accepts one part. *)
Lemma append_inv i p j w j' w' r l :
  job_inv j l → append i p (j, w) = (j', w', r) →
  (is_err r = true ∧ j' = j) ∨
  (r = Ok tt ∧ ∃ q, p_plaintext q = p ∧ job_inv j' (l ++ [q])).
Proof using Type.
  intros Hj H. unfold append in H.
  destruct (negb (i =? aj_next_index j)%N || _ || _) eqn:G1; [left; by simplify_eq|].
  destruct ((aj_total j <? _)%N || _) eqn:G2; [left; by simplify_eq|].
  unfold cipher_new in H. rewrite (ji_key _ _ Hj) in H. cbn [Nat.eqb] in H.
  destruct (random_array 12 w) as [w1 [n|]] eqn:Hr; [|left; by simplify_eq].
  destruct (aes_encrypt _ n _ p) as [c|] eqn:He; [|left; by simplify_eq].
  right. simplify_eq. split; [done|]. exists (Part n c p). split; [done|].
  apply random_array_length in Hr. bool_props. pose proof (ji_next _ _ Hj).
  assert (i = blen l) as -> by lia. apply push_inv; first [done | lia].
Qed.

Lemma append_frame i p j w j' w' r :
  append i p (j, w) = (j', w', r) →
  aj_blob_id j' = aj_blob_id j ∧ aj_key j' = aj_key j ∧ aj_total j' = aj_total j ∧
  aj_file_name j' = aj_file_name j ∧ aj_media_type j' = aj_media_type j.
Proof using Type.
  unfold append. destruct (negb (i =? aj_next_index j)%N || _ || _); [by intros [= <- <- <-]|].
  destruct ((aj_total j <? _)%N || _); [by intros [= <- <- <-]|].
  destruct (cipher_new _); [|by intros [= <- <- <-]].
  destruct (random_array 12 w) as [w1 [n|]]; [|by intros [= <- <- <-]].
  destruct (aes_encrypt _ _ _ _); by intros [= <- <- <-].
Qed.

(** A finished job describes what it accepted. *)
Lemma finish_describes j l e :
  job_inv j l → finish j = Ok e →
  describes (ea_descriptor e) l ∧ ea_blob e = cipher l ∧ blen (plain l) = aj_total j.
Proof using Type.
  intros [] H. unfold finish in H. destruct (_ || _) eqn:G; [done|]. simplify_eq. bool_props.
  assert (Ht : blen (plain l) = aj_total j) by lia.
  split_and!; [|done|done]. split; cbn [ea_descriptor ad_blob_id ad_version ad_key ad_chunk_size
    ad_original_size ad_chunks ad_file_name ad_media_type]; rewrite ?Ht; done.
Qed.

(** Any sequence of requests to append, and the plaintexts that were accepted. *)
Fixpoint appends (reqs : list (N * bytes)) (s : AttachmentJob * World)
  : (AttachmentJob * World) * list bytes :=
  match reqs with
  | [] => (s, [])
  | (index, plaintext) :: rest =>
    let '(s, r) := append index plaintext s in
    let '(s, accepted) := appends rest s in
    (s, if is_ok r then plaintext :: accepted else accepted)
  end.

Lemma appends_inv reqs j w j' w' accepted l :
  job_inv j l → appends reqs (j, w) = (j', w', accepted) →
  ∃ l', job_inv j' (l ++ l') ∧ plain l' = concat accepted ∧ aj_total j' = aj_total j.
Proof using Type.
  revert j w accepted l. induction reqs as [|[i p] reqs IH]; intros j w accepted l Hj H.
  { cbn in H. simplify_eq. exists []. by rewrite app_nil_r. }
  cbn [appends] in H. destruct (append i p (j, w)) as [[j1 w1] r] eqn:Ha.
  destruct (appends reqs (j1, w1)) as [[j2 w2] acc] eqn:Hr. simplify_eq.
  destruct (append_frame _ _ _ _ _ _ _ Ha) as (_ & _ & Ht & _).
  destruct (append_inv _ _ _ _ _ _ _ _ Hj Ha) as [[Hr' ->]|(-> & q & Hq & Hj1)].
  - destruct r; [done|]. cbn [is_ok]. by eapply IH.
  - destruct (IH _ _ _ _ Hj1 Hr) as (l' & Hl' & Hp & Ht'). exists (q :: l').
    rewrite <-app_assoc in Hl'. split_and!; [done| |congruence].
    cbn [is_ok concat]. by rewrite plain_cons, Hp, Hq.
Qed.

(** ** Streaming is the one-call encryption *)

(** The chunks of a file fed to a job in order, until one is refused. *)
Fixpoint stream (index : N) (l : list bytes) : Mut (AttachmentJob * World) unit AttachmentError :=
  match l with
  | [] => mut_ret tt
  | chunk :: rest => let! _ := append index chunk in stream (index + 1) rest
  end.

Definition stream_job (plaintext : bytes) (j : AttachmentJob) (w : World)
  : World * result EncryptedAttachment AttachmentError :=
  let '(j, w, r) := stream 0 (chunks (N.to_nat CHUNK_SIZE) plaintext) (j, w) in
  (w, let? _ := r in finish j).

(** [append] of the next chunk of what is missing passes its guards. *)
Lemma append_next j w l rest :
  job_inv j l → rest ≠ [] → (blen (plain l) + blen rest = aj_total j)%N →
  append (blen l) (take (N.to_nat CHUNK_SIZE) rest) (j, w) =
  let p := take (N.to_nat CHUNK_SIZE) rest in
  let '(w, drawn) := random_array 12 w in
  match drawn with
  | Err e => (j, w, Err e)
  | Ok nonce =>
    match aes_encrypt (aj_key j) nonce (aad (blen l) (aj_total j)) p with
    | None => (j, w, Err AuthenticationFailed)
    | Some c => (push_chunk (blen l) nonce p c j, w, Ok tt)
    end
  end.
Proof using Type.
  intros [] Hne Hrest. pose proof chunk_size_pos.
  assert (Hb : blen (take (N.to_nat CHUNK_SIZE) rest) = N.min CHUNK_SIZE (blen rest))
    by (unfold blen; rewrite length_take; lia).
  assert (0 < blen rest)%N by (destruct rest; [done|rewrite blen_cons; lia]).
  unfold append, cipher_new. rewrite ji_next0, ji_received0, ji_key0, N.eqb_refl, Hb.
  cbn [Nat.eqb negb orb]. replace (N.min CHUNK_SIZE (blen rest) =? 0)%N with false by lia.
  replace (CHUNK_SIZE <? N.min CHUNK_SIZE (blen rest))%N with false by lia. cbn [orb].
  replace (aj_total j <? _)%N with false by lia. cbn [orb].
  replace ((_ <? aj_total j)%N && _) with false by lia. done.
Qed.

(** One run of the two loops, side by side. *)
Definition same_run (j : AttachmentJob) (l : list part) (i : N) (rest : bytes)
    (one : World * result (list AttachmentChunk) AttachmentError)
    (fed : (AttachmentJob * World) * result unit AttachmentError) : Prop :=
  match one with
  | (w', Ok cs) =>
    ∃ l' j', cs = as_chunks i l' ∧ plain l' = rest ∧ fed = (j', w', Ok tt) ∧ job_inv j' (l ++ l') ∧
      aj_blob_id j' = aj_blob_id j ∧ aj_key j' = aj_key j ∧ aj_total j' = aj_total j ∧
      aj_file_name j' = aj_file_name j ∧ aj_media_type j' = aj_media_type j
  | (w', Err e) => ∃ j', fed = (j', w', Err e)
  end.

Lemma stream_same_run rest : ∀ j l w,
  job_inv j l → (blen (plain l) + blen rest = aj_total j)%N →
  same_run j l (blen l) rest
    (encrypt_chunks (aj_key j) (aj_total j) (blen l) (chunks (N.to_nat CHUNK_SIZE) rest) w)
    (stream (blen l) (chunks (N.to_nat CHUNK_SIZE) rest) (j, w)).
Proof using Type.
  pose proof chunk_size_pos. pattern rest, (chunks (N.to_nat CHUNK_SIZE) rest).
  apply chunks_ind; [lia| |]; clear rest.
  { intros j l w Hj _. exists [], j. by rewrite app_nil_r. }
  intros rest Hne IH j l w Hj Hrest. cbn [encrypt_chunks stream]. unfold mut_bind.
  rewrite append_next by done. cbv zeta.
  destruct (random_array 12 w) as [w1 [n|e]] eqn:Hr; [|by exists j].
  set (p := take (N.to_nat CHUNK_SIZE) rest) in *.
  destruct (aes_encrypt _ n _ p) as [c|] eqn:He; [|by exists j].
  assert (Hp : blen p = N.min CHUNK_SIZE (blen rest))
    by (unfold p, blen; rewrite length_take; lia).
  assert (0 < blen rest)%N by (destruct rest; [done|rewrite blen_cons; lia]).
  apply random_array_length in Hr. pose proof (ji_received _ _ Hj) as Hrec.
  assert (Hj1 : job_inv (push_chunk (blen l) n p c j) (l ++ [Part n c p]))
    by (apply push_inv; first [done | lia]).
  assert (Hl1 : blen (l ++ [Part n c p]) = (blen l + 1)%N) by (by rewrite blen_app).
  specialize (IH _ _ w1 Hj1). rewrite Hl1, plain_snoc, blen_app in IH. cbn [p_plaintext] in IH.
  cbn [push_chunk aj_key aj_total] in IH. fold (push_chunk (blen l) n p c j) in IH.
  assert (Hd : blen (drop (N.to_nat CHUNK_SIZE) rest) = (blen rest - CHUNK_SIZE)%N)
    by (unfold blen; rewrite length_drop; lia).
  specialize (IH ltac:(lia)). unfold same_run in IH |- *.
  destruct (encrypt_chunks _ _ _ _ w1) as [w2 [cs|e]]; cbn [result_bind]; [|done].
  destruct IH as (l' & j' & -> & Hpl & Hs & Hj' & Hframe). rewrite <-app_assoc in Hj'.
  exists (Part n c p :: l'), j'. split_and!; try done; try apply Hframe.
  rewrite plain_cons, Hpl. apply take_drop.
Qed.

(** ** Theorems *)

(** C15. Whatever is asked of a job, in whatever order and with whatever failures, if it finishes
    then its descriptor and blob decrypt to exactly the plaintexts it accepted, one after the
    other, and they have the announced size. *)
Theorem attachment_job_roundtrip id total name type w w1 j reqs j' w' accepted e :
  start_with_metadata id total name type w = (w1, Ok j) →
  appends reqs (j, w1) = (j', w', accepted) →
  finish j' = Ok e →
  decrypt_blob (ea_descriptor e) (ea_blob e) = Ok (concat accepted) ∧
  blen (concat accepted) = total.
Proof using HL.
  intros Hs Ha Hf. destruct (start_inv _ _ _ _ _ _ _ Hs) as (Hj & _ & Ht & _).
  destruct (appends_inv _ _ _ _ _ _ _ Hj Ha) as (l & Hj' & Hp & Ht').
  destruct (finish_describes _ _ _ Hj' Hf) as (Hd & -> & Hlen). rewrite <-Hp.
  split; [by apply describes_decrypt|]. cbn [app] in Hlen. congruence.
Qed.

(** C16. Feeding a new job the chunks of a file in order, and finishing it, is the same as
    encrypting the file in one call with the job's key: the same draws, the same descriptor
    and blob, and the same error when a draw or the cipher fails. *)
Theorem attachment_streaming_is_encrypt_for_blob id plaintext w0 w j :
  start id (blen plaintext) w0 = (w, Ok j) →
  stream_job plaintext j w = encrypt_for_blob plaintext (aj_key j) id w.
Proof using HL.
  intros Hs. destruct (start_inv _ _ _ _ _ _ _ Hs) as (Hj & Hid & Ht & [= Hname] & [= Htype]).
  pose proof (stream_same_run plaintext j [] w Hj) as Hrun. rewrite Ht in Hrun.
  specialize (Hrun eq_refl). change (blen []) with 0%N in Hrun.
  pose proof (ji_total _ _ Hj) as Hbound. rewrite Ht in Hbound.
  unfold stream_job, encrypt_for_blob, encrypt, cipher_new.
  rewrite <-Hid, (ji_id _ _ Hj), (ji_key _ _ Hj). cbn [negb Nat.eqb].
  replace (blen plaintext =? 0)%N with false by lia.
  replace (MAX_ATTACHMENT_BYTES <? blen plaintext)%N with false by lia.
  unfold same_run in Hrun. destruct (encrypt_chunks _ _ _ _ w) as [w' [cs|e]].
  - destruct Hrun as (l & j' & -> & Hpl & -> & Hj' & Hid' & Hkey' & Ht' & Hname' & Htype').
    cbn [app] in Hj'. cbn [result_bind am_chunks].
    pose proof (cipher_blen _ _ _ _ (ji_sealed _ _ Hj')) as Hc. rewrite Hpl in Hc.
    rewrite (blob_of_sealed _ _ _ _ (ji_sealed _ _ Hj')). cbn [result_bind].
    unfold finish. rewrite (ji_received _ _ Hj'), (ji_blob _ _ Hj'), (ji_chunks _ _ Hj').
    rewrite Hpl, Ht', Ht, N.eqb_refl, Hname', Htype', <-Hname, <-Htype, Hid', Hkey'. cbn [negb orb].
    by replace (blen (cipher l) =? 0)%N with false by lia.
  - by destruct Hrun as [j' ->].
Qed.
End props.

(** ** Witnesses *)

Module AttachmentSample.
Import Reference.
Definition blob_id : string := "bbbbbbbbbbbbbbbbbbbbbbbbbbbbbbbb".
Definition letters : bytes := as_bytes "secret attachment".
Definition world : World :=
  {| w_files := ∅; w_faults := [];
     w_entropy := [replicate 32 (n_byte 7); replicate 12 (n_byte 9)]; w_pid := 1 |}.
Definition world1 : World := (start blob_id 17 world).1.
(** Total size 17, no draws left for a second chunk. *)
Definition job : AttachmentJob :=
  {| aj_blob_id := blob_id; aj_key := replicate 32 (n_byte 7); aj_total := 17; aj_next_index := 0;
     aj_received := 0; aj_chunks := []; aj_blob := []; aj_file_name := None;
     aj_media_type := None |}.
(** A request out of order, the plaintext, and a request too many. *)
Definition requests : list (N * bytes) := [(1, letters); (0, letters); (1, letters)]%N.
Definition ended := (appends requests (job, world1)).
Definition package : EncryptedAttachment :=
  match finish ended.1.1 with
  | Ok e => e
  | Err _ => {| ea_descriptor :=
                  {| ad_version := 0; ad_blob_id := blob_id; ad_key := []; ad_chunk_size := 0;
                     ad_original_size := 0; ad_chunks := []; ad_file_name := None;
                     ad_media_type := None |}; ea_blob := [] |}
  end.
End AttachmentSample.
Import Reference.

Lemma attachment_job_roundtrip_witness :
  decrypt_blob (ea_descriptor AttachmentSample.package) (ea_blob AttachmentSample.package)
  = Ok (concat [AttachmentSample.letters]) ∧ blen (concat [AttachmentSample.letters]) = 17%N.
Proof.
  apply (attachment_job_roundtrip AttachmentSample.blob_id 17 None None AttachmentSample.world
    AttachmentSample.world1 AttachmentSample.job AttachmentSample.requests
    AttachmentSample.ended.1.1 AttachmentSample.ended.1.2); vm_compute; reflexivity.
Defined.

Lemma attachment_streaming_is_encrypt_for_blob_witness :
  stream_job AttachmentSample.letters AttachmentSample.job AttachmentSample.world1
  = encrypt_for_blob AttachmentSample.letters (aj_key AttachmentSample.job)
      AttachmentSample.blob_id AttachmentSample.world1.
Proof.
  apply (attachment_streaming_is_encrypt_for_blob AttachmentSample.blob_id AttachmentSample.letters
    AttachmentSample.world).
  vm_compute; reflexivity.
Defined.
