(* ===== verification/AttachmentDownload.v ===== *)
(** * Decrypting an attachment chunk by chunk

    [decrypt_blob] on a whole blob and [decrypt_blob_chunk] on each of its chunks agree, errors
    included, and an accepted blob is exactly the chunks its descriptor announces. *)
From Stdlib Require Import Ascii NArith Lia ZifyBool ZifyN.
From stdpp Require Import base gmap strings list.
From S2P Require Import Prelude Text Interfaces Fs Attachment AttachmentProps.

Local Opaque CHUNK_SIZE MAX_ATTACHMENT_BYTES aad.

(** The chunk a descriptor and a ciphertext make. *)
Definition chunk_of (c : AttachmentChunkDescriptor) (ciphertext : bytes) : AttachmentChunk :=
  {| ac_index := cd_index c; ac_nonce := cd_nonce c; ac_ciphertext := attachment_hex ciphertext |}.

(** A descriptor's chunk with the ciphertext of the announced size. *)
Definition fits (c : AttachmentChunkDescriptor) (ciphertext : bytes) : Prop :=
  cd_ciphertext_size c = blen ciphertext.

(** What [validate_chunks] establishes of one chunk. *)
Definition chunk_valid (count i : N) (c : AttachmentChunkDescriptor) : Prop :=
  cd_index c = i ∧ (16 ≤ cd_ciphertext_size c ≤ CHUNK_SIZE + 16)%N ∧
  (∃ nonce, attachment_decode_hex (cd_nonce c) = Some nonce ∧ length nonce = 12) ∧
  ((i + 1 < count)%N → cd_ciphertext_size c = (CHUNK_SIZE + 16)%N).

Lemma validate_chunks_cons count i c l acc total :
  validate_chunks count i (c :: l) acc = Ok total →
  chunk_valid count i c ∧
  validate_chunks count (i + 1) l (acc + (cd_ciphertext_size c - 16)) = Ok total.
Proof.
  cbn [validate_chunks]. destruct (_ || _) eqn:G; [done|].
  unfold u64_checked_add. destruct (_ <=? u64_max)%N; [|done].
  destruct ((i + 1 <? count)%N && _) eqn:G2; [done|]. intros H. bool_props.
  destruct (attachment_decode_hex (cd_nonce c)) as [n|] eqn:Hn; [|done]. bool_props.
  split; [|done]. unfold chunk_valid. split_and!; [lia..| |lia].
  exists n. split; [done|]. by apply Nat.eqb_eq.
Qed.

(** The plaintext announced, and the ciphertext it takes. *)
Lemma validate_chunks_size count i l cts acc total :
  validate_chunks count i l acc = Ok total → Forall2 fits l cts →
  (blen (concat cts) + acc = total + 16 * blen l)%N.
Proof.
  intros H Hf. revert i acc H. induction Hf as [|c ct l cts Hc Hf IH]; intros i acc H.
  { cbn in H. simplify_eq. change (blen (concat [])) with 0%N. change (blen []) with 0%N. lia. }
  apply validate_chunks_cons in H as ((_ & Hb & _) & H). specialize (IH _ _ H).
  cbn [concat]. rewrite blen_app, blen_cons. unfold fits in Hc. lia.
Qed.

Lemma cut_chunks_fits count i l cts acc total pre :
  validate_chunks count i l acc = Ok total → Forall2 fits l cts →
  (blen (pre ++ concat cts) ≤ u64_max)%N →
  cut_chunks (pre ++ concat cts) (blen pre) i l
  = Ok (zip_with chunk_of l cts, blen (pre ++ concat cts)).
Proof.
  intros H Hf. revert i acc pre H.
  induction Hf as [|c ct l cts Hc Hf IH]; intros i acc pre H Hb.
  { cbn [concat cut_chunks zip_with]. by rewrite app_nil_r. }
  apply validate_chunks_cons in H as ((Hi & Hs & _) & H). unfold fits in Hc.
  cbn [concat] in Hb |- *. rewrite app_assoc in Hb. specialize (IH _ _ (pre ++ ct) H Hb).
  rewrite <-app_assoc in IH, Hb. rewrite !blen_app in Hb.
  cbn [cut_chunks zip_with]. rewrite Hi, N.eqb_refl, Hc in *.
  replace (blen ct <? 16)%N with false by lia.
  replace (CHUNK_SIZE + 16 <? blen ct)%N with false by lia.
  rewrite bool_decide_true by (unfold u64_checked_add; case_match; [done|lia]).
  cbn [negb orb]. rewrite (blen_app pre (ct ++ _)), (blen_app ct).
  replace (_ <=? _)%N with true by lia. cbn [negb].
  rewrite (blen_app pre ct) in IH. rewrite IH. cbn [result_bind fst snd].
  rewrite !blen_app. unfold chunk_of at 2. rewrite Hi. do 5 f_equal.
  unfold blen. rewrite !Nat2N.id. by rewrite drop_app_length, take_app_length.
Qed.

(** What [cut_chunks] accepts is a concatenation of chunks of the announced sizes. *)
Lemma cut_chunks_inv blob l : ∀ offset i chunks end_,
  cut_chunks blob offset i l = Ok (chunks, end_) → (offset ≤ blen blob)%N →
  ∃ cts, Forall2 fits l cts ∧ (end_ ≤ blen blob)%N ∧
    take (N.to_nat end_) blob = take (N.to_nat offset) blob ++ concat cts.
Proof.
  induction l as [|c l IH]; intros offset i chunks end_ H Ho; cbn [cut_chunks] in H.
  { simplify_eq. exists []. cbn. by rewrite app_nil_r. }
  destruct (_ || _); [done|]. destruct (negb _) eqn:G; [done|]. bool_props.
  destruct (cut_chunks blob (offset + cd_ciphertext_size c) (i + 1) l) as [[cs e]|] eqn:E; [|done].
  cbn [result_bind fst snd] in H. simplify_eq.
  destruct (IH _ _ _ _ E ltac:(lia)) as (cts & Hf & He & Hcat).
  set (ct := take (N.to_nat (cd_ciphertext_size c)) (drop (N.to_nat offset) blob)).
  exists (ct :: cts). split_and!; [constructor; [|done]|done|].
  - unfold fits, ct, blen in *. rewrite length_take, length_drop. lia.
  - rewrite Hcat. cbn [concat]. rewrite app_assoc. f_equal. unfold ct.
    by rewrite N2Nat.inj_add, take_take_drop.
Qed.

Section download.
Context `{HC : Crypto} {HL : CryptoLaws}.

(** The chunks of a blob, decrypted one by one from an index on. *)
Fixpoint download (d : AttachmentDescriptor) (index : N) (cts : list bytes)
  : result bytes AttachmentError :=
  match cts with
  | [] => Ok []
  | ct :: rest =>
    let? p := decrypt_blob_chunk d index ct in
    let? ps := download d (index + 1) rest in
    Ok (p ++ ps)
  end.

(** [decrypt_blob_chunk] on a valid descriptor and a chunk that fits. *)
Lemma decrypt_blob_chunk_fits d c i ct n :
  validate_descriptor d = Ok tt → ad_chunks d !! N.to_nat i = Some c →
  chunk_valid (blen (ad_chunks d)) i c → fits c ct →
  attachment_decode_hex (cd_nonce c) = Some n →
  decrypt_blob_chunk d i ct =
  let? k := cipher_new (ad_key d) in
  ok_or (aes_decrypt k n (aad i (ad_original_size d)) ct) AuthenticationFailed.
Proof using Type.
  intros Hv Hl (Hi & Hb & (n' & Hn' & Hn12) & _) Hf Hn.
  assert (n' = n) as -> by congruence. unfold fits in Hf.
  unfold decrypt_blob_chunk. rewrite Hv, Hl. cbn [result_bind ok_or].
  rewrite Hi, Hf, !N.eqb_refl, Hn. cbn [negb orb].
  replace (blen ct <? 16)%N with false by lia.
  replace (CHUNK_SIZE + 16 <? blen ct)%N with false by lia. cbn [orb ok_or result_bind].
  by rewrite Hn12.
Qed.

Lemma decrypt_chunks_download d k pre l cts acc total plain :
  validate_descriptor d = Ok tt → cipher_new (ad_key d) = Ok k → ad_chunks d = pre ++ l →
  validate_chunks (blen (ad_chunks d)) (blen pre) l acc = Ok total → Forall2 fits l cts →
  decrypt_chunks k (ad_original_size d) (blen (ad_chunks d)) (blen pre) (zip_with chunk_of l cts)
    plain
  = let? p := download d (blen pre) cts in Ok (plain ++ p).
Proof using HL.
  intros Hv Hk Hd H Hf. revert pre acc plain Hd H.
  induction Hf as [|c ct l cts Hc Hf IH]; intros pre acc plain Hd H.
  { cbn. by rewrite app_nil_r. }
  apply validate_chunks_cons in H as (Hcv & H).
  pose proof Hcv as (Hi & Hb & (n & Hn & Hn12) & Hmore).
  assert (Hl : ad_chunks d !! N.to_nat (blen pre) = Some c)
    by (rewrite Hd; unfold blen; rewrite Nat2N.id; by apply list_lookup_middle).
  cbn [download]. rewrite (decrypt_blob_chunk_fits d c _ ct n) by done. rewrite Hk.
  unfold fits in Hc. cbn [zip_with decrypt_chunks result_bind]. unfold chunk_of at 1 2 3 4.
  cbn [ac_index ac_nonce ac_ciphertext]. rewrite Hi, N.eqb_refl, Hn. cbn [negb ok_or result_bind].
  rewrite attachment_decode_hex_hex by (intros ->; change (blen []) with 0%N in Hc; lia).
  cbn [ok_or result_bind]. rewrite Hn12. cbn [Nat.eqb negb orb].
  replace (blen ct <? 16)%N with false by lia.
  replace (CHUNK_SIZE + 16 <? blen ct)%N with false by lia. cbn [orb].
  destruct (aes_decrypt k n _ ct) as [p|] eqn:Ha; [|done]. cbn [ok_or result_bind].
  apply aes_untag_length in Ha.
  assert (Hp : blen ct = (blen p + 16)%N) by (unfold blen; lia).
  replace (CHUNK_SIZE <? blen p)%N with false by lia.
  replace ((blen pre + 1 <? blen (ad_chunks d))%N && _) with false by lia. cbn [orb].
  specialize (IH (pre ++ [c]) (acc + (cd_ciphertext_size c - 16))%N (plain ++ p)). rewrite <-app_assoc, blen_app in IH.
  change (blen [c]) with 1%N in IH. rewrite (IH Hd H).
  destruct (download d _ cts); cbn [result_bind]; [by rewrite app_assoc|done].
Qed.

Lemma decrypt_blob_chunk_size d i ct p :
  decrypt_blob_chunk d i ct = Ok p → blen ct = (blen p + 16)%N.
Proof using HL.
  unfold decrypt_blob_chunk. destruct (validate_descriptor d); [|done]. cbn [result_bind].
  destruct (ad_chunks d !! _) as [c|]; [|done]. cbn [ok_or result_bind].
  destruct (_ || _); [done|]. destruct (attachment_decode_hex _) as [n|]; [|done].
  cbn [ok_or result_bind]. destruct (negb _); [done|]. destruct (cipher_new _) as [k|]; [|done].
  cbn [result_bind]. destruct (aes_decrypt k n _ ct) as [q|] eqn:E; [|done]. intros [= <-].
  apply aes_untag_length in E. unfold blen. lia.
Qed.

Lemma download_size d i cts p :
  download d i cts = Ok p → (blen p + 16 * blen cts = blen (concat cts))%N.
Proof using HL.
  revert i p. induction cts as [|ct cts IH]; intros i p H; cbn [download] in H.
  { by simplify_eq. }
  destruct (decrypt_blob_chunk d i ct) as [q|] eqn:E; [|done]. cbn [result_bind] in H.
  destruct (download d (i + 1) cts) as [qs|] eqn:E'; [|done]. cbn [result_bind] in H. simplify_eq.
  specialize (IH _ _ E'). cbn [concat]. rewrite !blen_app, blen_cons.
  apply decrypt_blob_chunk_size in E. lia.
Qed.

(** The bounds a valid descriptor keeps. *)
Lemma validate_descriptor_inv d :
  validate_descriptor d = Ok tt →
  ad_version d = ATTACHMENT_VERSION ∧ ad_chunk_size d = CHUNK_SIZE ∧
  (0 < ad_original_size d ≤ MAX_ATTACHMENT_BYTES)%N ∧ (0 < blen (ad_chunks d) ≤ 512)%N ∧
  validate_chunks (blen (ad_chunks d)) 0 (ad_chunks d) 0 = Ok (ad_original_size d).
Proof using Type.
  unfold validate_descriptor. rewrite max_chunks. destruct (_ || _) eqn:G; [done|].
  destruct (sanitize_file_name _); [|done]. destruct (sanitize_media_type _); [|done].
  cbn [result_bind]. destruct (validate_chunks _ _ _ _) as [t|]; [|done]. cbn [result_bind].
  destruct (t =? _)%N eqn:E; [|done]. intros _. bool_props. apply N.eqb_eq in E as ->.
  split_and!; first [lia | done].
Qed.

(** The blob of fitting chunks decrypts as its chunks do, errors included. *)
Lemma decrypt_blob_download d cts :
  validate_descriptor d = Ok tt → Forall2 fits (ad_chunks d) cts →
  decrypt_blob d (concat cts) = download d 0 cts.
Proof using HL.
  intros Hv Hf. pose proof (validate_descriptor_inv d Hv) as (Hver & Hcs & Hs & Hn & Hvc).
  pose proof (validate_chunks_size _ _ _ _ _ _ Hvc Hf) as Hsize. pose proof max_small.
  assert (u32_max < u64_max)%N by done. pose proof chunk_size_pos.
  pose proof (Forall2_length _ _ _ Hf) as Hlen.
  assert (Hcount : blen cts = blen (ad_chunks d)) by (unfold blen; by rewrite Hlen).
  assert (Hzip : blen (zip_with chunk_of (ad_chunks d) cts) = blen (ad_chunks d))
    by (unfold blen; rewrite length_zip_with, Hlen; lia).
  unfold decrypt_blob. rewrite Hv. cbn [result_bind].
  pose proof (cut_chunks_fits _ _ _ _ _ _ [] Hvc Hf) as Hcut. cbn [app] in Hcut.
  change (blen []) with 0%N in Hcut. rewrite Hcut by lia. cbn [result_bind fst snd].
  rewrite N.eqb_refl. cbn [negb]. unfold decrypt.
  cbn [am_version am_chunk_size am_original_size am_chunks].
  rewrite Hver, Hcs, Hzip, max_chunks, !N.eqb_refl. cbn [negb orb].
  replace (ad_original_size d =? 0)%N with false by lia.
  replace (MAX_ATTACHMENT_BYTES <? ad_original_size d)%N with false by lia.
  replace (blen (ad_chunks d) =? 0)%N with false by lia.
  replace (512 <? blen (ad_chunks d))%N with false by lia. cbn [orb].
  destruct (cipher_new (ad_key d)) as [k|e] eqn:Hk; cbn [result_bind].
  - pose proof (decrypt_chunks_download d k [] _ cts _ _ [] Hv Hk eq_refl Hvc Hf) as Hd.
    change (blen []) with 0%N in Hd. rewrite Hd.
    destruct (download d 0 cts) as [p|] eqn:E; [|done]. cbn [result_bind app].
    apply download_size in E. replace (blen p =? ad_original_size d)%N with true by lia. done.
  - clear Hcut. destruct cts as [|ct cts]; [change (blen []) with 0%N in Hcount; lia|].
    apply Forall2_cons_inv_r in Hf as (c & l & Hc & _ & Hd). rewrite Hd in Hvc.
    apply validate_chunks_cons in Hvc as (Hcv & _). rewrite <-Hd in Hcv.
    pose proof Hcv as (_ & _ & (n & Hnon & _) & _). cbn [download].
    rewrite (decrypt_blob_chunk_fits d c 0 ct n) by (done || by rewrite Hd). by rewrite Hk.
Qed.

(** A blob decrypts to a plaintext exactly when its descriptor is valid, the blob is a
    sequence of ciphertexts of the sizes the descriptor announces, nothing missing and nothing
    left over, and decrypting each of them alone, at its index, gives the plaintext in order. *)
Theorem attachment_blob_is_its_chunks d blob p :
  decrypt_blob d blob = Ok p ↔
  validate_descriptor d = Ok tt ∧
  ∃ cts, blob = concat cts ∧ Forall2 fits (ad_chunks d) cts ∧ download d 0 cts = Ok p.
Proof using HL.
  split; [|intros (Hv & cts & -> & Hf & Hd); by rewrite decrypt_blob_download].
  intros H. pose proof H as H'. unfold decrypt_blob in H'.
  destruct (validate_descriptor d) as [[]|] eqn:Hv; [|done]. split; [done|].
  cbn [result_bind] in H'. destruct (cut_chunks blob 0 0 _) as [[cs e]|] eqn:Hcut; [|done].
  cbn [result_bind fst snd] in H'. destruct (e =? blen blob)%N eqn:E; [|done]. clear H'.
  apply N.eqb_eq in E as ->.
  destruct (cut_chunks_inv _ _ _ _ _ _ Hcut ltac:(lia)) as (cts & Hf & _ & Hcat).
  exists cts. unfold blen in Hcat. rewrite Nat2N.id, firstn_all in Hcat.
  change (take (N.to_nat 0) blob) with (@nil ascii) in Hcat. cbn [app] in Hcat.
  subst blob. split_and!; [done..|]. by rewrite <-decrypt_blob_download.
Qed.
End download.

Import Reference.

Lemma attachment_blob_is_its_chunks_witness :
  decrypt_blob (ea_descriptor AttachmentSample.package) (ea_blob AttachmentSample.package)
    = Ok AttachmentSample.letters.
Proof.
  apply (attachment_blob_is_its_chunks (ea_descriptor AttachmentSample.package)
    (ea_blob AttachmentSample.package) AttachmentSample.letters).
  split; [vm_compute; reflexivity|]. exists [ea_blob AttachmentSample.package].
  split_and!; [vm_compute; reflexivity| |vm_compute; reflexivity].
  repeat constructor; vm_compute; reflexivity.
Defined.
