(* ===== verification/Attestation.v ===== *)
(** * Peer attestations ([apps/daemon/src/attestation.rs])

    An account vouches for the device key of another account with a signature over a
    transcript; the store keeps the last few attestations of each subject. *)
From Stdlib Require Import Ascii NArith Lia ZifyBool ZifyN.
From stdpp Require Import base gmap strings list.
From S2P Require Import Prelude Text Collections Interfaces Identity.

Definition ATTESTATION_VERSION : N := 1.
Definition MAX_ATTESTATIONS_PER_PEER : nat := 8.

Record PeerAttestation := {
  pa_version : N;
  pa_attestor_account_id : string;
  pa_subject_account_id : string;
  pa_subject_device_public_key : string;
  pa_created_at : N;
  pa_signature : string;
}.
#[export] Instance PeerAttestation_eq_dec : EqDecision PeerAttestation.
Proof. solve_decision. Defined.

Inductive AttestationError :=
| InvalidPublicKey | InvalidSignature | SubjectMismatch | KeyMismatch | UnsupportedVersion
| AttestationStorage | AttestationRandomness.
#[export] Instance AttestationError_eq_dec : EqDecision AttestationError.
Proof. solve_decision. Defined.

(** A string that is cut inside a character makes the slice panic. *)
Definition attestation_decode_hex (value : string) : Outcome (option bytes) :=
  if negb (slen value mod 2 =? 0)%N || is_empty_str value then Returns None
  else hex_pairs (as_bytes value).

Definition attestation_hex (b : bytes) : string := of_bytes (hex_b b).

(** [format!] of five lines, each ended by a line feed. *)
Definition attestation_transcript (attestor_id subject_id subject_device_key_hex : string)
    (created_at : N) : bytes :=
  as_bytes (join 10
    ["another-dimension/attestation/v" +:+ u64_to_string ATTESTATION_VERSION;
     "attestor=" +:+ attestor_id; "subject=" +:+ subject_id;
     "subject_device_key=" +:+ subject_device_key_hex;
     "created_at=" +:+ u64_to_string created_at; EmptyString]).

(** [decode_hex(..).ok_or(e)?] on a call that can panic. *)
Definition decoded {A B} (o : Outcome (option A)) (e : AttestationError)
    (k : A → Outcome (result B AttestationError)) : Outcome (result B AttestationError) :=
  match o with
  | Panics => Panics
  | Returns None => Returns (Err e)
  | Returns (Some a) => k a
  end.

Section attestations.
Context `{Crypto}.

Definition attestation_create (attestor_key : AccountRootKey) (subject_account_id
    subject_device_public_key_hex : string) (now : N)
  : Outcome (result PeerAttestation AttestationError) :=
  decoded (attestation_decode_hex subject_device_public_key_hex) InvalidPublicKey (λ device_key_bytes,
  Returns (
    if negb (length device_key_bytes =? 32)%nat then Err InvalidPublicKey
    else
      Ok {| pa_version := ATTESTATION_VERSION;
            pa_attestor_account_id := root_account_id attestor_key;
            pa_subject_account_id := subject_account_id;
            pa_subject_device_public_key := subject_device_public_key_hex;
            pa_created_at := now;
            pa_signature :=
              attestation_hex (root_sign attestor_key
                (attestation_transcript (root_account_id attestor_key) subject_account_id
                   subject_device_public_key_hex now)) |})).

Definition attestation_verify (a : PeerAttestation) (attestor_public_key_hex
    expected_subject_account_id expected_subject_device_public_key_hex : string)
  : Outcome (result unit AttestationError) :=
  if negb (pa_version a =? ATTESTATION_VERSION)%N then Returns (Err UnsupportedVersion)
  else if negb (seqb (pa_subject_account_id a) expected_subject_account_id)
  then Returns (Err SubjectMismatch)
  else if negb (seqb (pa_subject_device_public_key a) expected_subject_device_public_key_hex)
  then Returns (Err KeyMismatch)
  else
    let raw_pk := default attestor_public_key_hex (strip_prefix "ad1pk" attestor_public_key_hex) in
    decoded (attestation_decode_hex raw_pk) InvalidPublicKey (λ attestor_pk,
    if negb (length attestor_pk =? 32)%nat || negb (ed_valid_public attestor_pk)
    then Returns (Err InvalidPublicKey)
    else
      let transcript :=
        attestation_transcript (pa_attestor_account_id a) (pa_subject_account_id a)
          (pa_subject_device_public_key a) (pa_created_at a) in
      decoded (attestation_decode_hex (pa_signature a)) InvalidSignature (λ signature,
      Returns (
        if negb (length signature =? 64)%nat then Err InvalidSignature
        else if ed_verify attestor_pk transcript signature then Ok tt else Err InvalidSignature))).
End attestations.

(** ** The store *)

Abbreviation PeerAttestationStore := (gmap string (list PeerAttestation)).

Definition attestations_new : PeerAttestationStore := ∅.

(** It always answers [Ok]. *)
Definition attestations_add (attestation : PeerAttestation) (s : PeerAttestationStore)
  : PeerAttestationStore :=
  let list := default [] (s !! pa_subject_account_id attestation) in
  let list :=
    if (MAX_ATTESTATIONS_PER_PEER <=? length list)%nat then tail list else list in
  let list := if decide (attestation ∈ list) then list else list ++ [attestation] in
  <[pa_subject_account_id attestation := list]> s.

Definition for_peer (s : PeerAttestationStore) (account_id : string) : list PeerAttestation :=
  default [] (s !! account_id).

Definition attestations_all (s : PeerAttestationStore) : list PeerAttestation :=
  concat (map snd (btree_iter s)).

Section persistence.
Context `{JsonCodec PeerAttestationStore}.

Definition attestations_encode (s : PeerAttestationStore) : result bytes AttestationError :=
  ok_or (json_to_vec s) AttestationStorage.
Definition attestations_restore (b : bytes) : result PeerAttestationStore AttestationError :=
  ok_or (json_from_slice b) AttestationStorage.
End persistence.

(** ** Signing and verifying *)

Lemma attestation_decode_hex_hex b :
  b ≠ [] → attestation_decode_hex (attestation_hex b) = Returns (Some b).
Proof.
  intros Hb. unfold attestation_decode_hex, attestation_hex.
  rewrite hex_even, hex_nonempty, as_of_bytes by done. apply hex_pairs_hex.
Qed.

Lemma attestation_decode_hex_length n b :
  length b = S n → attestation_decode_hex (attestation_hex b) = Returns (Some b).
Proof. intros Hb. apply attestation_decode_hex_hex. by intros ->. Qed.

Lemma transcript_lines a s k t :
  line_ok a = true → line_ok s = true → line_ok k = true →
  Forall (λ x, line_ok x = true)
    ["another-dimension/attestation/v" +:+ u64_to_string ATTESTATION_VERSION;
     "attestor=" +:+ a; "subject=" +:+ s; "subject_device_key=" +:+ k;
     "created_at=" +:+ u64_to_string t; EmptyString].
Proof.
  intros Ha Hs Hk. repeat constructor; rewrite ?line_ok_app, ?u64_line, ?Ha, ?Hs, ?Hk; done.
Qed.

Section theorems.
Context `{HC : Crypto} {HL : CryptoLaws}.

(** An account can vouch for any 32-byte device key of any account, and the attestation
    verifies under that account's identifier for that subject and that key. *)
Theorem attestation_create_verifies root subject device now :
  length device = 32 →
  ∃ a, attestation_create root subject (attestation_hex device) now = Returns (Ok a) ∧
       attestation_verify a (root_account_id root) subject (attestation_hex device)
       = Returns (Ok tt).
Proof using HL.
  intros Hd. unfold attestation_create.
  rewrite (attestation_decode_hex_length 31) by done. cbn [decoded]. rewrite Hd. cbn [Nat.eqb negb].
  eexists. split; [done|]. unfold attestation_verify.
  cbn [pa_version pa_subject_account_id pa_subject_device_public_key pa_attestor_account_id
       pa_created_at pa_signature]. rewrite N.eqb_refl, !seqb_refl. cbn [negb].
  replace (strip_prefix "ad1pk" (root_account_id root))
    with (Some (attestation_hex (root_public_key root)))
    by (symmetry; by apply strip_prefix_Some).
  cbn [default id]. pose proof (ed_public_length (root_seed root)) as Hpk.
  rewrite (attestation_decode_hex_length 31) by done. cbn [decoded].
  unfold root_public_key in *. rewrite Hpk, ed_public_valid. cbn [Nat.eqb negb orb].
  set (t := attestation_transcript _ _ _ _). pose proof (ed_sign_length (root_seed root) t) as Hs.
  unfold root_sign. rewrite (attestation_decode_hex_length 63) by done. cbn [decoded].
  by rewrite Hs, ed_verify_sign.
Qed.

(** Transcripts of fields without line feeds tell the fields apart: a signature over one
    transcript vouches for one attestor, subject, key and time. *)
Theorem attestation_transcript_unambiguous a s k t a' s' k' t' :
  line_ok a = true → line_ok s = true → line_ok k = true →
  line_ok a' = true → line_ok s' = true → line_ok k' = true →
  (t ≤ u64_max)%N → (t' ≤ u64_max)%N →
  attestation_transcript a s k t = attestation_transcript a' s' k' t' →
  a = a' ∧ s = s' ∧ k = k' ∧ t = t'.
Proof using Type.
  intros Ha Hs Hk Ha' Hs' Hk' Ht Ht' E. unfold attestation_transcript in E.
  apply as_bytes_inj, (f_equal (split 10)) in E.
  rewrite !lines_split in E by (done || by apply transcript_lines).
  injection E as E1 E2 E3 E4. split_and!; [done..|].
  change (u64_to_string t = u64_to_string t') in E4.
  apply parse_u64_to_string in Ht, Ht'. congruence.
Qed.
End theorems.

(** ** Properties of the store *)

(** Every list belongs to its subject, has no duplicates and is within the limit. *)
Definition attestations_inv (s : PeerAttestationStore) : Prop :=
  ∀ subject l, s !! subject = Some l →
    NoDup l ∧ length l ≤ MAX_ATTESTATIONS_PER_PEER ∧
    Forall (λ a, pa_subject_account_id a = subject) l.

Inductive attestations_reachable : PeerAttestationStore → Prop :=
| attestations_start : attestations_reachable attestations_new
| attestations_step a s : attestations_reachable s → attestations_reachable (attestations_add a s).

Lemma tail_suffix {A} (l : list A) : ∃ k, l = k ++ tail l.
Proof. destruct l as [|x l]; [by exists []|by exists [x]]. Qed.

Lemma attestations_add_inv a s : attestations_inv s → attestations_inv (attestations_add a s).
Proof.
  intros Hs subject l. unfold attestations_add. rewrite lookup_insert_Some.
  intros [[<- <-]|[_ Hl]]; [|by apply Hs].
  set (old := default [] (s !! pa_subject_account_id a)).
  assert (Hold : NoDup old ∧ length old ≤ MAX_ATTESTATIONS_PER_PEER ∧
                 Forall (λ b, pa_subject_account_id b = pa_subject_account_id a) old).
  { unfold old. destruct (s !! _) as [l|] eqn:E; [by apply Hs|].
    split_and!; [apply NoDup_nil_2|cbn; unfold MAX_ATTESTATIONS_PER_PEER; lia|done]. }
  destruct Hold as (Hn & Hlen & Hf).
  assert (∃ kept, (if (MAX_ATTESTATIONS_PER_PEER <=? length old)%nat then tail old else old) = kept ∧
            NoDup kept ∧ length kept < MAX_ATTESTATIONS_PER_PEER ∧
            Forall (λ b, pa_subject_account_id b = pa_subject_account_id a) kept)
    as (kept & -> & Hn' & Hlen' & Hf').
  { eexists. split; [done|]. destruct (_ <=? _)%nat eqn:E; [|split_and!; [done|lia|done]].
    destruct old as [|x old]; [done|]. cbn [tail length] in *.
    apply NoDup_cons in Hn as [_ Hn]. apply Forall_cons in Hf as [_ Hf]. split_and!; [done|lia|done]. }
  case_decide; [split_and!; [done|lia|done]|]. split_and!.
  - apply NoDup_app. split_and!; [done| |apply NoDup_singleton].
    intros x Hx ->%list_elem_of_singleton. done.
  - rewrite length_app. cbn. lia.
  - apply Forall_app. split; [done|]. by constructor.
Qed.

(** Whatever is added, the store keeps at most eight attestations of a subject, without
    duplicates and each under its own subject; the one just added is among them, and no other
    subject is touched. *)
Theorem attestations_reachable_inv s a :
  attestations_reachable s →
  attestations_inv s ∧ a ∈ for_peer (attestations_add a s) (pa_subject_account_id a) ∧
  ∀ subject, subject ≠ pa_subject_account_id a →
    for_peer (attestations_add a s) subject = for_peer s subject.
Proof.
  intros Hr. split_and!.
  - induction Hr as [|b s _ IH]; [by intros ? ? ?|]. by apply attestations_add_inv.
  - unfold for_peer, attestations_add. rewrite lookup_insert_eq. cbn [default id].
    case_decide; [done|]. apply elem_of_app. right. by apply list_elem_of_singleton.
  - intros subject Hne. unfold for_peer, attestations_add. by rewrite lookup_insert_ne.
Qed.

(** Adding an attestation that a full list already holds, other than as its oldest one, drops
    the oldest one and adds nothing: the oldest is removed before the check for duplicates. *)
Theorem attestation_duplicate_evicts a oldest rest s :
  s !! pa_subject_account_id a = Some (oldest :: rest) →
  length (oldest :: rest) = MAX_ATTESTATIONS_PER_PEER → a ∈ rest →
  for_peer (attestations_add a s) (pa_subject_account_id a) = rest.
Proof.
  intros Hs Hlen Hin. unfold for_peer, attestations_add. rewrite lookup_insert_eq, Hs.
  cbn [default id]. rewrite Hlen, Nat.leb_refl. cbn [tail]. by rewrite decide_True.
Qed.

(** An encoded store restores to itself. *)
Lemma attestations_roundtrip `{JsonRoundTrip PeerAttestationStore} s b :
  attestations_encode s = Ok b → attestations_restore b = Ok s.
Proof.
  unfold attestations_encode, attestations_restore. destruct (json_to_vec s) as [b'|] eqn:E; [|done].
  cbn [ok_or]. intros [= <-]. by rewrite (json_roundtrip _ _ E).
Qed.

(** ** Witnesses *)

Module AttestationSample.
Definition attestation (n : N) : PeerAttestation :=
  {| pa_version := 1; pa_attestor_account_id := "a"; pa_subject_account_id := "peer";
     pa_subject_device_public_key := "00"; pa_created_at := n; pa_signature := "00" |}.
Definition eight : list PeerAttestation := map attestation [1; 2; 3; 4; 5; 6; 7; 8]%N.
End AttestationSample.

Lemma attestation_create_verifies_witness :
  ∃ a, @attestation_create Reference.crypto {| root_seed := replicate 32 (n_byte 3) |} "peer"
         (attestation_hex (replicate 32 (n_byte 5))) 10 = Returns (Ok a).
Proof.
  destruct (@attestation_create_verifies Reference.crypto Reference.crypto_laws
    {| root_seed := replicate 32 (n_byte 3) |} "peer" (replicate 32 (n_byte 5)) 10 eq_refl)
    as (a & Ha & _). by exists a.
Defined.

Lemma attestation_transcript_unambiguous_witness :
  attestation_transcript "a" "s" "k" 1 = attestation_transcript "a" "s" "k" 1 → 1%N = 1%N.
Proof.
  intros E. by destruct (attestation_transcript_unambiguous "a" "s" "k" 1 "a" "s" "k" 1
    eq_refl eq_refl eq_refl eq_refl eq_refl eq_refl ltac:(done) ltac:(done) E) as (_ & _ & _ & Ht).
Defined.

Lemma attestations_reachable_inv_witness :
  AttestationSample.attestation 1 ∈ for_peer
    (attestations_add (AttestationSample.attestation 1)
       (attestations_add (AttestationSample.attestation 2) attestations_new)) "peer".
Proof.
  apply (attestations_reachable_inv
    (attestations_add (AttestationSample.attestation 2) attestations_new)
    (AttestationSample.attestation 1)).
  repeat constructor.
Defined.

Lemma attestation_duplicate_evicts_witness :
  for_peer (attestations_add (AttestationSample.attestation 8)
              {[ "peer" := AttestationSample.eight ]}) "peer"
  = map AttestationSample.attestation [2; 3; 4; 5; 6; 7; 8]%N.
Proof.
  apply (attestation_duplicate_evicts (AttestationSample.attestation 8)
    (AttestationSample.attestation 1) (map AttestationSample.attestation [2; 3; 4; 5; 6; 7; 8]%N));
    [reflexivity|reflexivity|].
  refine (bool_decide_unpack _ _). by vm_compute.
Defined.
