(* ===== verification/DeviceLink.v ===== *)
(** * Linking a device ([apps/daemon/src/device_link.rs])

    A new device makes a request with its public key and shows a code; a device that holds the
    account root approves the request with the code, and the new device checks the approval. *)
From Stdlib Require Import Ascii NArith Lia ZifyBool ZifyN.
From stdpp Require Import base gmap strings list.
From S2P Require Import Prelude Text Interfaces Paths Fs Identity Trust Invite Receipt.

Definition REQUEST_VERSION : N := 1.
Definition REQUEST_PREFIX : string := "ADDLINKREQ1.".
Definition APPROVAL_PREFIX : string := "ADDLINKAPP1.".
Definition REQUEST_ID_BYTES : nat := 16.
Definition CODE_BYTES : nat := 16.
Definition MAX_DEVICE_LINK_TTL : N := 10 * 60.

Inductive DeviceLinkError :=
| LinkRandomnessUnavailable | InvalidRequest | InvalidCode | LinkExpired | InvalidApproval
| LinkIdentity (e : IdentityError).

Record RequestWire := {
  lw_version : N;
  lw_request_id : string;
  lw_device_id : string;
  lw_device_public_key : string;
  lw_protocol_package_hash : string;
  lw_created_at : N;
  lw_expires_at : N;
  lw_request_digest : string;
  lw_code_hash : string;
}.
#[export] Instance RequestWire_eq_dec : EqDecision RequestWire.
Proof. solve_decision. Defined.

Record ApprovalWire := {
  aw_version : N;
  aw_request_id : string;
  aw_account_public_key : string;
  aw_device_id : string;
  aw_device_public_key : string;
  aw_protocol_package_hash : string;
  aw_issued_at : N;
  aw_expires_at : N;
  aw_signature : string;
}.
#[export] Instance ApprovalWire_eq_dec : EqDecision ApprovalWire.
Proof. solve_decision. Defined.

Record DeviceLinkRequest := {
  lr_request_id : bytes;
  lr_device_id : string;
  lr_device_public_key : bytes;
  lr_protocol_package_hash : bytes;
  lr_created_at : N;
  lr_expires_at : N;
  lr_request_digest : bytes;
  lr_code_hash : bytes;
}.

Record PendingDeviceKey := { pk_seed : bytes; pk_request : DeviceLinkRequest }.
Record DeviceLinkApproval := { la_request_id : bytes; la_certificate : DeviceCertificate }.

Definition link_hex (b : bytes) : string := of_bytes (hex_b b).

Definition link_decode_hex (value : string) : option bytes :=
  if negb (slen value mod 2 =? 0)%N || negb (forallb is_ascii_hexdigit (as_bytes value))
  then None
  else decode_pairs (as_bytes value).

Definition fixed_hex (n : nat) (value : string) : result bytes DeviceLinkError :=
  let? b := ok_or (link_decode_hex value) InvalidRequest in
  if (length b =? n)%nat then Ok b else Err InvalidRequest.

(** What [append_blob] adds: the length as a [u32], and the value. *)
Definition link_blob (value : bytes) : bytes := be_bytes 4 (blen value) ++ value.

Definition format_code (code : bytes) : string :=
  to_ascii_uppercase (join 45 (map of_bytes (chunks 4 (as_bytes (link_hex code))))).

Definition link_random (n : nat) : Mut World bytes DeviceLinkError :=
  λ w, let '(w, drawn) := secure_random n w in (w, ok_or drawn LinkRandomnessUnavailable).

Section links.
Context `{Crypto, UnicodeCase}.

Definition link_normalize_code (value : string) : option string :=
  let value :=
    collect_chars (flat_map char_to_uppercase
      (List.filter (λ c, negb (c =? 45)%N && negb (char_is_whitespace c)) (chars value))) in
  if (slen value =? N.of_nat CODE_BYTES * 2)%N && forallb is_ascii_hexdigit (as_bytes value)
  then Some value else None.

Definition digest_request (request_id : bytes) (device_id : string)
    (device_public_key protocol_package_hash : bytes) (created_at expires_at : N) : bytes :=
  sha256 (as_bytes "another-dimension/device-link-request/v1" ++ [n_byte 0]
    ++ link_blob request_id ++ link_blob (as_bytes device_id) ++ link_blob device_public_key
    ++ link_blob protocol_package_hash ++ be_bytes 8 created_at ++ be_bytes 8 expires_at).

Definition hash_code (code request_digest : bytes) : bytes :=
  sha256 (as_bytes "another-dimension/device-link-code/v1" ++ [n_byte 0]
    ++ link_blob code ++ link_blob request_digest).

Definition link_create (device_id : string) (protocol_package_hash : bytes) (now : N)
  : Mut World (PendingDeviceKey * string) DeviceLinkError :=
  let! seed := link_random 32 in
  let! request_id := link_random REQUEST_ID_BYTES in
  let! code := link_random CODE_BYTES in
  let device_public_key := ed_public seed in
  let expires_at := u64_saturating_add now MAX_DEVICE_LINK_TTL in
  let request_digest :=
    digest_request request_id device_id device_public_key protocol_package_hash now expires_at in
  mut_ret
    ({| pk_seed := seed;
        pk_request :=
          {| lr_request_id := request_id; lr_device_id := device_id;
             lr_device_public_key := device_public_key;
             lr_protocol_package_hash := protocol_package_hash; lr_created_at := now;
             lr_expires_at := expires_at; lr_request_digest := request_digest;
             lr_code_hash := hash_code code request_digest |} |},
     format_code code).

Definition link_approve (r : DeviceLinkRequest) (code : string) (root : AccountRootKey) (now : N)
  : result DeviceLinkApproval DeviceLinkError :=
  if (lr_expires_at r <=? now)%N then Err LinkExpired
  else
    let? normalized := ok_or (link_normalize_code code) InvalidCode in
    let? code_bytes := ok_or (link_decode_hex normalized) InvalidCode in
    if negb (length code_bytes =? CODE_BYTES)%nat
       || negb (beqb (hash_code code_bytes (lr_request_digest r)) (lr_code_hash r))
    then Err InvalidCode
    else
      let? certificate :=
        map_err LinkIdentity
          (issue_device_for_public_key root (lr_device_id r) (lr_device_public_key r)
             (lr_protocol_package_hash r) now (lr_expires_at r)) in
      Ok {| la_request_id := lr_request_id r; la_certificate := certificate |}.

Definition verify_for (a : DeviceLinkApproval) (r : DeviceLinkRequest) (now : N)
  : result unit DeviceLinkError :=
  let c := la_certificate a in
  if negb (beqb (la_request_id a) (lr_request_id r))
     || negb (seqb (dc_device_id c) (lr_device_id r))
     || negb (beqb (dc_device_public_key c) (lr_device_public_key r))
     || negb (beqb (dc_protocol_package_hash c) (lr_protocol_package_hash r))
  then Err InvalidApproval
  else map_err LinkIdentity (certificate_verify c now).

(** ** Wire forms *)

Context `{JsonCodec RequestWire, JsonCodec ApprovalWire}.

Definition request_wire (r : DeviceLinkRequest) : RequestWire :=
  {| lw_version := REQUEST_VERSION; lw_request_id := link_hex (lr_request_id r);
     lw_device_id := lr_device_id r; lw_device_public_key := link_hex (lr_device_public_key r);
     lw_protocol_package_hash := link_hex (lr_protocol_package_hash r);
     lw_created_at := lr_created_at r; lw_expires_at := lr_expires_at r;
     lw_request_digest := link_hex (lr_request_digest r);
     lw_code_hash := link_hex (lr_code_hash r) |}.

Definition request_encode (r : DeviceLinkRequest) : result string DeviceLinkError :=
  let? b := ok_or (json_to_vec (request_wire r)) InvalidRequest in
  Ok (REQUEST_PREFIX +:+ link_hex b).

Definition request_parse (value : string) : result DeviceLinkRequest DeviceLinkError :=
  let? encoded := ok_or (strip_prefix REQUEST_PREFIX value) InvalidRequest in
  let? b := ok_or (link_decode_hex encoded) InvalidRequest in
  let? wire := ok_or (json_from_slice b) InvalidRequest in
  if negb (lw_version wire =? REQUEST_VERSION)%N then Err InvalidRequest
  else
    let? request_id := fixed_hex REQUEST_ID_BYTES (lw_request_id wire) in
    let? device_public_key := fixed_hex 32 (lw_device_public_key wire) in
    let? protocol_package_hash := fixed_hex 32 (lw_protocol_package_hash wire) in
    let? request_digest := fixed_hex 32 (lw_request_digest wire) in
    let? code_hash := fixed_hex 32 (lw_code_hash wire) in
    let expected_digest :=
      digest_request request_id (lw_device_id wire) device_public_key protocol_package_hash
        (lw_created_at wire) (lw_expires_at wire) in
    if negb (beqb expected_digest request_digest) || (lw_expires_at wire <=? lw_created_at wire)%N
    then Err InvalidRequest
    else
      Ok {| lr_request_id := request_id; lr_device_id := lw_device_id wire;
            lr_device_public_key := device_public_key;
            lr_protocol_package_hash := protocol_package_hash;
            lr_created_at := lw_created_at wire; lr_expires_at := lw_expires_at wire;
            lr_request_digest := request_digest; lr_code_hash := code_hash |}.

Definition approval_wire (a : DeviceLinkApproval) : ApprovalWire :=
  let c := la_certificate a in
  {| aw_version := REQUEST_VERSION; aw_request_id := link_hex (la_request_id a);
     aw_account_public_key := link_hex (dc_account_public_key c); aw_device_id := dc_device_id c;
     aw_device_public_key := link_hex (dc_device_public_key c);
     aw_protocol_package_hash := link_hex (dc_protocol_package_hash c);
     aw_issued_at := dc_issued_at c; aw_expires_at := dc_expires_at c;
     aw_signature := link_hex (dc_signature c) |}.

Definition approval_encode (a : DeviceLinkApproval) : result string DeviceLinkError :=
  let? b := ok_or (json_to_vec (approval_wire a)) InvalidApproval in
  Ok (APPROVAL_PREFIX +:+ link_hex b).

(** [fixed_hex(..).map_err(|_| InvalidApproval)?]. *)
Definition approval_hex (n : nat) (value : string) : result bytes DeviceLinkError :=
  map_err (λ _, InvalidApproval) (fixed_hex n value).

Definition approval_parse (value : string) : result DeviceLinkApproval DeviceLinkError :=
  let? encoded := ok_or (strip_prefix APPROVAL_PREFIX value) InvalidApproval in
  let? b := ok_or (link_decode_hex encoded) InvalidApproval in
  let? wire := ok_or (json_from_slice b) InvalidApproval in
  if negb (aw_version wire =? REQUEST_VERSION)%N then Err InvalidApproval
  else
    let? request_id := approval_hex REQUEST_ID_BYTES (aw_request_id wire) in
    let? account_public_key := approval_hex 32 (aw_account_public_key wire) in
    let? device_public_key := approval_hex 32 (aw_device_public_key wire) in
    let? protocol_package_hash := approval_hex 32 (aw_protocol_package_hash wire) in
    let? signature := approval_hex 64 (aw_signature wire) in
    let? certificate :=
      map_err (λ _, InvalidApproval)
        (from_parts
           {| dc_account_public_key := account_public_key; dc_device_id := aw_device_id wire;
              dc_device_public_key := device_public_key;
              dc_protocol_package_hash := protocol_package_hash; dc_issued_at := aw_issued_at wire;
              dc_expires_at := aw_expires_at wire; dc_signature := signature;
              dc_revoked := false |}) in
    Ok {| la_request_id := request_id; la_certificate := certificate |}.
End links.

(** ** Codes *)

Lemma link_decode_hex_hex b : link_decode_hex (link_hex b) = Some b.
Proof.
  unfold link_decode_hex, link_hex. rewrite hex_even, as_of_bytes, hex_b_hexdigit.
  apply decode_pairs_hex.
Qed.

Lemma fixed_hex_hex n b : length b = n → fixed_hex n (link_hex b) = Ok b.
Proof.
  intros Hb. unfold fixed_hex. rewrite link_decode_hex_hex. cbn [ok_or result_bind].
  by rewrite Hb, Nat.eqb_refl.
Qed.

Lemma fixed_hex_length n v b : fixed_hex n v = Ok b → length b = n.
Proof.
  unfold fixed_hex. destruct (link_decode_hex v) as [c|]; [|done]. cbn [ok_or result_bind].
  destruct (_ =? n)%nat eqn:E; intros [= <-]. by apply Nat.eqb_eq.
Qed.

(** Filtering out the separator of a join. *)
Lemma filter_join_b keep c l :
  keep c = false → Forall (λ x, forallb keep x = true) l →
  List.filter keep (join_b c l) = concat l.
Proof.
  intros Hc Hl. assert (Hall : ∀ x, forallb keep x = true → List.filter keep x = x).
  { induction x as [|y x IH]; [done|]. cbn [forallb List.filter]. intros H. bool_props.
    rewrite H. by rewrite IH. }
  induction Hl as [|x l Hx Hl IH]; [done|]. destruct l as [|y l].
  - cbn [join_b concat]. by rewrite app_nil_r, Hall.
  - change (join_b c (x :: y :: l)) with (x ++ c :: join_b c (y :: l)).
    rewrite List.filter_app. cbn [List.filter]. rewrite Hc, IH, Hall by done. done.
Qed.

Lemma chunks_forall {A} (p : A → bool) k l :
  0 < k → forallb p l = true → Forall (λ x, forallb p x = true) (chunks k l).
Proof.
  intros Hk. pattern l, (chunks k l). apply chunks_ind; [done|by constructor|].
  intros l' _ IH H. rewrite <-(take_drop k l'), forallb_app in H. bool_props.
  constructor; [done|by apply IH].
Qed.

(** Raised hexadecimal digits decode like the lower-case ones. *)
Lemma decode_pairs_upper b : decode_pairs (map to_ascii_uppercase_byte (hex_b b)) = Some b.
Proof.
  induction b as [|x b IH]; [done|]. change (hex_b (x :: b)) with (hex_byte x ++ hex_b b).
  unfold hex_byte. cbn [app map decode_pairs]. rewrite IH.
  by destruct x as [[] [] [] [] [] [] [] []].
Qed.

Definition code_char (c : N) : bool := negb (c =? 45)%N && negb (char_is_whitespace c).

Lemma hexdigit_code_char b : is_ascii_hexdigit b = true → code_char (byte_n b) = true.
Proof. by destruct b as [[] [] [] [] [] [] [] []]. Qed.

Lemma hexdigit_upper b :
  is_ascii_hexdigit b = true → is_ascii_hexdigit (to_ascii_uppercase_byte b) = true.
Proof. by destruct b as [[] [] [] [] [] [] [] []]. Qed.

(** The bytes of a formatted code: its digits in groups of four. *)
Lemma format_code_bytes code :
  as_bytes (format_code code)
  = map to_ascii_uppercase_byte (join_b (n_byte 45) (chunks 4 (hex_b code))).
Proof.
  unfold format_code, to_ascii_uppercase, join, link_hex. rewrite !as_of_bytes.
  rewrite (map_map of_bytes as_bytes), (map_ext (λ x, as_bytes (of_bytes x)) id) by apply as_of_bytes.
  by rewrite map_id.
Qed.

Lemma join_b_forall p c l :
  p c = true → Forall (λ x, forallb p x = true) l → forallb p (join_b c l) = true.
Proof.
  intros Hc Hl. induction Hl as [|x l Hx Hl IH]; [done|]. destruct l as [|y l]; [done|].
  change (join_b c (x :: y :: l)) with (x ++ c :: join_b c (y :: l)).
  rewrite forallb_app, Hx. cbn [forallb]. by rewrite Hc, IH.
Qed.

Lemma filter_map_bytes keep (f : byte → byte) l :
  List.filter keep (map f l) = map f (List.filter (λ b, keep (f b)) l).
Proof.
  induction l as [|b l IH]; [done|]. cbn [map List.filter]. rewrite IH. by destruct (keep (f b)).
Qed.

Lemma upper_twice b : to_ascii_uppercase_byte (to_ascii_uppercase_byte b) = to_ascii_uppercase_byte b.
Proof. by destruct b as [[] [] [] [] [] [] [] []]. Qed.

(** The code a device shows is accepted as typed, and is the code that was drawn. *)
Lemma normalize_format `{UnicodeCaseLaws} code :
  length code = CODE_BYTES →
  link_normalize_code (format_code code) = Some (of_bytes (map to_ascii_uppercase_byte (hex_b code))).
Proof.
  intros Hlen. pose proof (hex_b_hexdigit code) as Hhex.
  pose proof (chunks_forall _ 4 _ ltac:(lia) Hhex) as Hc.
  assert (E : map to_ascii_uppercase_byte
      (List.filter (λ b, code_char (byte_n b)) (as_bytes (format_code code)))
      = map to_ascii_uppercase_byte (hex_b code)).
  { rewrite format_code_bytes, filter_map_bytes, map_map, filter_join_b, concat_chunks by
      first [done | lia | eapply Forall_impl; [exact Hc|]; intros x; apply forallb_weaken;
             intros b Hb; by apply hexdigit_code_char, hexdigit_upper].
    apply map_ext. apply upper_twice. }
  unfold link_normalize_code. fold code_char. rewrite collect_upper_ascii.
  - change (List.filter _ (as_bytes (format_code code)))
      with (List.filter (λ b, code_char (byte_n b)) (as_bytes (format_code code))).
    rewrite E, slen_of_bytes, as_of_bytes. unfold blen. rewrite length_map, length_hex_b, Hlen.
    cbn [andb]. change (N.of_nat (2 * CODE_BYTES) =? N.of_nat CODE_BYTES * 2)%N with true.
    replace (forallb is_ascii_hexdigit (map to_ascii_uppercase_byte (hex_b code))) with true; [done|].
    symmetry. apply forallb_forall. intros b (x & <- & Hx)%in_map_iff.
    apply hexdigit_upper. rewrite forallb_forall in Hhex. by apply Hhex.
  - unfold is_ascii. rewrite format_code_bytes. apply forallb_forall.
    intros b (x & <- & Hx)%in_map_iff.
    assert (Hj : forallb (λ b, is_ascii_hexdigit b || (byte_n b =? 45)%N)
                   (join_b (n_byte 45) (chunks 4 (hex_b code))) = true).
    { apply join_b_forall; [done|]. eapply Forall_impl; [exact Hc|]. intros y.
      apply forallb_weaken. intros z Hz. by rewrite Hz. }
    rewrite forallb_forall in Hj. specialize (Hj x Hx). revert Hj.
    by destruct x as [[] [] [] [] [] [] [] []].
Qed.

Lemma code_decodes code :
  link_decode_hex (of_bytes (map to_ascii_uppercase_byte (hex_b code))) = Some code.
Proof.
  unfold link_decode_hex. rewrite as_of_bytes, slen_of_bytes. unfold blen. rewrite length_map.
  fold (blen (hex_b code)). rewrite <-slen_of_bytes, hex_even.
  replace (forallb is_ascii_hexdigit _) with true; [apply decode_pairs_upper|].
  symmetry. apply forallb_forall. intros b (x & <- & Hx)%in_map_iff. apply hexdigit_upper.
  pose proof (hex_b_hexdigit code) as Hhex. rewrite forallb_forall in Hhex. by apply Hhex.
Qed.

(** ** Theorems *)

(** A request whose digest is its own and whose fields have their sizes. *)
Record request_ok `{Crypto} (r : DeviceLinkRequest) : Prop := {
  ro_id : length (lr_request_id r) = REQUEST_ID_BYTES;
  ro_key : length (lr_device_public_key r) = 32;
  ro_package : length (lr_protocol_package_hash r) = 32;
  ro_code : length (lr_code_hash r) = 32;
  ro_digest : lr_request_digest r
    = digest_request (lr_request_id r) (lr_device_id r) (lr_device_public_key r)
        (lr_protocol_package_hash r) (lr_created_at r) (lr_expires_at r);
  ro_times : (lr_created_at r < lr_expires_at r)%N;
}.

Section theorems.
Context `{HC : Crypto} {HL : CryptoLaws} `{HU : UnicodeCase} {HUL : UnicodeCaseLaws}.
Context `{HJ : JsonCodec RequestWire} {HR : JsonRoundTrip RequestWire}.
Context `{HJ' : JsonCodec ApprovalWire} {HR' : JsonRoundTrip ApprovalWire}.

(** Parsing returns exactly the well-formed requests: what it accepts is one, and one that is
    encoded is parsed back. *)
Theorem device_link_request_roundtrip r text :
  (request_parse text = Ok r → request_ok r) ∧
  (request_ok r → request_encode r = Ok text → request_parse text = Ok r).
Proof using HL HR.
  split.
  - unfold request_parse. destruct (strip_prefix _ text); [|done]. cbn [ok_or result_bind].
    destruct (link_decode_hex _); [|done]. cbn [ok_or result_bind].
    destruct (json_from_slice _) as [wire|]; [|done]. cbn [ok_or result_bind].
    destruct (negb (lw_version wire =? _)%N); [done|].
    destruct (fixed_hex _ (lw_request_id wire)) eqn:E1; [|done]. cbn [result_bind].
    destruct (fixed_hex _ (lw_device_public_key wire)) eqn:E2; [|done]. cbn [result_bind].
    destruct (fixed_hex _ (lw_protocol_package_hash wire)) eqn:E3; [|done]. cbn [result_bind].
    destruct (fixed_hex _ (lw_request_digest wire)) eqn:E4; [|done]. cbn [result_bind].
    destruct (fixed_hex _ (lw_code_hash wire)) eqn:E5; [|done]. cbn [result_bind].
    apply fixed_hex_length in E1, E2, E3, E4, E5.
    destruct (_ || _) eqn:G; [done|]. intros [= <-]. apply orb_false_iff in G as [G1 G2].
    apply negb_false_iff, beqb_true in G1. split; cbn; try done. lia.
  - intros [H1 H2 H3 H5 H4 Ht]. unfold request_encode.
    destruct (json_to_vec _) as [b|] eqn:Ej; [|done]. cbn [ok_or result_bind]. intros [= <-].
    unfold request_parse. rewrite (proj2 (strip_prefix_Some _ _ (link_hex b)) eq_refl).
    cbn [ok_or result_bind]. rewrite link_decode_hex_hex. cbn [ok_or result_bind].
    rewrite (json_roundtrip _ _ Ej). cbn [ok_or result_bind request_wire lw_version lw_request_id
      lw_device_id lw_device_public_key lw_protocol_package_hash lw_created_at lw_expires_at
      lw_request_digest lw_code_hash]. rewrite N.eqb_refl. cbn [negb].
    rewrite !fixed_hex_hex by (done || (rewrite H4; apply sha256_length)). cbn [result_bind].
    rewrite <-H4, beqb_refl. cbn [negb orb]. replace (_ <=? _)%N with false by lia.
    by destruct r.
Qed.

Lemma link_create_ok device_id hash now w w' p code :
  length hash = 32 → (now < u64_max)%N →
  link_create device_id hash now w = (w', Ok (p, code)) →
  request_ok (pk_request p) ∧ lr_device_id (pk_request p) = device_id ∧
  lr_created_at (pk_request p) = now ∧
  lr_expires_at (pk_request p) = u64_saturating_add now MAX_DEVICE_LINK_TTL ∧
  lr_device_public_key (pk_request p) = ed_public (pk_seed p) ∧
  ∃ c, length c = CODE_BYTES ∧ code = format_code c ∧
       lr_code_hash (pk_request p) = hash_code c (lr_request_digest (pk_request p)).
Proof using HL.
  intros Hh Hnow. unfold link_create, mut_bind, link_random.
  destruct (secure_random 32 w) as [w1 [seed|]]; cbn [ok_or]; [|done].
  destruct (secure_random REQUEST_ID_BYTES w1) as [w2 [id|]] eqn:E2; cbn [ok_or]; [|done].
  destruct (secure_random CODE_BYTES w2) as [w3 [c|]] eqn:E3; cbn [ok_or]; [|done].
  apply secure_random_length in E2, E3. unfold mut_ret. intros [= <- <- <-].
  cbn [pk_request pk_seed lr_device_id lr_created_at lr_expires_at lr_device_public_key
       lr_code_hash lr_request_digest].
  split_and!; try done; [|by exists c]. split; cbn; try done.
  - apply ed_public_length.
  - apply sha256_length.
  - unfold u64_saturating_add, MAX_DEVICE_LINK_TTL. lia.
Qed.

Lemma link_create_package device_id hash now w w' p code :
  link_create device_id hash now w = (w', Ok (p, code)) →
  lr_protocol_package_hash (pk_request p) = hash.
Proof using Type.
  unfold link_create, mut_bind, link_random.
  destruct (secure_random 32 w) as [w1 [seed|]]; cbn [ok_or]; [|done].
  destruct (secure_random REQUEST_ID_BYTES w1) as [w2 [id|]]; cbn [ok_or]; [|done].
  destruct (secure_random CODE_BYTES w2) as [w3 [c|]]; cbn [ok_or]; [|done].
  by intros [= <- <- <-].
Qed.

(** The certificate a root issues for a valid device identifier verifies while it is valid. *)
Lemma issued_verifies root id key hash t e now c :
  issue_device_for_public_key root id key hash t e = Ok c → (t ≤ now < e)%N →
  certificate_verify c now = Ok tt ∧ verify_signature c = Ok tt ∧
  c = certificate_signed root id key hash t e.
Proof using HL.
  unfold issue_device_for_public_key. destruct (validate_device_id id) as [id'|] eqn:Hid; [|done].
  assert (id' = id) as -> by (unfold validate_device_id in Hid; by case_match; simplify_eq).
  cbn [result_bind]. destruct (e <=? t)%N eqn:Ht; [done|]. intros [= <-] Hn.
  assert (Hs : verify_signature (certificate_signed root id key hash t e) = Ok tt).
  { unfold verify_signature, certificate_signed. cbn [dc_expires_at dc_issued_at dc_device_id
      dc_account_public_key dc_device_public_key dc_protocol_package_hash dc_signature].
    rewrite Ht, Hid. cbn [is_err is_ok negb orb]. unfold root_public_key.
    by rewrite ed_public_valid, ed_verify_strict_sign. }
  split_and!; [|done..]. unfold certificate_verify.
  rewrite Hs. cbn [certificate_signed dc_revoked dc_issued_at dc_expires_at dc_device_id].
  replace (now <? t)%N with false by lia. replace (e <=? now)%N with false by lia.
  by rewrite Ht, Hid.
Qed.

(** An approval that a root signed is parsed back from its wire form. *)
Lemma approval_roundtrip a text :
  length (la_request_id a) = REQUEST_ID_BYTES → length (dc_account_public_key (la_certificate a)) = 32 →
  length (dc_device_public_key (la_certificate a)) = 32 →
  length (dc_protocol_package_hash (la_certificate a)) = 32 →
  length (dc_signature (la_certificate a)) = 64 → dc_revoked (la_certificate a) = false →
  verify_signature (la_certificate a) = Ok tt →
  approval_encode a = Ok text → approval_parse text = Ok a.
Proof using HR'.
  intros H1 H2 H3 H4 H5 Hr Hv. unfold approval_encode.
  destruct (json_to_vec _) as [b|] eqn:Ej; [|done]. cbn [ok_or result_bind]. intros [= <-].
  unfold approval_parse. rewrite (proj2 (strip_prefix_Some _ _ (link_hex b)) eq_refl).
  cbn [ok_or result_bind]. rewrite link_decode_hex_hex. cbn [ok_or result_bind].
  rewrite (json_roundtrip _ _ Ej). unfold approval_hex. cbn [ok_or result_bind approval_wire
    aw_version aw_request_id aw_account_public_key aw_device_id aw_device_public_key
    aw_protocol_package_hash aw_issued_at aw_expires_at aw_signature].
  rewrite N.eqb_refl. cbn [negb]. rewrite !fixed_hex_hex by done. cbn [map_err result_bind].
  destruct a as [id []]. cbn in *. subst. unfold from_parts. by rewrite Hv.
Qed.

(** C18. The whole exchange. Within ten minutes of a request, a root approves it with the code the
    new device shows; the approval survives its wire form and the new device accepts it, with a
    certificate for its own key and identifier, signed by that root and valid as long as the
    request. A device identifier that no certificate can carry makes the approval fail. *)
Theorem device_link_exchange device_id hash now w w' p code root t :
  length hash = 32 → (now < u64_max)%N →
  link_create device_id hash now w = (w', Ok (p, code)) →
  (t < lr_expires_at (pk_request p))%N →
  match link_approve (pk_request p) code root t with
  | Ok a =>
    la_certificate a = certificate_signed root device_id (ed_public (pk_seed p)) hash t
                         (u64_saturating_add now MAX_DEVICE_LINK_TTL) ∧
    verify_for a (pk_request p) t = Ok tt ∧
    ∀ text, approval_encode a = Ok text → approval_parse text = Ok a
  | Err e => e = LinkIdentity InvalidDeviceId ∧ is_err (validate_device_id device_id) = true
  end.
Proof using HL HUL HR'.
  intros Hh Hnow Hc Ht.
  destruct (link_create_ok _ _ _ _ _ _ _ Hh Hnow Hc) as (Hok & Hid & _ & He & Hk & c & Hl & -> & Hhash).
  assert (Hp : lr_protocol_package_hash (pk_request p) = hash) by (by eapply link_create_package).
  unfold link_approve. replace (_ <=? t)%N with false by lia.
  rewrite normalize_format by done. cbn [ok_or result_bind]. rewrite code_decodes.
  cbn [ok_or result_bind]. rewrite Hl, Nat.eqb_refl, Hhash, beqb_refl. cbn [negb orb].
  rewrite Hid, Hk, Hp, He in *.
  destruct (issue_device_for_public_key _ _ _ _ _ _) as [cert|e] eqn:Ei; cbn [map_err result_bind].
  - destruct (issued_verifies _ _ _ _ _ _ t _ Ei ltac:(lia)) as (Hv & Hs & ->).
    cbn [la_certificate]. split_and!; [done| |].
    + unfold verify_for. cbn [la_request_id la_certificate certificate_signed dc_device_id
        dc_device_public_key dc_protocol_package_hash].
      rewrite Hid, Hk, Hp, !beqb_refl, seqb_refl. cbn [negb orb]. by rewrite Hv.
    + intros text. apply approval_roundtrip; cbn [la_request_id la_certificate certificate_signed
        dc_account_public_key dc_device_public_key dc_protocol_package_hash dc_signature dc_revoked];
        try done; [by apply ro_id|apply ed_public_length|apply ed_public_length|apply ed_sign_length].
  - unfold issue_device_for_public_key in Ei. unfold validate_device_id in *.
    destruct (_ || _) eqn:G; cbn [result_bind] in Ei; [by simplify_eq|].
    replace (_ <=? t)%N with false in Ei by lia. done.
Qed.
End theorems.
