(* ===== verification/DeviceAuthority.v ===== *)
(** * Devices of an account ([apps/daemon/src/authority.rs])

    The operations of the invite authority on its device registry: revoking a device, restoring
    the registry, and approving a device link, which signs a certificate, registers it and
    writes the registry to the record store. *)
From Stdlib Require Import Ascii NArith Lia ZifyBool ZifyN.
From stdpp Require Import base gmap strings list.
From S2P Require Import Prelude Text Collections Interfaces Model Paths Fs StoreFormat Storage RecordStore StorageLaws StorageProps Identity DeviceRegistry Invite Receipt DeviceLink.

Inductive DeviceActionError :=
| ActionRegistry (e : DeviceRegistryError)
| ActionLink (e : DeviceLinkError)
| CurrentDevice | RootUnavailable | ActionStorage.

Definition set_device_registry (registry : DeviceRegistry) (a : InviteIssuer) : InviteIssuer :=
  {| ii_root := ii_root a; ii_device_id := ii_device_id a; ii_relay_origin := ii_relay_origin a;
     ii_inbox_url := ii_inbox_url a; ii_device_registry := registry; ii_pending := ii_pending a |}.

Section authority.
Context `{Crypto, UnicodeCase, JsonCodec RegistryWire, JsonCodec RequestWire, JsonCodec ApprovalWire}.

(** [encode().map_err(|_| Registry(Corrupt))]. *)
Definition encoded_registry (g : DeviceRegistry) : result bytes DeviceActionError :=
  map_err (λ _, ActionRegistry RegistryCorrupt) (encode g).

Definition restore_device_registry (encoded : bytes) : Mut InviteIssuer unit DeviceRegistryError :=
  λ a,
    match decode encoded with
    | Err e => (a, Err e)
    | Ok g => (set_device_registry g a, Ok tt)
    end.

Definition revoke_device_unpersisted (device_id : string) (now : N)
  : Mut InviteIssuer (bytes * bytes) DeviceActionError :=
  λ a,
    if seqb device_id (ii_device_id a) then (a, Err CurrentDevice)
    else
      match encoded_registry (ii_device_registry a), ii_root a with
      | Err e, _ => (a, Err e)
      | Ok _, None => (a, Err RootUnavailable)
      | Ok previous, Some root =>
        match revoke root device_id now (ii_device_registry a) with
        | (g, Err e) => (set_device_registry g a, Err (ActionRegistry e))
        | (g, Ok _) =>
          (set_device_registry g a,
           let? encoded := encoded_registry g in Ok (previous, encoded))
        end
      end.

Context {S : Type} `{RecordStore S}.

Definition approve_device_link (request : DeviceLinkRequest) (code : string) (now : N)
  : Mut (InviteIssuer * S) string DeviceActionError :=
  λ '(a, s),
    match ii_root a with
    | None => ((a, s), Err RootUnavailable)
    | Some root =>
      match link_approve request code root now with
      | Err e => ((a, s), Err (ActionLink e))
      | Ok approval =>
        match encoded_registry (ii_device_registry a) with
        | Err e => ((a, s), Err e)
        | Ok previous =>
          match register (la_certificate approval) now (ii_device_registry a) with
          | (g, Err e) => ((set_device_registry g a, s), Err (ActionRegistry e))
          | (g, Ok _) =>
            match encoded_registry g with
            | Err e => ((set_device_registry g a, s), Err e)
            | Ok encoded =>
              match store_put Device "registry" encoded s with
              | (s, Ok _) =>
                ((set_device_registry g a, s), map_err ActionLink (approval_encode approval))
              | (s, Err _) =>
                match decode previous with
                | Err _ => ((set_device_registry g a, s), Err (ActionRegistry RegistryCorrupt))
                | Ok g => ((set_device_registry g a, s), Err ActionStorage)
                end
              end
            end
          end
        end
      end
    end.
End authority.

(** ** Theorems *)

Lemma set_device_registry_id a : set_device_registry (ii_device_registry a) a = a.
Proof. by destruct a. Qed.

Section theorems.
Context `{HC : Crypto} {HL : CryptoLaws} `{HU : UnicodeCase}.
Context `{HJ : JsonCodec RegistryWire} {HR : JsonRoundTrip RegistryWire}.
Context `{HJ' : JsonCodec ApprovalWire}.
Context {S : Type} `{HS : RecordStore S} {HSL : RecordStoreLaws S}.

(** The certificate of an approval belongs to the request and the root. *)
Lemma link_approve_certificate r code root t a :
  link_approve r code root t = Ok a →
  (t < lr_expires_at r)%N ∧
  la_certificate a = certificate_signed root (lr_device_id r) (lr_device_public_key r)
                       (lr_protocol_package_hash r) t (lr_expires_at r).
Proof using Type.
  unfold link_approve. destruct (lr_expires_at r <=? t)%N eqn:Ht; [done|].
  destruct (link_normalize_code code) as [n|]; [|done]. cbn [ok_or result_bind].
  destruct (link_decode_hex n) as [c|]; [|done]. cbn [ok_or result_bind].
  destruct (_ || _); [done|]. unfold issue_device_for_public_key.
  destruct (validate_device_id _) as [id|] eqn:Hid; [|done]. cbn [result_bind].
  rewrite Ht. cbn [map_err result_bind]. intros [= <-].
  split; [lia|]. unfold validate_device_id in Hid. by case_match; simplify_eq.
Qed.

Lemma approval_sizes r code root t a :
  request_ok r → link_approve r code root t = Ok a → sizes_ok (la_certificate a) = true.
Proof using HL.
  intros Hr [_ ->]%link_approve_certificate. unfold sizes_ok, certificate_signed, root_public_key.
  cbn [dc_account_public_key dc_device_public_key dc_protocol_package_hash dc_signature].
  by rewrite ed_public_length, ed_sign_length, (ro_key r Hr), (ro_package r Hr).
Qed.

Lemma register_cases c now g g' r :
  register c now g = (g', r) →
  match r with
  | Ok _ => authorize g' (dc_device_id c) now = Ok tt
  | Err e => g' = g ∧ e ≠ RegistryCorrupt
  end.
Proof using Type.
  unfold register. destruct (negb _); [by intros [= <- <-]|].
  destruct (certificate_verify c now) as [[]|] eqn:Hv; [|by intros [= <- <-]].
  destruct (dg_devices g !! _); [by intros [= <- <-]|]. intros [= <- <-].
  unfold authorize. cbn. rewrite lookup_insert_eq. cbn. by rewrite Hv.
Qed.

(** C19. Approving a well-formed device link request, with a consistent registry, is a transaction
    on the registry in memory and its record. Either it answers an error and both are what they were, whatever the error is (no account
    root, a wrong code, a certificate the registry refuses, a write that fails); or the code was
    right for the request, the new device is authorised, the stored record decodes to the
    registry in memory, and the answer is the encoded approval. One case is neither: when the new
    registry cannot be serialised the answer is an error, memory has the device and the record is
    the old one. In every case the registry stays consistent. *)
Theorem device_approval_is_atomic request code now a s a' s' r :
  request_ok request → registry_inv (ii_device_registry a) → store_inv s →
  approve_device_link request code now (a, s) = ((a', s'), r) →
  registry_inv (ii_device_registry a') ∧
  ((∃ e, r = Err e ∧ a' = a ∧ ∀ c k, store_get s' c k = store_get s c k) ∨
   ∃ root approval, ii_root a = Some root ∧ link_approve request code root now = Ok approval ∧
     authorize (ii_device_registry a') (lr_device_id request) now = Ok tt ∧
     ((r = map_err ActionLink (approval_encode approval) ∧
       ∃ b, store_get s' Device "registry" = Some b ∧ decode b = Ok (ii_device_registry a')) ∨
      (r = Err (ActionRegistry RegistryCorrupt) ∧ is_err (encode (ii_device_registry a')) = true ∧ s' = s))).
Proof using HL HR HSL.
  intros Hreq Hg Hs. unfold approve_device_link, encoded_registry.
  destruct (ii_root a) as [root|] eqn:Hroot; [|intros [= <- <- <-]; split; [done|left; by eexists]].
  destruct (link_approve request code root now) as [ap|e] eqn:Hap; [|intros [= <- <- <-]; split; [done|left; by eexists]].
  pose proof (approval_sizes _ _ _ _ _ Hreq Hap) as Hsz.
  pose proof (link_approve_certificate _ _ _ _ _ Hap) as [_ Hcert].
  destruct (encode (ii_device_registry a)) as [prev|] eqn:Hprev; cbn [map_err];
    [|intros [= <- <- <-]; split; [done|left; by eexists]].
  pose proof (registry_register_inv _ now _ Hsz Hg) as Hg'.
  destruct (register (la_certificate ap) now (ii_device_registry a)) as [g rr] eqn:Hreg.
  cbn [fst] in Hg'. apply register_cases in Hreg.
  destruct rr as [[]|e]; [|destruct Hreg as [-> He]; intros [= <- <- <-]; rewrite set_device_registry_id; split; [done|left; by eexists]].
  rewrite Hcert in Hreg. destruct (encode g) as [enc|] eqn:Henc; cbn [map_err].
  2: { intros [= <- <- <-]. split; [done|]. right. exists root, ap. do 3 (split; [done|]). right.
       cbn [ii_device_registry set_device_registry]. by rewrite Henc. }
  pose proof (registry_roundtrip _ _ Hg' Henc) as Hdec.
  destruct (store_put Device "registry" enc s) as [s1 [[]|e]] eqn:Hput.
  - pose proof (store_put_ok _ _ _ _ _ Hs Hput Device "registry") as Hget.
    rewrite view_update_eq in Hget. intros [= <- <- <-]. split; [done|]. right.
    exists root, ap. do 3 (split; [done|]). left. split; [done|]. by exists enc.
  - rewrite (registry_roundtrip _ _ Hg Hprev). intros [= <- <- <-]. rewrite set_device_registry_id.
    split; [done|]. left. exists ActionStorage. do 2 (split; [done|]). by eapply store_put_err.
Qed.

(** The certificate of a linked device expires with the link request, whoever chose that time:
    from then on the registry no longer authorises the device. *)
Theorem device_link_certificate_dies_with_request request code root t a now g :
  link_approve request code root t = Ok a → (lr_expires_at request ≤ now)%N →
  dg_devices g !! lr_device_id request = None →
  authorize (register (la_certificate a) t g).1 (lr_device_id request) now ≠ Ok tt.
Proof using Type.
  intros [Ht Hc]%link_approve_certificate Hnow Hd. rewrite Hc.
  unfold register. destruct (negb _); [unfold authorize; cbn; by rewrite Hd|].
  destruct (certificate_verify _ t); [|unfold authorize; cbn; by rewrite Hd].
  cbn [certificate_signed dc_device_id]. rewrite Hd. unfold authorize. cbn. rewrite lookup_insert_eq.
  cbn [dv_state dv_certificate]. rewrite bool_decide_true by done. cbn [negb].
  unfold certificate_verify. cbn [certificate_signed dc_revoked dc_issued_at dc_expires_at].
  replace (now <? t)%N with false by lia. replace (lr_expires_at request <=? now)%N with true by lia. discriminate.
Qed.
End theorems.

(** ** Witnesses *)

Module LinkSample.
Import Reference.
Definition root : AccountRootKey := {| root_seed := replicate 32 (n_byte 61) |}.
Definition world : World :=
  {| w_files := ∅; w_faults := [];
     w_entropy := [replicate 32 (n_byte 1); replicate 16 (n_byte 2); replicate 16 (n_byte 171)];
     w_pid := 1 |}.
Definition package : bytes := replicate 32 (n_byte 9).
Definition made := link_create "phone" package 100 world.
Definition blank : PendingDeviceKey :=
  {| pk_seed := []; pk_request :=
       {| lr_request_id := []; lr_device_id := EmptyString; lr_device_public_key := [];
          lr_protocol_package_hash := []; lr_created_at := 0; lr_expires_at := 0;
          lr_request_digest := []; lr_code_hash := [] |} |}.
Definition pending : PendingDeviceKey := match made.2 with Ok p => p.1 | Err _ => blank end.
Definition code : string := match made.2 with Ok p => p.2 | Err _ => EmptyString end.
Definition request : DeviceLinkRequest := pk_request pending.
Definition approval : DeviceLinkApproval :=
  match link_approve request code root 101 with
  | Ok a => a
  | Err _ => {| la_request_id := []; la_certificate :=
                  certificate_signed root EmptyString [] [] 0 0 |}
  end.
Definition issuer : InviteIssuer :=
  {| ii_root := Some root; ii_device_id := "device-1"; ii_relay_origin := "https://relay.example";
     ii_inbox_url := None; ii_device_registry := registry_new root; ii_pending := None |}.
Definition linked : DeviceRegistry := (register (la_certificate approval) 101 (registry_new root)).1.

#[export] Instance request_codec : JsonCodec RequestWire := json_table [request_wire request].
#[export] Instance request_laws : JsonRoundTrip RequestWire := json_table_laws [request_wire request].
#[export] Instance approval_codec : JsonCodec ApprovalWire := json_table [approval_wire approval].
#[export] Instance approval_laws : JsonRoundTrip ApprovalWire :=
  json_table_laws [approval_wire approval].
#[export] Instance registry_codec : JsonCodec RegistryWire :=
  json_table [registry_wire (registry_new root); registry_wire linked].
#[export] Instance registry_laws : JsonRoundTrip RegistryWire :=
  json_table_laws [registry_wire (registry_new root); registry_wire linked].

Lemma request_is_ok : request_ok request.
Proof. by split; vm_compute. Qed.

Lemma issuer_registry_inv : registry_inv (ii_device_registry issuer).
Proof. split; [by vm_compute|done|cbn; unfold MAX_DEVICE_EVENTS; lia|constructor]. Qed.

Lemma approved : link_approve request code root 101 = Ok approval.
Proof. vm_compute. reflexivity. Qed.
End LinkSample.
Import Reference LinkSample.

Lemma device_link_request_roundtrip_witness :
  ∃ text, request_encode request = Ok text ∧ request_parse text = Ok request.
Proof.
  destruct (request_encode request) as [text|e] eqn:E; [|by vm_compute in E].
  exists text. split; [done|].
  exact (proj2 (device_link_request_roundtrip request text) request_is_ok E).
Defined.

Lemma device_link_exchange_witness :
  verify_for approval request 101 = Ok tt.
Proof.
  pose proof (device_link_exchange "phone" package 100 world made.1 pending code root 101
    eq_refl eq_refl eq_refl eq_refl) as E.
  change (pk_request pending) with request in E. rewrite approved in E.
  exact (proj1 (proj2 E)).
Defined.

Lemma device_approval_is_atomic_witness :
  is_ok (authorize (ii_device_registry
    (approve_device_link request code 101
       (issuer, (StorageProps.Sample.store0, StorageProps.Sample.world1))).1.1) "phone" 101) = true.
Proof.
  destruct (approve_device_link request code 101
    (issuer, (StorageProps.Sample.store0, StorageProps.Sample.world1))) as [[a' s'] r] eqn:E.
  assert (Hr : is_ok r = true) by (apply (f_equal (λ p, is_ok p.2)) in E; vm_compute in E; by symmetry).
  destruct (device_approval_is_atomic request code 101 issuer _ a' s' r request_is_ok
    issuer_registry_inv StorageProps.Sample.sample_store_inv E) as [_ [(e & He & _)|(root' & ap & _ & _ & H & _)]];
    [by rewrite He in Hr|]. clear E. cbn [fst].
  change (lr_device_id request) with "phone" in H. by rewrite H.
Defined.

Lemma device_link_certificate_dies_with_request_witness :
  authorize linked "phone" 700 ≠ Ok tt.
Proof.
  apply (device_link_certificate_dies_with_request request code root 101 approval 700
    (registry_new root) approved); vm_compute; [discriminate|reflexivity].
Defined.
