(* ===== verification/MessageService.v ===== *)
(** * Message records and payloads ([apps/daemon/src/message_service.rs])

    The record a message is kept under in the encrypted store, and the payload that travels
    inside an MLS application message. *)
From Stdlib Require Import Ascii NArith Lia ZifyBool ZifyN.
From stdpp Require Import base gmap strings list.
From S2P Require Import Prelude Text Interfaces Paths Fs StoreFormat Invite.

Definition MESSAGE_PREFIX : bytes := as_bytes "ADMSG1.".

Record MessagePayload := {
  mp_id : string;
  mp_created_at : N;
  mp_expires_at : N;
  mp_text : string;
}.
#[export] Instance MessagePayload_eq_dec : EqDecision MessagePayload.
Proof. solve_decision. Defined.

Record StoredMessage := {
  sm_conversation_id : string;
  sm_message_id : string;
  sm_direction : string;
  sm_created_at : N;
  sm_expires_at : N;
  sm_text : string;
}.
#[export] Instance StoredMessage_eq_dec : EqDecision StoredMessage.
Proof. solve_decision. Defined.

Section messages.
Context `{Crypto, JsonCodec MessagePayload, JsonCodec StoredMessage}.

Definition message_record_key (conversation_id message_id : string) : string :=
  "messages/" +:+ hex_bytes (sha256 (as_bytes (join 10 [conversation_id; message_id]))).

Definition encoded_message_record (conversation_id : string) (message : MessagePayload)
    (direction : string) : result (string * bytes) StorageError :=
  let? b := ok_or (json_to_vec
    {| sm_conversation_id := conversation_id; sm_message_id := mp_id message;
       sm_direction := direction; sm_created_at := mp_created_at message;
       sm_expires_at := mp_expires_at message; sm_text := mp_text message |}) CorruptStore in
  Ok (message_record_key conversation_id (mp_id message), b).

Definition encode_message_payload (text : string) (now expires_at : N) (w : World)
  : World * option bytes :=
  let '(w, id) := secure_random 16 w in
  (w, id ← id;
      payload ← json_to_vec {| mp_id := hex_bytes id; mp_created_at := now;
                               mp_expires_at := expires_at; mp_text := text |};
      Some (MESSAGE_PREFIX ++ payload)).

Definition decode_message_payload (plaintext : bytes) : option MessagePayload :=
  value ← strip_prefix_b MESSAGE_PREFIX plaintext;
  json_from_slice value.
End messages.

Section theorems.
Context `{HC : Crypto} {HL : CryptoLaws} `{HJ : JsonCodec MessagePayload} {HR : JsonRoundTrip MessagePayload}.
Context `{HS : JsonCodec StoredMessage}.

Lemma hexdigit_no_control b :
  is_ascii_hexdigit b = true → (byte_n b =? 0)%N || is_ascii_control b = false.
Proof using Type. by destruct b as [[] [] [] [] [] [] [] []]. Qed.

Lemma message_key_valid c m : validate_record_key (message_record_key c m) = Ok tt.
Proof using HL.
  unfold validate_record_key, message_record_key, hex_bytes.
  set (d := sha256 _). assert (Hd : length d = 32) by apply sha256_length.
  assert (Hs : slen ("messages/" +:+ of_bytes (hex_b d)) = 73%N).
  { unfold slen. rewrite <-length_as_bytes, as_bytes_app, length_app, as_of_bytes, length_hex_b, Hd.
    done. }
  rewrite Hs, as_bytes_app, as_of_bytes, existsb_app.
  replace (existsb _ (hex_b d)) with false; [done|]. symmetry. apply not_true_iff_false.
  intros (b & Hb & Hc)%existsb_exists. pose proof (hex_b_hexdigit d) as Hh.
  rewrite forallb_forall in Hh. by rewrite hexdigit_no_control in Hc by auto.
Qed.

(** A message survives its payload: what one side encodes the other decodes to the text and the
    times that were given and an identifier of 32 hexadecimal digits; and the record it is kept
    under has a key the store accepts. *)
Theorem message_payload_roundtrip text now expires w w' b :
  encode_message_payload text now expires w = (w', Some b) →
  ∃ m, decode_message_payload b = Some m ∧ mp_text m = text ∧ mp_created_at m = now ∧
       mp_expires_at m = expires ∧ slen (mp_id m) = 32%N ∧
       ∀ conversation, validate_record_key (message_record_key conversation (mp_id m)) = Ok tt.
Proof using HL HR.
  unfold encode_message_payload. destruct (secure_random 16 w) as [w1 [id|]] eqn:Hr; [|done].
  cbn [mbind option_bind]. destruct (json_to_vec _) as [p|] eqn:Hj; [|done].
  cbn [mbind option_bind].
  intros E. assert (b = MESSAGE_PREFIX ++ p) as -> by congruence.
  eexists. unfold decode_message_payload. rewrite strip_prefix_b_app.
  cbn [mbind option_bind]. split; [by apply json_roundtrip|].
  cbn [mp_text mp_created_at mp_expires_at mp_id]. split_and!; [done..| |].
  - apply secure_random_length in Hr. unfold hex_bytes. rewrite slen_of_bytes. unfold blen.
    by rewrite length_hex_b, Hr.
  - intros conversation. apply message_key_valid.
Qed.

(** Two messages have the same record key only if their digests collide. *)
Theorem message_record_key_unambiguous c m c' m' :
  line_ok c = true → line_ok c' = true → line_ok m = true → line_ok m' = true →
  message_record_key c m = message_record_key c' m' →
  (c = c' ∧ m = m') ∨
  (as_bytes (join 10 [c; m]) ≠ as_bytes (join 10 [c'; m']) ∧
   sha256 (as_bytes (join 10 [c; m])) = sha256 (as_bytes (join 10 [c'; m']))).
Proof using HL.
  intros Hc Hc' Hm Hm' E. unfold message_record_key, hex_bytes in E.
  apply (f_equal as_bytes) in E. rewrite !as_bytes_app, !as_of_bytes in E.
  apply app_inv_head, (f_equal decode_pairs) in E. rewrite !decode_pairs_hex in E.
  injection E as E. destruct (decide (as_bytes (join 10 [c; m]) = as_bytes (join 10 [c'; m'])))
    as [Hj|Hj]; [|by right]. left. apply as_bytes_inj, (f_equal (split 10)) in Hj.
  rewrite !lines_split in Hj by (done || by repeat constructor). by simplify_eq.
Qed.
End theorems.

(** ** Witnesses *)

Module MessageSample.
Definition world : World :=
  {| w_files := ∅; w_faults := []; w_entropy := [replicate 16 (n_byte 7)]; w_pid := 1 |}.
Definition payload : MessagePayload :=
  {| mp_id := hex_bytes (replicate 16 (n_byte 7)); mp_created_at := 10; mp_expires_at := 20;
     mp_text := "hello" |}.
Definition codec : JsonCodec MessagePayload := Reference.json_table [payload].
End MessageSample.

Lemma message_payload_roundtrip_witness :
  ∃ b m, (@encode_message_payload MessageSample.codec "hello" 10 20 MessageSample.world).2 = Some b ∧
         @decode_message_payload MessageSample.codec b = Some m ∧ mp_text m = "hello".
Proof.
  destruct (@encode_message_payload MessageSample.codec "hello" 10 20 MessageSample.world)
    as [w [b|]] eqn:E; [|by vm_compute in E].
  destruct (@message_payload_roundtrip Reference.crypto Reference.crypto_laws MessageSample.codec
    (Reference.json_table_laws [MessageSample.payload]) "hello" 10 20 MessageSample.world w b E)
    as (m & Hm & Ht & _). by exists b, m.
Defined.
