(* ===== verification/OsKeys.v ===== *)
(** * Keys in the platform key store ([apps/daemon/src/storage_os.rs])

    The database key and the profile passphrase kept with the [keyring] crate. The crate is a
    parameter: entries named by a service and an account, each holding a password. *)
From Stdlib Require Import Ascii NArith Lia ZifyBool ZifyN.
From stdpp Require Import base gmap strings list.
From S2P Require Import Prelude Text StoreFormat.

(** [keyring::Entry]: an entry may be refused, and reading, writing and deleting may fail. *)
Class Keyring (K : Type) := {
  entry_new : string → string → K → bool;
  get_password : string → string → K → option string;
  set_password : string → string → string → K → K * bool;
  delete_credential : string → string → K → K * bool;
}.

(** Documented behaviour: a password that was set is read back, under its own service and
    account only, and a deleted one is gone. *)
Class KeyringLaws (K : Type) `{Keyring K} : Prop := {
  get_set : ∀ s a p k k', set_password s a p k = (k', true) → get_password s a k' = Some p;
  get_set_ne : ∀ s a p k k' r s' a', (s', a') ≠ (s, a) → set_password s a p k = (k', r) →
    get_password s' a' k' = get_password s' a' k;
  entry_set : ∀ s a p k k' r s' a', set_password s a p k = (k', r) →
    entry_new s' a' k' = entry_new s' a' k;
  get_deleted : ∀ s a k k', delete_credential s a k = (k', true) → get_password s a k' = None;
}.

Definition DATABASE_KEY_SERVICE : string := "com.another-dimension.daemon.database-key".
Definition PASSPHRASE_SERVICE : string := "com.another-dimension.daemon.profile-passphrase".

Definition account (profile_id : string) : result string StorageError :=
  if is_empty_str profile_id || (128 <? slen profile_id)%N
     || negb (forallb (λ b, is_url_safe b || (byte_n b =? 46)%N) (as_bytes profile_id))
  then Err InvalidPassphrase
  else Ok profile_id.

(** A string of odd length makes the last slice panic. *)
Definition hex_decode_key (hex : string) : Outcome (result bytes StorageError) :=
  match hex_pairs (as_bytes hex) with
  | Panics => Panics
  | Returns o => Returns (ok_or o InvalidPassphrase)
  end.

Section keys.
Context {K : Type} `{Keyring K}.

(** The account of an entry that could be made. *)
Definition entry (service profile_id : string) (k : K) : result string StorageError :=
  let? a := account profile_id in
  if entry_new service a k then Ok a else Err OsKeyStoreUnavailable.

Definition load_database_key (profile_id : string) (k : K) : Outcome (result bytes StorageError) :=
  match entry DATABASE_KEY_SERVICE profile_id k with
  | Err e => Returns (Err e)
  | Ok a =>
    match get_password DATABASE_KEY_SERVICE a k with
    | None => Returns (Err OsKeyStoreUnavailable)
    | Some hex =>
      match hex_decode_key hex with
      | Panics => Panics
      | Returns (Err e) => Returns (Err e)
      | Returns (Ok decoded) =>
        Returns (if (length decoded =? KEY_BYTES)%nat then Ok decoded else Err OsKeyStoreUnavailable)
      end
    end
  end.

(** Setting a password: the state of the key store and the error a failure becomes. *)
Definition saved (service a value : string) : Mut K unit StorageError :=
  λ k, let '(k, done) := set_password service a value k in
       (k, if done then Ok tt else Err OsKeyStoreUnavailable).

Definition save_database_key (profile_id : string) (key : bytes) : Mut K unit StorageError :=
  λ k,
    match entry DATABASE_KEY_SERVICE profile_id k with
    | Err e => (k, Err e)
    | Ok a => saved DATABASE_KEY_SERVICE a (of_bytes (hex_b key)) k
    end.

Definition load_profile_passphrase (profile_id : string) (k : K) : result string StorageError :=
  let? a := entry PASSPHRASE_SERVICE profile_id k in
  ok_or (get_password PASSPHRASE_SERVICE a k) OsKeyStoreUnavailable.

Definition save_profile_passphrase (profile_id passphrase : string) : Mut K unit StorageError :=
  λ k,
    match entry PASSPHRASE_SERVICE profile_id k with
    | Err e => (k, Err e)
    | Ok a => saved PASSPHRASE_SERVICE a passphrase k
    end.

Definition delete_profile_passphrase (profile_id : string) : Mut K unit StorageError :=
  λ k,
    match entry PASSPHRASE_SERVICE profile_id k with
    | Err e => (k, Err e)
    | Ok a =>
      let '(k, done) := delete_credential PASSPHRASE_SERVICE a k in
      (k, if done then Ok tt else Err OsKeyStoreUnavailable)
    end.
End keys.

Lemma services_ne (a b : string) : (DATABASE_KEY_SERVICE, a) ≠ (PASSPHRASE_SERVICE, b).
Proof. done. Qed.

Section theorems.
Context {K : Type} `{HK : Keyring K} {HL : KeyringLaws K}.

Lemma entry_ok service profile_id k a :
  entry service profile_id k = Ok a → a = profile_id ∧ entry_new service profile_id k = true.
Proof using Type.
  unfold entry, account. destruct (_ || _); [done|]. cbn [result_bind].
  destruct (entry_new service profile_id k) eqn:E; [|done]. by intros [= <-].
Qed.

(** A database key that was saved is loaded again, also after a passphrase of any profile was
    saved, and saving it does not touch any passphrase. *)
Theorem os_database_key_roundtrip profile key k k1 other passphrase k2 r :
  length key = KEY_BYTES → save_database_key profile key k = (k1, Ok tt) →
  save_profile_passphrase other passphrase k1 = (k2, r) →
  load_database_key profile k2 = Returns (Ok key) ∧
  load_profile_passphrase other k1 = load_profile_passphrase other k.
Proof using HL.
  intros Hkey Hs Hp. unfold save_database_key, saved in Hs.
  destruct (entry DATABASE_KEY_SERVICE profile k) as [a|] eqn:He; [|done].
  pose proof (entry_ok _ _ _ _ He) as [-> Hn].
  destruct (set_password _ _ _ k) as [k' []] eqn:Hset; simplify_eq.
  pose proof (get_set _ _ _ _ _ Hset) as Hget.
  assert (Hentry : ∀ s p, entry s p k1 = entry s p k).
  { intros s p. unfold entry. destruct (account p); [|done]. cbn [result_bind].
    by rewrite (entry_set _ _ _ _ _ _ _ _ Hset). }
  split.
  - assert (Hk2 : entry DATABASE_KEY_SERVICE profile k2 = Ok profile ∧
              get_password DATABASE_KEY_SERVICE profile k2 = Some (of_bytes (hex_b key))).
    { unfold save_profile_passphrase, saved in Hp. rewrite Hentry in Hp.
      destruct (entry PASSPHRASE_SERVICE other k) as [b|]; [|simplify_eq; by rewrite Hentry].
      destruct (set_password _ b _ k1) as [k3 d] eqn:Hset2. simplify_eq.
      rewrite (get_set_ne _ _ _ _ _ _ DATABASE_KEY_SERVICE profile (services_ne _ _) Hset2).
      split; [|done]. rewrite <-Hentry in He. unfold entry in *.
      destruct (account profile); [|done]. cbn [result_bind] in *.
      by rewrite (entry_set _ _ _ _ _ _ _ _ Hset2). }
    destruct Hk2 as [He2 Hg2]. unfold load_database_key, hex_decode_key.
    rewrite He2, Hg2, as_of_bytes, hex_pairs_hex. cbn [ok_or]. by rewrite Hkey.
  - unfold load_profile_passphrase. rewrite Hentry. destruct (entry _ other k); [|done].
    cbn [result_bind]. by rewrite (get_set_ne _ _ _ _ _ _ _ _ (not_eq_sym (services_ne _ _)) Hset).
Qed.

(** A stored key of odd length with hexadecimal digits only makes the daemon panic instead of
    reporting a damaged entry. *)
Theorem os_odd_key_panics profile k b d :
  entry DATABASE_KEY_SERVICE profile k = Ok profile →
  get_password DATABASE_KEY_SERVICE profile k = Some (of_bytes (hex_b b ++ [d])) →
  is_ascii_hexdigit d = true →
  load_database_key profile k = Panics.
Proof using Type.
  intros He Hg Hd. unfold load_database_key, hex_decode_key. rewrite He, Hg, as_of_bytes.
  by rewrite hex_pairs_odd.
Qed.
End theorems.

(** ** Witnesses *)

Module KeySample.
(** A key store that is a list of passwords, the latest first. *)
Abbreviation store := (list (string * string * string)).
Definition find_password (s a : string) (k : store) : option string :=
  snd <$> find (λ e, seqb e.1.1 s && seqb e.1.2 a) k.
Definition drop_password (s a : string) (k : store) : store :=
  List.filter (λ e, negb (seqb e.1.1 s && seqb e.1.2 a)) k.
#[export] Instance keyring : Keyring store := {|
  entry_new := λ _ _ _, true;
  get_password := find_password;
  set_password := λ s a p k, ((s, a, p) :: k, true);
  delete_credential := λ s a k, (drop_password s a k, true);
|}.

Lemma find_dropped s a k : find_password s a (drop_password s a k) = None.
Proof.
  unfold find_password, drop_password. induction k as [|e k IH]; [done|]. cbn [List.filter].
  destruct (seqb e.1.1 s && seqb e.1.2 a) eqn:E; cbn [negb]; [done|]. cbn [find]. by rewrite E.
Qed.

#[export] Instance keyring_laws : KeyringLaws store.
Proof.
  split; cbn; intros; simplify_eq.
  - unfold find_password. cbn. by rewrite !seqb_refl.
  - unfold find_password. cbn. destruct (seqb s s' && seqb a a') eqn:E; [|done].
    apply andb_true_iff in E as [->%seqb_true ->%seqb_true]. done.
  - done.
  - apply find_dropped.
Qed.
Definition key : bytes := replicate 32 (n_byte 200).
End KeySample.
Import KeySample.

Lemma os_database_key_roundtrip_witness :
  load_database_key "profile-1"
    (save_profile_passphrase "profile-1" "words" (save_database_key "profile-1" key ([] : store)).1).1
  = Returns (Ok key).
Proof.
  refine (proj1 (os_database_key_roundtrip "profile-1" key ([] : store)
    (save_database_key "profile-1" key ([] : store)).1 "profile-1" "words" _ (Ok tt) eq_refl _ _));
    vm_compute; reflexivity.
Defined.

Lemma os_odd_key_panics_witness :
  load_database_key "profile-1"
    ([(DATABASE_KEY_SERVICE, "profile-1", "0fa")] : store) = Panics.
Proof.
  apply (os_odd_key_panics "profile-1" _ [n_byte 15] "a"%char); vm_compute; reflexivity.
Defined.
