(* ===== verification/MlsStore.v ===== *)
(** * The application's MLS state in the record store ([apps/daemon/src/mls_storage.rs])

    Group state, cryptographic items, the queue of proposals and the one-way life of key
    packages, each kept in records of class [ProtocolSession]. *)
From Stdlib Require Import Ascii NArith Lia ZifyBool ZifyN.
From stdpp Require Import base gmap strings list.
From S2P Require Import Prelude Text Interfaces StoreFormat Storage RecordStore.

Definition MLS_PREFIX : string := "mls/v1/".
Definition MAX_SERIALIZED_ENTITY_BYTES : N := 4 * 1024 * 1024.

Inductive GroupStateItem :=
| JoinConfig | OwnLeafNodes | Tree | InterimTranscriptHash | GroupContext | ConfirmationTag
| GroupState | MessageSecrets | ResumptionPskStore | OwnLeafIndex | GroupEpochSecrets.

Inductive CryptoStateItem :=
| SignatureKeyPair | EncryptionKeyPair | EncryptionEpochKeyPairs | KeyPackage | Psk.

Inductive KeyPackageState := Available | Reserved | Consumed | Expired.
#[export] Instance KeyPackageState_eq_dec : EqDecision KeyPackageState.
Proof. solve_decision. Defined.

Record KeyPackageRecord := {
  kp_state : KeyPackageState;
  kp_reservation_digest : option string;
  kp_not_before : option N;
  kp_not_after : option N;
}.

Inductive CodecError := CodecSerialize | CodecDeserialize | CodecTooLarge.

Inductive KeyPackageError :=
| KpStorage (e : StorageError) | KpCodec (e : CodecError)
| AlreadyRegistered | NotAvailable | ReservationMismatch | InvalidLifetime.

Definition crypto_label (i : CryptoStateItem) : string :=
  match i with
  | SignatureKeyPair => "signature-key-pair"
  | EncryptionKeyPair => "encryption-key-pair"
  | EncryptionEpochKeyPairs => "encryption-epoch-key-pairs"
  | KeyPackage => "key-package"
  | Psk => "psk"
  end.

Definition group_label (i : GroupStateItem) : string :=
  match i with
  | JoinConfig => "join-config"
  | OwnLeafNodes => "own-leaf-nodes"
  | Tree => "tree"
  | InterimTranscriptHash => "interim-transcript-hash"
  | GroupContext => "context"
  | ConfirmationTag => "confirmation-tag"
  | GroupState => "group-state"
  | MessageSecrets => "message-secrets"
  | ResumptionPskStore => "resumption-psk-store"
  | OwnLeafIndex => "own-leaf-index"
  | GroupEpochSecrets => "group-epoch-secrets"
  end.

(** ** Codec and keys *)

Definition encode_entity {T} `{JsonCodec T} (value : T) : result bytes CodecError :=
  match json_to_vec value with
  | None => Err CodecSerialize
  | Some encoded =>
    if (MAX_SERIALIZED_ENTITY_BYTES <? blen encoded)%N then Err CodecTooLarge else Ok encoded
  end.

Definition decode_entity {T} `{JsonCodec T} (value : bytes) : result T CodecError :=
  if (MAX_SERIALIZED_ENTITY_BYTES <? blen value)%N then Err CodecTooLarge
  else ok_or (json_from_slice value) CodecDeserialize.

Definition mls_key (group_id item : string) : string :=
  MLS_PREFIX +:+ group_id +:+ "/" +:+ item.

Definition group_key (group_id : string) (item : GroupStateItem) : string :=
  mls_key group_id (group_label item).

Definition hex_digest (value : bytes) : string := of_bytes (hex_b value).

Definition is_expired (r : KeyPackageRecord) (now : N) : bool :=
  match kp_not_after r with Some not_after => (not_after <=? now)%N | None => false end.

(** The prefix that [available_key_package_count] scans. *)
Definition KEY_PACKAGE_STATES : string := MLS_PREFIX +:+ "crypto/key-package-state/".

Section keys.
Context `{Crypto}.

Definition crypto_key (item : CryptoStateItem) (external_id : bytes) : string :=
  MLS_PREFIX +:+ "crypto/" +:+ crypto_label item +:+ "/" +:+ of_bytes (hex_b (sha256 external_id)).

Definition proposal_ref_key (proposal_ref : bytes) : string :=
  of_bytes (hex_b (sha256 proposal_ref)).

Definition key_package_state_key (package_id : bytes) : string :=
  MLS_PREFIX +:+ "crypto/key-package-state/" +:+ of_bytes (hex_b (sha256 package_id)).
End keys.

Section store.
Context `{Crypto, JsonCodec KeyPackageRecord, JsonCodec (list bytes), JsonCodec (list string)}.
Context {S : Type} `{RecordStore S}.
Implicit Types (s : S).

Definition read (s : S) (group_id item : string) : option bytes :=
  store_get s ProtocolSession (mls_key group_id item).

Definition change_mutation (group_id : string) (change : string * option bytes) : RecordMutation :=
  match change.2 with
  | Some value => Put ProtocolSession (mls_key group_id change.1) value
  | None => Delete ProtocolSession (mls_key group_id change.1)
  end.

Definition mls_commit (group_id : string) (changes : list (string * option bytes))
  : Mut S unit StorageError :=
  store_batch (map (change_mutation group_id) changes).

Definition write_group_item (group_id : string) (item : GroupStateItem) (value : bytes)
  : Mut S unit StorageError :=
  store_batch [Put ProtocolSession (group_key group_id item) value].

Definition read_group_item (s : S) (group_id : string) (item : GroupStateItem) : option bytes :=
  store_get s ProtocolSession (group_key group_id item).

Definition delete_group_item (group_id : string) (item : GroupStateItem)
  : Mut S unit StorageError :=
  store_batch [Delete ProtocolSession (group_key group_id item)].

Definition write_crypto_item (item : CryptoStateItem) (external_id value : bytes)
  : Mut S unit StorageError :=
  store_batch [Put ProtocolSession (crypto_key item external_id) value].

Definition read_crypto_item (s : S) (item : CryptoStateItem) (external_id : bytes) : option bytes :=
  store_get s ProtocolSession (crypto_key item external_id).

Definition delete_crypto_item (item : CryptoStateItem) (external_id : bytes)
  : Mut S unit StorageError :=
  store_batch [Delete ProtocolSession (crypto_key item external_id)].

(** ** Key packages *)

Definition read_key_package_record (s : S) (package_id : bytes) : option KeyPackageRecord :=
  match store_get s ProtocolSession (key_package_state_key package_id) with
  | Some value => result_ok (decode_entity value)
  | None => None
  end.

(** [self.store.apply_batch(..)?] in an operation on key packages. *)
Definition kp_batch (ms : list RecordMutation) : Mut S unit KeyPackageError :=
  λ s, let '(s, r) := store_batch ms s in (s, map_err KpStorage r).

Definition kp_encode (r : KeyPackageRecord) : Mut S bytes KeyPackageError :=
  mut_lift (map_err KpCodec (encode_entity r)).

Definition write_key_package_record (package_id : bytes) (record : KeyPackageRecord)
  : Mut S unit KeyPackageError :=
  let! value := kp_encode record in
  kp_batch [Put ProtocolSession (key_package_state_key package_id) value].

(** The guard [read_crypto_item(..).is_some() || read_key_package_record(..).is_some()]. *)
Definition is_registered (s : S) (package_id : bytes) : bool :=
  bool_decide (is_Some (read_crypto_item s KeyPackage package_id))
  || bool_decide (is_Some (read_key_package_record s package_id)).

Definition fresh_record (not_before not_after : option N) : KeyPackageRecord :=
  {| kp_state := Available; kp_reservation_digest := None;
     kp_not_before := not_before; kp_not_after := not_after |}.

(** The two records of a registered package. *)
Definition package_mutations (package_id package record : bytes) : list RecordMutation :=
  [Put ProtocolSession (crypto_key KeyPackage package_id) package;
   Put ProtocolSession (key_package_state_key package_id) record].

Definition register_key_package (package_id package : bytes) : Mut S unit KeyPackageError :=
  λ s,
    if is_registered s package_id then (s, Err AlreadyRegistered)
    else
      (let! record := kp_encode (fresh_record None None) in
       kp_batch (package_mutations package_id package record)) s.

Definition register_key_package_with_lifetime (package_id package : bytes) (not_before not_after : N)
  : Mut S unit KeyPackageError :=
  λ s,
    if (not_after <=? not_before)%N || (blen package =? 0)%N then (s, Err InvalidLifetime)
    else if is_registered s package_id then (s, Err AlreadyRegistered)
    else
      (let! record := kp_encode (fresh_record (Some not_before) (Some not_after)) in
       kp_batch (package_mutations package_id package record)) s.

Definition key_package_state (s : S) (package_id : bytes) : option KeyPackageState :=
  kp_state <$> read_key_package_record s package_id.

Definition key_package_state_at (s : S) (package_id : bytes) (now : N) : option KeyPackageState :=
  match read_key_package_record s package_id with
  | None => None
  | Some record =>
    if bool_decide (kp_state record = Available) && is_expired record now then Some Expired
    else Some (kp_state record)
  end.

Definition reserve_key_package_at (package_id reservation : bytes) (now : N)
  : Mut S bytes KeyPackageError :=
  λ s,
    match read_key_package_record s package_id with
    | None => (s, Err NotAvailable)
    | Some record =>
      if negb (bool_decide (kp_state record = Available)) || is_expired record now
      then (s, Err NotAvailable)
      else
        let digest := sha256 reservation in
        (let! _ := write_key_package_record package_id
           {| kp_state := Reserved; kp_reservation_digest := Some (hex_digest digest);
              kp_not_before := kp_not_before record; kp_not_after := kp_not_after record |} in
         mut_ret digest) s
    end.

(** [current_time_seconds] is the argument [now]. *)
Definition reserve_key_package (package_id reservation : bytes) (now : N)
  : Mut S bytes KeyPackageError :=
  reserve_key_package_at package_id reservation now.

Definition consume_key_package (package_id reservation : bytes) : Mut S unit KeyPackageError :=
  λ s,
    match read_key_package_record s package_id with
    | None => (s, Err NotAvailable)
    | Some record =>
      let digest := hex_digest (sha256 reservation) in
      if negb (bool_decide (kp_state record = Reserved))
         || negb (bool_decide (kp_reservation_digest record = Some digest))
      then (s, Err ReservationMismatch)
      else
        write_key_package_record package_id
          {| kp_state := Consumed; kp_reservation_digest := None;
             kp_not_before := kp_not_before record; kp_not_after := kp_not_after record |} s
    end.

(** ** Replenishing *)

Context `{RecordScan S}.

Definition is_available (now : N) (r : KeyPackageRecord) : bool :=
  bool_decide (kp_state r = Available) && negb (is_expired r now).

Definition available_key_package_count (s : S) (now : N) : N :=
  blen (filter (λ r, is_available now r = true)
          (omap (λ p, result_ok (decode_entity p.2))
             (store_prefix s ProtocolSession KEY_PACKAGE_STATES))).

(** The loop of [replenish_key_packages]: [needed] counts down to the [break]; the result is
    the mutations and how many packages they add. *)
Fixpoint replenish_loop (s : S) (now needed : N) (packages : list (bytes * bytes * N * N))
  : result (list RecordMutation * N) KeyPackageError :=
  match packages with
  | [] => Ok ([], 0%N)
  | (package_id, package, not_before, not_after) :: rest =>
    if (needed =? 0)%N then Ok ([], 0%N)
    else if (not_after <=? not_before)%N || (not_after <=? now)%N || (blen package =? 0)%N
    then Err InvalidLifetime
    else if is_registered s package_id then Err AlreadyRegistered
    else
      let? record := map_err KpCodec (encode_entity (fresh_record (Some not_before) (Some not_after))) in
      let? more := replenish_loop s now (needed - 1) rest in
      Ok (package_mutations package_id package record ++ more.1, (more.2 + 1)%N)
  end.

Definition replenish_key_packages (minimum now : N) (packages : list (bytes * bytes * N * N))
  : Mut S N KeyPackageError :=
  λ s,
    let needed := saturating_sub minimum (available_key_package_count s now) in
    if (needed =? 0)%N then (s, Ok 0%N)
    else
      match replenish_loop s now needed packages with
      | Err e => (s, Err e)
      | Ok (mutations, added) =>
        if (added <? needed)%N then (s, Err NotAvailable)
        else (let! _ := kp_batch mutations in mut_ret added) s
      end.

(** ** Leaves and proposals *)

(** [.and_then(|value| decode_entity(&value).ok()).unwrap_or_default()]. *)
Definition decoded_list {T} `{JsonCodec (list T)} (value : option bytes) : list T :=
  default [] (match value with Some v => result_ok (decode_entity v) | None => None end).

Definition too_large {A E} (r : result A E) : result A StorageError := map_err (λ _, RecordTooLarge) r.

Definition own_leaves (s : S) (group_id : string) : list bytes :=
  decoded_list (read_group_item s group_id OwnLeafNodes).

Definition append_own_leaf (group_id : string) (leaf : bytes) : Mut S unit StorageError :=
  λ s,
    (let! encoded := mut_lift (too_large (encode_entity (own_leaves s group_id ++ [leaf]))) in
     write_group_item group_id OwnLeafNodes encoded) s.

Definition read_raw_group (s : S) (group_id item : string) : option bytes :=
  store_get s ProtocolSession (mls_key group_id item).

Definition queued_proposal_refs (s : S) (group_id : string) : list string :=
  decoded_list (read_raw_group s group_id "proposal-refs").

Definition queued_proposal (s : S) (group_id : string) (proposal_ref : bytes) : option bytes :=
  read_raw_group s group_id ("proposal/" +:+ proposal_ref_key proposal_ref).

Definition queue_proposal (group_id : string) (proposal_ref proposal : bytes)
  : Mut S unit StorageError :=
  λ s,
    let reference := proposal_ref_key proposal_ref in
    let refs := queued_proposal_refs s group_id in
    if existsb (seqb reference) refs then (s, Ok tt)
    else
      (let! refs_value := mut_lift (too_large (encode_entity (refs ++ [reference]))) in
       mls_commit group_id
         [("proposal-refs", Some refs_value); ("proposal/" +:+ reference, Some proposal)]) s.

Definition remove_proposal (group_id : string) (proposal_ref : bytes) : Mut S unit StorageError :=
  λ s,
    let reference := proposal_ref_key proposal_ref in
    let refs := filter (λ item, item ≠ reference) (queued_proposal_refs s group_id) in
    (let! refs_value := mut_lift (too_large (encode_entity refs)) in
     mls_commit group_id
       [("proposal-refs", Some refs_value); ("proposal/" +:+ reference, None)]) s.

Definition clear_proposals (group_id : string) : Mut S unit StorageError :=
  λ s,
    let refs := queued_proposal_refs s group_id in
    mls_commit group_id
      (("proposal-refs", None) :: map (λ reference, ("proposal/" +:+ reference, None)) refs) s.
End store.

#[export] Instance KeyPackageRecord_eq_dec : EqDecision KeyPackageRecord.
Proof. solve_decision. Defined.
