(* ===== verification/MlsStoreProps.v ===== *)
(** * Key packages are used once, proposals are queued in order

    Theorems about [MlsStore.v], against the interface of the record store: every operation of
    the MLS store moves a key package only forward, a reserved package is never reserved again
    and is consumed at most once by its reservation, and the proposal queue of a group is a
    list without duplicates. *)
From Stdlib Require Import Ascii NArith Lia ZifyBool ZifyN.
From stdpp Require Import base gmap strings list.
From S2P Require Import Prelude Text Collections Interfaces StoreFormat Storage RecordStore TableStore MlsStore.

(** ** Keys *)

(** A group identifier that keeps clear of the namespace of cryptographic items. *)
Definition group_ok (g : string) : Prop := n_byte 47 ∉ as_bytes g ∧ g ≠ "crypto".

Lemma split_slash a b :
  n_byte 47 ∉ as_bytes a → split 47 (a +:+ "/" +:+ b) = a :: split 47 b.
Proof.
  intros Ha. unfold split. rewrite !as_bytes_app.
  change (as_bytes "/" ++ as_bytes b) with (n_byte 47 :: as_bytes b).
  rewrite split_b_app by done. cbn [map]. by rewrite of_as_bytes.
Qed.

Lemma no_slash a : forallb (λ b, negb (byte_n b =? 47)%N) (as_bytes a) = true → n_byte 47 ∉ as_bytes a.
Proof. intros Ha. by apply (forallb_not_elem _ _ _ Ha). Qed.

Lemma hex_no_slash b : n_byte 47 ∉ as_bytes (of_bytes (hex_b b)).
Proof.
  rewrite as_of_bytes. apply (forallb_not_elem _ _ _ (hex_b_hexdigit b)). by vm_compute.
Qed.

Lemma split_mls_key g item : n_byte 47 ∉ as_bytes g →
  split 47 (mls_key g item) = "mls" :: "v1" :: g :: split 47 item.
Proof.
  intros Hg. unfold mls_key, MLS_PREFIX.
  change ("mls/v1/" +:+ g +:+ "/" +:+ item) with ("mls" +:+ "/" +:+ ("v1" +:+ "/" +:+ (g +:+ "/" +:+ item))).
  rewrite !split_slash; [done|done|by apply no_slash..].
Qed.

Section keys.
Context `{Crypto}.

Lemma split_state_key pid :
  split 47 (key_package_state_key pid)
  = "mls" :: "v1" :: "crypto" :: "key-package-state" :: split 47 (of_bytes (hex_b (sha256 pid))).
Proof using Type.
  unfold key_package_state_key, MLS_PREFIX.
  change ("mls/v1/" +:+ "crypto/key-package-state/" +:+ of_bytes (hex_b (sha256 pid)))
    with ("mls" +:+ "/" +:+ ("v1" +:+ "/" +:+ ("crypto" +:+ "/" +:+ ("key-package-state" +:+ "/" +:+
           of_bytes (hex_b (sha256 pid)))))).
  by rewrite !split_slash by (by apply no_slash).
Qed.

Lemma split_crypto_key i x :
  split 47 (crypto_key i x)
  = "mls" :: "v1" :: "crypto" :: crypto_label i :: split 47 (of_bytes (hex_b (sha256 x))).
Proof using Type.
  unfold crypto_key, MLS_PREFIX.
  change ("mls/v1/" +:+ "crypto/" +:+ crypto_label i +:+ "/" +:+ of_bytes (hex_b (sha256 x)))
    with ("mls" +:+ "/" +:+ ("v1" +:+ "/" +:+ ("crypto" +:+ "/" +:+ (crypto_label i +:+ "/" +:+
           of_bytes (hex_b (sha256 x)))))).
  by rewrite !split_slash by (destruct i; by apply no_slash).
Qed.

Lemma group_state_key g item pid : group_ok g → mls_key g item ≠ key_package_state_key pid.
Proof using Type.
  intros [Hg Hc] E. apply (f_equal (split 47)) in E.
  rewrite split_mls_key, split_state_key in E by done. by simplify_eq.
Qed.

Lemma crypto_state_key i x pid : crypto_key i x ≠ key_package_state_key pid.
Proof using Type.
  intros E. apply (f_equal (split 47)) in E. rewrite split_crypto_key, split_state_key in E.
  by destruct i.
Qed.
End keys.

Lemma mls_key_inj g g' i i' : n_byte 47 ∉ as_bytes g → n_byte 47 ∉ as_bytes g' →
  mls_key g i = mls_key g' i' → g = g' ∧ i = i'.
Proof.
  intros Hg Hg' E. assert (Eg : g = g').
  { apply (f_equal (split 47)) in E. rewrite !split_mls_key in E by done. by simplify_eq. }
  subst g'. split; [done|]. unfold mls_key in E.
  by repeat match goal with H : _ +:+ _ = _ +:+ _ |- _ => apply (inj (String.append _)) in H end.
Qed.

(** ** Codec *)

Lemma encode_entity_spec {T} `{JsonRoundTrip T} (a : T) b :
  encode_entity a = Ok b → decode_entity b = Ok a ∧ (blen b ≤ MAX_VALUE_BYTES)%N.
Proof.
  unfold encode_entity, decode_entity. destruct (json_to_vec a) as [v|] eqn:Ev; [|done].
  destruct (MAX_SERIALIZED_ENTITY_BYTES <? blen v)%N eqn:El; [done|]. intros [= <-].
  rewrite El, (json_roundtrip _ _ Ev). split; [done|]. unfold MAX_SERIALIZED_ENTITY_BYTES in El.
  unfold MAX_VALUE_BYTES. lia.
Qed.

(** ** The operations of the MLS store *)

Inductive MlsOp :=
| OpCommit (g : string) (changes : list (string * option bytes))
| OpWriteGroup (g : string) (i : GroupStateItem) (v : bytes)
| OpDeleteGroup (g : string) (i : GroupStateItem)
| OpWriteCrypto (i : CryptoStateItem) (x v : bytes)
| OpDeleteCrypto (i : CryptoStateItem) (x : bytes)
| OpRegister (pid package : bytes)
| OpRegisterLifetime (pid package : bytes) (not_before not_after : N)
| OpReplenish (minimum now : N) (packages : list (bytes * bytes * N * N))
| OpReserve (pid reservation : bytes) (now : N)
| OpConsume (pid reservation : bytes)
| OpAppendLeaf (g : string) (leaf : bytes)
| OpQueue (g : string) (r proposal : bytes)
| OpRemove (g : string) (r : bytes)
| OpClear (g : string).

(** The group an operation names keeps clear of the cryptographic items. *)
Definition mls_op_ok (op : MlsOp) : Prop :=
  match op with
  | OpCommit g _ | OpWriteGroup g _ _ | OpDeleteGroup g _ | OpAppendLeaf g _
  | OpQueue g _ _ | OpRemove g _ | OpClear g => group_ok g
  | _ => True
  end.

Section runs.
Context `{Crypto, JsonRoundTrip KeyPackageRecord, JsonCodec (list bytes), JsonCodec (list string)}.
Context {S : Type} `{RecordStoreLaws S, RecordScan S}.
Implicit Types (s : S).

Definition outcome {A E} (r : S * result A E) : S * bool := (r.1, is_ok r.2).

Definition mls_apply (op : MlsOp) s : S * bool :=
  match op with
  | OpCommit g changes => outcome (mls_commit g changes s)
  | OpWriteGroup g i v => outcome (write_group_item g i v s)
  | OpDeleteGroup g i => outcome (delete_group_item g i s)
  | OpWriteCrypto i x v => outcome (write_crypto_item i x v s)
  | OpDeleteCrypto i x => outcome (delete_crypto_item i x s)
  | OpRegister pid package => outcome (register_key_package pid package s)
  | OpRegisterLifetime pid package nb na =>
    outcome (register_key_package_with_lifetime pid package nb na s)
  | OpReplenish minimum now packages => outcome (replenish_key_packages minimum now packages s)
  | OpReserve pid r now => outcome (reserve_key_package_at pid r now s)
  | OpConsume pid r => outcome (consume_key_package pid r s)
  | OpAppendLeaf g leaf => outcome (append_own_leaf g leaf s)
  | OpQueue g r proposal => outcome (queue_proposal g r proposal s)
  | OpRemove g r => outcome (remove_proposal g r s)
  | OpClear g => outcome (clear_proposals g s)
  end.

(** A run and, for each operation, whether it succeeded. *)
Fixpoint mls_run (ops : list MlsOp) s : S * list (MlsOp * bool) :=
  match ops with
  | [] => (s, [])
  | op :: rest =>
    let '(s, ok) := mls_apply op s in
    let '(s, outcomes) := mls_run rest s in
    (s, (op, ok) :: outcomes)
  end.

(** Successful reservations of a package and the reservations that consumed it. Packages are
    identified by the digest of their identifier, as the records are. *)
Definition reserves (pid : bytes) (o : MlsOp * bool) : bool :=
  match o with
  | (OpReserve p _ _, true) => bool_decide (sha256 p = sha256 pid)
  | _ => false
  end.
Definition consumes (pid : bytes) (o : MlsOp * bool) : option bytes :=
  match o with
  | (OpConsume p r, true) => if decide (sha256 p = sha256 pid) then Some r else None
  | _ => None
  end.

(** What one operation may do to the record of a package. *)
Inductive kp_step (pid : bytes) (o : MlsOp * bool)
  : option KeyPackageRecord → option KeyPackageRecord → Prop :=
| kp_same r : reserves pid o = false → consumes pid o = None → kp_step pid o r r
| kp_registered nb na : reserves pid o = false → consumes pid o = None →
    kp_step pid o None (Some (fresh_record nb na))
| kp_reserved r x now p : o = (OpReserve p x now, true) → sha256 p = sha256 pid →
    kp_state r = Available → is_expired r now = false →
    kp_step pid o (Some r)
      (Some {| kp_state := Reserved; kp_reservation_digest := Some (hex_digest (sha256 x));
               kp_not_before := kp_not_before r; kp_not_after := kp_not_after r |})
| kp_consumed r x p : o = (OpConsume p x, true) → sha256 p = sha256 pid →
    kp_state r = Reserved → kp_reservation_digest r = Some (hex_digest (sha256 x)) →
    kp_step pid o (Some r)
      (Some {| kp_state := Consumed; kp_reservation_digest := None;
               kp_not_before := kp_not_before r; kp_not_after := kp_not_after r |}).
#[local] Hint Constructors kp_step : core.

Lemma state_key_same p pid :
  key_package_state_key p = key_package_state_key pid ↔ sha256 p = sha256 pid.
Proof using Type.
  unfold key_package_state_key. split; [|by intros ->]. intros E.
  repeat match goal with H : _ +:+ _ = _ +:+ _ |- _ => apply (inj (String.append _)) in H end.
  apply (f_equal as_bytes) in E. rewrite !as_of_bytes in E. by apply hex_b_inj.
Qed.

Lemma read_record_same s s' pid :
  store_get s' ProtocolSession (key_package_state_key pid)
  = store_get s ProtocolSession (key_package_state_key pid) →
  read_key_package_record s' pid = read_key_package_record s pid.
Proof using Type. unfold read_key_package_record. by intros ->. Qed.

Lemma batch_keeps_record ms s s' r pid :
  store_inv s → store_batch ms s = (s', r) →
  (∀ m, m ∈ ms → (mutation_key m).2 ≠ key_package_state_key pid) →
  read_key_package_record s' pid = read_key_package_record s pid.
Proof using Type.
  intros Hs Hb Hn. apply read_record_same. eapply store_batch_untouched; [done..|].
  intros m Hm E. apply (Hn m Hm). by rewrite E.
Qed.

Lemma read_registered s p pid :
  is_registered s p = false → sha256 p = sha256 pid → read_key_package_record s pid = None.
Proof using Type.
  unfold is_registered. intros [_ Hr]%orb_false_iff Hp. bool_props.
  unfold read_key_package_record in *.
  rewrite <-(proj2 (state_key_same p pid) Hp). by apply eq_None_not_Some.
Qed.

(** A mutation that registers a package the store does not have. *)
Definition registration s (m : RecordMutation) : Prop :=
  ∃ p package nb na record, is_registered s p = false ∧
    encode_entity (fresh_record nb na) = Ok record ∧ m ∈ package_mutations p package record.

Lemma registrations_record ms s s' r pid :
  store_inv s → Forall (registration s) ms → store_batch ms s = (s', r) →
  read_key_package_record s' pid = read_key_package_record s pid ∨
  read_key_package_record s pid = None ∧
  ∃ nb na, read_key_package_record s' pid = Some (fresh_record nb na).
Proof using All.
  intros Hs Hms Hb.
  destruct (store_batch_cases _ _ _ _ ProtocolSession (key_package_state_key pid) Hs Hb)
    as [E|(m & Hm & Hk & E)]; [left; by apply read_record_same|right].
  rewrite Forall_forall in Hms.
  destruct (Hms m Hm) as (p & package & nb & na & record & Hr & He & Hin).
  apply elem_of_cons in Hin as [->|Hin]; [|apply list_elem_of_singleton in Hin as ->];
    apply (f_equal snd) in Hk; cbn [mutation_key mutation_value snd] in *.
  - by apply crypto_state_key in Hk.
  - apply state_key_same in Hk as Hp. split; [by eapply read_registered|].
    exists nb, na. unfold read_key_package_record. rewrite E.
    by rewrite (proj1 (encode_entity_spec _ _ He)).
Qed.

Lemma replenish_loop_registers s now needed packages ms added :
  replenish_loop s now needed packages = Ok (ms, added) → Forall (registration s) ms.
Proof using All.
  revert needed ms added.
  induction packages as [|[[[p package] nb] na] rest IH]; intros needed ms added; simpl;
    [by intros [= <- _]|].
  destruct (needed =? 0)%N; [by intros [= <- _]|].
  destruct (_ || _ || _); [done|]. destruct (is_registered s p) eqn:Hr; [done|].
  destruct (encode_entity _) as [record|] eqn:He; simpl; [|done].
  destruct (replenish_loop s now (needed - 1) rest) as [[ms' added']|] eqn:Hl; simpl; [|done].
  intros [= <- _]. repeat (apply Forall_cons; split); [..|by eapply IH];
    exists p, package, (Some nb), (Some na), record; split_and!; try done; set_solver.
Qed.

(** Writing the record of one package. *)
Lemma write_record_spec p record s s' r pid :
  store_inv s → write_key_package_record p record s = (s', r) →
  read_key_package_record s' pid =
    if decide (sha256 p = sha256 pid) then (if is_ok r then Some record else read_key_package_record s pid)
    else read_key_package_record s pid.
Proof using All.
  intros Hs. unfold write_key_package_record, kp_encode. rust_simpl.
  destruct (encode_entity record) as [v|e] eqn:He; [|intros [= <- <-]; by case_decide].
  unfold kp_batch. destruct (store_batch _ s) as [s1 r1] eqn:Hb. intros [= <- <-].
  case_decide as Hp.
  - destruct r1 as [[]|e]; simpl.
    + unfold read_key_package_record. rewrite (store_batch_ok _ _ _ Hs Hb). cbn [view_batch].
      rewrite (proj2 (state_key_same p pid) Hp), view_update_eq.
      by rewrite (proj1 (encode_entity_spec _ _ He)).
    + apply read_record_same. by apply (store_batch_single _ _ _ _ _ _ Hs Hb).
  - eapply batch_keeps_record; [done..|]. intros m Hm. apply list_elem_of_singleton in Hm as ->. simpl.
    by rewrite state_key_same.
Qed.

(** The record of every package survives the batch. *)
Definition keeps s s' : Prop :=
  store_inv s' ∧ ∀ pid, read_key_package_record s' pid = read_key_package_record s pid.

Lemma keeps_refl s : store_inv s → keeps s s.
Proof using Type. by split. Qed.

Lemma batch_keeps ms s s' r :
  store_inv s → store_batch ms s = (s', r) →
  (∀ m pid, m ∈ ms → (mutation_key m).2 ≠ key_package_state_key pid) → keeps s s'.
Proof using Type.
  intros Hs Hb Hn. split; [by eapply store_batch_inv|]. intros pid.
  eapply batch_keeps_record; [done..|]. auto.
Qed.

Lemma commit_keeps g changes s s' r :
  store_inv s → group_ok g → mls_commit g changes s = (s', r) → keeps s s'.
Proof using Type.
  intros Hs Hg Hb. eapply batch_keeps; [done..|].
  intros m pid ([i [v|]] & -> & _)%list_elem_of_fmap; by apply group_state_key.
Qed.

Lemma single_keeps m s s' r :
  store_inv s → (∀ pid, (mutation_key m).2 ≠ key_package_state_key pid) →
  store_batch [m] s = (s', r) → keeps s s'.
Proof using Type.
  intros Hs Hm Hb. eapply batch_keeps; [done..|]. intros m' pid Hin.
  by apply list_elem_of_singleton in Hin as ->.
Qed.

(** The operations on groups and cryptographic items. *)
Definition is_kp_op (op : MlsOp) : bool :=
  match op with
  | OpRegister _ _ | OpRegisterLifetime _ _ _ _ | OpReplenish _ _ _ | OpReserve _ _ _
  | OpConsume _ _ => true
  | _ => false
  end.

Lemma other_op_keeps op s s' ok :
  store_inv s → mls_op_ok op → is_kp_op op = false → mls_apply op s = (s', ok) → keeps s s'.
Proof using Type.
  intros Hs Hg Hk. unfold mls_apply, outcome. destruct op; simpl in Hg, Hk; try done.
  - intros [= <- _]. destruct (mls_commit _ _ _) eqn:E. by eapply commit_keeps.
  - intros [= <- _]. destruct (write_group_item _ _ _ _) eqn:E. eapply single_keeps, E; [done|].
    intros pid. by apply group_state_key.
  - intros [= <- _]. destruct (delete_group_item _ _ _) eqn:E. eapply single_keeps, E; [done|].
    intros pid. by apply group_state_key.
  - intros [= <- _]. destruct (write_crypto_item _ _ _ _) eqn:E. eapply single_keeps, E; [done|].
    intros pid. apply crypto_state_key.
  - intros [= <- _]. destruct (delete_crypto_item _ _ _) eqn:E. eapply single_keeps, E; [done|].
    intros pid. apply crypto_state_key.
  - unfold append_own_leaf. rust_simpl. destruct (too_large _); intros [= <- _]; [|by apply keeps_refl].
    destruct (write_group_item _ _ _ _) eqn:E. eapply single_keeps, E; [done|].
    intros pid. by apply group_state_key.
  - unfold queue_proposal. rust_simpl. destruct (existsb _ _); [intros [= <- _]; by apply keeps_refl|].
    destruct (too_large _); intros [= <- _]; [|by apply keeps_refl].
    destruct (mls_commit _ _ _) eqn:E. by eapply commit_keeps.
  - unfold remove_proposal. rust_simpl. destruct (too_large _); intros [= <- _]; [|by apply keeps_refl].
    destruct (mls_commit _ _ _) eqn:E. by eapply commit_keeps.
  - unfold clear_proposals. intros [= <- _]. destruct (mls_commit _ _ _) eqn:E. by eapply commit_keeps.
Qed.

(** A batch of registrations is a [kp_step]. *)
Lemma registrations_step ms s s' r o pid :
  store_inv s → Forall (registration s) ms → kp_batch ms s = (s', r) →
  reserves pid o = false → consumes pid o = None →
  store_inv s' ∧ kp_step pid o (read_key_package_record s pid) (read_key_package_record s' pid).
Proof using All.
  intros Hs Hms Hb Hr Hc. unfold kp_batch in Hb.
  destruct (store_batch ms s) as [s1 r1] eqn:Hb1. injection Hb as <- _.
  split; [by eapply store_batch_inv|].
  destruct (registrations_record _ _ _ _ pid Hs Hms Hb1) as [->|(-> & nb & na & ->)]; auto.
Qed.

Lemma package_registration s p package nb na record :
  is_registered s p = false → encode_entity (fresh_record nb na) = Ok record →
  Forall (registration s) (package_mutations p package record).
Proof using Type.
  intros Hr He. apply Forall_forall. intros m Hm. by exists p, package, nb, na, record.
Qed.

Lemma reserve_step p x now s s' ok pid :
  store_inv s → mls_apply (OpReserve p x now) s = (s', ok) →
  store_inv s' ∧
  kp_step pid (OpReserve p x now, ok) (read_key_package_record s pid) (read_key_package_record s' pid).
Proof using All.
  intros Hs. unfold mls_apply, outcome, reserve_key_package_at.
  destruct (read_key_package_record s p) as [rec|] eqn:Hp; [|intros [= <- <-]; auto].
  destruct (_ || _) eqn:Hg; [intros [= <- <-]; auto|]. bool_props. rust_simpl.
  destruct (write_key_package_record _ _ s) as [s1 r1] eqn:Hw.
  assert (Hi : store_inv s1).
  { revert Hw. unfold write_key_package_record, kp_encode, kp_batch. rust_simpl.
    destruct (encode_entity _); [|by intros [= <- _]].
    destruct (store_batch _ s) eqn:Hb. intros [= <- _]. by eapply store_batch_inv. }
  destruct r1 as [[]|e]; intros [= <- <-]; split; try done;
    rewrite (write_record_spec _ _ _ _ _ pid Hs Hw); simpl; case_decide as Hd; auto.
  - assert (Hpid : read_key_package_record s pid = Some rec).
    { rewrite <-Hp. unfold read_key_package_record. by rewrite (proj2 (state_key_same p pid) Hd). }
    rewrite Hpid. by eapply kp_reserved.
  - apply kp_same; simpl; [by rewrite bool_decide_false|done].
Qed.

Lemma consume_step p x s s' ok pid :
  store_inv s → mls_apply (OpConsume p x) s = (s', ok) →
  store_inv s' ∧
  kp_step pid (OpConsume p x, ok) (read_key_package_record s pid) (read_key_package_record s' pid).
Proof using All.
  intros Hs. unfold mls_apply, outcome, consume_key_package.
  destruct (read_key_package_record s p) as [rec|] eqn:Hp; [|intros [= <- <-]; auto].
  destruct (_ || _) eqn:Hg; [intros [= <- <-]; auto|]. bool_props.
  destruct (write_key_package_record _ _ s) as [s1 r1] eqn:Hw.
  assert (Hi : store_inv s1).
  { revert Hw. unfold write_key_package_record, kp_encode, kp_batch. rust_simpl.
    destruct (encode_entity _); [|by intros [= <- _]].
    destruct (store_batch _ s) eqn:Hb. intros [= <- _]. by eapply store_batch_inv. }
  destruct r1 as [[]|e]; intros [= <- <-]; split; try done;
    rewrite (write_record_spec _ _ _ _ _ pid Hs Hw); simpl; case_decide as Hd; auto.
  - assert (Hpid : read_key_package_record s pid = Some rec).
    { rewrite <-Hp. unfold read_key_package_record. by rewrite (proj2 (state_key_same p pid) Hd). }
    rewrite Hpid. by eapply kp_consumed.
  - apply kp_same; simpl; [done|by rewrite decide_False].
Qed.

Lemma mls_step op s s' ok pid :
  store_inv s → mls_op_ok op → mls_apply op s = (s', ok) →
  store_inv s' ∧ kp_step pid (op, ok) (read_key_package_record s pid) (read_key_package_record s' pid).
Proof using All.
  intros Hs Hg. destruct (is_kp_op op) eqn:Hk.
  2:{ intros Hm. destruct (other_op_keeps _ _ _ _ Hs Hg Hk Hm) as [Hi Hr]. split; [done|].
      rewrite Hr. destruct op; try done; auto. }
  destruct op; try done; [..|apply reserve_step, Hs|apply consume_step, Hs];
    unfold mls_apply, outcome.
  - unfold register_key_package. destruct (is_registered s pid0) eqn:Hr; [intros [= <- <-]; auto|].
    unfold kp_encode. rust_simpl. destruct (encode_entity _) as [rec|] eqn:He; [|intros [= <- <-]; auto].
    destruct (kp_batch _ s) as [s1 r1] eqn:Hb. intros [= <- <-].
    eapply registrations_step; [done| |done..]. by eapply package_registration.
  - unfold register_key_package_with_lifetime. destruct (_ || _); [intros [= <- <-]; auto|].
    destruct (is_registered s pid0) eqn:Hr; [intros [= <- <-]; auto|].
    unfold kp_encode. rust_simpl. destruct (encode_entity _) as [rec|] eqn:He; [|intros [= <- <-]; auto].
    destruct (kp_batch _ s) as [s1 r1] eqn:Hb. intros [= <- <-].
    eapply registrations_step; [done| |done..]. by eapply package_registration.
  - unfold replenish_key_packages. cbv zeta. destruct (_ =? 0)%N; [intros [= <- <-]; auto|].
    destruct (replenish_loop _ _ _ _) as [[ms added]|] eqn:Hl; [|intros [= <- <-]; auto].
    destruct (_ <? _)%N; [intros [= <- <-]; auto|]. rust_simpl.
    destruct (kp_batch ms s) as [s1 r1] eqn:Hb.
    assert (Hst : ∀ o, reserves pid o = false → consumes pid o = None → store_inv s1 ∧
      kp_step pid o (read_key_package_record s pid) (read_key_package_record s1 pid)).
    { intros o Ho1 Ho2. eapply registrations_step; [done| |done..].
      by eapply replenish_loop_registers. }
    destruct r1 as [[]|e]; intros [= <- <-]; by apply Hst.
Qed.

(** After a reservation: the package waits for it, or has been consumed. *)
Definition spent (d : bytes) (used : nat) (r : option KeyPackageRecord) : Prop :=
  ∃ rec, r = Some rec ∧
    (kp_state rec = Reserved ∧ kp_reservation_digest rec = Some (hex_digest d) ∧ used = 0 ∨
     kp_state rec = Consumed ∧ used ≤ 1).

Definition consumptions (pid : bytes) (outcomes : list (MlsOp * bool)) : list bytes :=
  omap (consumes pid) outcomes.

Lemma hex_digest_inj a b : hex_digest a = hex_digest b → a = b.
Proof using Type.
  intros E. apply (f_equal as_bytes) in E. unfold hex_digest in E. rewrite !as_of_bytes in E.
  by apply hex_b_inj.
Qed.

Lemma spent_run pid d ops s s' outcomes used :
  store_inv s → Forall mls_op_ok ops → mls_run ops s = (s', outcomes) →
  spent d used (read_key_package_record s pid) →
  forallb (λ o, negb (reserves pid o)) outcomes = true ∧
  Forall (λ x, sha256 x = d) (consumptions pid outcomes) ∧
  used + length (consumptions pid outcomes) ≤ 1 ∧
  spent d (used + length (consumptions pid outcomes)) (read_key_package_record s' pid).
Proof using All.
  revert s s' outcomes used. induction ops as [|op ops IH]; intros s s' outcomes used Hs Hops; cbn [mls_run].
  { intros [= <- <-] (rec & Hr & Hst). unfold consumptions. simpl. rewrite Nat.add_0_r.
    split_and!; [done|done| |by exists rec]. destruct Hst as [(_ & _ & ->)|[_ ?]]; lia. }
  apply Forall_cons in Hops as [Hop Hops].
  destruct (mls_apply op s) as [s1 ok] eqn:Ha. destruct (mls_run ops s1) as [s2 os] eqn:Hr.
  intros [= <- <-] Hsp. destruct (mls_step _ _ _ _ pid Hs Hop Ha) as [Hi Hstep].
  unfold consumptions in *. cbn [forallb omap list_omap].
  assert (Hone : reserves pid (op, ok) = false ∧
    match consumes pid (op, ok) with
    | None => spent d used (read_key_package_record s1 pid)
    | Some x => sha256 x = d ∧ used = 0 ∧ spent d 1 (read_key_package_record s1 pid)
    end).
  { destruct Hsp as (rec & Hrec & Hst). rewrite Hrec in Hstep.
    inversion Hstep as [r Hn1 Hn2 E1 E2|nb na Hn1 Hn2 E1 E2|r x now p Ho Hp Hav He E1 E2|r x p Ho Hp Hre Hdig E1 E2];
      subst.
    - rewrite Hn1, Hn2. split; [done|]. by exists rec.
    - destruct Hst as [(Hs1 & _)|[Hs1 _]]; congruence.
    - injection Ho as -> ->. cbn [reserves consumes]. split; [done|]. rewrite decide_True by done.
      destruct Hst as [(_ & Hd & ->)|[Hs1 _]]; [|congruence].
      split_and!; [apply hex_digest_inj; congruence|done|]. eexists. split; [done|]. right. by split. }
  destruct Hone as [-> Hone]. destruct (consumes pid (op, ok)) as [x|]; simpl.
  - destruct Hone as (Hx & -> & Hsp1). destruct (IH _ _ _ 1 Hi Hops Hr Hsp1) as (? & ? & ? & ?).
    split_and!; [done|by constructor|done..].
  - by apply (IH _ _ _ used Hi Hops Hr).
Qed.

(** C35. Once a key package is reserved, no later operation reserves it again, it is consumed at most
    once, and only with a reservation of the same digest; its record stays reserved for that
    reservation or is marked consumed. This holds after any operations of the storage, whichever
    of them fail, as long as those on groups name groups without a slash that are not called
    [crypto]: the code does not refuse other group identifiers, and an operation on one of them
    can overwrite the record of a key package ([mls_group_keys_collide]). *)
Theorem mls_key_package_single_use pid x now ops s s1 d s2 outcomes :
  store_inv s → Forall mls_op_ok ops →
  reserve_key_package_at pid x now s = (s1, Ok d) → mls_run ops s1 = (s2, outcomes) →
  forallb (λ o, negb (reserves pid o)) outcomes = true ∧
  length (consumptions pid outcomes) ≤ 1 ∧
  Forall (λ y, sha256 y = sha256 x) (consumptions pid outcomes) ∧
  (key_package_state s2 pid = Some Reserved ∨ key_package_state s2 pid = Some Consumed).
Proof using All.
  intros Hs Hops Hr Hrun.
  assert (Ha : mls_apply (OpReserve pid x now) s = (s1, true)) by (unfold mls_apply; by rewrite Hr).
  destruct (mls_step (OpReserve pid x now) _ _ _ pid Hs I Ha) as [Hi Hstep].
  assert (Hsp : spent (sha256 x) 0 (read_key_package_record s1 pid)).
  { inversion Hstep as [r Hn1 Hn2 E1 E2|nb na Hn1 Hn2 E1 E2|r x' now' p Ho Hp Hav He E1 E2|r x' p Ho Hp Hre Hdig E1 E2];
      try done; [cbn [reserves] in Hn1; by rewrite bool_decide_true in Hn1..|].
    injection Ho as -> -> ->. eexists. split; [done|]. by left. }
  destruct (spent_run _ _ _ _ _ _ _ Hi Hops Hrun Hsp) as (? & ? & ? & rec & Hrec & Hst).
  split_and!; [done|done|done|]. unfold key_package_state. rewrite Hrec. simpl.
  destruct Hst as [(-> & _)|[-> _]]; auto.
Qed.
End runs.

(** ** Proposals *)

Inductive ProposalOp :=
| PQueue (g : string) (r proposal : bytes) | PRemove (g : string) (r : bytes) | PClear (g : string).

(** The abstract queue: references in order, each with its body. *)
Definition ProposalQueue : Type := list (string * option bytes).
Definition enqueue (r : string) (b : bytes) (q : ProposalQueue) : ProposalQueue :=
  if existsb (seqb r) q.*1 then q else q ++ [(r, Some b)].
Definition dequeue (r : string) (q : ProposalQueue) : ProposalQueue := filter (λ p, p.1 ≠ r) q.

Lemma view_group g g' i i' o f :
  n_byte 47 ∉ as_bytes g → n_byte 47 ∉ as_bytes g' →
  view_update ProtocolSession (mls_key g' i') o f ProtocolSession (mls_key g i)
  = if decide (g = g' ∧ i = i') then o else f ProtocolSession (mls_key g i).
Proof.
  intros Hg Hg'. unfold view_update. case_decide as Hd; case_decide as Hd'; try done.
  - exfalso. apply Hd'. apply (mls_key_inj g g'); [done..|]. congruence.
  - exfalso. apply Hd. by destruct Hd' as [-> ->].
Qed.

Lemma dequeue_map r (f : string → option bytes) l :
  dequeue r (map (λ x, (x, f x)) l)
  = map (λ x, (x, if decide (x = r) then None else f x)) (filter (λ x, x ≠ r) l).
Proof.
  unfold dequeue. induction l as [|x l IH]; [done|].
  cbn [map]. destruct (decide (x = r)) as [->|Hx].
  - by rewrite (filter_cons_False _ (r, f r)), (filter_cons_False _ r) by (simpl; tauto).
  - rewrite (filter_cons_True _ (x, f x)), (filter_cons_True _ x) by done. cbn [map]. rewrite decide_False by done. by f_equal.
Qed.

Section proposals.
Context `{Crypto, JsonRoundTrip (list string)} {S : Type} `{RecordStoreLaws S}.
Implicit Types (s : S).

Definition proposal_apply (op : ProposalOp) s : S * bool :=
  match op with
  | PQueue g r b => outcome (queue_proposal g r b s)
  | PRemove g r => outcome (remove_proposal g r s)
  | PClear g => outcome (clear_proposals g s)
  end.

Definition queue_step (g : string) (op : ProposalOp) (q : ProposalQueue) : ProposalQueue :=
  match op with
  | PQueue g' r b => if decide (g' = g) then enqueue (proposal_ref_key r) b q else q
  | PRemove g' r => if decide (g' = g) then dequeue (proposal_ref_key r) q else q
  | PClear g' => if decide (g' = g) then [] else q
  end.

(** The queue of group [g] as the store holds it. *)
Definition body_key (r : string) : string := "proposal/" +:+ r.
Definition proposal_queue s (g : string) : ProposalQueue :=
  map (λ r, (r, read_raw_group s g (body_key r))) (queued_proposal_refs s g).

(** References whose records may be stored. *)
Definition refs_ok s (g : string) : Prop :=
  Forall (λ r, is_ok (validate_record_key (mls_key g (body_key r))) = true) (queued_proposal_refs s g).

Definition proposal_op_group (op : ProposalOp) : string :=
  match op with PQueue g _ _ | PRemove g _ | PClear g => g end.
Definition proposal_op_ok (op : ProposalOp) : Prop :=
  n_byte 47 ∉ as_bytes (proposal_op_group op) ∧
  is_ok (validate_record_key (mls_key (proposal_op_group op) "proposal-refs")) = true ∧
  match op with
  | PQueue g r b =>
    is_ok (validate_record_key (mls_key g (body_key (proposal_ref_key r)))) = true ∧
    (blen b ≤ MAX_VALUE_BYTES)%N
  | PRemove g r => is_ok (validate_record_key (mls_key g (body_key (proposal_ref_key r)))) = true
  | PClear _ => True
  end.

Lemma proposal_queue_keys s g : (proposal_queue s g).*1 = queued_proposal_refs s g.
Proof using Type. unfold proposal_queue. rewrite <-list_fmap_compose. apply list_fmap_id. Qed.

Lemma body_key_inj r r' : body_key r = body_key r' → r = r'.
Proof using Type. apply (inj (String.append "proposal/")). Qed.
Lemma body_key_refs r : "proposal-refs" ≠ body_key r.
Proof using Type. unfold body_key. by destruct r. Qed.

(** The queue only depends on the records of the group. *)
Lemma proposal_queue_same s s' g :
  (∀ i, read_raw_group s' g i = read_raw_group s g i) →
  proposal_queue s' g = proposal_queue s g ∧ (refs_ok s g → refs_ok s' g).
Proof using Type.
  intros E. unfold proposal_queue, refs_ok, queued_proposal_refs. rewrite E. split; [|done].
  apply map_ext. intros r. by rewrite E.
Qed.

Lemma commit_raw g changes s s' :
  store_inv s → mls_commit g changes s = (s', Ok tt) →
  ∀ g' i, read_raw_group s' g' i
          = view_batch (map (change_mutation g) changes) (store_get s) ProtocolSession (mls_key g' i).
Proof using Type. intros Hs Hc g' i. apply (store_batch_ok _ _ _ Hs Hc). Qed.

Lemma commit_err g changes s s' e :
  store_inv s → forallb mutation_ok (map (change_mutation g) changes) = true →
  mls_commit g changes s = (s', Err e) → ∀ g' i, read_raw_group s' g' i = read_raw_group s g' i.
Proof using Type. intros Hs Hok Hc g' i. apply (store_batch_err _ _ _ _ Hs Hok Hc). Qed.

Lemma decoded_refs (refs : list string) v :
  encode_entity refs = Ok v → decoded_list (Some v) = refs.
Proof using All. intros He. unfold decoded_list. by rewrite (proj1 (encode_entity_spec _ _ He)). Qed.

(** A commit of the references and one body. *)
Lemma commit_refs g refs v reference o s s' :
  store_inv s → n_byte 47 ∉ as_bytes g → encode_entity refs = Ok v →
  mls_commit g [("proposal-refs", Some v); (body_key reference, o)] s = (s', Ok tt) →
  proposal_queue s' g = map (λ r, (r, if decide (r = reference) then o
                                      else read_raw_group s g (body_key r))) refs ∧
  queued_proposal_refs s' g = refs ∧
  ∀ g' i, n_byte 47 ∉ as_bytes g' → g' ≠ g → read_raw_group s' g' i = read_raw_group s g' i.
Proof using All.
  intros Hs Hg He Hc. pose proof (commit_raw _ _ _ _ Hs Hc) as Hraw.
  assert (Hb : ∀ g' i, n_byte 47 ∉ as_bytes g' → read_raw_group s' g' i
    = if decide (g' = g ∧ i = body_key reference) then o
      else if decide (g' = g ∧ i = "proposal-refs") then Some v else read_raw_group s g' i).
  { intros g' i Hg'. rewrite Hraw. cbn [map change_mutation fst snd].
    rewrite view_batch_cons.
    assert (Hv : view_batch [change_mutation g (body_key reference, o)]
      (view_update ProtocolSession (mls_key g "proposal-refs") (Some v) (store_get s))
      ProtocolSession (mls_key g' i)
      = view_update ProtocolSession (mls_key g (body_key reference)) o
      (view_update ProtocolSession (mls_key g "proposal-refs") (Some v) (store_get s))
      ProtocolSession (mls_key g' i)) by (by destruct o).
    etrans; [exact Hv|]. rewrite view_group by done. case_decide; [done|].
    by rewrite view_group by done. }
  assert (Hr : queued_proposal_refs s' g = refs).
  { unfold queued_proposal_refs. rewrite Hb by done. rewrite decide_False, decide_True by (naive_solver eauto using body_key_refs).
    by apply decoded_refs. }
  split_and!; [|done|].
  - unfold proposal_queue. rewrite Hr. apply map_ext. intros r. f_equal. rewrite Hb by done.
    destruct (decide (r = reference)) as [->|Hne].
    + by rewrite decide_True.
    + rewrite decide_False by (intros [_ E%body_key_inj]; done).
      rewrite decide_False; [done|]. intros [_ E]. by destruct (body_key_refs r).
  - intros g' i Hg' Hne. rewrite Hb by done. by rewrite !decide_False by naive_solver.
Qed.

(** What one operation leaves of the queue of [g]. *)
Definition refines g s s' (q : ProposalQueue) : Prop :=
  store_inv s' ∧ proposal_queue s' g = q ∧ (refs_ok s g → refs_ok s' g).

Lemma refines_same g s s' :
  store_inv s' → (∀ i, read_raw_group s' g i = read_raw_group s g i) →
  refines g s s' (proposal_queue s g).
Proof using Type. intros Hi E. destruct (proposal_queue_same _ _ _ E) as [E1 E2]. by split_and!. Qed.

(** Committing new references and one body, or failing to. *)
Lemma refs_commit g g' refs v reference o s s' r :
  store_inv s → n_byte 47 ∉ as_bytes g → n_byte 47 ∉ as_bytes g' → encode_entity refs = Ok v →
  is_ok (validate_record_key (mls_key g' "proposal-refs")) = true →
  is_ok (validate_record_key (mls_key g' (body_key reference))) = true →
  (∀ b, o = Some b → (blen b ≤ MAX_VALUE_BYTES)%N) →
  (∀ x, x ∈ refs → x = reference ∨ x ∈ queued_proposal_refs s g') →
  mls_commit g' [("proposal-refs", Some v); (body_key reference, o)] s = (s', r) →
  refines g s s'
    (if is_ok r then
       if decide (g' = g) then map (λ r, (r, if decide (r = reference) then o
                                             else read_raw_group s g (body_key r))) refs
       else proposal_queue s g
     else proposal_queue s g).
Proof using All.
  intros Hs Hg Hg' He Hk1 Hk2 Ho Hin Hc. assert (Hi : store_inv s') by (by eapply store_batch_inv).
  destruct r as [[]|e]; simpl.
  - destruct (commit_refs _ _ _ _ _ _ _ Hs Hg' He Hc) as (Hq & Hr & Hother).
    case_decide as Hd; [subst g'|by apply refines_same; [|intros i; apply Hother]].
    split_and!; [done..|]. unfold refs_ok. rewrite Hr, !Forall_forall. intros Hok x Hx.
    destruct (Hin x Hx) as [->|]; auto.
  - apply refines_same; [done|]. intros i. apply (commit_err _ _ _ _ _ Hs) with (2 := Hc).
    pose proof (proj2 (encode_entity_spec _ _ He)) as Hv.
    destruct o as [b|]; cbn [map change_mutation fst snd forallb mutation_ok];
      rewrite Hk1, (proj2 (N.leb_le _ _) Hv), Hk2; [|done].
    by rewrite (proj2 (N.leb_le _ _) (Ho b eq_refl)).
Qed.

Lemma queue_refines g g' r b s s' ok :
  store_inv s → n_byte 47 ∉ as_bytes g → proposal_op_ok (PQueue g' r b) →
  proposal_apply (PQueue g' r b) s = (s', ok) →
  refines g s s' (if ok then queue_step g (PQueue g' r b) (proposal_queue s g) else proposal_queue s g).
Proof using All.
  intros Hs Hg (Hg' & Hk & Hkb & Hb). unfold proposal_apply, outcome, queue_proposal. rust_simpl.
  destruct (existsb _ _) eqn:Hex.
  { intros [= <- <-]. cbn [is_ok queue_step].
    assert (E : (if decide (g' = g) then enqueue (proposal_ref_key r) b (proposal_queue s g)
                 else proposal_queue s g) = proposal_queue s g).
    { case_decide; [subst g'|done]. unfold enqueue. by rewrite proposal_queue_keys, Hex. }
    rewrite E. by apply refines_same. }
  destruct (encode_entity _) as [v|] eqn:He; simpl; [|intros [= <- <-]; by apply refines_same].
  destruct (mls_commit _ _ _) as [s1 r1] eqn:Hc. intros [= <- <-].
  assert (Hin : ∀ x, x ∈ queued_proposal_refs s g' ++ [proposal_ref_key r] →
    x = proposal_ref_key r ∨ x ∈ queued_proposal_refs s g') by set_solver.
  pose proof (refs_commit g g' _ v (proposal_ref_key r) (Some b) s s1 r1 Hs Hg Hg' He Hk Hkb
    ltac:(by intros ? [= <-]) Hin Hc) as Href.
  destruct r1 as [[]|]; simpl in *; [|done]. case_decide as Hd; [subst g'|done].
  assert (E : enqueue (proposal_ref_key r) b (proposal_queue s g) =
    map (λ r0, (r0, if decide (r0 = proposal_ref_key r) then Some b else read_raw_group s g (body_key r0)))
      (queued_proposal_refs s g ++ [proposal_ref_key r])); [|by rewrite E].
  unfold enqueue. rewrite proposal_queue_keys, Hex, map_app. cbn [map]. rewrite decide_True by done.
  f_equal. unfold proposal_queue. apply map_ext_in. intros x Hx%list_elem_of_In. f_equal.
  rewrite decide_False; [done|]. intros ->. apply not_true_iff_false in Hex. apply Hex.
  apply existsb_exists. exists (proposal_ref_key r). split; [by apply list_elem_of_In|apply seqb_refl].
Qed.

Lemma remove_refines g g' r s s' ok :
  store_inv s → n_byte 47 ∉ as_bytes g → proposal_op_ok (PRemove g' r) →
  proposal_apply (PRemove g' r) s = (s', ok) →
  refines g s s' (if ok then queue_step g (PRemove g' r) (proposal_queue s g) else proposal_queue s g).
Proof using All.
  intros Hs Hg (Hg' & Hk & Hkb). unfold proposal_apply, outcome, remove_proposal. rust_simpl.
  destruct (encode_entity _) as [v|] eqn:He; simpl; [|intros [= <- <-]; by apply refines_same].
  destruct (mls_commit _ _ _) as [s1 r1] eqn:Hc. intros [= <- <-].
  assert (Hin : ∀ x, x ∈ filter (λ item, item ≠ proposal_ref_key r) (queued_proposal_refs s g') →
    x = proposal_ref_key r ∨ x ∈ queued_proposal_refs s g').
  { intros x [_ ?]%list_elem_of_filter. by right. }
  pose proof (refs_commit g g' _ v (proposal_ref_key r) None s s1 r1 Hs Hg Hg' He Hk Hkb
    ltac:(done) Hin Hc) as Href.
  destruct r1 as [[]|]; simpl in *; [|done]. case_decide as Hd; [subst g'|done].
  assert (E : dequeue (proposal_ref_key r) (proposal_queue s g) =
    map (λ r0, (r0, if decide (r0 = proposal_ref_key r) then None else read_raw_group s g (body_key r0)))
      (filter (λ item, item ≠ proposal_ref_key r) (queued_proposal_refs s g))); [|by rewrite E].
  apply dequeue_map.
Qed.

Lemma deletes_ok s g :
  refs_ok s g →
  forallb mutation_ok
    (map (change_mutation g) (map (λ r, ("proposal/" +:+ r, None)) (queued_proposal_refs s g))) = true.
Proof using Type.
  unfold refs_ok. induction 1 as [|x l Hx _ IH]; [done|].
  cbn [map change_mutation fst snd forallb mutation_ok]. change ("proposal/" +:+ x) with (body_key x).
  by rewrite Hx.
Qed.

Lemma clear_refines g g' s s' ok :
  store_inv s → n_byte 47 ∉ as_bytes g → proposal_op_ok (PClear g') → refs_ok s g' →
  proposal_apply (PClear g') s = (s', ok) →
  refines g s s' (if ok then queue_step g (PClear g') (proposal_queue s g) else proposal_queue s g).
Proof using All.
  intros Hs Hg (Hg' & Hk & _) Href. unfold proposal_apply, outcome, clear_proposals.
  destruct (mls_commit _ _ _) as [s1 r1] eqn:Hc. intros [= <- <-].
  assert (Hi : store_inv s1) by (by eapply store_batch_inv).
  destruct r1 as [[]|e]; cbn [is_ok fst snd].
  - cbn [queue_step]. case_decide as Hd; [subst g'|].
    + assert (Hr : queued_proposal_refs s1 g = []).
      { unfold queued_proposal_refs. rewrite (commit_raw _ _ _ _ Hs Hc). cbn [map change_mutation fst snd].
        rewrite view_batch_cons. rewrite view_batch_untouched; [by rewrite view_update_eq|].
        intros m ([i o] & -> & (x & [= -> ->] & _)%list_elem_of_fmap)%list_elem_of_fmap.
        intros E%(f_equal snd). apply (mls_key_inj g g) in E as [_ E]; [|done..]. by destruct (body_key_refs x). }
      split_and!; [done|unfold proposal_queue; by rewrite Hr|]. intros _. unfold refs_ok. by rewrite Hr.
    + apply refines_same; [done|]. intros i. eapply store_batch_untouched; [done..|].
      intros m ([j o] & -> & _)%list_elem_of_fmap E. apply Hd.
      assert (E' : mls_key g' j = mls_key g i) by (destruct o; cbn in E; congruence).
      by apply (mls_key_inj g' g) in E' as [? _].
  - apply refines_same; [done|]. intros i. apply (commit_err _ _ _ _ _ Hs) with (2 := Hc).
    cbn [map change_mutation fst snd forallb mutation_ok]. cbn [proposal_op_group] in Hk. rewrite Hk. cbn [andb].
    by apply deletes_ok.
Qed.

Fixpoint proposal_run (ops : list ProposalOp) s : S * list (ProposalOp * bool) :=
  match ops with
  | [] => (s, [])
  | op :: rest =>
    let '(s, ok) := proposal_apply op s in
    let '(s, outcomes) := proposal_run rest s in
    (s, (op, ok) :: outcomes)
  end.

Definition queue_run (g : string) (outcomes : list (ProposalOp * bool)) (q : ProposalQueue)
  : ProposalQueue :=
  fold_left (λ q o, if o.2 : bool then queue_step g o.1 q else q) outcomes q.

Lemma proposal_step_refines g op s s' ok :
  store_inv s → n_byte 47 ∉ as_bytes g → proposal_op_ok op →
  (∀ g', n_byte 47 ∉ as_bytes g' → refs_ok s g') → proposal_apply op s = (s', ok) →
  refines g s s' (if ok then queue_step g op (proposal_queue s g) else proposal_queue s g).
Proof using All.
  intros Hs Hg Hop Href. destruct op.
  - by apply queue_refines.
  - by apply remove_refines.
  - apply clear_refines; [done..|]. apply Href, Hop.
Qed.

(** C36. The proposals a group has queued are an ordered queue without duplicates: after any
    sequence of queueing, removing and clearing over groups whose identifiers have no slash, with
    references whose records have valid keys and bodies within the limit of a record, the
    references and bodies of each group are those of the abstract queue that the successful
    operations describe, and an operation that fails in the store changes nothing. The queue may
    begin with any references whose records have valid keys; groups with a slash in their
    identifiers share records ([mls_group_keys_collide]) and are not covered. *)
Theorem mls_proposals_refine g ops s s' outcomes :
  store_inv s → n_byte 47 ∉ as_bytes g → Forall proposal_op_ok ops →
  (∀ g', n_byte 47 ∉ as_bytes g' → refs_ok s g') → proposal_run ops s = (s', outcomes) →
  proposal_queue s' g = queue_run g outcomes (proposal_queue s g) ∧
  (NoDup (proposal_queue s g).*1 → NoDup (proposal_queue s' g).*1).
Proof using All.
  intros Hs Hg Hops Href Hrun.
  assert (Hq : proposal_queue s' g = queue_run g outcomes (proposal_queue s g)).
  { revert s outcomes Hs Hops Href Hrun.
    induction ops as [|op ops IH]; intros s outcomes Hs Hops Href; cbn [proposal_run].
    { by intros [= <- <-]. }
    apply Forall_cons in Hops as [Hop Hops].
    destruct (proposal_apply op s) as [s1 ok] eqn:Ha. destruct (proposal_run ops s1) as [s2 os] eqn:Hr.
    intros [= <- <-].
    assert (Hst : ∀ g', n_byte 47 ∉ as_bytes g' → refines g' s s1
      (if ok then queue_step g' op (proposal_queue s g') else proposal_queue s g'))
      by (intros; by apply proposal_step_refines).
    destruct (Hst g Hg) as (Hi & Hq & _). unfold queue_run. cbn [fold_left fst snd]. rewrite <-Hq.
    apply IH; [done..| |done]. intros g' Hg'. destruct (Hst g' Hg') as (_ & _ & Hrefs). auto. }
  split; [done|]. rewrite Hq. generalize (proposal_queue s g). clear.
  unfold queue_run. induction outcomes as [|[op ok] os IH]; intros q Hd; [done|].
  cbn [fold_left]. apply IH. destruct ok; [|done].
  destruct op; cbn [fst snd queue_step]; case_decide; try done; [| |constructor].
  - unfold enqueue. destruct (existsb _ _) eqn:Hex; [done|]. rewrite fmap_app. apply NoDup_app.
    split_and!; [done| |simpl; apply NoDup_singleton]. intros x Hx Hx'.
    apply list_elem_of_singleton in Hx' as ->. apply not_true_iff_false in Hex. apply Hex.
    apply existsb_exists. eexists. split; [by apply list_elem_of_In|apply seqb_refl].
  - unfold dequeue. eapply sublist_NoDup; [done|]. apply fmap_sublist, sublist_filter.
Qed.
End proposals.

(** ** Replenishing *)

Section replenish.
Context `{Crypto, JsonRoundTrip KeyPackageRecord} {S : Type} `{RecordScanLaws S}.
Implicit Types (s : S).

(** A package that is added: its identifier, its bytes and its encoded record. *)
Definition Added : Type := (bytes * bytes * bytes)%type.
Definition added_mutations (l : list Added) : list RecordMutation :=
  concat (map (λ a, package_mutations a.1.1 a.1.2 a.2) l).
Definition added_ok s (now : N) (a : Added) : Prop :=
  is_registered s a.1.1 = false ∧
  ∃ r, encode_entity r = Ok a.2 ∧ is_available now r = true.

Lemma replenish_loop_added s now needed packages ms n :
  replenish_loop s now needed packages = Ok (ms, n) →
  ∃ l : list Added, ms = added_mutations l ∧ n = blen l ∧ (n ≤ needed)%N ∧
    Forall (added_ok s now) l ∧ map (λ a, a.1.1) l `prefix_of` map (λ p, p.1.1.1) packages.
Proof using Type.
  revert needed ms n.
  induction packages as [|[[[pid package] nb] na] rest IH]; intros needed ms n; cbn [replenish_loop].
  { intros [= <- <-]. exists []. split_and!; [done|done|lia|done|apply prefix_nil]. }
  destruct (needed =? 0)%N eqn:Hz.
  { intros [= <- <-]. exists []. split_and!; [done|done|lia|done|apply prefix_nil]. }
  destruct (_ || _ || _) eqn:Hlife; [done|]. destruct (is_registered s pid) eqn:Hr; [done|].
  destruct (encode_entity _) as [record|] eqn:He; simpl; [|done].
  destruct (replenish_loop s now (needed - 1) rest) as [[ms' n']|] eqn:Hl; simpl; [|done].
  intros [= <- <-]. destruct (IH _ _ _ Hl) as (l & -> & -> & Hn & Hok & Hpre).
  exists ((pid, package, record) :: l). split_and!; [done|by rewrite blen_cons|lia| |].
  - constructor; [|done]. split; [done|]. eexists. split; [done|]. bool_props.
    unfold is_available, is_expired. simpl.
    apply negb_true_iff. lia.
  - cbn [map fst]. by apply prefix_cons.
Qed.

(** The entries of the scan that count. *)
Definition counts (now : N) (p : string * bytes) : bool :=
  match decode_entity p.2 with Ok r => is_available now r | Err _ => false end.

Lemma available_count_entries s now :
  available_key_package_count s now
  = blen (filter (λ p, counts now p = true) (store_prefix s ProtocolSession KEY_PACKAGE_STATES)).
Proof using Type.
  unfold available_key_package_count. induction (store_prefix _ _ _) as [|p l IH]; [done|].
  assert (Hc : counts now p = match decode_entity p.2 with Ok r => is_available now r | Err _ => false end)
    by done.
  rewrite (filter_cons _ p). cbn [omap list_omap]. destruct (decode_entity p.2) as [r|]; cbn [result_ok].
  - rewrite filter_cons. rewrite <-Hc. case_decide; [|done]. by rewrite !blen_cons, IH.
  - rewrite decide_False by congruence. done.
Qed.

Lemma entries_nodup s now :
  store_inv s →
  NoDup (filter (λ p, counts now p = true) (store_prefix s ProtocolSession KEY_PACKAGE_STATES)).
Proof using All.
  intros Hs. eapply sublist_NoDup, sublist_filter.
  eapply NoDup_fmap_1, store_prefix_nodup, Hs.
Qed.

Lemma state_key_prefix pid : starts_with KEY_PACKAGE_STATES (key_package_state_key pid) = true.
Proof using Type. apply starts_with_true. by exists (of_bytes (hex_b (sha256 pid))). Qed.

Lemma crypto_key_prefix i x : starts_with KEY_PACKAGE_STATES (crypto_key i x) = false.
Proof using Type.
  apply not_true_iff_false. intros (r & E)%starts_with_true. apply (f_equal (split 47)) in E.
  rewrite split_crypto_key in E. unfold KEY_PACKAGE_STATES, MLS_PREFIX in E.
  change (("mls/v1/" +:+ "crypto/key-package-state/") +:+ r)
    with ("mls" +:+ "/" +:+ ("v1" +:+ "/" +:+ ("crypto" +:+ "/" +:+ ("key-package-state" +:+ "/" +:+ r)))) in E.
  rewrite !split_slash in E by (by apply no_slash). by destruct i.
Qed.

Lemma elem_of_added m l :
  m ∈ added_mutations l ↔ ∃ a, a ∈ l ∧ m ∈ package_mutations a.1.1 a.1.2 a.2.
Proof using Type.
  unfold added_mutations. rewrite list_elem_of_In, in_concat. split.
  - intros (x & (a & <- & Ha)%in_map_iff & Hm). exists a. by rewrite !list_elem_of_In.
  - intros (a & Ha & Hm). eexists. rewrite in_map_iff. rewrite !list_elem_of_In in *. eauto.
Qed.

(** The counted entries after the batch are those before and the new ones. *)
Lemma added_entries l s s' now :
  store_inv s → scannable s → scannable s' → Forall (added_ok s now) l →
  NoDup (map (λ a : Added, sha256 a.1.1) l) → store_batch (added_mutations l) s = (s', Ok tt) →
  filter (λ p, counts now p = true) (store_prefix s' ProtocolSession KEY_PACKAGE_STATES)
  ≡ₚ map (λ a : Added, (key_package_state_key a.1.1, a.2)) l
     ++ filter (λ p, counts now p = true) (store_prefix s ProtocolSession KEY_PACKAGE_STATES).
Proof using All.
  intros Hs Hsc Hsc' Hok Hnd Hb. pose proof (store_batch_ok _ _ _ Hs Hb) as Hget.
  assert (Hs' : store_inv s') by (by eapply store_batch_inv).
  rewrite Forall_forall in Hok.
  assert (Hnew : ∀ a, a ∈ l → store_get s' ProtocolSession (key_package_state_key a.1.1) = Some a.2).
  { intros a Ha. rewrite Hget.
    destruct (view_batch_touched (added_mutations l) (store_get s) ProtocolSession
      (key_package_state_key a.1.1)) as (m & Hm & Hk & ->).
    { eexists. rewrite elem_of_added. split; [exists a; split; [done|by right; left]|done]. }
    apply elem_of_added in Hm as (b & Hb' & Hm). apply (f_equal snd) in Hk.
    apply elem_of_cons in Hm as [->|Hm]; [by apply crypto_state_key in Hk|].
    apply list_elem_of_singleton in Hm as ->. cbn [mutation_key snd mutation_value] in *.
    apply state_key_same in Hk. do 2 f_equal.
    by apply (NoDup_map_inj (λ a : Added, sha256 a.1.1) l). }
  assert (Hold : ∀ k, starts_with KEY_PACKAGE_STATES k = true →
    (∀ a, a ∈ l → k ≠ key_package_state_key a.1.1) →
    store_get s' ProtocolSession k = store_get s ProtocolSession k).
  { intros k Hk Hne. rewrite Hget. apply view_batch_untouched. intros m (a & Ha & Hm)%elem_of_added E.
    apply (f_equal snd) in E. apply elem_of_cons in Hm as [->|Hm].
    - cbn [mutation_key snd] in E. by rewrite <-E, crypto_key_prefix in Hk.
    - apply list_elem_of_singleton in Hm as ->. by apply (Hne a). }
  assert (Hfresh : ∀ a v, a ∈ l → store_get s ProtocolSession (key_package_state_key a.1.1) = Some v →
    counts now (key_package_state_key a.1.1, v) = false).
  { intros a v Ha Hv. destruct (Hok a Ha) as [Hr _]. apply (read_registered _ _ a.1.1) in Hr; [|done].
    unfold read_key_package_record in Hr. rewrite Hv in Hr. unfold counts. cbn [snd].
    by destruct (decode_entity v). }
  assert (Hcounts : ∀ a, a ∈ l → counts now (key_package_state_key a.1.1, a.2) = true).
  { intros a Ha. destruct (Hok a Ha) as (_ & r & He & Hav). unfold counts. cbn [snd].
    by rewrite (proj1 (encode_entity_spec _ _ He)). }
  apply NoDup_Permutation; [by apply entries_nodup| |].
  - apply NoDup_app. split_and!; [| |by apply entries_nodup].
    + apply (NoDup_fmap_1 fst). rewrite <-list_fmap_compose.
      apply (NoDup_fmap_1 id). revert Hnd. generalize l. clear. intros l.
      induction l as [|a l IH]; [constructor|]. cbn [map fmap list_fmap].
      intros [Hn Hd]%NoDup_cons. apply NoDup_cons. split; [|auto]. simpl.
      intros (k & E & (b & -> & Hb)%list_elem_of_fmap)%list_elem_of_fmap. apply Hn.
      apply list_elem_of_fmap. exists b. split; [|done]. by apply state_key_same.
    + intros p (a & -> & Ha)%list_elem_of_fmap [Hc Hp]%list_elem_of_filter.
      apply store_prefix_spec in Hp as [Hv _]; [|done..]. by rewrite (Hfresh a _ Ha Hv) in Hc.
  - intros [k v]. rewrite elem_of_app, !list_elem_of_filter, list_elem_of_fmap.
    rewrite !store_prefix_spec by done. split.
    + intros (Hc & Hv & Hk).
      destruct (decide (Exists (λ a : Added, k = key_package_state_key a.1.1) l)) as [He|He].
      * apply Exists_exists in He as (a & Ha & ->). left. exists a.
        rewrite Hnew in Hv by done. by simplify_eq.
      * right. split_and!; [done| |done]. rewrite <-Hold; [done..|].
        intros a Ha ->. apply He, Exists_exists. eauto.
    + intros [(a & [= -> ->] & Ha)|(Hc & Hv & Hk)].
      * split_and!; [by apply Hcounts|by apply Hnew|apply state_key_prefix].
      * split_and!; [done| |done]. rewrite Hold; [done..|]. intros a Ha ->.
        by rewrite (Hfresh a _ Ha Hv) in Hc.
Qed.

(** Replenishing that succeeds leaves exactly the requested number of available packages, and
    adds none when there were enough already: the packages it is offered must have identifiers
    with different digests, as the caller generates fresh ones. *)
Theorem mls_replenish_reaches_minimum minimum now packages s s' n :
  store_inv s → scannable s → scannable s' →
  NoDup (map (λ p : bytes * bytes * N * N, sha256 p.1.1.1) packages) →
  replenish_key_packages minimum now packages s = (s', Ok n) →
  available_key_package_count s' now = N.max minimum (available_key_package_count s now) ∧
  n = saturating_sub minimum (available_key_package_count s now).
Proof using All.
  intros Hs Hsc Hsc' Hnd. unfold replenish_key_packages. cbv zeta.
  destruct (_ =? 0)%N eqn:Hz; [intros [= <- <-]; unfold saturating_sub in *; lia|].
  destruct (replenish_loop _ _ _ _) as [[ms added]|] eqn:Hl; [|done].
  apply replenish_loop_added in Hl as (l & -> & -> & Hle & Hok & Hpre).
  destruct (_ <? _)%N eqn:Hlt; [done|]. unfold kp_batch. rust_simpl.
  destruct (store_batch _ s) as [s1 [[]|]] eqn:Hb; [|done]. intros [= <- <-].
  assert (Hd : NoDup (map (λ a : Added, sha256 a.1.1) l)).
  { destruct Hpre as [rest Hpre]. apply (f_equal (map sha256)) in Hpre.
    rewrite map_app, !map_map in Hpre. rewrite Hpre in Hnd. by apply NoDup_app in Hnd as [? _]. }
  rewrite !available_count_entries in *. unfold blen in *.
  rewrite (Permutation_length (added_entries l s s1 now Hs Hsc Hsc' Hok Hd Hb)).
  rewrite length_app, length_map. unfold saturating_sub in *. lia.
Qed.
End replenish.

(** ** Concrete runs *)

Module MlsStoreSample.
Import Reference TableStore.
Definition pid : bytes := as_bytes "package-1".
Definition secret : bytes := as_bytes "reservation".
Definition other : bytes := as_bytes "another reservation".
Definition reserved : KeyPackageRecord :=
  {| kp_state := Reserved; kp_reservation_digest := Some (hex_digest (sha256 secret));
     kp_not_before := None; kp_not_after := None |}.
Definition consumed : KeyPackageRecord :=
  {| kp_state := Consumed; kp_reservation_digest := None; kp_not_before := None; kp_not_after := None |}.
Definition table : list KeyPackageRecord :=
  [fresh_record None None; reserved; consumed; fresh_record (Some 0%N) (Some 9%N)].
#[local] Instance record_codec : JsonCodec KeyPackageRecord := json_table table.
#[local] Instance record_laws : JsonRoundTrip KeyPackageRecord := json_table_laws table.
#[local] Instance leaves_codec : JsonCodec (list bytes) := json_table [].

Definition ref_a : bytes := as_bytes "a".
Definition ref_b : bytes := as_bytes "b".
Definition lists : list (list string) :=
  [[]; [proposal_ref_key ref_a]; [proposal_ref_key ref_a; proposal_ref_key ref_b]; [proposal_ref_key ref_b]].
#[local] Instance refs_codec : JsonCodec (list string) := json_table lists.
#[local] Instance refs_laws : JsonRoundTrip (list string) := json_table_laws lists.

Definition registered : Table := (register_key_package pid (as_bytes "bytes") []).1.
Definition held : Table := (reserve_key_package_at pid secret 5 registered).1.
Definition later : list MlsOp :=
  [OpReserve pid other 6; OpConsume pid other; OpWriteGroup "adconv1" Tree (as_bytes "t");
   OpConsume pid secret; OpConsume pid secret; OpRegister pid (as_bytes "again")].

Lemma registered_inv : store_inv registered.
Proof. vm_compute. repeat (apply NoDup_cons; split; [set_solver|]). constructor. Qed.

Lemma mls_key_package_single_use_witness :
  consumptions pid (mls_run later held).2 = [secret] ∧
  length (consumptions pid (mls_run later held).2) ≤ 1 ∧
  key_package_state (mls_run later held).1 pid = Some Consumed.
Proof.
  assert (Hops : Forall mls_op_ok later).
  { repeat (apply Forall_cons; split); try exact I; [|apply Forall_nil_2].
    split; [apply no_slash; vm_compute; reflexivity|discriminate]. }
  assert (Hr : reserve_key_package_at pid secret 5 registered = (held, Ok (sha256 secret)))
    by (vm_compute; reflexivity).
  destruct (mls_key_package_single_use pid secret 5 later registered held (sha256 secret)
    (mls_run later held).1 (mls_run later held).2 registered_inv Hops Hr
    (surjective_pairing _)) as (_ & Hl & _).
  split_and!; [vm_compute; reflexivity|exact Hl|vm_compute; reflexivity].
Defined.

Definition proposals : list ProposalOp :=
  [PQueue "adconv1" ref_a (as_bytes "A"); PQueue "adconv1" ref_a (as_bytes "A2");
   PQueue "adconv1" ref_b (as_bytes "B"); PRemove "adconv1" ref_a].

Lemma mls_proposals_refine_witness :
  proposal_queue (proposal_run proposals ([] : Table)).1 "adconv1"
  = [(proposal_ref_key ref_b, Some (as_bytes "B"))].
Proof.
  assert (Hg : n_byte 47 ∉ as_bytes "adconv1") by (by apply no_slash; vm_compute).
  assert (Hops : Forall proposal_op_ok proposals).
  { repeat (apply Forall_cons; split); try apply Forall_nil_2; split_and!;
      first [exact Hg|vm_compute; reflexivity|vm_compute; discriminate]. }
  destruct (mls_proposals_refine "adconv1" proposals ([] : Table)
    (proposal_run proposals ([] : Table)).1 (proposal_run proposals ([] : Table)).2
    table_empty_inv Hg Hops (λ _ _, Forall_nil_2 _) (surjective_pairing _)) as [-> _].
  vm_compute; reflexivity.
Defined.

Definition offered : list (bytes * bytes * N * N) := [(pid, as_bytes "bytes", 0%N, 9%N)].
Definition replenished : Table := (replenish_key_packages 1 5 offered ([] : Table)).1.

Lemma mls_replenish_reaches_minimum_witness :
  available_key_package_count replenished 5 = 1%N.
Proof.
  assert (Hr : replenish_key_packages 1 5 offered ([] : Table) = (replenished, Ok 1%N))
    by (vm_compute; reflexivity).
  destruct (mls_replenish_reaches_minimum 1 5 offered ([] : Table) replenished 1
    table_empty_inv (table_scannable _) (table_scannable _) (NoDup_singleton _) Hr) as [-> _].
  vm_compute; reflexivity.
Defined.

(** Two offered packages with one identifier are both counted but only one is stored: the call
    reports two added packages while one is available. *)
Theorem mls_replenish_counts_duplicates :
  let packages := [(pid, as_bytes "one", 0%N, 9%N); (pid, as_bytes "two", 0%N, 9%N)] in
  let '(t, r) := replenish_key_packages 2 5 packages ([] : Table) in
  r = Ok 2%N ∧ available_key_package_count t 5 = 1%N.
Proof. vm_compute. by split. Qed.

(** A group identifier with a slash shares records with another group, and the identifier
    [crypto] with the cryptographic items. *)
Theorem mls_group_keys_collide :
  mls_key "a/b" "c" = mls_key "a" "b/c" ∧
  ∀ `{Crypto} p, mls_key "crypto" ("key-package-state/" +:+ of_bytes (hex_b (sha256 p)))
                 = key_package_state_key p.
Proof. by split. Qed.
End MlsStoreSample.
