(* ===== verification/MlsProvider.v ===== *)
(** * The storage provider that OpenMLS writes through ([apps/daemon/src/mls_storage_provider.rs])

    The implementation of OpenMLS's [StorageProvider]: a map from labelled keys to serialized
    values. Groups, references, proposals and the other entities are types of OpenMLS: they are
    parameters with a JSON codec. Methods of the trait whose bodies differ in their label only
    are one definition, over the labels they use. The lock around the map is only ever poisoned
    by a panic and is not modelled, nor are the methods behind features that are off. *)
From Stdlib Require Import Ascii NArith Lia ZifyBool ZifyN.
From stdpp Require Import base gmap strings list.
From S2P Require Import Prelude Text Interfaces.

Definition CURRENT_VERSION : N := 1.
Definition MAX_MLS_VALUES : N := 4096.
Definition MAX_MLS_VALUE_BYTES : N := 4 * 1024 * 1024.

Inductive MlsStorageError :=
| UnsupportedValueTypeBytes | UnsupportedMethod | SerializationError | StorageLimit.

(** [EncryptedMlsStorage::values]. *)
Abbreviation Values := (gmap bytes bytes).

Inductive MlsLabel :=
| KEY_PACKAGE_LABEL | PSK_LABEL | ENCRYPTION_KEY_PAIR_LABEL | SIGNATURE_KEY_PAIR_LABEL
| EPOCH_KEY_PAIRS_LABEL | TREE_LABEL | GROUP_CONTEXT_LABEL | INTERIM_TRANSCRIPT_HASH_LABEL
| CONFIRMATION_TAG_LABEL | JOIN_CONFIG_LABEL | OWN_LEAF_NODES_LABEL | GROUP_STATE_LABEL
| QUEUED_PROPOSAL_LABEL | PROPOSAL_QUEUE_REFS_LABEL | OWN_LEAF_NODE_INDEX_LABEL
| EPOCH_SECRETS_LABEL | RESUMPTION_PSK_STORE_LABEL | MESSAGE_SECRETS_LABEL.
#[export] Instance MlsLabel_eq_dec : EqDecision MlsLabel.
Proof. solve_decision. Defined.

Definition label_bytes (l : MlsLabel) : bytes :=
  as_bytes
    match l with
    | KEY_PACKAGE_LABEL => "KeyPackage"
    | PSK_LABEL => "Psk"
    | ENCRYPTION_KEY_PAIR_LABEL => "EncryptionKeyPair"
    | SIGNATURE_KEY_PAIR_LABEL => "SignatureKeyPair"
    | EPOCH_KEY_PAIRS_LABEL => "EpochKeyPairs"
    | TREE_LABEL => "Tree"
    | GROUP_CONTEXT_LABEL => "GroupContext"
    | INTERIM_TRANSCRIPT_HASH_LABEL => "InterimTranscriptHash"
    | CONFIRMATION_TAG_LABEL => "ConfirmationTag"
    | JOIN_CONFIG_LABEL => "MlsGroupJoinConfig"
    | OWN_LEAF_NODES_LABEL => "OwnLeafNodes"
    | GROUP_STATE_LABEL => "GroupState"
    | QUEUED_PROPOSAL_LABEL => "QueuedProposal"
    | PROPOSAL_QUEUE_REFS_LABEL => "ProposalQueueRefs"
    | OWN_LEAF_NODE_INDEX_LABEL => "OwnLeafNodeIndex"
    | EPOCH_SECRETS_LABEL => "EpochSecrets"
    | RESUMPTION_PSK_STORE_LABEL => "ResumptionPsk"
    | MESSAGE_SECRETS_LABEL => "MessageSecrets"
    end.

(** [u16::to_be_bytes]. *)
Definition build_key_from_vec (label key : bytes) : bytes :=
  label ++ key ++ be_bytes 2 CURRENT_VERSION.

(** [serde_json::to_vec(..)?]: the error converts to [SerializationError]. *)
Definition to_vec {A} `{JsonCodec A} (a : A) : result bytes MlsStorageError :=
  ok_or (json_to_vec a) SerializationError.
Definition from_slice {A} `{JsonCodec A} (b : bytes) : result A MlsStorageError :=
  ok_or (json_from_slice b) SerializationError.

Definition build_key {K} `{JsonCodec K} (label : MlsLabel) (key : K) : result bytes MlsStorageError :=
  let? k := to_vec key in Ok (build_key_from_vec (label_bytes label) k).

(** ** The helpers *)

Definition write (label : MlsLabel) (key value : bytes) : Mut Values unit MlsStorageError :=
  λ values,
    if (MAX_MLS_VALUE_BYTES <? blen value)%N then (values, Err StorageLimit)
    else
      let storage_key := build_key_from_vec (label_bytes label) key in
      if negb (bool_decide (is_Some (values !! storage_key)))
         && (MAX_MLS_VALUES <=? N.of_nat (size values))%N
      then (values, Err StorageLimit)
      else (<[storage_key := value]> values, Ok tt).

(** [values.entry(storage_key).or_insert(b"[]".to_vec())]. *)
Definition entry_or_empty (storage_key : bytes) (values : Values) : Values * bytes :=
  match values !! storage_key with
  | Some b => (values, b)
  | None => (<[storage_key := as_bytes "[]"]> values, as_bytes "[]")
  end.

Section helpers.
Context `{JsonCodec (list bytes)}.

Definition append (label : MlsLabel) (key value : bytes) : Mut Values unit MlsStorageError :=
  λ values,
    let storage_key := build_key_from_vec (label_bytes label) key in
    let '(values, list_bytes) := entry_or_empty storage_key values in
    match from_slice list_bytes with
    | Err e => (values, Err e)
    | Ok list =>
      if (MAX_MLS_VALUES <=? blen list)%N then (values, Err StorageLimit)
      else
        match to_vec (list ++ [value]) with
        | Err e => (values, Err e)
        | Ok encoded =>
          if (MAX_MLS_VALUE_BYTES <? blen encoded)%N then (values, Err StorageLimit)
          else (<[storage_key := encoded]> values, Ok tt)
        end
    end.

(** [list.remove(list.iter().position(|item| item == &value))]. *)
Fixpoint remove_first (value : bytes) (l : list bytes) : list bytes :=
  match l with
  | [] => []
  | x :: t => if decide (x = value) then t else x :: remove_first value t
  end.

(** [to_writer] of a list of byte vectors into a vector fails no more than [to_vec] does; the
    buffer is emptied before it. *)
Definition remove_item (label : MlsLabel) (key value : bytes) : Mut Values unit MlsStorageError :=
  λ values,
    let storage_key := build_key_from_vec (label_bytes label) key in
    let '(values, list_bytes) := entry_or_empty storage_key values in
    match from_slice list_bytes with
    | Err e => (values, Err e)
    | Ok list =>
      match to_vec (remove_first value list) with
      | Err e => (<[storage_key := []]> values, Err e)
      | Ok encoded => (<[storage_key := encoded]> values, Ok tt)
      end
    end.

Definition read {V} `{JsonCodec V} (label : MlsLabel) (key : bytes) (values : Values)
  : result (option V) MlsStorageError :=
  match values !! build_key_from_vec (label_bytes label) key with
  | Some value => let? v := from_slice value in Ok (Some v)
  | None => Ok None
  end.

Fixpoint from_slices {V} `{JsonCodec V} (l : list bytes) : result (list V) MlsStorageError :=
  match l with
  | [] => Ok []
  | b :: t => let? v := from_slice b in let? vs := from_slices t in Ok (v :: vs)
  end.

Definition read_list {V} `{JsonCodec V} (label : MlsLabel) (key : bytes) (values : Values)
  : result (list V) MlsStorageError :=
  let storage_key := label_bytes label ++ key ++ be_bytes 2 CURRENT_VERSION in
  let? list :=
    match values !! storage_key with
    | Some list_bytes => from_slice list_bytes
    | None => Ok []
    end in
  from_slices list.
End helpers.

Definition delete_key (label : MlsLabel) (key : bytes) : Mut Values unit MlsStorageError :=
  λ values, (delete (label_bytes label ++ key ++ be_bytes 2 CURRENT_VERSION) values, Ok tt).

(** ** The methods of the trait *)

(** Values read and written per group, behind the limits. *)
Inductive GroupValue :=
| GroupStateValue | MessageSecretsValue | ResumptionPskValue | OwnLeafIndexValue | EpochSecretsValue.
Definition group_value_label (g : GroupValue) : MlsLabel :=
  match g with
  | GroupStateValue => GROUP_STATE_LABEL
  | MessageSecretsValue => MESSAGE_SECRETS_LABEL
  | ResumptionPskValue => RESUMPTION_PSK_STORE_LABEL
  | OwnLeafIndexValue => OWN_LEAF_NODE_INDEX_LABEL
  | EpochSecretsValue => EPOCH_SECRETS_LABEL
  end.

(** Values that the methods insert into the map themselves. *)
Inductive DirectValue :=
| TranscriptHashValue | ContextValue | ConfirmationTagValue | SignatureKeyPairValue.
Definition direct_value_label (d : DirectValue) : MlsLabel :=
  match d with
  | TranscriptHashValue => INTERIM_TRANSCRIPT_HASH_LABEL
  | ContextValue => GROUP_CONTEXT_LABEL
  | ConfirmationTagValue => CONFIRMATION_TAG_LABEL
  | SignatureKeyPairValue => SIGNATURE_KEY_PAIR_LABEL
  end.

(** Values with an identifier of their own. *)
Inductive KeyedValue := KeyPackageValue | PskValue | EncryptionKeyPairValue.
Definition keyed_value_label (k : KeyedValue) : MlsLabel :=
  match k with
  | KeyPackageValue => KEY_PACKAGE_LABEL
  | PskValue => PSK_LABEL
  | EncryptionKeyPairValue => ENCRYPTION_KEY_PAIR_LABEL
  end.

Section methods.
Context {GroupId ProposalRef QueuedProposal : Type}.
Context `{JsonCodec GroupId, JsonCodec ProposalRef, JsonCodec QueuedProposal}.
Context `{JsonCodec (GroupId * ProposalRef), JsonCodec (list bytes)}.

(** [self.write(label, &to_vec(key)?, to_vec(value)?)]. *)
Definition write_value {K V} `{JsonCodec K, JsonCodec V} (label : MlsLabel) (key : K) (value : V)
  : Mut Values unit MlsStorageError :=
  let! k := mut_lift (to_vec key) in
  let! v := mut_lift (to_vec value) in
  write label k v.

Definition delete_value {K} `{JsonCodec K} (label : MlsLabel) (key : K)
  : Mut Values unit MlsStorageError :=
  let! k := mut_lift (to_vec key) in delete_key label k.

Definition read_value {K V} `{JsonCodec K, JsonCodec V} (label : MlsLabel) (key : K) (values : Values)
  : result (option V) MlsStorageError :=
  let? k := to_vec key in read label k values.

Definition queue_proposal (group_id : GroupId) (proposal_ref : ProposalRef)
    (proposal : QueuedProposal) : Mut Values unit MlsStorageError :=
  let! key := mut_lift (to_vec (group_id, proposal_ref)) in
  let! value := mut_lift (to_vec proposal) in
  let! _ := write QUEUED_PROPOSAL_LABEL key value in
  let! key := mut_lift (to_vec group_id) in
  let! value := mut_lift (to_vec proposal_ref) in
  append PROPOSAL_QUEUE_REFS_LABEL key value.

Definition write_tree {V} `{JsonCodec V} (group_id : GroupId) (tree : V)
  : Mut Values unit MlsStorageError :=
  write_value TREE_LABEL group_id tree.

(** [write_interim_transcript_hash], [write_context], [write_confirmation_tag] and
    [write_signature_key_pair]. *)
Definition write_direct {K V} `{JsonCodec K, JsonCodec V} (d : DirectValue) (key : K) (value : V)
  : Mut Values unit MlsStorageError :=
  let! k := mut_lift (build_key (direct_value_label d) key) in
  let! v := mut_lift (to_vec value) in
  λ values, (<[k := v]> values, Ok tt).

Definition queued_proposal_refs (group_id : GroupId) (values : Values)
  : result (list ProposalRef) MlsStorageError :=
  let? key := to_vec group_id in read_list PROPOSAL_QUEUE_REFS_LABEL key values.

Fixpoint proposals_of (group_id : GroupId) (refs : list ProposalRef) (values : Values)
  : result (list (ProposalRef * QueuedProposal)) MlsStorageError :=
  match refs with
  | [] => Ok []
  | r :: t =>
    let? key := to_vec (group_id, r) in
    let? found := read QUEUED_PROPOSAL_LABEL key values in
    let? proposal := ok_or found SerializationError in
    let? rest := proposals_of group_id t values in
    Ok ((r, proposal) :: rest)
  end.

Definition queued_proposals (group_id : GroupId) (values : Values)
  : result (list (ProposalRef * QueuedProposal)) MlsStorageError :=
  let? refs := queued_proposal_refs group_id values in proposals_of group_id refs values.

(** [tree] ([None]), and [group_context], [interim_transcript_hash], [confirmation_tag] and
    [signature_key_pair]. *)
Definition read_direct {K V} `{JsonCodec K, JsonCodec V} (d : option DirectValue) (key : K)
    (values : Values) : result (option V) MlsStorageError :=
  let label := match d with Some d => direct_value_label d | None => TREE_LABEL end in
  let? k := build_key label key in
  match values !! k with
  | None => Ok None
  | Some value => let? v := from_slice value in Ok (Some v)
  end.

(** [write_key_package], [write_psk], [write_encryption_key_pair]; then their reads; then
    their deletions and that of a signature key pair. *)
Definition write_keyed {K V} `{JsonCodec K, JsonCodec V} (k : KeyedValue) (key : K) (value : V)
  : Mut Values unit MlsStorageError :=
  write_value (keyed_value_label k) key value.
Definition read_keyed {K V} `{JsonCodec K, JsonCodec V} (k : KeyedValue) (key : K) (values : Values)
  : result (option V) MlsStorageError :=
  read_value (keyed_value_label k) key values.
Definition delete_keyed {K} `{JsonCodec K} (k : option KeyedValue) (key : K)
  : Mut Values unit MlsStorageError :=
  delete_value (match k with Some k => keyed_value_label k | None => SIGNATURE_KEY_PAIR_LABEL end) key.

(** The read, write and deletion of each [GroupValue]. *)
Definition group_value_op {V} `{JsonCodec V} (g : GroupValue) (group_id : GroupId)
    (op : option (option V)) : Mut Values (option V) MlsStorageError :=
  match op with
  | None => λ values, (values, read_value (group_value_label g) group_id values)
  | Some (Some v) => let! _ := write_value (group_value_label g) group_id v in mut_ret None
  | Some None => let! _ := delete_value (group_value_label g) group_id in mut_ret None
  end.

Section epochs.
Context {EpochKey HpkeKeyPair : Type} `{JsonCodec EpochKey, JsonCodec (list HpkeKeyPair)}.

(** [serde_json::to_vec(&leaf_index)] of a [u32] is its decimal digits. *)
Definition epoch_key_pairs_id (group_id : GroupId) (epoch : EpochKey) (leaf_index : N)
  : result bytes MlsStorageError :=
  let? g := to_vec group_id in
  let? e := to_vec epoch in
  Ok (g ++ e ++ as_bytes (u64_to_string leaf_index)).

Definition write_encryption_epoch_key_pairs (group_id : GroupId) (epoch : EpochKey) (leaf_index : N)
    (key_pairs : list HpkeKeyPair) : Mut Values unit MlsStorageError :=
  let! key := mut_lift (epoch_key_pairs_id group_id epoch leaf_index) in
  let! value := mut_lift (to_vec key_pairs) in
  write EPOCH_KEY_PAIRS_LABEL key value.

Definition encryption_epoch_key_pairs (group_id : GroupId) (epoch : EpochKey) (leaf_index : N)
    (values : Values) : result (list HpkeKeyPair) MlsStorageError :=
  let? key := epoch_key_pairs_id group_id epoch leaf_index in
  match values !! build_key_from_vec (label_bytes EPOCH_KEY_PAIRS_LABEL) key with
  | Some value => from_slice value
  | None => Ok []
  end.

Definition delete_encryption_epoch_key_pairs (group_id : GroupId) (epoch : EpochKey) (leaf_index : N)
  : Mut Values unit MlsStorageError :=
  let! key := mut_lift (epoch_key_pairs_id group_id epoch leaf_index) in
  delete_key EPOCH_KEY_PAIRS_LABEL key.
End epochs.

(** The loop of [clear_proposal_queue]. *)
Fixpoint clear_loop (group_id : GroupId) (refs : list ProposalRef) : Mut Values unit MlsStorageError :=
  λ values,
    match refs with
    | [] => (values, Ok tt)
    | r :: t =>
      match to_vec (group_id, r) with
      | Err e => (values, Err e)
      | Ok key => clear_loop group_id t (delete key values)
      end
    end.

Definition clear_proposal_queue (group_id : GroupId) : Mut Values unit MlsStorageError :=
  λ values,
    (let! refs := mut_lift (queued_proposal_refs group_id values) in
     let! _ := clear_loop group_id refs in
     let! key := mut_lift (build_key PROPOSAL_QUEUE_REFS_LABEL group_id) in
     λ values, (delete key values, Ok tt)) values.

Definition mls_group_join_config {V} `{JsonCodec V} (group_id : GroupId) (values : Values)
  : result (option V) MlsStorageError := read_value JOIN_CONFIG_LABEL group_id values.

Definition write_mls_join_config {V} `{JsonCodec V} (group_id : GroupId) (config : V)
  : Mut Values unit MlsStorageError := write_value JOIN_CONFIG_LABEL group_id config.

Definition own_leaf_nodes {V} `{JsonCodec V} (group_id : GroupId) (values : Values)
  : result (list V) MlsStorageError :=
  let? key := to_vec group_id in read_list OWN_LEAF_NODES_LABEL key values.

Definition append_own_leaf_node {V} `{JsonCodec V} (group_id : GroupId) (leaf_node : V)
  : Mut Values unit MlsStorageError :=
  let! key := mut_lift (to_vec group_id) in
  let! value := mut_lift (to_vec leaf_node) in
  append OWN_LEAF_NODES_LABEL key value.

(** [delete_own_leaf_nodes], [delete_group_config], [delete_tree], [delete_confirmation_tag],
    [delete_context] and [delete_interim_transcript_hash]. *)
Inductive GroupDeletion :=
| DeleteLeafNodes | DeleteConfig | DeleteTree | DeleteTag | DeleteContext | DeleteTranscriptHash.
Definition delete_group_part (d : GroupDeletion) (group_id : GroupId)
  : Mut Values unit MlsStorageError :=
  delete_value
    match d with
    | DeleteLeafNodes => OWN_LEAF_NODES_LABEL
    | DeleteConfig => JOIN_CONFIG_LABEL
    | DeleteTree => TREE_LABEL
    | DeleteTag => CONFIRMATION_TAG_LABEL
    | DeleteContext => GROUP_CONTEXT_LABEL
    | DeleteTranscriptHash => INTERIM_TRANSCRIPT_HASH_LABEL
    end group_id.

Definition remove_proposal (group_id : GroupId) (proposal_ref : ProposalRef)
  : Mut Values unit MlsStorageError :=
  let! key := mut_lift (to_vec group_id) in
  let! value := mut_lift (to_vec proposal_ref) in
  let! _ := remove_item PROPOSAL_QUEUE_REFS_LABEL key value in
  let! key := mut_lift (to_vec (group_id, proposal_ref)) in
  delete_key QUEUED_PROPOSAL_LABEL key.
End methods.
