(* ===== verification/MlsProviderProps.v ===== *)
(** * What the OpenMLS storage provider keeps

    Theorems about [MlsProvider.v]: labelled keys never collide, the proposal queue reads back
    what was queued, and three things the provider does not do: it does not delete the bodies of
    a cleared queue, it does not apply its limits everywhere, and the keys of epoch key pairs
    run epoch and leaf index together. *)
From Stdlib Require Import Ascii NArith Lia ZifyBool ZifyN.
From stdpp Require Import base gmap strings list.
From S2P Require Import Prelude Text Interfaces MlsProvider.

(** ** Keys *)

Lemma label_prefix_free l l' : label_bytes l `prefix_of` label_bytes l' → l = l'.
Proof.
  intros [r E]. apply (f_equal (starts_with_b (label_bytes l))) in E.
  unfold starts_with_b in E at 2. rewrite strip_prefix_b_app in E. by destruct l, l'.
Qed.

(** Two labelled keys are equal only if label and key are. *)
Lemma storage_key_inj l l' k k' :
  build_key_from_vec (label_bytes l) k = build_key_from_vec (label_bytes l') k' → l = l' ∧ k = k'.
Proof.
  unfold build_key_from_vec. rewrite !app_assoc. intros E%app_inv_tail.
  destruct (prefix_weak_total (label_bytes l) (label_bytes l') (label_bytes l ++ k)) as [Hp|Hp].
  - by exists k.
  - rewrite E. by exists k'.
  - apply label_prefix_free in Hp as ->. split; [done|]. by eapply app_inv_head.
  - apply label_prefix_free in Hp as ->. split; [done|]. by eapply app_inv_head.
Qed.

(** The value under a label and a key. *)
Definition slot (values : Values) (l : MlsLabel) (k : bytes) : option bytes :=
  values !! build_key_from_vec (label_bytes l) k.

Lemma slot_insert values l k v l' k' :
  slot (<[build_key_from_vec (label_bytes l) k := v]> values) l' k'
  = if decide (l = l' ∧ k = k') then Some v else slot values l' k'.
Proof.
  unfold slot. case_decide as Hd; [destruct Hd as [-> ->]; apply lookup_insert_eq|].
  apply lookup_insert_ne. by intros E%storage_key_inj.
Qed.

Lemma slot_delete values l k l' k' :
  slot (delete (build_key_from_vec (label_bytes l) k) values) l' k'
  = if decide (l = l' ∧ k = k') then None else slot values l' k'.
Proof.
  unfold slot. case_decide as Hd; [destruct Hd as [-> ->]; apply lookup_delete_eq|].
  apply lookup_delete_ne. by intros E%storage_key_inj.
Qed.

Lemma delete_key_ok l k values values' :
  delete_key l k values = (values', Ok tt) →
  ∀ l' k', slot values' l' k' = if decide (l = l' ∧ k = k') then None else slot values l' k'.
Proof. unfold delete_key. intros [= <-] l' k'. apply slot_delete. Qed.

Lemma write_ok l k v values values' :
  write l k v values = (values', Ok tt) →
  ∀ l' k', slot values' l' k' = if decide (l = l' ∧ k = k') then Some v else slot values l' k'.
Proof.
  unfold write. destruct (_ <? _)%N; [done|]. cbv zeta. destruct (_ && _); [done|].
  intros [= <-] l' k'. apply slot_insert.
Qed.

(** A value that the limits admit is written, and [write] never goes past the limits. *)
Lemma write_limit l k v values :
  (N.of_nat (size values) ≤ MAX_MLS_VALUES)%N →
  (N.of_nat (size (write l k v values).1) ≤ MAX_MLS_VALUES)%N.
Proof.
  intros Hs. unfold write. destruct (_ <? _)%N; [done|]. cbv zeta. destruct (_ && _) eqn:E; [done|].
  cbn [fst]. destruct (values !! build_key_from_vec (label_bytes l) k) as [old|] eqn:Ek.
  - rewrite map_size_insert_Some by eauto. done.
  - rewrite map_size_insert_None by done. simpl in E. lia.
Qed.

Lemma entry_or_empty_slot l k values values' b :
  entry_or_empty (build_key_from_vec (label_bytes l) k) values = (values', b) →
  b = default (as_bytes "[]") (slot values l k) ∧
  ∀ l' k', slot values' l' k' = if decide (l = l' ∧ k = k') then Some b else slot values l' k'.
Proof.
  unfold entry_or_empty, slot. destruct (values !! _) as [old|] eqn:Ek; intros [= <- <-].
  - split; [done|]. intros l' k'. case_decide as Hd; [by destruct Hd as [<- <-]|done].
  - split; [done|]. intros l' k'. apply slot_insert.
Qed.

(** ** Lists *)

Section lists.
Context `{JsonRoundTrip (list bytes)}.
(** [serde_json] reads the text [[]] as the empty list. *)
Context (empty_list : json_from_slice (as_bytes "[]") = Some []).

(** The list under a label and key; a missing one is empty. *)
Definition list_at (values : Values) (l : MlsLabel) (k : bytes) : option (list bytes) :=
  match slot values l k with Some b => json_from_slice b | None => Some [] end.

Lemma entry_list values l k :
  json_from_slice (default (as_bytes "[]") (slot values l k)) = list_at values l k.
Proof using empty_list. unfold list_at. by destruct (slot values l k). Qed.

Lemma append_ok l k v values values' :
  append l k v values = (values', Ok tt) →
  ∃ items, list_at values l k = Some items ∧ list_at values' l k = Some (items ++ [v]) ∧
    ∀ l' k', (l, k) ≠ (l', k') → slot values' l' k' = slot values l' k'.
Proof using All.
  unfold append. destruct (entry_or_empty _ values) as [v1 b] eqn:He.
  apply entry_or_empty_slot in He as [-> Hs]. unfold from_slice, to_vec.
  rewrite entry_list. destruct (list_at values l k) as [items|] eqn:Hl; [|done]. rust_simpl.
  destruct (_ <=? _)%N; [done|]. destruct (json_to_vec _) as [enc|] eqn:Hj; [|done]. rust_simpl.
  destruct (_ <? _)%N; [done|]. intros [= <-]. exists items. split_and!; [done| |].
  - unfold list_at. rewrite slot_insert, decide_True by done. by apply json_roundtrip.
  - intros l' k' Hne. rewrite slot_insert, decide_False by naive_solver.
    rewrite Hs. by rewrite decide_False by naive_solver.
Qed.

Lemma remove_item_ok l k v values values' :
  remove_item l k v values = (values', Ok tt) →
  ∃ items, list_at values l k = Some items ∧ list_at values' l k = Some (remove_first v items) ∧
    ∀ l' k', (l, k) ≠ (l', k') → slot values' l' k' = slot values l' k'.
Proof using All.
  unfold remove_item. destruct (entry_or_empty _ values) as [v1 b] eqn:He.
  apply entry_or_empty_slot in He as [-> Hs]. unfold from_slice, to_vec.
  rewrite entry_list. destruct (list_at values l k) as [items|] eqn:Hl; [|done]. rust_simpl.
  destruct (json_to_vec _) as [enc|] eqn:Hj; [|done]. rust_simpl.
  intros [= <-]. exists items. split_and!; [done| |].
  - unfold list_at. rewrite slot_insert, decide_True by done. by apply json_roundtrip.
  - intros l' k' Hne. rewrite slot_insert, decide_False by naive_solver.
    rewrite Hs. by rewrite decide_False by naive_solver.
Qed.
End lists.

(** ** The proposal queue *)

Section proposals.
Context {GroupId ProposalRef QueuedProposal : Type} `{EqDecision ProposalRef}.
Context `{JsonCodec GroupId, JsonRoundTrip ProposalRef, JsonRoundTrip QueuedProposal}.
Context `{JsonRoundTrip (GroupId * ProposalRef), JsonRoundTrip (list bytes)}.
Context (empty_list : json_from_slice (as_bytes "[]") = Some []).
Implicit Types (q : list (ProposalRef * QueuedProposal)) (values : Values).

(** The storage holds the queue [q] of a group: its references in order, and the body of each. *)
Definition body_stored (g : GroupId) values (x : ProposalRef * QueuedProposal) : Prop :=
  ∃ k v, json_to_vec (g, x.1) = Some k ∧ json_to_vec x.2 = Some v ∧
    slot values QUEUED_PROPOSAL_LABEL k = Some v.
Definition holds (g : GroupId) values q : Prop :=
  ∃ kg items, json_to_vec g = Some kg ∧
    list_at values PROPOSAL_QUEUE_REFS_LABEL kg = Some items ∧
    Forall2 (λ x b, json_to_vec x.1 = Some b) q items ∧ Forall (body_stored g values) q.

Lemma pair_key_inj (g g' : GroupId) (r r' : ProposalRef) k :
  json_to_vec (g, r) = Some k → json_to_vec (g', r') = Some k → (g, r) = (g', r').
Proof using All.
  intros Ha%json_roundtrip Hb%json_roundtrip. congruence.
Qed.

Lemma ref_bytes_inj (r r' : ProposalRef) b :
  json_to_vec r = Some b → json_to_vec r' = Some b → r = r'.
Proof using All. intros Ha%json_roundtrip Hb%json_roundtrip. congruence. Qed.

Lemma from_slices_refs q items :
  Forall2 (λ x b, json_to_vec x.1 = Some b) q items → from_slices items = Ok q.*1.
Proof using All.
  induction 1 as [|x b q items Hx _ IH]; [done|]. cbn [from_slices]. unfold from_slice.
  apply json_roundtrip in Hx. rewrite Hx. rust_simpl. rewrite IH. done.
Qed.

(** What the storage holds is what is read. *)
Lemma holds_read g values q : holds g values q → queued_proposals g values = Ok q.
Proof using All.
  intros (kg & items & Hg & Hl & Hrefs & Hb). unfold queued_proposals, queued_proposal_refs, to_vec.
  rewrite Hg. rust_simpl. unfold read_list. cbv zeta.
  assert (El : match values !! (label_bytes PROPOSAL_QUEUE_REFS_LABEL ++ kg ++ be_bytes 2 CURRENT_VERSION) with
               | Some list_bytes => from_slice list_bytes | None => Ok [] end = Ok items).
  { unfold list_at, slot, build_key_from_vec in Hl. destruct (values !! _); [|by simplify_eq].
    unfold from_slice. by rewrite Hl. }
  rewrite El. rust_simpl. rewrite (from_slices_refs q items Hrefs). rust_simpl.
  clear Hl El Hrefs items. induction Hb as [|[r p] q (k & v & Hk & Hv & Hs) _ IH]; [done|].
  cbn [fmap list_fmap fst proposals_of]. unfold to_vec, read. cbn [fst snd] in *. rewrite Hk. rust_simpl.
  unfold slot in Hs. rewrite Hs. unfold from_slice. rewrite (json_roundtrip _ _ Hv). rust_simpl.
  unfold to_vec in IH. rust_simpl. by rewrite IH.
Qed.

Lemma holds_frame g values values' q :
  (∀ kg, json_to_vec g = Some kg →
     list_at values' PROPOSAL_QUEUE_REFS_LABEL kg = list_at values PROPOSAL_QUEUE_REFS_LABEL kg) →
  (∀ x k, x ∈ q → json_to_vec (g, x.1) = Some k →
     slot values' QUEUED_PROPOSAL_LABEL k = slot values QUEUED_PROPOSAL_LABEL k) →
  holds g values q → holds g values' q.
Proof using Type.
  intros Hl Hs (kg & items & Hg & Hi & Hrefs & Hb). exists kg, items.
  rewrite Hl by done. split_and!; [done..|]. apply Forall_forall. intros x Hx.
  rewrite Forall_forall in Hb. destruct (Hb x Hx) as (k & v & Hk & Hv & Hsl).
  exists k, v. split_and!; [done..|]. by rewrite (Hs x k).
Qed.

Lemma remove_first_refs q items r b :
  Forall2 (λ x b, json_to_vec x.1 = Some b) q items → json_to_vec r = Some b → NoDup q.*1 →
  Forall2 (λ x b, json_to_vec x.1 = Some b) (filter (λ x, x.1 ≠ r) q) (remove_first b items).
Proof using All.
  intros Hq Hr. induction Hq as [|x c q items Hx Hq IH]; [constructor|].
  intros [Hn Hd]%NoDup_cons. rewrite filter_cons. cbn [remove_first].
  destruct (decide (c = b)) as [->|Hne].
  - assert (x.1 = r) as E by (by eapply ref_bytes_inj). rewrite decide_False by tauto.
    rewrite filter_all; [done|]. apply Forall_forall. intros y Hy Ey. apply Hn.
    apply list_elem_of_fmap. exists y. by rewrite Ey.
  - rewrite decide_True by (intros <-; congruence). constructor; [done|]. by apply IH.
Qed.

Lemma queue_proposal_holds g q values values' r p :
  holds g values q → r ∉ q.*1 → queue_proposal g r p values = (values', Ok tt) →
  holds g values' (q ++ [(r, p)]).
Proof using All.
  intros (kg & items & Hg & Hl & Hrefs & Hb) Hr. unfold queue_proposal, to_vec. rust_simpl.
  destruct (json_to_vec (g, r)) as [k|] eqn:Hk; [|done]. rust_simpl.
  destruct (json_to_vec p) as [v|] eqn:Hv; [|done]. rust_simpl.
  destruct (write _ _ _ values) as [v1 [[]|]] eqn:Hw; [|done]. rewrite Hg. rust_simpl.
  destruct (json_to_vec r) as [b|] eqn:Hrb; [|done]. rust_simpl. intros Ha.
  pose proof (write_ok _ _ _ _ _ Hw) as Hs1.
  destruct (append_ok empty_list _ _ _ _ _ Ha) as (items' & Hl1 & Hl2 & Hs2).
  assert (Ei : items' = items).
  { unfold list_at in Hl, Hl1. rewrite Hs1, decide_False in Hl1 by naive_solver. congruence. }
  subst items'. exists kg, (items ++ [b]). split_and!; [done|done| |].
  - apply Forall2_app; [done|]. by constructor.
  - apply Forall_app. split.
    + apply Forall_forall. intros x Hx. rewrite Forall_forall in Hb.
      destruct (Hb x Hx) as (k' & v' & Hk' & Hv' & Hsl). exists k', v'. split_and!; [done..|].
      rewrite Hs2, Hs1 by naive_solver. rewrite decide_False; [done|]. intros [_ ->].
      apply Hr, list_elem_of_fmap. exists x. split; [|done].
      pose proof (pair_key_inj _ _ _ _ _ Hk Hk'). by simplify_eq.
    + constructor; [|constructor]. exists k, v. split_and!; [done..|].
      rewrite Hs2, Hs1 by naive_solver. by rewrite decide_True.
Qed.

Lemma remove_proposal_holds g q values values' r :
  holds g values q → NoDup q.*1 → remove_proposal g r values = (values', Ok tt) →
  holds g values' (filter (λ x, x.1 ≠ r) q).
Proof using All.
  intros (kg & items & Hg & Hl & Hrefs & Hb) Hd. unfold remove_proposal, to_vec. rewrite Hg. rust_simpl.
  destruct (json_to_vec r) as [b|] eqn:Hrb; [|done]. rust_simpl.
  destruct (remove_item _ _ _ values) as [v1 [[]|]] eqn:Hw; [|done].
  destruct (json_to_vec (g, r)) as [k|] eqn:Hk; [|done]. rust_simpl.
  intros Hdel. pose proof (delete_key_ok _ _ _ _ Hdel) as Hs3.
  destruct (remove_item_ok empty_list _ _ _ _ _ Hw) as (items' & Hl1 & Hl2 & Hs2).
  rewrite Hl in Hl1. injection Hl1 as <-.
  exists kg, (remove_first b items). split_and!; [done| |by apply remove_first_refs|].
  - rewrite <-Hl2. unfold list_at. by rewrite Hs3, decide_False by naive_solver.
  - apply Forall_forall. intros x [Hne Hx]%list_elem_of_filter. rewrite Forall_forall in Hb.
    destruct (Hb x Hx) as (k' & v' & Hk' & Hv' & Hsl). exists k', v'. split_and!; [done..|].
    rewrite Hs3, decide_False; [by rewrite Hs2 by naive_solver|]. intros [_ ->].
    apply Hne. pose proof (pair_key_inj _ _ _ _ _ Hk Hk'). by simplify_eq.
Qed.

Lemma clear_proposal_queue_slots g values values' kg :
  json_to_vec g = Some kg → clear_proposal_queue g values = (values', Ok tt) →
  ∃ refs v1, queued_proposal_refs g values = Ok refs ∧ clear_loop g refs values = (v1, Ok tt) ∧
    values' = delete (build_key_from_vec (label_bytes PROPOSAL_QUEUE_REFS_LABEL) kg) v1.
Proof using Type.
  intros Hg. unfold clear_proposal_queue. rust_simpl.
  destruct (queued_proposal_refs g values) as [refs|] eqn:Hr; [|done].
  destruct (clear_loop g refs values) as [v1 [[]|]] eqn:Hc; [|done].
  unfold build_key, to_vec. rewrite Hg. rust_simpl. intros [= <-]. eauto.
Qed.

(** The proposals of a group read back as they were queued, in order; removing one takes
    exactly it out; clearing the queue empties it. *)
Theorem provider_proposal_queue g q values values' :
  holds g values q →
  queued_proposals g values = Ok q ∧
  (∀ r p, r ∉ q.*1 → queue_proposal g r p values = (values', Ok tt) →
     queued_proposals g values' = Ok (q ++ [(r, p)])) ∧
  (∀ r, NoDup q.*1 → remove_proposal g r values = (values', Ok tt) →
     queued_proposals g values' = Ok (filter (λ x, x.1 ≠ r) q)) ∧
  (clear_proposal_queue g values = (values', Ok tt) →
     queued_proposals (QueuedProposal := QueuedProposal) g values' = Ok []).
Proof using All.
  intros Hq. split_and!.
  - by apply holds_read.
  - intros r p Hr Ha. by eapply holds_read, queue_proposal_holds.
  - intros r Hd Ha. by eapply holds_read, remove_proposal_holds.
  - intros Hc. apply holds_read. destruct Hq as (kg & items & Hg & _).
    destruct (clear_proposal_queue_slots _ _ _ _ Hg Hc) as (refs & v1 & _ & _ & ->).
    exists kg, []. split_and!; [done| |constructor..]. unfold list_at.
    by rewrite slot_delete, decide_True.
Qed.

(** Clearing the queue deletes unlabelled keys, which nothing is stored under: with JSON arrays
    starting with a bracket, every proposal body stays in the storage. *)
Theorem provider_clear_keeps_bodies g q values values' :
  (∀ (x : GroupId * ProposalRef) b, json_to_vec x = Some b → head b = Some (n_byte 91)) →
  holds g values q → clear_proposal_queue g values = (values', Ok tt) →
  Forall (body_stored g values') q.
Proof using Type.
  intros Hbracket (kg & items & Hg & Hl & Hrefs & Hb) Hc.
  destruct (clear_proposal_queue_slots _ _ _ _ Hg Hc) as (refs & v1 & _ & Hloop & ->).
  apply Forall_forall. intros x Hx. rewrite Forall_forall in Hb.
  destruct (Hb x Hx) as (k & v & Hk & Hv & Hs). exists k, v. split_and!; [done..|].
  rewrite slot_delete, decide_False by naive_solver.
  assert (Hv1 : ∀ refs values, slot values QUEUED_PROPOSAL_LABEL k = Some v →
    clear_loop g refs values = (v1, Ok tt) → slot v1 QUEUED_PROPOSAL_LABEL k = Some v).
  { clear -Hbracket. intros refs. induction refs as [|r refs IH]; intros values Hs; cbn [clear_loop].
    { by intros [= <-]. }
    unfold to_vec. destruct (json_to_vec (g, r)) as [kr|] eqn:Hkr; rust_simpl; [|done].
    apply IH. unfold slot in *. rewrite lookup_delete_ne; [done|]. intros E.
    apply Hbracket in Hkr. rewrite E in Hkr. by vm_compute in Hkr. }
  by eapply Hv1.
Qed.
End proposals.

(** ** Values *)

Section values.
Context {K V : Type} `{JsonRoundTrip K, JsonRoundTrip V}.

Lemma read_slot {W} `{JsonCodec W} l (key : K) kb values :
  json_to_vec key = Some kb →
  read_value (V := W) l key values
  = match slot values l kb with
    | Some b => let? w := from_slice b in Ok (Some w)
    | None => Ok None
    end.
Proof using Type. intros Hk. unfold read_value, to_vec, read, slot. by rewrite Hk. Qed.

(** A written value is read back, a deleted one is gone, and neither changes what is read under
    another label or another key. *)
Theorem provider_write_read l (key : K) (value : V) values values' :
  (write_value l key value values = (values', Ok tt) →
     read_value l key values' = Ok (Some value)) ∧
  (delete_value l key values = (values', Ok tt) → read_value (V := V) l key values' = Ok None) ∧
  (write_value l key value values = (values', Ok tt) ∨ delete_value l key values = (values', Ok tt) →
   ∀ l' (key' : K), (l, key) ≠ (l', key') →
     read_value (V := V) l' key' values' = read_value l' key' values).
Proof using All.
  unfold write_value, delete_value, to_vec. rust_simpl.
  destruct (json_to_vec key) as [kb|] eqn:Hk; rust_simpl; [|by split_and!; [| |intros [|]]].
  split_and!.
  - destruct (json_to_vec value) as [vb|] eqn:Hv; rust_simpl; [|done]. intros Hw.
    rewrite (read_slot _ _ _ _ Hk), (write_ok _ _ _ _ _ Hw), decide_True by done.
    unfold from_slice. by rewrite (json_roundtrip _ _ Hv).
  - intros Hd. by rewrite (read_slot _ _ _ _ Hk), (delete_key_ok _ _ _ _ Hd), decide_True.
  - intros Hor l' key' Hne. destruct (json_to_vec key') as [kb'|] eqn:Hk';
      [|unfold read_value, to_vec; by rewrite Hk'].
    assert (Hkb : ¬ (l = l' ∧ kb = kb')).
    { intros [-> ->]. apply json_roundtrip in Hk, Hk'. congruence. }
    rewrite !(read_slot _ _ _ _ Hk').
    enough (slot values' l' kb' = slot values l' kb') as -> by done.
    destruct Hor as [Hw|Hd].
    + destruct (json_to_vec value) as [vb|]; rust_simpl; [|done].
      by rewrite (write_ok _ _ _ _ _ Hw), decide_False.
    + by rewrite (delete_key_ok _ _ _ _ Hd), decide_False.
Qed.

(** A full storage refuses a new value through [write], but the four methods that insert into
    the map themselves take it, and the storage is then over its limit. *)
Theorem provider_limit_is_bypassed d (key : K) (value : V) kb vb values :
  json_to_vec key = Some kb → json_to_vec value = Some vb →
  slot values (direct_value_label d) kb = None → N.of_nat (size values) = MAX_MLS_VALUES →
  (write_value (direct_value_label d) key value values).2 = Err StorageLimit ∧
  (write_direct d key value values).2 = Ok tt ∧
  N.of_nat (size (write_direct d key value values).1) = (MAX_MLS_VALUES + 1)%N.
Proof using Type.
  intros Hk Hv Hs Hsize. unfold write_value, write_direct, build_key, to_vec. rewrite Hk, Hv. rust_simpl.
  split_and!; [|done|].
  - unfold write. destruct (_ <? _)%N; [done|]. cbv zeta. unfold slot in Hs. rewrite Hs.
    rewrite Hsize, N.leb_refl. by rewrite bool_decide_false by (by intros [? [=]]).
  - unfold slot in Hs. rewrite map_size_insert_None by done. lia.
Qed.
End values.

(** ** Epoch key pairs *)

Section epochs.
Context {GroupId HpkeKeyPair : Type} `{JsonCodec GroupId, JsonRoundTrip (list HpkeKeyPair)}.
Context `{JsonCodec N}.
(** An epoch is a number, which [serde_json] writes in decimal. *)
Context (epoch_decimal : ∀ e : N, json_to_vec e = Some (as_bytes (u64_to_string e))).

(** For one leaf the keys of different epochs differ. *)
Theorem provider_epoch_keys_of_a_leaf (g : GroupId) (e e' leaf : N) kg :
  json_to_vec g = Some kg → (e ≤ u64_max)%N → (e' ≤ u64_max)%N →
  epoch_key_pairs_id g e leaf = epoch_key_pairs_id g e' leaf → e = e'.
Proof using epoch_decimal.
  intros Hg He He'. unfold epoch_key_pairs_id, to_vec. rewrite Hg, !epoch_decimal. rust_simpl.
  intros [= E]. apply app_inv_head in E. apply app_inv_tail in E. apply (inj as_bytes) in E.
  pose proof (parse_u64_to_string e He) as Hp. rewrite E, parse_u64_to_string in Hp by done.
  by simplify_eq.
Qed.

(** Across leaves they collide: epoch and leaf index are written one after the other, so the key
    pairs of epoch 12 and leaf 3 are those written for epoch 1 and leaf 23. *)
Theorem provider_epoch_keys_collide (g : GroupId) kg (pairs : list HpkeKeyPair) values values' :
  json_to_vec g = Some kg →
  write_encryption_epoch_key_pairs g 1%N 23 pairs values = (values', Ok tt) →
  encryption_epoch_key_pairs g 12%N 3 values' = Ok pairs.
Proof using All.
  intros Hg. set (key := kg ++ as_bytes (u64_to_string 1) ++ as_bytes (u64_to_string 23)).
  assert (E1 : epoch_key_pairs_id g 1%N 23 = Ok key)
    by (unfold epoch_key_pairs_id, to_vec; by rewrite Hg, epoch_decimal).
  assert (E2 : epoch_key_pairs_id g 12%N 3 = Ok key)
    by (unfold epoch_key_pairs_id, to_vec; by rewrite Hg, epoch_decimal).
  unfold write_encryption_epoch_key_pairs, encryption_epoch_key_pairs, to_vec.
  rewrite E1, E2. cbn [mut_bind mut_lift result_bind].
  destruct (json_to_vec pairs) as [vb|] eqn:Hv; cbn [ok_or mut_bind mut_lift]; [|done].
  intros Hw%(λ H, write_ok _ _ _ _ _ H EPOCH_KEY_PAIRS_LABEL key).
  rewrite decide_True in Hw by done. unfold slot in Hw. rewrite Hw.
  unfold from_slice. by rewrite (json_roundtrip _ _ Hv).
Qed.
End epochs.

(** ** Concrete storages *)

Module ProviderSample.
Import Reference.
Definition words : list string := ["g"; "r1"; "r2"; "p1"; "p2"].
#[local] Instance word_codec : JsonCodec string := json_table words.
#[local] Instance word_laws : JsonRoundTrip string := json_table_laws words.

(** Pairs as arrays: a bracket before the code of the table. *)
Definition pairs : list (string * string) := [("g", "r1"); ("g", "r2")].
#[local] Instance pair_codec : JsonCodec (string * string) := {|
  json_to_vec := λ p, cons (n_byte 91) <$> @json_to_vec _ (json_table pairs) p;
  json_from_slice := λ b, match b with _ :: t => @json_from_slice _ (json_table pairs) t | [] => None end;
|}.
#[local] Instance pair_laws : JsonRoundTrip (string * string).
Proof.
  intros p b. unfold json_to_vec, json_from_slice, pair_codec.
  destruct (@json_to_vec _ (json_table pairs) p) as [c|] eqn:E; simpl; [|done]. intros [= <-].
  by apply (json_table_laws pairs).
Qed.

Definition code (s : string) : bytes := default [] (json_to_vec s).
Definition lists : list (list bytes) := [[[]]; [[]; []]; []; [code "r1"]; [code "r1"; code "r2"]; [code "r2"]].
#[local] Instance lists_codec : JsonCodec (list bytes) := json_table lists.
#[local] Instance lists_laws : JsonRoundTrip (list bytes) := json_table_laws lists.

Lemma lists_empty : json_from_slice (as_bytes "[]") = Some ([] : list bytes).
Proof. vm_compute; reflexivity. Qed.

Definition queued1 : Values := (queue_proposal "g" "r1" "p1" ∅).1.
Definition queued2 : Values := (queue_proposal "g" "r2" "p2" queued1).1.

Lemma holds1 : holds "g" queued1 [("r1", "p1")].
Proof.
  exists (code "g"), [code "r1"]. split_and!; [vm_compute; reflexivity..| |].
  - constructor; [vm_compute; reflexivity|constructor].
  - constructor; [|constructor]. exists (n_byte 91 :: []), (code "p1").
    split_and!; vm_compute; reflexivity.
Qed.

Lemma provider_proposal_queue_witness :
  queued_proposals "g" queued2 = Ok [("r1", "p1"); ("r2", "p2")].
Proof.
  destruct (provider_proposal_queue (QueuedProposal := string) lists_empty "g" [("r1", "p1")] queued1 queued2 holds1)
    as (_ & Hq & _).
  apply (Hq "r2" "p2"); [|vm_compute; reflexivity].
  intros E. apply list_elem_of_singleton in E. discriminate.
Defined.

Definition cleared : Values := (clear_proposal_queue (ProposalRef := string) "g" queued1).1.

Lemma provider_clear_keeps_bodies_witness :
  queued_proposals (ProposalRef := string) (QueuedProposal := string) "g" cleared = Ok [] ∧
  Forall (body_stored "g" cleared) [("r1", "p1")].
Proof.
  split; [vm_compute; reflexivity|].
  apply (provider_clear_keeps_bodies "g" [("r1", "p1")] queued1 cleared); [|apply holds1|].
  - intros x b. unfold json_to_vec, pair_codec. destruct (@json_to_vec _ (json_table pairs) x); simpl;
      [by intros [= <-]|done].
  - vm_compute; reflexivity.
Defined.

Definition written : Values := (write_value GROUP_STATE_LABEL "g" "p1" ∅).1.

Lemma provider_write_read_witness : read_value GROUP_STATE_LABEL "g" written = Ok (Some "p1").
Proof.
  destruct (provider_write_read GROUP_STATE_LABEL "g" "p1" ∅ written) as (Hw & _).
  apply Hw. vm_compute; reflexivity.
Defined.

(** A storage with as many values as there may be. *)
Definition full_keys : list bytes := map (λ n, be_bytes 2 (N.of_nat n)) (seq 0 4096).
Definition full : Values := list_to_map (map (λ k, (k, [])) full_keys).

Lemma full_size : N.of_nat (size full) = MAX_MLS_VALUES.
Proof.
  unfold full. rewrite map_size_list_to_map.
  - unfold full_keys. by rewrite !length_map, length_seq.
  - rewrite <-list_fmap_compose. unfold full_keys. rewrite list_fmap_id.
    apply NoDup_fmap_2_strong; [|apply NoDup_seq]. intros x y Hx%elem_of_seq Hy%elem_of_seq E.
    apply be_bytes_inj in E; [lia|..]; simpl; lia.
Qed.

Lemma provider_limit_is_bypassed_witness :
  (write_value GROUP_CONTEXT_LABEL "g" "p1" full).2 = Err StorageLimit ∧
  (write_direct ContextValue "g" "p1" full).2 = Ok tt ∧
  N.of_nat (size (write_direct ContextValue "g" "p1" full).1) = (MAX_MLS_VALUES + 1)%N.
Proof.
  apply (provider_limit_is_bypassed ContextValue "g" "p1" (code "g") (code "p1") full);
    [vm_compute; reflexivity..| |apply full_size].
  apply not_elem_of_list_to_map. intros (p & E & (k & -> & Hk)%list_elem_of_fmap)%list_elem_of_fmap.
  unfold full_keys in Hk. apply list_elem_of_fmap in Hk as (n & -> & _).
  apply (f_equal length) in E. cbn [fst] in E. rewrite length_be_bytes in E. vm_compute in E. lia.
Defined.

#[local] Instance epoch_codec : JsonCodec N := {|
  json_to_vec := λ e, Some (as_bytes (u64_to_string e));
  json_from_slice := λ b, parse_u64 (of_bytes b);
|}.
Lemma epoch_codec_decimal (e : N) : json_to_vec e = Some (as_bytes (u64_to_string e)).
Proof. reflexivity. Qed.
#[local] Instance key_pairs_codec : JsonCodec (list bool) := json_table [[true]].
#[local] Instance key_pairs_laws : JsonRoundTrip (list bool) := json_table_laws [[true]].

Lemma provider_epoch_keys_of_a_leaf_witness :
  epoch_key_pairs_id "g" 12%N 3 = epoch_key_pairs_id "g" 12%N 3 ∧ 12%N = 12%N.
Proof.
  split; [reflexivity|].
  apply (provider_epoch_keys_of_a_leaf epoch_codec_decimal "g" 12 12 3 (code "g"));
    [vm_compute; reflexivity|vm_compute; discriminate..|reflexivity].
Defined.

Lemma provider_epoch_keys_collide_witness :
  encryption_epoch_key_pairs "g" 12%N 3 (write_encryption_epoch_key_pairs "g" 1%N 23 [true] ∅).1
  = Ok [true].
Proof.
  apply (provider_epoch_keys_collide epoch_codec_decimal "g" (code "g") [true] ∅);
    vm_compute; reflexivity.
Defined.
End ProviderSample.
