(* ===== verification/Http.v ===== *)
(** * HTTP text of the local bridge ([apps/daemon/src/http_support.rs], [http_errors.rs])

    The daemon turns a request that axum has parsed back into bytes, parses those itself, and
    hands its own response bytes back to axum. Here are both directions, the small readers of
    JSON bodies, cookies and static files, and the replies that stand for errors. *)
From Stdlib Require Import Ascii NArith Lia ZifyBool ZifyN.
From stdpp Require Import base gmap strings list.
From S2P Require Import Prelude Text TextScan Collections Interfaces JsonValue ProtocolGate Paths Bridge Storage DeliveryLedger Contacts Pairing.

Definition MAX_REQUEST_BYTES : N := 192 * 1024.

(** [http::request::Parts], as far as it is read: the method, [uri.path_and_query()], and the
    headers in order. *)
Record Parts := { pt_method : string; pt_target : option string; pt_headers : list (string * bytes) }.

(** What the [http] crate decides: [HeaderValue::to_str], [StatusCode::from_u16], and whether a
    name and a value make a header. *)
Class HttpTypes := {
  header_to_str : bytes → option string;
  status_from_u16 : N → bool;
  header_ok : string → string → bool;
}.

Definition quote : string := of_bytes [n_byte 34].
Definition backslash : string := of_bytes [n_byte 92].

Section axum.
Context `{HttpTypes}.

(** The header lines of a request, unless a value is not text. *)
Fixpoint header_lines (headers : list (string * bytes)) : option string :=
  match headers with
  | [] => Some EmptyString
  | (name, value) :: t =>
    match header_to_str value, header_lines t with
    | Some v, Some rest => Some (name +:+ ": " +:+ v +:+ crlf +:+ rest)
    | _, _ => None
    end
  end.

Definition axum_request_bytes (parts : Parts) (body : bytes) : option bytes :=
  match pt_target parts with
  | None => None
  | Some target =>
    if contains_byte 63 target || contains_byte 35 target then None
    else
      match header_lines (pt_headers parts) with
      | None => None
      | Some headers =>
        let raw := pt_method parts +:+ " " +:+ target +:+ " HTTP/1.1" +:+ crlf +:+ headers
                   +:+ "Content-Length: " +:+ u64_to_string (blen body) +:+ crlf +:+ crlf in
        Some (as_bytes raw ++ body)
      end
  end.

(** A response of axum: status, headers in order, body. *)
Record AxumResponse := { ar_status : N; ar_headers : list (string * string); ar_body : bytes }.

Definition invalid_daemon_response : bytes := as_bytes "invalid daemon response".

Definition response_header (line : string) : option (string * string) :=
  match split_once ":" line with
  | None => None
  | Some (name, value) =>
    if eq_ignore_ascii_case name "content-length" then None else Some (name, trim value)
  end.

(** The second word of the status line, if it is a status. *)
Definition status_of (line : string) : option N :=
  match split_whitespace line !! 1%nat with
  | Some word =>
    match parse_u16 word with
    | Some n => if status_from_u16 n then Some n else None
    | None => None
    end
  | None => None
  end.

(** The builder remembers an invalid header and fails at [body], and then the reply is
    [Response::new], whose status is 200. *)
Definition axum_response (raw : bytes) : AxumResponse :=
  match split_once_b HEAD_END raw with
  | None => {| ar_status := 500; ar_headers := []; ar_body := invalid_daemon_response |}
  | Some (head, body) =>
    match split_str crlf (from_utf8_lossy head) with
    | [] => {| ar_status := 500; ar_headers := []; ar_body := body |}
    | line :: rest =>
      let headers := omap response_header rest in
      if forallb (λ h, header_ok h.1 h.2) headers
      then {| ar_status := default 500%N (status_of line); ar_headers := headers; ar_body := body |}
      else {| ar_status := 200; ar_headers := []; ar_body := invalid_daemon_response |}
    end
  end.
End axum.

(** ** Requests *)

Record Request := {
  rq_method : string;
  rq_path : string;
  rq_headers : list (string * string);
  rq_body : bytes;
}.

Definition header (r : Request) (name : string) : option string :=
  snd <$> find_first (λ p, eq_ignore_ascii_case p.1 name) (rq_headers r).

(** The loop over the header lines. *)
Fixpoint parse_headers (l : list string) : option (list (string * string)) :=
  match l with
  | [] => Some []
  | line :: t =>
    match split_once ":" line with
    | None => None
    | Some (key, value) =>
      if contains_byte 13 value || contains_byte 10 value then None
      else match parse_headers t with
           | Some rest => Some ((trim key, trim value) :: rest)
           | None => None
           end
    end
  end.

Definition parse_request (raw : bytes) : option Request :=
  if (MAX_REQUEST_BYTES <? blen raw)%N then None
  else
    match split_once_b HEAD_END raw with
    | None => None
    | Some (head, body) =>
      match from_utf8 head with
      | None => None
      | Some header_text =>
        match split_str crlf header_text with
        | [] => None
        | start :: rest =>
          match split_whitespace start with
          | method :: target :: version :: _ =>
            if negb (seqb version "HTTP/1.1") || contains_byte 63 target || contains_byte 35 target
            then None
            else
              match parse_headers rest with
              | None => None
              | Some headers =>
                if (MAX_REQUEST_BYTES <? blen body)%N then None
                else Some {| rq_method := method; rq_path := target; rq_headers := headers;
                             rq_body := body |}
              end
          | _ => None
          end
        end
      end
    end.

(** ** Bodies *)

Definition json_string (body : bytes) (key : string) : option string :=
  match from_utf8 body with
  | None => None
  | Some text =>
    let marker := quote +:+ key +:+ quote +:+ ":" +:+ quote in
    match split_once marker text with
    | None => None
    | Some (_, tail) =>
      match split_once quote tail with
      | None => None
      | Some (value, _) =>
        if negb (is_empty_str value) && negb (contains_byte 92 value)
           && negb (existsb char_is_control (chars value))
        then Some value else None
      end
    end
  end.

Definition json_bool (body : bytes) (key : string) : option bool :=
  match from_utf8 body with
  | None => None
  | Some text =>
    match split_once (quote +:+ key +:+ quote +:+ ":") text with
    | None => None
    | Some (_, tail) =>
      if starts_with "true" tail then Some true
      else if starts_with "false" tail then Some false
      else None
    end
  end.

Section values.
Context `{JsonCodec Value}.

Definition json_u64 (body : bytes) (key : string) : option N :=
  match json_from_slice body with
  | Some v => match value_get key v with Some n => as_u64 n | None => None end
  | None => None
  end.

Fixpoint all_str (l : list Value) : option (list string) :=
  match l with
  | [] => Some []
  | v :: t => match as_str v, all_str t with Some s, Some r => Some (s :: r) | _, _ => None end
  end.

Definition json_string_array (body : bytes) (key : string) : option (list string) :=
  match json_from_slice body with
  | Some v =>
    match value_get key v with
    | Some a => match as_array a with Some l => all_str l | None => None end
    | None => None
    end
  | None => None
  end.
End values.

Definition delivery_state_name (s : DeliveryState) : string :=
  match s with
  | Draft => "draft"
  | Encrypted => "encrypted"
  | Queued => "queued"
  | RelayAccepted => "relay-accepted"
  | RecipientReceived => "recipient-received"
  | Decrypted => "decrypted"
  | Retryable => "retryable"
  | Failed => "failed"
  | Cancelled => "cancelled"
  end.

Definition json_escape (value : string) : string :=
  replace_byte 34 (backslash +:+ quote) (replace_byte 92 (backslash +:+ backslash) value).

Definition cookie_value (header name : string) : option string :=
  let find := fix find (l : list string) :=
    match l with
    | [] => None
    | part :: t =>
      match strip_prefix (name +:+ "=") part with Some v => Some v | None => find t end
    end in
  find (map trim (split 59 header)).

(** ** Responses *)

(** The header lines every response has after its length. *)
Definition SECURITY_HEADERS : list string :=
  ["Cache-Control: no-store";
   "X-Content-Type-Options: nosniff";
   "Content-Security-Policy: default-src 'self'; base-uri 'none'; object-src 'none'; frame-ancestors 'none'";
   "Referrer-Policy: no-referrer";
   "Permissions-Policy: camera=(), microphone=(), geolocation=()";
   "Cross-Origin-Opener-Policy: same-origin";
   "Cross-Origin-Resource-Policy: same-origin";
   "Connection: close"].

Definition reason (status : N) : string :=
  if (status =? 200)%N then "OK"
  else if (status =? 400)%N then "Bad Request"
  else if (status =? 401)%N then "Unauthorized"
  else if (status =? 403)%N then "Forbidden"
  else if (status =? 404)%N then "Not Found"
  else "Error".

(** A JSON response whose body is not an object or an array is an error code. *)
Definition response_body (body content_type : string) : string :=
  if eq_ignore_ascii_case content_type "application/json"
     && negb (starts_with "{" (trim_start body)) && negb (starts_with "[" (trim_start body))
  then "{" +:+ quote +:+ "error" +:+ quote +:+ ":" +:+ quote +:+ json_escape body +:+ quote +:+ "}"
  else body.

Definition response (status : N) (body : string) (set_cookie content_type : option string) : bytes :=
  let content_type := default "text/plain; charset=utf-8" content_type in
  let body := response_body body content_type in
  let cookie := match set_cookie with Some v => "Set-Cookie: " +:+ v +:+ crlf | None => EmptyString end in
  as_bytes ("HTTP/1.1 " +:+ u64_to_string status +:+ " " +:+ reason status +:+ crlf
    +:+ "Content-Type: " +:+ content_type +:+ crlf
    +:+ "Content-Length: " +:+ u64_to_string (slen body) +:+ crlf
    +:+ end_lines SECURITY_HEADERS +:+ cookie +:+ crlf +:+ body).

Definition response_bytes (status : N) (body : bytes) (content_type : string) : option bytes :=
  Some (as_bytes ("HTTP/1.1 " +:+ u64_to_string status
          +:+ (if (status =? 200)%N then " OK" else " Error") +:+ crlf
          +:+ "Content-Type: " +:+ content_type +:+ crlf
          +:+ "Content-Length: " +:+ u64_to_string (blen body) +:+ crlf
          +:+ end_lines SECURITY_HEADERS +:+ crlf) ++ body).

(** ** Static files *)

(** The calls of the file system: [canonicalize], [is_file] and [fs::read]. *)
Record StaticFiles := {
  sf_canonicalize : string → option string;
  sf_is_file : string → bool;
  sf_read : string → option bytes;
}.

(** [Path::starts_with]: by whole components. *)
Fixpoint components_prefix (p l : list string) : bool :=
  match p, l with
  | [], _ => true
  | x :: p', y :: l' => seqb x y && components_prefix p' l'
  | _ :: _, [] => false
  end.
Definition path_starts_with (path root : string) : bool :=
  components_prefix (rev (path_parts root)) (rev (path_parts path)).

(** [root.join(relative)]: an absolute path replaces the root. *)
Definition path_join (root relative : string) : string :=
  if starts_with "/" relative then relative
  else if is_empty_str root then relative
  else match last (as_bytes root) with
       | Some c => if decide (c = n_byte 47) then root +:+ relative else root +:+ "/" +:+ relative
       | None => relative
       end.

(** [Path::extension]. *)
Definition path_extension (p : string) : option string :=
  match path_parts p with
  | [] => None
  | name :: _ =>
    if seqb name ".." then None
    else match rsplit_once 46 name with
         | Some (before, ext) => if is_empty_str before then None else Some ext
         | None => None
         end
  end.

Definition content_type_of (relative : string) : string :=
  match path_extension relative with
  | Some ext =>
    if seqb ext "html" then "text/html; charset=utf-8"
    else if seqb ext "js" then "text/javascript; charset=utf-8"
    else if seqb ext "css" then "text/css; charset=utf-8"
    else if seqb ext "json" || seqb ext "webmanifest" then "application/json"
    else if seqb ext "wasm" then "application/wasm"
    else "application/octet-stream"
  | None => "application/octet-stream"
  end.

Definition static_file (fs : StaticFiles) (ui_root : option string) (relative : string) : option bytes :=
  if is_empty_str relative || contains ".." relative || contains_byte 92 relative
     || contains_byte 37 relative || contains_byte 0 relative
  then None
  else
    match ui_root with
    | None => None
    | Some ui_root =>
      match sf_canonicalize fs ui_root with
      | None => None
      | Some root =>
        match sf_canonicalize fs (path_join root relative) with
        | None => None
        | Some canonical =>
          if negb (path_starts_with canonical root) || negb (sf_is_file fs canonical) then None
          else
            match sf_read fs canonical with
            | None => None
            | Some b => response_bytes 200 b (content_type_of relative)
            end
        end
      end
    end.

(** ** Errors *)

Definition json_type : option string := Some "application/json".
Definition json_error (status : N) (code : string) : bytes := response status code None json_type.

Definition error_code (e : BridgeError) : string :=
  match e with
  | InvalidRequestOrigin => "invalid_origin"
  | InvalidHost => "invalid_host"
  | CsrfRequired => "csrf_required"
  | SessionInvalid => "session_invalid"
  | BootstrapAlreadyConsumed => "bootstrap_consumed"
  | _ => "bridge_rejected"
  end.

Definition pairing_error (e : PairingError) : bytes :=
  let '(status, code) :=
    match e with
    | InvalidTransition => (409%N, "pairing_invalid_transition")
    | SelfInvite => (422%N, "self_invite")
    | Pairing.Expired => (410%N, "pairing_expired")
    | Duplicate => (409%N, "pairing_duplicate")
    | SafetyMismatch => (422%N, "safety_number_mismatch")
    | BindingChanged => (409%N, "pairing_binding_changed")
    end in
  json_error status code.

Definition contact_directory_error (e : ContactDirectoryError) : bytes :=
  let '(status, code) :=
    match e with
    | DuplicateDevice => (409%N, "contact_device_conflict")
    | ContactNotFound => (404%N, "contact_not_found")
    | InvalidAlias => (422%N, "invalid_alias")
    | Corrupt => (503%N, "contacts_storage_corrupt")
    | InvalidState => (422%N, "invalid_contact_state")
    end in
  json_error status code.

Definition authorize_api `{Crypto} (bridge : LocalBridge) (request : Request) (now mono_now : N)
  : result unit bytes :=
  match cookie_value (default EmptyString (header request "cookie")) "ad_session" with
  | None => Err (response 401 "session_invalid" None None)
  | Some cookie =>
    let origin :=
      match header request "origin" with
      | Some origin => origin
      | None => if seqb (rq_method request) "GET" then bc_ui_origin (lb_config bridge) else EmptyString
      end in
    map_err (λ e, json_error 403 (error_code e))
      (authorize bridge
         {| br_origin := origin; br_host := default EmptyString (header request "host");
            br_method := rq_method request; br_cookie := cookie;
            br_csrf_token := header request "x-ad-csrf";
            br_ui_version := default EmptyString (header request "x-ad-ui-version") |}
         now mono_now)
  end.
