(* ===== verification/HttpProps.v ===== *)
(** * What the HTTP text code guarantees

    The request that axum parsed survives the way through [axum_request_bytes] and
    [parse_request], and a response of the daemon survives [axum_response]; an accepted
    request is well formed; the API guard and the static files keep their promises. *)
From Stdlib Require Import Ascii NArith Lia ZifyBool ZifyN.
From stdpp Require Import base gmap strings list.
From S2P Require Import Prelude Text TextScan Collections Interfaces JsonValue ProtocolGate Paths Bridge Storage DeliveryLedger Contacts Pairing Http.

(** ** Vocabulary *)

(** A word of a start line or a header name: visible ASCII, not empty. *)
Definition word_ok (s : string) : Prop := s ≠ EmptyString ∧ forallb ascii_visible (as_bytes s) = true.
Definition name_ok (s : string) : Prop := word_ok s ∧ n_byte 58 ∉ as_bytes s.
(** A byte of a header value: a space, a tab, or visible ASCII. *)
Definition value_byte (b : byte) : bool := in_range 32 126 (byte_n b) || (byte_n b =? 9)%N.
Definition value_ok (s : string) : bool := forallb value_byte (as_bytes s).
Definition token_byte (b : byte) : bool := is_ascii_alphanumeric b || (byte_n b =? 45)%N.
Definition token_ok (s : string) : bool := negb (is_empty_str s) && forallb token_byte (as_bytes s).

Definition header_line (p : string * string) : string := p.1 +:+ ": " +:+ p.2.
Definition trimmed (p : string * string) : string * string := (p.1, trim p.2).

(** What the [http] crate documents. *)
Class HttpLaws `{HttpTypes} : Prop := {
  header_to_str_spec b v : header_to_str b = Some v → v = of_bytes b ∧ value_ok v = true;
  status_from_u16_spec n : status_from_u16 n = in_range 100 999 n;
  header_ok_spec n v : token_ok n = true → value_ok v = true → header_ok n v = true;
}.

(** What [http::Method], [PathAndQuery] and [HeaderName] guarantee of a parsed request; a path
    is not required to be ASCII by [http], so this is a condition on it. *)
Record parts_ok (p : Parts) : Prop := {
  parts_method : word_ok (pt_method p);
  parts_target : ∀ t, pt_target p = Some t → word_ok t;
  parts_names : Forall (λ h, name_ok h.1) (pt_headers p);
}.

(** ** Lines *)

Lemma value_field s : value_ok s = true → field_ok s = true.
Proof.
  apply forallb_weaken. intros x. unfold value_byte, field_byte, is_ascii_byte, in_range. lia.
Qed.

Lemma word_head s : word_ok s → head_ok s.
Proof. intros [Hs Hv]. split; [done|]. by apply visible_field. Qed.

Lemma name_ok_token s : token_ok s = true → name_ok s.
Proof.
  unfold token_ok. intros Hs. bool_props. split; [split|].
  - by intros ->.
  - eapply forallb_weaken; [|done]. intros x. unfold token_byte, is_ascii_alphanumeric, is_ascii_digit,
      ascii_visible, is_ascii_byte, char_is_whitespace, in_range. cbn [existsb]. lia.
  - by eapply forallb_not_elem.
Qed.

Lemma word_split s : word_ok s → trim s = s.
Proof. intros [_ Hv]. by apply trim_visible. Qed.

Lemma field_not c s : (c = 13 ∨ c = 10)%N → field_ok s = true → contains_byte c s = false.
Proof.
  intros Hc Hs. unfold contains_byte. apply not_true_is_false. intros E.
  apply existsb_exists in E as (x & Hx & Ex). unfold field_ok in Hs. rewrite forallb_forall in Hs.
  specialize (Hs x Hx). unfold field_byte in Hs. lia.
Qed.

Lemma header_line_head p : name_ok p.1 → field_ok p.2 = true → head_ok (header_line p).
Proof.
  intros [Hn _] Hv. apply word_head in Hn as [Hne Hn]. split.
  - unfold header_line. by destruct p.1.
  - unfold header_line. by rewrite !field_ok_app, Hn, Hv.
Qed.

Lemma header_line_split p :
  n_byte 58 ∉ as_bytes p.1 → split_once ":" (header_line p) = Some (p.1, " " +:+ p.2).
Proof.
  intros Hn. unfold split_once, header_line. rewrite !as_bytes_app.
  change (as_bytes ": ") with (n_byte 58 :: as_bytes " "). change (as_bytes ":") with [n_byte 58].
  cbn [app]. rewrite split_once_byte by done.
  change (n_byte 32 :: as_bytes p.2) with (as_bytes " " ++ as_bytes p.2).
  by rewrite of_bytes_app, !of_as_bytes.
Qed.

Lemma parse_header_lines hs :
  Forall (λ h, name_ok h.1 ∧ field_ok h.2 = true) hs →
  parse_headers (map header_line hs) = Some (map trimmed hs).
Proof.
  induction 1 as [|h hs [[Hw Hn] Hv] _ IH]; [done|]. cbn [map parse_headers].
  rewrite header_line_split by done. rewrite !field_not by (rewrite ?field_ok_app, ?Hv; auto).
  cbn [orb]. rewrite IH. unfold trimmed at 2. by rewrite word_split, trim_space.
Qed.

Lemma start_line m t : join 32 [m; t; "HTTP/1.1"] = m +:+ " " +:+ t +:+ " HTTP/1.1".
Proof. apply as_bytes_inj. unfold join. rewrite as_of_bytes, !as_bytes_app. done. Qed.

(** A request written line by line is read back. *)
Lemma parse_request_lines m t hs body raw :
  word_ok m → word_ok t → contains_byte 63 t = false → contains_byte 35 t = false →
  Forall (λ h, name_ok h.1 ∧ field_ok h.2 = true) hs →
  raw = as_bytes (end_lines ((m +:+ " " +:+ t +:+ " HTTP/1.1") :: map header_line hs) +:+ crlf) ++ body →
  (blen raw ≤ MAX_REQUEST_BYTES)%N →
  parse_request raw =
    Some {| rq_method := m; rq_path := t; rq_headers := map trimmed hs; rq_body := body |}.
Proof.
  intros Hm Ht Hq Hf Hhs -> Hlen.
  set (l := _ :: map header_line hs) in *.
  assert (Hl : Forall head_ok l).
  { constructor.
    - apply word_head in Hm as [Hmne Hm]. apply word_head in Ht as [_ Ht]. split; [by destruct m|].
      by rewrite !field_ok_app, Hm, Ht.
    - apply Forall_map. eapply Forall_impl; [exact Hhs|]. intros h [Hn Hv]. by apply header_line_head. }
  unfold parse_request. rewrite (proj2 (N.ltb_ge _ _)) by done.
  rewrite head_end_lines, <-app_assoc in * by done.
  rewrite head_split, head_utf8, head_lines by done. unfold l at 1.
  rewrite <-start_line, split_whitespace_words
    by (repeat constructor; (apply Hm || apply Ht || done)).
  change (seqb "HTTP/1.1" "HTTP/1.1") with true. cbn [negb orb]. rewrite Hq, Hf. cbn [orb].
  rewrite parse_header_lines by done. rewrite (proj2 (N.ltb_ge _ _)); [done|].
  unfold blen in *. rewrite !length_app in Hlen. lia.
Qed.

(** ** Requests *)

Section requests.
Context `{HttpTypes, !HttpLaws}.

(** The headers of a request as text. *)
Definition header_texts (headers : list (string * bytes)) : list (string * string) :=
  map (λ h, (h.1, of_bytes h.2)) headers.

Lemma header_lines_spec headers text :
  header_lines headers = Some text →
  text = end_lines (map header_line (header_texts headers))
  ∧ Forall (λ h, value_ok h.2 = true) (header_texts headers).
Proof using All.
  revert text. induction headers as [|[n b] hs IH]; intros text; cbn [header_lines]; [by intros [= <-]|].
  destruct (header_to_str b) as [v|] eqn:Ev; [|done].
  destruct (header_lines hs) as [rest|]; [|done]. intros [= <-].
  destruct (IH rest eq_refl) as [-> Hf]. apply header_to_str_spec in Ev as [-> Hv].
  split; [|by constructor]. cbn. apply as_bytes_inj. unfold header_line. cbn [fst snd].
  by rewrite !as_bytes_app, <-!app_assoc.
Qed.

Definition content_length (body : bytes) : string * string :=
  ("Content-Length", u64_to_string (blen body)).

Lemma end_lines_app a b : end_lines (a ++ b) = end_lines a +:+ end_lines b.
Proof.
  induction a as [|x a IH]; [done|]. change (end_lines ((x :: a) ++ b)) with (x +:+ crlf +:+ end_lines (a ++ b)).
  rewrite IH. change (end_lines (x :: a)) with (x +:+ crlf +:+ end_lines a).
  apply as_bytes_inj. by rewrite !as_bytes_app, <-!app_assoc.
Qed.

(** The request that axum parsed and that the daemon writes out as bytes is the request the
    daemon's own parser reads: same method, same target, the same headers in the same order
    with their values trimmed, one [Content-Length] after them, and the body byte for byte. No
    header value can add a header or end the head. *)
Theorem http_request_roundtrip parts body raw :
  parts_ok parts → axum_request_bytes parts body = Some raw → (blen raw ≤ MAX_REQUEST_BYTES)%N →
  ∃ target, pt_target parts = Some target ∧
    parse_request raw = Some {|
      rq_method := pt_method parts; rq_path := target;
      rq_headers := map trimmed (header_texts (pt_headers parts)) ++ [content_length body];
      rq_body := body |}.
Proof using All.
  intros [Hm Ht Hn] Eraw Hlen. unfold axum_request_bytes in Eraw.
  destruct (pt_target parts) as [target|]; [|done]. exists target. split; [done|].
  destruct (contains_byte 63 target) eqn:Hq; [done|].
  destruct (contains_byte 35 target) eqn:Hf; [done|]. cbn [orb] in Eraw.
  destruct (header_lines (pt_headers parts)) as [text|] eqn:E; [|done].
  apply header_lines_spec in E as [-> Hv].
  set (hs := header_texts (pt_headers parts) ++ [content_length body]).
  assert (Hhs : Forall (λ h, name_ok h.1 ∧ field_ok h.2 = true) hs).
  { apply Forall_app. split.
    - apply Forall_and. split; [by apply Forall_map|].
      eapply Forall_impl; [exact Hv|]. intros h. apply value_field.
    - apply Forall_singleton. split; [by apply name_ok_token|].
      apply visible_field, u64_to_string_visible. }
  assert (Ehs : map trimmed hs = map trimmed (header_texts (pt_headers parts)) ++ [content_length body]).
  { unfold hs. rewrite map_app. f_equal. cbn [map]. unfold trimmed, content_length. cbn [fst snd].
    by rewrite trim_visible by apply u64_to_string_visible. }
  rewrite <-Ehs. apply parse_request_lines; [done|by apply Ht|done..| |done].
  injection Eraw as <-. f_equal. unfold hs. rewrite map_app.
  rewrite app_comm_cons, end_lines_app.
  unfold end_lines, header_line. cbn [map foldr content_length fst snd].
  rewrite !as_bytes_app, <-!app_assoc. done.
Qed.
End requests.

(** ** Responses *)

Definition not_length (h : string * string) : Prop := eq_ignore_ascii_case h.1 "content-length" = false.
#[global] Instance not_length_dec h : Decision (not_length h) := _.

Lemma response_header_lines hs :
  Forall (λ h, n_byte 58 ∉ as_bytes h.1) hs →
  omap response_header (map header_line hs) = map trimmed (filter not_length hs).
Proof.
  induction 1 as [|h hs Hn _ IH]; [done|]. cbn [map omap list_omap]. unfold response_header at 1.
  rewrite header_line_split by done.
  destruct (eq_ignore_ascii_case h.1 "content-length") eqn:E.
  - rewrite filter_cons_False by (unfold not_length; congruence). exact IH.
  - rewrite filter_cons_True by done. cbn [map]. rewrite trim_space. unfold trimmed at 1. by f_equal.
Qed.

Lemma value_trim s : value_ok s = true → value_ok (trim s) = true.
Proof.
  intros Hs. destruct (trim_bytes s) as (k & l & E).
  - by apply ascii_utf8_valid, field_ok_ascii, value_field.
  - unfold value_ok in *. rewrite E, !forallb_app in Hs. by bool_props.
Qed.

Lemma status_words st words :
  in_range 100 999 st = true → Forall word_ok words →
  Forall word_ok ("HTTP/1.1" :: u64_to_string st :: words).
Proof.
  intros Hst Hw. constructor; [done|]. constructor; [|done]. split; [|apply u64_to_string_visible].
  intros E. pose proof (parse_u16_to_string st) as P. rewrite E in P.
  unfold u16_max, in_range in *. discriminate P. lia.
Qed.

Lemma status_line_head st words :
  in_range 100 999 st = true → Forall word_ok words →
  head_ok (join 32 ("HTTP/1.1" :: u64_to_string st :: words)).
Proof.
  intros Hst Hw. split; [by rewrite <-(of_as_bytes (join _ _)); unfold join; rewrite as_of_bytes|].
  unfold field_ok, join. rewrite as_of_bytes. apply forallb_join_b; [done|].
  apply Forall_map. eapply Forall_impl; [by apply (status_words st words)|]. intros w Hx. by apply word_head.
Qed.

Section responses.
Context `{HttpTypes, !HttpLaws}.

(** A response written line by line is what axum sends. *)
Lemma axum_response_lines st words hs body :
  in_range 100 999 st = true → Forall word_ok words →
  Forall (λ h, token_ok h.1 = true ∧ value_ok h.2 = true) hs →
  axum_response (as_bytes (end_lines (join 32 ("HTTP/1.1" :: u64_to_string st :: words)
                                      :: map header_line hs) +:+ crlf) ++ body) =
  {| ar_status := st; ar_headers := map trimmed (filter not_length hs); ar_body := body |}.
Proof using All.
  intros Hst Hw Hhs. set (l := _ :: map header_line hs).
  assert (Hl : Forall head_ok l).
  { constructor; [by apply status_line_head|].
    apply Forall_map. eapply Forall_impl; [exact Hhs|]. intros h [Hn Hv].
      apply header_line_head; [by apply name_ok_token|by apply value_field]. }
  unfold axum_response. rewrite head_end_lines, <-app_assoc by done.
  rewrite head_split, head_lossy, head_lines by done. unfold l.
  rewrite response_header_lines.
  2:{ eapply Forall_impl; [exact Hhs|]. intros h [Hn _]. by apply name_ok_token. }
  rewrite (proj2 (forallb_forall _ _)).
  - unfold status_of. rewrite split_whitespace_words by (by apply status_words). cbn [lookup list_lookup].
    rewrite parse_u16_to_string, status_from_u16_spec, Hst by (unfold u16_max, in_range in *; lia). done.
  - intros h Hh. apply in_map_iff in Hh as (g & <- & Hg). apply list_elem_of_In, list_elem_of_filter in Hg as [_ Hg].
    rewrite Forall_forall in Hhs. destruct (Hhs g Hg). cbn [trimmed fst snd].
    apply header_ok_spec; [done|]. by apply value_trim.
Qed.

Definition SECURITY_PAIRS : list (string * string) := omap response_header SECURITY_HEADERS.

Lemma security_lines : end_lines SECURITY_HEADERS = end_lines (map header_line SECURITY_PAIRS).
Proof. by vm_compute. Qed.

Lemma security_ok : Forall (λ h, token_ok h.1 = true ∧ value_ok h.2 = true) SECURITY_PAIRS.
Proof. repeat constructor; by vm_compute. Qed.

Definition cookie_pairs (set_cookie : option string) : list (string * string) :=
  match set_cookie with Some v => [("Set-Cookie", v)] | None => [] end.

Definition all_pairs (content_type : string) (n : N) (set_cookie : option string) :=
  ("Content-Type", content_type) :: ("Content-Length", u64_to_string n)
  :: SECURITY_PAIRS ++ cookie_pairs set_cookie.

Lemma all_pairs_ok ct n c :
  value_ok ct = true → from_option value_ok true c = true →
  Forall (λ h, token_ok h.1 = true ∧ value_ok h.2 = true) (all_pairs ct n c).
Proof.
  intros Hct Hc. constructor; [done|]. constructor.
  - split; [done|]. eapply forallb_weaken; [|apply u64_digits].
    intros x. unfold is_ascii_digit, value_byte, in_range. lia.
  - apply Forall_app. split; [apply security_ok|]. destruct c; [|by constructor].
    by repeat constructor.
Qed.

Lemma all_pairs_sent ct n c :
  map trimmed (filter not_length (all_pairs ct n c)) =
  ("Content-Type", trim ct) :: SECURITY_PAIRS ++ map trimmed (cookie_pairs c).
Proof.
  unfold all_pairs. rewrite filter_cons_True, filter_cons_False, filter_app, map_cons, map_app by done.
  f_equal. f_equal. by destruct c.
Qed.

(** The text after the status code, as words. *)
Lemma status_line code text :
  "HTTP/1.1 " +:+ code +:+ " " +:+ text = join 32 ("HTTP/1.1" :: code :: split 32 text).
Proof.
  apply as_bytes_inj. unfold join, split. rewrite as_of_bytes, !as_bytes_app, !map_cons, map_map.
  erewrite map_ext, map_id by apply as_of_bytes.
  rewrite <-(join_split_b (n_byte 32) (as_bytes text)) at 1.
  by destruct (split_b (n_byte 32) (as_bytes text)) eqn:E; [destruct (split_b_nonempty _ _ E)|].
Qed.

Lemma reason_words st : Forall word_ok (split 32 (reason st)).
Proof. unfold reason. repeat case_match; repeat constructor; by vm_compute. Qed.

Lemma all_pairs_lines line ct n c :
  end_lines (line :: map header_line (all_pairs ct n c)) =
  line +:+ crlf +:+ "Content-Type: " +:+ ct +:+ crlf +:+ "Content-Length: " +:+ u64_to_string n
  +:+ crlf +:+ end_lines SECURITY_HEADERS
  +:+ match c with Some v => "Set-Cookie: " +:+ v +:+ crlf | None => EmptyString end.
Proof.
  unfold all_pairs. cbn [map]. rewrite map_app, security_lines.
  change (line :: ?a :: ?b :: ?l ++ ?r) with ([line; a; b] ++ l ++ r). rewrite !end_lines_app.
  apply as_bytes_inj. cbn [end_lines foldr]. rewrite !as_bytes_app. unfold header_line at 1 2. cbn [fst snd].
  rewrite !as_bytes_app, <-!app_assoc. by destruct c.
Qed.

(** Every response of the daemon, with a status between 100 and 999 and a cookie and content
    type of printable ASCII, reaches the client through axum unchanged: its status, its
    content type, all eight security headers and its cookie, and its body byte for byte. *)
Theorem http_response_roundtrip st body set_cookie ct :
  in_range 100 999 st = true → from_option value_ok true set_cookie = true →
  from_option value_ok true ct = true →
  let ct' := default "text/plain; charset=utf-8" ct in
  axum_response (response st body set_cookie ct) =
  {| ar_status := st;
     ar_headers := ("Content-Type", trim ct') :: SECURITY_PAIRS ++ map trimmed (cookie_pairs set_cookie);
     ar_body := as_bytes (response_body body ct') |}.
Proof using All.
  intros Hst Hc Hct ct'. set (b := response_body body ct').
  rewrite <-(all_pairs_sent ct' (slen b)).
  rewrite <-(axum_response_lines st (split 32 (reason st)));
    [|done|apply reason_words|apply all_pairs_ok; [by destruct ct|done]].
  f_equal. unfold response. fold ct'. fold b.
  rewrite <-status_line, all_pairs_lines. by rewrite !as_bytes_app, <-!app_assoc.
Qed.
End responses.

(** ** Accepted requests *)

Definition clean_value (v : string) : Prop := n_byte 13 ∉ as_bytes v ∧ n_byte 10 ∉ as_bytes v.

Record request_ok (r : Request) : Prop := {
  ok_method : solid (rq_method r);
  ok_path : solid (rq_path r);
  ok_no_query : contains_byte 63 (rq_path r) = false ∧ contains_byte 35 (rq_path r) = false;
  ok_values : Forall (λ h, clean_value h.2) (rq_headers r);
  ok_body : (blen (rq_body r) < MAX_REQUEST_BYTES)%N;
}.

Lemma contains_byte_elem c s :
  (c < 256)%N → contains_byte c s = false → n_byte c ∉ as_bytes s.
Proof.
  intros Hc Hs Hin. apply not_true_iff_false in Hs. apply Hs. unfold contains_byte.
  apply existsb_exists. exists (n_byte c). split; [by apply list_elem_of_In|].
  rewrite byte_n_n_byte by done. apply N.eqb_refl.
Qed.

Lemma parse_headers_clean l hs :
  Forall (λ x, utf8_valid (as_bytes x) = true) l → parse_headers l = Some hs →
  Forall (λ h, clean_value h.2) hs.
Proof.
  intros Hl. revert hs. induction Hl as [|x l Hx _ IH]; intros hs; cbn [parse_headers]; [by intros [= <-]|].
  destruct (split_once ":" x) as [[k v]|] eqn:E; [|done].
  destruct (contains_byte 13 v) eqn:E13; [done|]. destruct (contains_byte 10 v) eqn:E10; [done|].
  destruct (parse_headers l) as [rest|]; [|done]. intros [= <-]. constructor; [|by apply IH].
  eapply (split_once_valid (n_byte 58)) in E as [_ Hv]; [|done..].
  apply contains_byte_elem in E13, E10; [|done..]. cbn [snd].
  destruct (trim_bytes v Hv) as (a & b & Eb). rewrite Eb in E13, E10. unfold clean_value. set_solver.
Qed.

(** Whatever bytes arrive, a request that the parser accepts is well formed: its method and its
    path are words without white space, the path has no query and no fragment, no header
    value has a line break, and the body is below the limit. *)
Theorem http_request_well_formed raw r : parse_request raw = Some r → request_ok r.
Proof.
  unfold parse_request. destruct (MAX_REQUEST_BYTES <? blen raw)%N eqn:Emax; [done|].
  destruct (split_once_b HEAD_END raw) as [[head body]|] eqn:Esplit; [|done].
  destruct (from_utf8 head) as [text|] eqn:Eutf; [|done].
  assert (utf8_valid (as_bytes text) = true) as Hv.
  { unfold from_utf8 in Eutf. destruct (utf8_valid head) eqn:E; [|done]. injection Eutf as <-.
    by rewrite as_of_bytes. }
  apply split_crlf_valid in Hv. destruct (split_str crlf text) as [|start rest]; [done|].
  apply Forall_cons in Hv as [Hstart Hrest]. apply split_whitespace_solid in Hstart.
  destruct (split_whitespace start) as [|m [|t [|v ws]]]; [done..|].
  rewrite !Forall_cons in Hstart. destruct Hstart as (Hm & Ht & _).
  destruct (seqb v "HTTP/1.1"); [|done]. cbn [negb orb].
  destruct (contains_byte 63 t) eqn:Eq; [done|]. destruct (contains_byte 35 t) eqn:Ef; [done|].
  cbn [orb]. destruct (parse_headers rest) as [hs|] eqn:Eh; [|done].
  destruct (MAX_REQUEST_BYTES <? blen body)%N; [done|]. intros [= <-]. split; cbn; try done.
  - by eapply parse_headers_clean.
  - apply split_once_b_eq in Esplit as ->. unfold blen in *. rewrite !length_app in Emax.
    change (length HEAD_END) with 4 in Emax. lia.
Qed.

(** ** Static files *)

Lemma components_prefix_true p l : components_prefix p l = true ↔ ∃ r, l = p ++ r.
Proof.
  revert l. induction p as [|x p IH]; intros l; cbn [components_prefix]; [naive_solver|].
  destruct l as [|y l]; [naive_solver|]. rewrite andb_true_iff, seqb_true, IH. naive_solver.
Qed.

Lemma content_type_value relative : value_ok (content_type_of relative) = true ∧
  trim (content_type_of relative) = content_type_of relative.
Proof. unfold content_type_of. repeat case_match; by vm_compute. Qed.

(** C39. A static file is served only from below the directory of the user interface: whatever the
    request path and whatever links the directory holds, the file read is a regular file
    whose real path extends the real path of that directory; and the client gets status 200,
    the content type of the extension, the security headers and the bytes of that file. *)
Theorem http_static_file_contained `{HttpTypes, !HttpLaws} fs ui_root relative raw :
  static_file fs ui_root relative = Some raw →
  ∃ ui root canonical rest b,
    ui_root = Some ui ∧ sf_canonicalize fs ui = Some root ∧
    sf_canonicalize fs (path_join root relative) = Some canonical ∧
    rev (path_parts canonical) = rev (path_parts root) ++ rest ∧
    sf_is_file fs canonical = true ∧ sf_read fs canonical = Some b ∧
    axum_response raw = {| ar_status := 200;
      ar_headers := ("Content-Type", content_type_of relative) :: SECURITY_PAIRS; ar_body := b |}.
Proof.
  unfold static_file. intros E. destruct (_ || _ || _ || _ || _); [done|].
  destruct ui_root as [ui|]; [|done]. destruct (sf_canonicalize fs ui) as [root|] eqn:Er; [|done].
  destruct (sf_canonicalize fs (path_join root relative)) as [canonical|] eqn:Ec; [|done].
  destruct (path_starts_with canonical root) eqn:Ep; [|done].
  destruct (sf_is_file fs canonical) eqn:Ef; [|done]. cbn [negb orb] in E.
  destruct (sf_read fs canonical) as [b|] eqn:Eb; [|done].
  apply components_prefix_true in Ep as [rest Ep].
  exists ui, root, canonical, rest, b. repeat (split; [done|]).
  destruct (content_type_value relative) as [Hct Htrim].
  pose proof (axum_response_lines 200 ["OK"] (all_pairs (content_type_of relative) (blen b) None) b) as A.
  rewrite all_pairs_sent, Htrim, all_pairs_lines in A.
  cbn [cookie_pairs map] in A. rewrite app_nil_r in A. rewrite <-A;
    [|done|by repeat constructor|by apply all_pairs_ok].
  injection E as <-. rewrite !as_bytes_app. by rewrite <-!app_assoc.
Qed.

(** ** The guard of the API *)

(** An API request passes the guard exactly when it carries the session cookie of a live
    session, names the configured host and UI version, comes from the configured origin (only
    a GET may leave the origin out), and, for a state-changing method, shows the CSRF token of
    that session. *)
Theorem http_api_guard_iff `{Crypto} b r now mono :
  bc_ui_origin (lb_config b) ≠ EmptyString →
  authorize_api b r now mono = Ok tt ↔
  ∃ cookie s,
    cookie_value (default EmptyString (header r "cookie")) "ad_session" = Some cookie ∧
    lb_session b = Some s ∧
    (elapsed_secs (ss_started s) mono < ttl_seconds (ss_ttl s))%N ∧ (now < ttl_expires_at (ss_ttl s))%N ∧
    ss_cookie_hash s = hash_token cookie ∧
    (header r "origin" = Some (bc_ui_origin (lb_config b)) ∨
     header r "origin" = None ∧ rq_method r = "GET") ∧
    default EmptyString (header r "host") = expected_host (bc_bind_host (lb_config b)) (bc_port (lb_config b)) ∧
    default EmptyString (header r "x-ad-ui-version") = bc_ui_version (lb_config b) ∧
    (is_state_changing_method (rq_method r) = true →
     ss_csrf_hash s = hash_token (default EmptyString (header r "x-ad-csrf"))).
Proof.
  intros Hui. unfold authorize_api.
  destruct (cookie_value _ _) as [cookie|]; [|naive_solver].
  set (origin := match header r "origin" with Some _ => _ | None => _ end).
  assert (Ho : origin = bc_ui_origin (lb_config b) ↔
    header r "origin" = Some (bc_ui_origin (lb_config b)) ∨ header r "origin" = None ∧ rq_method r = "GET").
  { unfold origin. destruct (header r "origin") as [o|]; [naive_solver|].
    destruct (seqb (rq_method r) "GET") eqn:E; [apply seqb_true in E; naive_solver|].
    split; [naive_solver|]. intros [[=]|[_ Hg]]. rewrite Hg in E. done. }
  set (req := {| br_origin := origin |}).
  transitivity (authorize b req now mono = Ok tt).
  { destruct (authorize b req now mono) as [[]|e]; [done|]. by cbn. }
  rewrite bridge_authorize_iff. unfold req. cbn [br_origin br_host br_ui_version br_cookie br_method br_csrf_token].
  rewrite Ho. naive_solver.
Qed.

(** ** Witnesses *)

Module HttpSample.
#[export] Instance http_types : HttpTypes := {
  header_to_str b := if forallb value_byte b then Some (of_bytes b) else None;
  status_from_u16 := in_range 100 999;
  header_ok n v := token_ok n && value_ok v;
}.
#[export] Instance http_laws : HttpLaws.
Proof.
  split.
  - intros b v. cbn. destruct (forallb value_byte b) eqn:E; [|done]. intros [= <-].
    unfold value_ok. by rewrite as_of_bytes.
  - done.
  - intros n v Hn Hv. cbn. by rewrite Hn, Hv.
Qed.

Definition parts : Parts :=
  {| pt_method := "POST"; pt_target := Some "/api/messages";
     pt_headers := [("host", as_bytes "127.0.0.1:4173"); ("x-note", as_bytes " two words ")] |}.
Definition body : bytes := as_bytes "hello" ++ HEAD_END ++ [n_byte 255].
Definition raw : bytes := default [] (axum_request_bytes parts body).

Lemma parts_are_ok : parts_ok parts.
Proof.
  split; [done| |repeat constructor; by apply name_ok_token].
  by intros t [= <-].
Qed.

Lemma http_request_roundtrip_witness :
  ∃ target, pt_target parts = Some target ∧
    parse_request raw = Some {|
      rq_method := pt_method parts; rq_path := target;
      rq_headers := map trimmed (header_texts (pt_headers parts)) ++ [content_length body];
      rq_body := body |}.
Proof.
  apply (http_request_roundtrip parts body raw); [apply parts_are_ok|by vm_compute|by vm_compute].
Defined.

Lemma http_response_roundtrip_witness :
  ar_status (axum_response (response 404 "not_found" (Some "ad_session=x; HttpOnly") (Some "application/json"))) = 404%N.
Proof.
  rewrite (http_response_roundtrip 404 "not_found" (Some "ad_session=x; HttpOnly") (Some "application/json"));
    [reflexivity|by vm_compute..].
Defined.

Lemma http_request_well_formed_witness : request_ok (default (Build_Request EmptyString EmptyString [] []) (parse_request raw)).
Proof. apply (http_request_well_formed raw). vm_compute. reflexivity. Defined.

Definition files : StaticFiles := {|
  sf_canonicalize p := if seqb p "ui" then Some "/srv/ui" else if seqb p "/srv/ui/app.js" then Some p else None;
  sf_is_file p := seqb p "/srv/ui/app.js";
  sf_read p := if seqb p "/srv/ui/app.js" then Some (as_bytes "run()") else None |}.

Lemma http_static_file_contained_witness :
  ∃ ui root canonical rest b,
    Some "ui" = Some ui ∧ sf_canonicalize files ui = Some root ∧
    sf_canonicalize files (path_join root "app.js") = Some canonical ∧
    rev (path_parts canonical) = rev (path_parts root) ++ rest ∧
    sf_is_file files canonical = true ∧ sf_read files canonical = Some b ∧
    axum_response (default [] (static_file files (Some "ui") "app.js")) = {| ar_status := 200;
      ar_headers := ("Content-Type", content_type_of "app.js") :: SECURITY_PAIRS; ar_body := b |}.
Proof. apply (http_static_file_contained files (Some "ui") "app.js"). vm_compute. reflexivity. Defined.

Section guard.
Import Reference.
Definition post : Request :=
  {| rq_method := "POST"; rq_path := "/api/x"; rq_body := [];
     rq_headers := [("Origin", "http://127.0.0.1:4173"); ("Host", "127.0.0.1:4173");
       ("Cookie", "a=b; ad_session=" +:+ sc_cookie BridgeSample.credentials);
       ("X-AD-CSRF", sc_csrf_token BridgeSample.credentials); ("X-AD-UI-Version", "1.0.0")] |}.

Lemma http_api_guard_iff_witness :
  header post "origin" = Some "http://127.0.0.1:4173" ∨ header post "origin" = None ∧ rq_method post = "GET".
Proof.
  destruct (proj1 (http_api_guard_iff BridgeSample.exchanged.1 post 500 1000000007 ltac:(vm_compute; done))
              ltac:(vm_compute; reflexivity)) as (cookie & s & _ & _ & _ & _ & _ & Ho & _).
  exact Ho.
Defined.
End guard.
End HttpSample.
