(* ===== verification/RelayClient.v ===== *)
(** * The relay client of the daemon ([apps/daemon/src/relay_http.rs])

    Endpoints with their trust decision, the pinned certificate check, requests over a
    connection, and the operations on a relay. A connection is a log of what the client has
    done so far; what the network answers to the next call is a function of that log. *)
From Stdlib Require Import Ascii NArith Lia ZifyBool ZifyN.
From stdpp Require Import base gmap strings list.
From S2P Require Import Prelude Text TextScan Collections Interfaces JsonValue ProtocolGate Trust RelayEnvelope Attachment.

Definition MAX_RESPONSE_BYTES : N := 128 * 1024.
Definition MAX_BLOB_BYTES : N := 32 * 1024 * 1024.

Inductive RelayError :=
| InvalidEndpoint
| TrustRequired
| TlsConfiguration
| TlsHandshake
| UnsupportedTransport
| InvalidCapability
| Connect
| Timeout
| ResponseTooLarge
| InvalidResponse
| Rejected (status : N).
#[export] Instance RelayError_eq_dec : EqDecision RelayError.
Proof. solve_decision. Defined.

(** ** Certificates *)

(** The arguments of [verify_server_cert], and what the WebPKI verifier inside answers. *)
Record ServerCert := {
  sc_end_entity : bytes;
  sc_intermediates : list bytes;
  sc_server_name : string;
  sc_ocsp_response : bytes;
  sc_now : N;
}.
Class WebPki := webpki_verify : ServerCert → bool.

Inductive CertVerdict := Verified | Assertion.

Definition verify_server_cert `{Crypto, WebPki} (pin : TlsCertificatePin) (cert : ServerCert)
  : result CertVerdict string :=
  if negb (bool_decide (sha256 (sc_end_entity cert) = pin)) then Err "relay certificate pin mismatch"
  else if webpki_verify cert then Ok Verified else Ok Assertion.

(** ** Endpoints *)

(** [Authority::host]: the authority without user information and port. *)
Class AuthorityHost := authority_host : string → string.

Record RelayEndpoint := {
  ep_origin : string;
  ep_path : string;
  ep_capability : string;
  ep_tls_certificate_pin : option TlsCertificatePin;
  ep_tls_server_name : string;
}.

Section endpoints.
Context `{UriParser, AuthorityHost}.

Definition loopback_name (host : string) : bool :=
  seqb host "127.0.0.1" || seqb host "localhost" || seqb host "[::1]".

Definition from_inbox_url_with_pin (value : string) (pin : option TlsCertificatePin)
  : result RelayEndpoint RelayError :=
  let? uri := ok_or (uri_parse value) InvalidEndpoint in
  let? scheme := ok_or (uri_scheme uri) InvalidEndpoint in
  let? authority := ok_or (uri_authority uri) InvalidEndpoint in
  let host := authority_host authority in
  if seqb scheme "http" && (negb (loopback_name host) || bool_decide (is_Some pin)) then Err UnsupportedTransport
  else if seqb scheme "https" && negb (bool_decide (is_Some pin)) then Err TrustRequired
  else if negb (seqb scheme "http") && negb (seqb scheme "https") then Err UnsupportedTransport
  else if bool_decide (is_Some (uri_query uri)) || is_empty_str (uri_path uri)
          || negb (starts_with "/api/v1/inbox/" (uri_path uri))
  then Err InvalidEndpoint
  else
    let capability := last_field 47 (uri_path uri) in
    if negb (slen capability =? 43)%N || negb (forallb is_url_safe (as_bytes capability))
    then Err InvalidCapability
    else Ok {| ep_origin := scheme +:+ "://" +:+ authority; ep_path := uri_path uri;
               ep_capability := capability; ep_tls_certificate_pin := pin;
               ep_tls_server_name := host |}.

Definition from_inbox_url (value : string) : result RelayEndpoint RelayError :=
  from_inbox_url_with_pin value None.

Definition for_public_origin_with_pin (value : string) (pin : option TlsCertificatePin)
  : result RelayEndpoint RelayError :=
  let? uri := ok_or (uri_parse value) InvalidEndpoint in
  let? scheme := ok_or (uri_scheme uri) InvalidEndpoint in
  let? authority := ok_or (uri_authority uri) InvalidEndpoint in
  let host := authority_host authority in
  if negb (seqb (uri_path uri) "/") || bool_decide (is_Some (uri_query uri)) then Err InvalidEndpoint
  else if seqb scheme "http" && (negb (loopback_name host) || bool_decide (is_Some pin))
  then Err UnsupportedTransport
  else if seqb scheme "https" && negb (bool_decide (is_Some pin)) then Err TrustRequired
  else if negb (seqb scheme "http") && negb (seqb scheme "https") then Err UnsupportedTransport
  else Ok {| ep_origin := scheme +:+ "://" +:+ authority; ep_path := "/api/v1/invite-codes";
             ep_capability := "public-rendezvous"; ep_tls_certificate_pin := pin;
             ep_tls_server_name := host |}.
End endpoints.

(** The text after the scheme of the origin: [address], and the [Host] of a request. *)
Definition address (self : RelayEndpoint) : result string RelayError :=
  match split_once "://" (ep_origin self) with
  | Some (_, authority) => Ok authority
  | None => Err InvalidEndpoint
  end.

(** ** The connection *)

(** A call of the operating system or of the timer around it. *)
Inductive Io (A : Type) := IoOk (a : A) | IoFailed | IoElapsed.
Arguments IoOk {A} _.
Arguments IoFailed {A}.
Arguments IoElapsed {A}.

(** [ClientConfig] with the verifier that holds the pin. *)
Record ClientConfig := { cc_pin : TlsCertificatePin }.

(** The stream a request runs over. *)
Inductive Stream := PlainTcp (address : string) | TlsOver (address : string) (config : ClientConfig) (server_name : string).

Inductive NetEvent :=
| EvConnect (address : string)
| EvReadTimeout
| EvWriteTimeout
| EvHandshake (address : string) (config : ClientConfig) (server_name : string)
| EvWrite (stream : Stream) (data : bytes)
| EvRead (stream : Stream).

(** What the network, the TLS library and the resolver answer, given what has happened. *)
Class Transport := {
  net_connect : list NetEvent → string → Io unit;
  net_set_timeout : list NetEvent → bool;
  net_handshake : list NetEvent → ClientConfig → string → bool;
  net_write : list NetEvent → Stream → bytes → Io unit;
  net_read : list NetEvent → Stream → Io bytes;
  (** Building the WebPKI verifier and choosing the protocol versions. *)
  tls_verifier_builds : bool;
  tls_versions_ok : bool;
  (** [ServerName::try_from] and [ClientConnection::new]. *)
  server_name_ok : string → bool;
  client_connection_ok : ClientConfig → string → bool;
}.

Definition tls_config `{Transport} (pin : TlsCertificatePin) : result ClientConfig RelayError :=
  if negb tls_verifier_builds then Err TlsConfiguration
  else if negb tls_versions_ok then Err TlsConfiguration
  else Ok {| cc_pin := pin |}.

Definition Net (A : Type) : Type := Mut (list NetEvent) A RelayError.

(** The call happens, whatever it answers. *)
Definition net_call {A} (event : NetEvent) (answer : list NetEvent → A) : Net A :=
  λ log, (log ++ [event], Ok (answer log)).

(** [timeout(..).await.map_err(Timeout)?.map_err(Connect)?]. *)
Definition timed {A} (io : Io A) : result A RelayError :=
  match io with IoOk a => Ok a | IoFailed => Err Connect | IoElapsed => Err Timeout end.
(** [.map_err(Connect)?]: a read or write time limit of the socket is an error like others. *)
Definition untimed {A} (io : Io A) : result A RelayError :=
  match io with IoOk a => Ok a | IoFailed | IoElapsed => Err Connect end.

Definition RequestHeaders : Type := list (string * string).

Definition content_type (path : string) : string :=
  if starts_with "/api/v1/blobs/" path then "application/octet-stream" else "application/json".

Definition request_text (self : RelayEndpoint) (authority method path : string) (body : bytes)
    (headers : RequestHeaders) : string :=
  method +:+ " " +:+ path +:+ " HTTP/1.1" +:+ crlf
  +:+ "Host: " +:+ authority +:+ crlf
  +:+ "Connection: close" +:+ crlf
  +:+ "Accept: application/json" +:+ crlf
  +:+ "Content-Type: " +:+ content_type path +:+ crlf
  +:+ "X-Ad-Relay-Capability: " +:+ ep_capability self +:+ crlf
  +:+ end_lines (map (λ h, h.1 +:+ ": " +:+ h.2) headers)
  +:+ "Content-Length: " +:+ u64_to_string (blen body) +:+ crlf +:+ crlf.

Definition parse_response (response : bytes) : result (N * bytes) RelayError :=
  match split_once_b HEAD_END response with
  | None => Err InvalidResponse
  | Some (head, body) =>
    match from_utf8 head with
    | None => Err InvalidResponse
    | Some head =>
      match lines head with
      | [] => Err InvalidResponse
      | line :: _ =>
        match split_whitespace line !! 1%nat with
        | None => Err InvalidResponse
        | Some word =>
          match parse_u16 word with
          | None => Err InvalidResponse
          | Some status => Ok (status, body)
          end
        end
      end
    end
  end.

Section requests.
Context `{Transport}.

(** The part both kinds of request share; [bound] is how they treat a call that took too
    long. *)
Definition request_stream (bound : ∀ A, Io A → result A RelayError) (self : RelayEndpoint)
    (stream : Stream) (method path : string) (body : bytes) (headers : RequestHeaders)
    (max_response_bytes : N) : Net (N * bytes) :=
  let! authority := mut_lift (address self) in
  let request := as_bytes (request_text self authority method path body headers) in
  let! written := net_call (EvWrite stream request) (λ log, net_write log stream request) in
  let! _ := mut_lift (bound _ written) in
  let! written := net_call (EvWrite stream body) (λ log, net_write log stream body) in
  let! _ := mut_lift (bound _ written) in
  let! read := net_call (EvRead stream) (λ log, net_read log stream) in
  let! response := mut_lift (bound _ read) in
  if (max_response_bytes <? blen response)%N then mut_lift (Err ResponseTooLarge)
  else mut_lift (parse_response response).

Definition request_async_stream := request_stream (@timed).
Definition request_blocking_stream := request_stream (@untimed).

Definition request_with_headers (self : RelayEndpoint) (method path : string) (body : bytes)
    (headers : RequestHeaders) (max_response_bytes : N) : Net (N * bytes) :=
  let! address := mut_lift (address self) in
  let! connected := net_call (EvConnect address) (λ log, net_connect log address) in
  let! _ := mut_lift (timed connected) in
  match ep_tls_certificate_pin self with
  | Some pin =>
    let! config := mut_lift (tls_config pin) in
    let server_name := ep_tls_server_name self in
    if negb (server_name_ok server_name) then mut_lift (Err TlsConfiguration)
    else
      let! shaken := net_call (EvHandshake address config server_name)
                       (λ log, net_handshake log config server_name) in
      if (shaken : bool)
      then request_async_stream self (TlsOver address config server_name) method path body headers
             max_response_bytes
      else mut_lift (Err TlsHandshake)
  | None =>
    request_async_stream self (PlainTcp address) method path body headers max_response_bytes
  end.

(** The handshake of a blocking connection is part of its first write. *)
Definition request_blocking_with_headers (self : RelayEndpoint) (method path : string)
    (body : bytes) (headers : RequestHeaders) (max_response_bytes : N) : Net (N * bytes) :=
  let! address := mut_lift (address self) in
  let! connected := net_call (EvConnect address) (λ log, net_connect log address) in
  let! _ := mut_lift (untimed connected) in
  let! done := net_call EvReadTimeout net_set_timeout in
  if negb done then mut_lift (Err Connect)
  else
    let! done := net_call EvWriteTimeout net_set_timeout in
    if negb done then mut_lift (Err Connect)
    else
      match ep_tls_certificate_pin self with
      | Some pin =>
        let! config := mut_lift (tls_config pin) in
        let server_name := ep_tls_server_name self in
        if negb (server_name_ok server_name) then mut_lift (Err TlsConfiguration)
        else if negb (client_connection_ok config server_name) then mut_lift (Err TlsHandshake)
        else request_blocking_stream self (TlsOver address config server_name) method path body
               headers max_response_bytes
      | None =>
        request_blocking_stream self (PlainTcp address) method path body headers max_response_bytes
      end.

Definition request (self : RelayEndpoint) (method path : string) (body : bytes) : Net (N * bytes) :=
  request_with_headers self method path body [] MAX_RESPONSE_BYTES.
Definition request_blocking (self : RelayEndpoint) (method path : string) (body : bytes)
  : Net (N * bytes) :=
  request_blocking_with_headers self method path body [] MAX_RESPONSE_BYTES.
End requests.

(** ** Operations *)

Record RelayAccepted := { ra_id : string }.
Record RelayItem := { rit_id : string; rit_envelope : string }.
Record BlobChunkAccepted := {
  ba_complete : bool; ba_received : N; ba_total : N; ba_expires_at : N }.
Record RelayInviteCode := { ric_code : string; ric_expires_at : N; ric_invite_digest : string }.
Record ConsumedRelayInvite := { cri_invite : string; cri_receipt : string }.

(** The JSON replies. *)
Record PostResponse := { pr_accepted : bool; pr_id : option string }.
Record SyncItem := { sy_id : string; sy_envelope : string }.
Record SyncResponse := { sr_items : list SyncItem }.
Record AckResponse := { ak_acknowledged : N }.
Record BlobChunkResponse := {
  bc_accepted : bool; bc_complete : bool; bc_received : N; bc_total : N; bc_expires_at : N }.
Record InviteCodeResponse := {
  ic_created : bool; ic_code : string; ic_expires_at : N; ic_invite_digest : string }.
Record ConsumeInviteResponse := { ci_consumed : bool; ci_invite : string; ci_receipt : string }.
Record PairingResponseRead := { rd_available : bool; rd_responses : list Value }.
Record RevokeInviteResponse := { rv_revoked : bool }.

(** [!(200..300).contains(&status)]. *)
Definition accept_status {A} (status : N) (k : result A RelayError) : result A RelayError :=
  if negb (in_range 200 299 status) then Err (Rejected status) else k.

Definition decode_body {A} `{JsonCodec A} (body : bytes) : result A RelayError :=
  ok_or (json_from_slice body) InvalidResponse.

Definition blob_path (blob_id : string) : result string RelayError :=
  if (slen blob_id <? 32)%N || (128 <? slen blob_id)%N || negb (forallb is_url_safe (as_bytes blob_id))
  then Err InvalidEndpoint
  else Ok ("/api/v1/blobs/" +:+ blob_id).

(** What each operation makes of a reply. *)
Section replies.
Context `{JsonCodec PostResponse, JsonCodec SyncResponse, JsonCodec AckResponse}.
Context `{JsonCodec BlobChunkResponse}.

Definition post_reply (reply : N * bytes) : result RelayAccepted RelayError :=
  let '(status, response) := reply in
  accept_status status
    (let? parsed := decode_body response in
     if negb (pr_accepted parsed) then Err (Rejected status)
     else let? id := ok_or (pr_id parsed) InvalidResponse in Ok {| ra_id := id |}).

Definition sync_reply (reply : N * bytes) : result (list RelayItem) RelayError :=
  let '(status, response) := reply in
  accept_status status
    (let? parsed := decode_body response in
     Ok (map (λ item, {| rit_id := sy_id item; rit_envelope := sy_envelope item |}) (sr_items parsed))).

Definition ack_reply (reply : N * bytes) : result N RelayError :=
  let '(status, response) := reply in
  accept_status status (let? parsed := decode_body response in Ok (ak_acknowledged parsed)).

Definition upload_reply (total end_ : N) (reply : N * bytes) : result BlobChunkAccepted RelayError :=
  let '(status, response) := reply in
  accept_status status
    (let? parsed := decode_body response in
     if negb (bc_accepted parsed) || negb (bc_total parsed =? total)%N
        || negb (bc_received parsed =? end_)%N
     then Err InvalidResponse
     else Ok {| ba_complete := bc_complete parsed; ba_received := bc_received parsed;
                ba_total := bc_total parsed; ba_expires_at := bc_expires_at parsed |}).
End replies.

Section operations.
Context `{Transport, JsonCodec WireEnvelope, JsonCodec Value}.
Context `{JsonCodec PostResponse, JsonCodec SyncResponse, JsonCodec AckResponse}.
Context `{JsonCodec BlobChunkResponse}.
Context (self : RelayEndpoint).

Definition post_body (envelope : RelayEnvelope) : result bytes RelayError :=
  let? wire := map_err (λ _, InvalidResponse) (to_wire envelope) in
  ok_or (json_to_vec (Object [("envelope", Str ("ADENV1." +:+ wire))])) InvalidResponse.

Definition post (envelope : RelayEnvelope) : Net RelayAccepted :=
  let! body := mut_lift (post_body envelope) in
  let! reply := request self "POST" (ep_path self) body in
  mut_lift (post_reply reply).
Definition post_blocking (envelope : RelayEnvelope) : Net RelayAccepted :=
  let! body := mut_lift (post_body envelope) in
  let! reply := request_blocking self "POST" (ep_path self) body in
  mut_lift (post_reply reply).

Definition sync : Net (list RelayItem) :=
  let! reply := request self "GET" (ep_path self) [] in
  mut_lift (sync_reply reply).
Definition sync_blocking : Net (list RelayItem) :=
  let! reply := request_blocking self "GET" (ep_path self) [] in
  mut_lift (sync_reply reply).

Definition ack_body (ids : list string) : result bytes RelayError :=
  ok_or (json_to_vec (Object [("ids", Array (map Str ids))])) InvalidResponse.
Definition ack (ids : list string) : Net N :=
  let! body := mut_lift (ack_body ids) in
  let! reply := request self "POST" (ep_path self +:+ "/ack") body in
  mut_lift (ack_reply reply).
Definition ack_blocking (ids : list string) : Net N :=
  let! body := mut_lift (ack_body ids) in
  let! reply := request_blocking self "POST" (ep_path self +:+ "/ack") body in
  mut_lift (ack_reply reply).

(** The path of a chunk and the offset of its end, after the checks. *)
Definition upload_check (blob_id : string) (offset total : N) (chunk : bytes)
  : result (string * N) RelayError :=
  let? path := blob_path blob_id in
  if (u64_max <? offset + blen chunk)%N then Err InvalidResponse
  else
    let end_ := (offset + blen chunk)%N in
    if (total =? 0)%N || (MAX_BLOB_BYTES <? total)%N || (total <? offset)%N || (total <? end_)%N
    then Err InvalidResponse
    else Ok (path, end_).
Definition upload_headers (offset total : N) : RequestHeaders :=
  [("X-Ad-Blob-Offset", u64_to_string offset); ("X-Ad-Blob-Total", u64_to_string total)].

Definition upload_blob_chunk (blob_id : string) (offset total : N) (chunk : bytes)
  : Net BlobChunkAccepted :=
  let! checked := mut_lift (upload_check blob_id offset total chunk) in
  let! reply := request_with_headers self "POST" checked.1 chunk (upload_headers offset total)
                  MAX_RESPONSE_BYTES in
  mut_lift (upload_reply total checked.2 reply).
Definition upload_blob_chunk_blocking (blob_id : string) (offset total : N) (chunk : bytes)
  : Net BlobChunkAccepted :=
  let! checked := mut_lift (upload_check blob_id offset total chunk) in
  let! reply := request_blocking_with_headers self "POST" checked.1 chunk
                  (upload_headers offset total) MAX_RESPONSE_BYTES in
  mut_lift (upload_reply total checked.2 reply).

Definition download_blob (blob_id : string) : Net bytes :=
  let! path := mut_lift (blob_path blob_id) in
  let! reply := request_with_headers self "GET" path [] [] MAX_BLOB_BYTES in
  mut_lift (accept_status reply.1
    (if (MAX_BLOB_BYTES <? blen reply.2)%N then Err ResponseTooLarge else Ok reply.2)).
Definition download_blob_blocking (blob_id : string) : Net bytes :=
  let! path := mut_lift (blob_path blob_id) in
  let! reply := request_blocking_with_headers self "GET" path [] [] MAX_BLOB_BYTES in
  mut_lift (accept_status reply.1 (Ok reply.2)).
Definition download_blob_chunk_blocking (blob_id : string) (offset length : N) : Net bytes :=
  if (length =? 0)%N || (CHUNK_SIZE + 16 <? length)%N then mut_lift (Err InvalidResponse)
  else
    let! path := mut_lift (blob_path blob_id) in
    let headers := [("X-Ad-Blob-Offset", u64_to_string offset);
                    ("X-Ad-Blob-Length", u64_to_string length)] in
    let! reply := request_blocking_with_headers self "GET" path [] headers
                    (CHUNK_SIZE + 16 + 4096) in
    mut_lift (accept_status reply.1
      (if (length <? blen reply.2)%N then Err ResponseTooLarge else Ok reply.2)).
End operations.

(** ** Invite codes *)

Section invites.
Context `{Transport, JsonCodec Value, JsonCodec InviteCodeResponse, JsonCodec ConsumeInviteResponse}.
Context `{JsonCodec RevokeInviteResponse, JsonCodec PairingResponseRead}.
Context (self : RelayEndpoint).

Definition json_body (fields : list (string * Value)) : result bytes RelayError :=
  ok_or (json_to_vec (Object fields)) InvalidResponse.

Definition create_invite_code_blocking (signed_invite : string) : Net RelayInviteCode :=
  let! body := mut_lift (json_body [("invite", Str signed_invite)]) in
  let! reply := request_blocking self "POST" "/api/v1/invite-codes/public" body in
  mut_lift (accept_status reply.1
    (let? parsed := decode_body reply.2 in
     if negb (ic_created parsed) || is_empty_str (ic_code parsed) || is_empty_str (ic_invite_digest parsed)
     then Err InvalidResponse
     else Ok {| ric_code := ic_code parsed; ric_expires_at := ic_expires_at parsed;
                ric_invite_digest := ic_invite_digest parsed |})).

Definition consume_invite_code_blocking (code : string) : Net ConsumedRelayInvite :=
  let! body := mut_lift (json_body [("code", Str code)]) in
  let! reply := request_blocking self "POST" "/api/v1/invite-codes/consume" body in
  mut_lift (accept_status reply.1
    (let? parsed := decode_body reply.2 in
     if negb (ci_consumed parsed) || is_empty_str (ci_invite parsed) || is_empty_str (ci_receipt parsed)
     then Err InvalidResponse
     else Ok {| cri_invite := ci_invite parsed; cri_receipt := ci_receipt parsed |})).

Definition revoke_invite_code_blocking (code : string) : Net unit :=
  let! body := mut_lift (json_body [("code", Str code)]) in
  let! reply := request_blocking self "POST" "/api/v1/invite-codes/revoke" body in
  mut_lift (accept_status reply.1
    (let? parsed := decode_body reply.2 in
     if negb (rv_revoked parsed) then Err InvalidResponse else Ok tt)).

Definition write_pairing_response_blocking (code : string) (response : Value) : Net unit :=
  let! body := mut_lift (json_body [("code", Str code); ("response", response)]) in
  let! reply := request_blocking self "POST" "/api/v1/invite-codes/pairing-response" body in
  mut_lift (accept_status reply.1
    (let? accepted := decode_body reply.2 in
     match value_get "accepted" accepted with
     | Some v => match as_bool v with Some true => Ok tt | _ => Err InvalidResponse end
     | None => Err InvalidResponse
     end)).

Definition read_pairing_response_blocking (code : string) : Net (list Value) :=
  let! body := mut_lift (json_body [("code", Str code); ("read", Bool true)]) in
  let! reply := request_blocking self "POST" "/api/v1/invite-codes/pairing-response" body in
  if (reply.1 =? 404)%N then mut_ret []
  else
    mut_lift (accept_status reply.1
      (let? parsed := decode_body reply.2 in
       if negb (rd_available parsed) || (match rd_responses parsed with [] => true | _ => false end)
       then Ok []
       else Ok (rd_responses parsed))).
End invites.
