(* ===== verification/RelayClientProps.v ===== *)
(** * What the relay client guarantees

    An endpoint carries the trust its scheme needs, a request never leaves in clear text for
    a host that is not this machine, a pinned connection has reached the pinned certificate,
    and requests, replies and sizes are what the operations say. *)
From Stdlib Require Import Ascii NArith Lia ZifyBool ZifyN.
From stdpp Require Import base gmap strings list.
From S2P Require Import Prelude Text TextScan Collections Interfaces JsonValue ProtocolGate Trust RelayEnvelope Invite Attachment Http HttpProps RelayClient.

Create HintDb net discriminated.

(** ** Endpoints *)

Section endpoints.
Context `{UriParser, AuthorityHost}.

(** The transport an endpoint may use: clear text to this machine, or TLS with a pin. *)
Definition trusted (scheme authority : string) (pin : option TlsCertificatePin) : Prop :=
  scheme = "http" ∧ loopback_name (authority_host authority) = true ∧ pin = None
  ∨ scheme = "https" ∧ is_Some pin.

(** The transport checks of both constructors. *)
Lemma trust_checks {A} scheme authority pin (k : result A RelayError) a :
  negb (seqb scheme "http") && negb (seqb scheme "https") = false →
  (if seqb scheme "http" && (negb (loopback_name (authority_host authority)) || bool_decide (is_Some pin))
   then Err UnsupportedTransport
   else if seqb scheme "https" && negb (bool_decide (is_Some pin)) then Err TrustRequired
   else k) = Ok a ↔ trusted scheme authority pin ∧ k = Ok a.
Proof.
  unfold trusted. destruct (seqb scheme "http") eqn:E1.
  - apply seqb_true in E1 as ->. change (seqb "http" "https") with false. cbn [andb negb].
    destruct (loopback_name _), pin; cbn; split; naive_solver.
  - destruct (seqb scheme "https") eqn:E2; [|done].
    apply seqb_true in E2 as ->. destruct pin; cbn; split; naive_solver.
Qed.

(** An inbox URL that was bound to a relay origin, by an invite or by a contact, becomes an
    endpoint exactly when the transport is trusted: clear text only to this machine and
    without a pin, anything else only over TLS with a pin. The endpoint then is at the bound
    origin, and its capability is the last part of its path. *)
Theorem relay_endpoint_of_bound_inbox origin url pin :
  validate_bound_inbox_url origin url = Ok tt →
  ∃ scheme authority,
    origin = scheme +:+ "://" +:+ authority ∧
    (trusted scheme authority pin ↔ is_ok (from_inbox_url_with_pin url pin) = true) ∧
    ∀ ep, from_inbox_url_with_pin url pin = Ok ep →
      ep_origin ep = origin ∧ ep_tls_certificate_pin ep = pin ∧ trusted scheme authority pin ∧
      slen (ep_capability ep) = 43%N ∧ forallb is_url_safe (as_bytes (ep_capability ep)) = true ∧
      ep_capability ep = last_field 47 (ep_path ep).
Proof.
  unfold validate_bound_inbox_url, from_inbox_url_with_pin.
  destruct (uri_parse url) as [uri|]; [|done]. cbn [ok_or result_bind].
  destruct (uri_scheme uri) as [scheme|]; [|done]. cbn [ok_or result_bind].
  destruct (negb (seqb scheme "http") && negb (seqb scheme "https")) eqn:Es; [done|].
  destruct (uri_authority uri) as [authority|]; [|done]. cbn [ok_or result_bind].
  destruct (seqb (scheme +:+ "://" +:+ authority) origin) eqn:Eo; [|done]. apply seqb_true in Eo.
  destruct (bool_decide (is_Some (uri_query uri))) eqn:Eq; [done|].
  destruct (starts_with "/api/v1/inbox/" (uri_path uri)) eqn:Ep; [|done]. cbn [negb orb].
  set (capability := last_field 47 (uri_path uri)).
  destruct (slen capability =? 43)%N eqn:El; [|done].
  destruct (forallb is_url_safe (as_bytes capability)) eqn:Ef; [|done]. cbn [negb orb]. intros _.
  assert (is_empty_str (uri_path uri) = false) as ->.
  { apply starts_with_true in Ep as [r Ep]. by rewrite Ep. }
  set (made := Ok _). exists scheme, authority. split; [done|]. cbn [orb]. split.
  - split.
    + intros Ht. pose proof (proj2 (trust_checks scheme authority pin made _ Es) (conj Ht eq_refl)) as E.
      by rewrite E.
    + intros Ho. destruct (if _ && _ then _ else _) as [ep|] eqn:E; [|done].
      by apply trust_checks in E as [? _].
  - intros ep Eep. apply trust_checks in Eep as [Ht Eep]; [|done]. injection Eep as <-. cbn.
    repeat split; try done. lia.
Qed.
End endpoints.

(** ** What a run puts on the wire *)

(** The operations of the client. *)
Inductive RelayCall :=
| CallPost (envelope : RelayEnvelope) | CallPostBlocking (envelope : RelayEnvelope)
| CallSync | CallSyncBlocking
| CallAck (ids : list string) | CallAckBlocking (ids : list string)
| CallUpload (blob_id : string) (offset total : N) (chunk : bytes)
| CallUploadBlocking (blob_id : string) (offset total : N) (chunk : bytes)
| CallDownload (blob_id : string) | CallDownloadBlocking (blob_id : string)
| CallDownloadChunk (blob_id : string) (offset length : N)
| CallCreateInvite (invite : string) | CallConsumeInvite (code : string)
| CallRevokeInvite (code : string)
| CallWritePairing (code : string) (response : Value) | CallReadPairing (code : string).

Section runs.
Context `{Transport, JsonCodec WireEnvelope, JsonCodec Value}.
Context `{JsonCodec PostResponse, JsonCodec SyncResponse, JsonCodec AckResponse}.
Context `{JsonCodec BlobChunkResponse, JsonCodec InviteCodeResponse}.
Context `{JsonCodec ConsumeInviteResponse, JsonCodec RevokeInviteResponse, JsonCodec PairingResponseRead}.

Definition call_log (ep : RelayEndpoint) (c : RelayCall) (log : list NetEvent) : list NetEvent :=
  match c with
  | CallPost e => (post ep e log).1
  | CallPostBlocking e => (post_blocking ep e log).1
  | CallSync => (sync ep log).1
  | CallSyncBlocking => (sync_blocking ep log).1
  | CallAck ids => (ack ep ids log).1
  | CallAckBlocking ids => (ack_blocking ep ids log).1
  | CallUpload b o t k => (upload_blob_chunk ep b o t k log).1
  | CallUploadBlocking b o t k => (upload_blob_chunk_blocking ep b o t k log).1
  | CallDownload b => (download_blob ep b log).1
  | CallDownloadBlocking b => (download_blob_blocking ep b log).1
  | CallDownloadChunk b o l => (download_blob_chunk_blocking ep b o l log).1
  | CallCreateInvite i => (create_invite_code_blocking ep i log).1
  | CallConsumeInvite c => (consume_invite_code_blocking ep c log).1
  | CallRevokeInvite c => (revoke_invite_code_blocking ep c log).1
  | CallWritePairing c r => (write_pairing_response_blocking ep c r log).1
  | CallReadPairing c => (read_pairing_response_blocking ep c log).1
  end.

Definition stream_of (ep : RelayEndpoint) (s : Stream) : Prop :=
  match s with
  | PlainTcp a => address ep = Ok a ∧ ep_tls_certificate_pin ep = None
  | TlsOver a c n => address ep = Ok a ∧ ep_tls_certificate_pin ep = Some (cc_pin c) ∧ n = ep_tls_server_name ep
  end.
Definition event_of (ep : RelayEndpoint) (ev : NetEvent) : Prop :=
  match ev with
  | EvConnect a => address ep = Ok a
  | EvReadTimeout | EvWriteTimeout => True
  | EvHandshake a c n => stream_of ep (TlsOver a c n)
  | EvWrite s _ | EvRead s => stream_of ep s
  end.

(** A program that only adds events of the endpoint to the log. *)
Definition stays {A} (ep : RelayEndpoint) (m : Net A) : Prop :=
  ∀ log, Forall (event_of ep) log → Forall (event_of ep) (m log).1.

Lemma stays_lift {A} ep (r : result A RelayError) : stays ep (mut_lift r).
Proof using Type. by intros log Hlog. Qed.

Lemma stays_bind {A B} ep (m : Net A) (k : A → Net B) :
  stays ep m → (∀ a log, (m log).2 = Ok a → stays ep (k a)) → stays ep (mut_bind m k).
Proof using Type.
  intros Hm Hk log Hlog. unfold mut_bind. specialize (Hm log Hlog). specialize (Hk).
  destruct (m log) as [log' [a|e]] eqn:E; [|done]. apply (Hk a log); [by rewrite E|done].
Qed.

Lemma stays_call {A} ep ev (f : list NetEvent → A) : event_of ep ev → stays ep (net_call ev f).
Proof using Type. intros Hev log Hlog. cbn. apply Forall_app. split; [done|]. by apply Forall_singleton. Qed.

Lemma stays_ret {A} ep (a : A) : stays ep (mut_ret a).
Proof using Type. by intros log Hlog. Qed.
End runs.

#[export] Hint Resolve stays_lift stays_ret stays_call stays_bind : net.
#[export] Hint Extern 1 (stays _ (if ?b then _ else _)) => destruct b : net.

Section safety.
Context `{Transport, JsonCodec WireEnvelope, JsonCodec Value}.
Context `{JsonCodec PostResponse, JsonCodec SyncResponse, JsonCodec AckResponse}.
Context `{JsonCodec BlobChunkResponse, JsonCodec InviteCodeResponse}.
Context `{JsonCodec ConsumeInviteResponse, JsonCodec RevokeInviteResponse, JsonCodec PairingResponseRead}.

Lemma stays_stream bound ep s m p b hs n :
  stream_of ep s → stays ep (request_stream bound ep s m p b hs n).
Proof using Type. intros Hs. unfold request_stream. eauto 20 with net. Qed.

Lemma tls_config_pin pin c : tls_config pin = Ok c → cc_pin c = pin.
Proof using Type. unfold tls_config. by repeat case_match; intros; simplify_eq. Qed.

Lemma stays_request ep m p b hs n : stays ep (request_with_headers ep m p b hs n).
Proof using Type.
  unfold request_with_headers. apply stays_bind; [auto with net|]. intros a ? Ea. cbn in Ea.
  apply stays_bind; [auto with net|]. intros c ? _. apply stays_bind; [auto with net|]. intros ? ? _.
  destruct (ep_tls_certificate_pin ep) as [pin|] eqn:Ep; [|apply stays_stream; by cbn].
  apply stays_bind; [auto with net|]. intros config ? Ec. cbn in Ec. apply tls_config_pin in Ec.
  assert (stream_of ep (TlsOver a config (ep_tls_server_name ep))) by (cbn; by rewrite Ec).
  case_match; [auto with net|]. apply stays_bind; [by apply stays_call|]. intros [] ? _;
    [by apply stays_stream|auto with net].
Qed.

Lemma stays_request_blocking ep m p b hs n : stays ep (request_blocking_with_headers ep m p b hs n).
Proof using Type.
  unfold request_blocking_with_headers. apply stays_bind; [auto with net|]. intros a ? Ea. cbn in Ea.
  apply stays_bind; [auto with net|]. intros c ? _. apply stays_bind; [auto with net|]. intros ? ? _.
  apply stays_bind; [by apply stays_call|]. intros d ? _. case_match; [auto with net|].
  apply stays_bind; [by apply stays_call|]. intros d' ? _. case_match; [auto with net|].
  destruct (ep_tls_certificate_pin ep) as [pin|] eqn:Ep; [|apply stays_stream; by cbn].
  apply stays_bind; [auto with net|]. intros config ? Ec. cbn in Ec. apply tls_config_pin in Ec.
  assert (stream_of ep (TlsOver a config (ep_tls_server_name ep))) by (cbn; by rewrite Ec).
  case_match; [auto with net|]. case_match; [auto with net|]. by apply stays_stream.
Qed.

Lemma stays_call_log ep c log :
  Forall (event_of ep) log → Forall (event_of ep) (call_log ep c log).
Proof using Type.
  pose proof (@stays_request ep) as R. pose proof (@stays_request_blocking ep) as B.
  destruct c; cbn [call_log]; intros Hlog;
    match goal with |- Forall _ (?m log).1 => cut (stays ep m); [by intros Hm; apply Hm|] end;
    unfold post, post_blocking, sync, sync_blocking, ack, ack_blocking, upload_blob_chunk,
      upload_blob_chunk_blocking, download_blob, download_blob_blocking, download_blob_chunk_blocking,
      create_invite_code_blocking, consume_invite_code_blocking, revoke_invite_code_blocking,
      write_pairing_response_blocking, read_pairing_response_blocking, request, request_blocking;
    eauto 20 with net.
Qed.

Context `{UriParser, AuthorityHost}.

Definition endpoint_made (ep : RelayEndpoint) : Prop :=
  ∃ url pin, from_inbox_url_with_pin url pin = Ok ep ∨ for_public_origin_with_pin url pin = Ok ep.

(** Where and how bytes may travel. *)
Definition stream_safe (ep : RelayEndpoint) (s : Stream) : Prop :=
  match s with
  | PlainTcp a => loopback_name (authority_host a) = true
  | TlsOver a c n => ep_tls_certificate_pin ep = Some (cc_pin c) ∧ n = authority_host a
  end.

Lemma endpoint_made_spec ep :
  endpoint_made ep → ∃ scheme authority,
    trusted scheme authority (ep_tls_certificate_pin ep) ∧
    ep_origin ep = scheme +:+ "://" +:+ authority ∧ ep_tls_server_name ep = authority_host authority.
Proof using Type.
  intros (url & pin & [E|E]).
  - unfold from_inbox_url_with_pin in E. destruct (uri_parse url) as [uri|]; [|done].
    cbn [ok_or result_bind] in E. destruct (uri_scheme uri) as [scheme|]; [|done].
    cbn [ok_or result_bind] in E. destruct (uri_authority uri) as [authority|]; [|done].
    cbn [ok_or result_bind] in E. exists scheme, authority.
    destruct (negb (seqb scheme "http") && negb (seqb scheme "https")) eqn:Es.
    { repeat (case_match; [done|]). done. }
    apply trust_checks in E as [Ht E]; [|done]. repeat (case_match; [done|]). by simplify_eq/=.
  - unfold for_public_origin_with_pin in E. destruct (uri_parse url) as [uri|]; [|done].
    cbn [ok_or result_bind] in E. destruct (uri_scheme uri) as [scheme|]; [|done].
    cbn [ok_or result_bind] in E. destruct (uri_authority uri) as [authority|]; [|done].
    cbn [ok_or result_bind] in E. exists scheme, authority.
    destruct (negb (seqb (uri_path uri) "/") || _); [done|].
    destruct (negb (seqb scheme "http") && negb (seqb scheme "https")) eqn:Es.
    { repeat (case_match; [done|]). done. }
    apply trust_checks in E as [Ht E]; [|done]. by simplify_eq/=.
Qed.

Lemma trusted_address ep scheme authority :
  trusted scheme authority (ep_tls_certificate_pin ep) →
  ep_origin ep = scheme +:+ "://" +:+ authority → address ep = Ok authority.
Proof using Type.
  intros Ht Eo. unfold address, split_once. rewrite Eo, !as_bytes_app.
  assert (split_once_b (as_bytes "://") (as_bytes scheme ++ as_bytes "://" ++ as_bytes authority)
          = Some (as_bytes scheme, as_bytes authority)) as ->.
  { destruct Ht as [(-> & _)|(-> & _)]; reflexivity. }
  by rewrite of_as_bytes.
Qed.

(** Whatever calls are made on an endpoint and whatever the network answers, every byte the
    client writes or reads travels either in clear text to this machine, or through TLS to the
    host of the endpoint with the verifier that holds the endpoint's pin. *)
Theorem relay_client_clear_text_is_local ep calls :
  endpoint_made ep →
  Forall (λ ev, match ev with EvWrite s _ | EvRead s => stream_safe ep s | _ => True end)
    (fold_left (λ log c, call_log ep c log) calls []).
Proof using Type.
  intros (scheme & authority & Ht & Eo & En)%endpoint_made_spec.
  assert (Hlog : Forall (event_of ep) (fold_left (λ log c, call_log ep c log) calls [])).
  { assert (Forall (event_of ep) []) as Hnil by constructor. revert Hnil. generalize (@nil NetEvent).
    induction calls as [|c calls IH]; intros log Hl; [done|]. cbn. by apply IH, stays_call_log. }
  pose proof (trusted_address _ _ _ Ht Eo) as Ea.
  assert (Hs : ∀ s, stream_of ep s → stream_safe ep s).
  { intros [a|a c n]; cbn; rewrite Ea, ?En; [|naive_solver]. intros [[= <-] Hp].
    destruct Ht as [(_ & Hl & _)|(_ & Hp')]; [done|]. rewrite Hp in Hp'. by destruct Hp'. }
  eapply Forall_impl; [exact Hlog|]. intros []; cbn [event_of]; auto.
Qed.
End safety.

(** ** Pinned connections *)

(** The certificate that the peer of the connection with this log shows. *)
Class TlsPeer := peer_certificate : list NetEvent → ServerCert.

(** What rustls documents: a handshake, explicit or as part of the first write of a blocking
    stream, succeeds only if the verifier of the configuration accepted the certificate. *)
Class TlsLaws `{Crypto, WebPki, Transport, TlsPeer} : Prop := {
  handshake_verifies log c n :
    net_handshake log c n = true → is_ok (verify_server_cert (cc_pin c) (peer_certificate log)) = true;
  write_verifies log a c n data :
    net_write log (TlsOver a c n) data = IoOk tt → data ≠ [] →
    is_ok (verify_server_cert (cc_pin c) (peer_certificate log)) = true;
}.

Lemma verify_server_cert_iff `{Crypto, WebPki} pin cert :
  is_ok (verify_server_cert pin cert) = true ↔ sha256 (sc_end_entity cert) = pin.
Proof. unfold verify_server_cert. case_bool_decide; cbn; [by case_match|done]. Qed.

Section pinned.
Context `{Crypto, WebPki, Transport, TlsPeer, !TlsLaws}.

(** The events of one request over a connection of its own: it is opened, nothing but its time
    limits is set before the peer shows the pinned certificate, and what follows on it is the
    handshake and the traffic of that one TLS stream. *)
Definition traffic_of (stream : Stream) (ev : NetEvent) : Prop :=
  match ev with
  | EvHandshake a c n => stream = TlsOver a c n
  | EvWrite s _ | EvRead s => s = stream
  | _ => False
  end.
Definition pinned_exchange (ep : RelayEndpoint) (pin : TlsCertificatePin) (log log' : list NetEvent) : Prop :=
  ∃ a before after, address ep = Ok a ∧ log' = (log ++ EvConnect a :: before) ++ after ∧
    Forall (λ ev, ev = EvReadTimeout ∨ ev = EvWriteTimeout) before ∧
    sha256 (sc_end_entity (peer_certificate (log ++ EvConnect a :: before))) = pin ∧
    Forall (traffic_of (TlsOver a {| cc_pin := pin |} (ep_tls_server_name ep))) after.

Lemma tls_config_ok pin c : tls_config pin = Ok c → c = {| cc_pin := pin |}.
Proof using Type. unfold tls_config. by repeat case_match; intros; simplify_eq. Qed.

(** A reply over a stream comes after two writes, the first of which succeeded. *)
Lemma stream_reply bound ep stream m p b hs max log log' reply :
  (∀ A (x : Io A) y, bound A x = Ok y → x = IoOk y) → m ≠ EmptyString →
  request_stream bound ep stream m p b hs max log = (log', Ok reply) →
  ∃ text, text ≠ [] ∧ net_write log stream text = IoOk tt ∧
    log' = log ++ [EvWrite stream text; EvWrite stream b; EvRead stream].
Proof using Type.
  intros Hb Hm E. unfold request_stream in E. unfold mut_bind at 1, mut_lift at 1 in E.
  destruct (address ep) as [authority|]; [|done]. unfold mut_bind at 1, net_call at 1 in E.
  set (text := as_bytes _) in E. unfold mut_bind at 1, mut_lift at 1 in E.
  destruct (bound unit (net_write log stream text)) as [[]|] eqn:Ew; [|done]. apply Hb in Ew.
  unfold mut_bind at 1, net_call at 1, mut_bind at 1, mut_lift at 1 in E. destruct (bound unit _) as [[]|]; [|done].
  unfold mut_bind at 1, net_call at 1, mut_bind at 1, mut_lift at 1 in E. destruct (bound bytes _) as [r|]; [|done].
  exists text. split; [|split; [done|]].
  - unfold text, request_text. rewrite as_bytes_app. by destruct m.
  - rewrite <-!app_assoc in E. unfold mut_lift in E. case_match; by injection E as <-.
Qed.
Lemma timed_ok A (x : Io A) y : timed x = Ok y → x = IoOk y.
Proof using Type. destruct x; cbn; intros; by simplify_eq. Qed.
Lemma untimed_ok A (x : Io A) y : untimed x = Ok y → x = IoOk y.
Proof using Type. destruct x; cbn; intros; by simplify_eq. Qed.

(** C38. A reply that came over an endpoint with a pin came over a connection that this very request
    opened, and on which, before a byte of the request was written, the peer showed a certificate
    whose SHA-256 is the pin; everything the request wrote and read travelled in the TLS stream
    with that pin over that connection. For the asynchronous and for the blocking client, whatever
    happened on earlier connections; it rests on rustls completing a handshake only if the
    verifier of the configuration accepted the certificate of the peer. *)
Theorem relay_client_reaches_pinned_certificate ep pin m p b hs max log log' reply :
  ep_tls_certificate_pin ep = Some pin → m ≠ EmptyString →
  request_with_headers ep m p b hs max log = (log', Ok reply)
  ∨ request_blocking_with_headers ep m p b hs max log = (log', Ok reply) →
  pinned_exchange ep pin log log'.
Proof using Type*.
  intros Ep Hm [E|E].
  - unfold request_with_headers in E. rewrite Ep in E.
    unfold mut_bind at 1, mut_lift at 1 in E. destruct (address ep) as [a|] eqn:Ea; [|done].
    unfold mut_bind at 1, net_call at 1, mut_bind at 1, mut_lift at 1 in E.
    destruct (timed (net_connect log a)); [|done].
    unfold mut_bind at 1, mut_lift at 1 in E. destruct (tls_config pin) as [c|] eqn:Ec; [|done].
    apply tls_config_ok in Ec as ->. destruct (negb (server_name_ok _)); [done|].
    unfold mut_bind at 1, net_call at 1 in E.
    destruct (net_handshake _ _ _) eqn:Eh; [|done]. apply handshake_verifies, verify_server_cert_iff in Eh.
    apply stream_reply in E as (text & _ & _ & ->); [|intros A; apply timed_ok|done].
    eexists a, [], _. split; [done|]. split; [by rewrite <-(app_assoc (log ++ _))|].
    split; [constructor|]. split; [exact Eh|]. by repeat constructor.
  - unfold request_blocking_with_headers in E. rewrite Ep in E.
    unfold mut_bind at 1, mut_lift at 1 in E. destruct (address ep) as [a|] eqn:Ea; [|done].
    unfold mut_bind at 1, net_call at 1, mut_bind at 1, mut_lift at 1 in E.
    destruct (untimed (net_connect log a)); [|done]. unfold mut_bind at 1, net_call at 1 in E.
    destruct (net_set_timeout _); [|done]. cbn [negb] in E. unfold mut_bind at 1, net_call at 1 in E.
    destruct (net_set_timeout _); [|done]. cbn [negb] in E.
    unfold mut_bind at 1, mut_lift at 1 in E. destruct (tls_config pin) as [c|] eqn:Ec; [|done].
    apply tls_config_ok in Ec as ->. destruct (negb (server_name_ok _)); [done|].
    destruct (negb (client_connection_ok _ _)); [done|].
    apply stream_reply in E as (text & Ht & Ew & ->); [|intros A; apply untimed_ok|done].
    apply write_verifies, verify_server_cert_iff in Ew; [|done]. rewrite <-!app_assoc in *. cbn [app] in *.
    exists a, [EvReadTimeout; EvWriteTimeout]. eexists. split; [done|]. split; [by rewrite <-app_assoc|].
    split; [repeat (constructor; [auto|]); constructor|]. split; [exact Ew|]. by repeat constructor.
Qed.
End pinned.

(** ** Requests and replies as text *)

Definition standard_headers (ep : RelayEndpoint) (authority path : string) : list (string * string) :=
  [("Host", authority); ("Connection", "close"); ("Accept", "application/json");
   ("Content-Type", content_type path); ("X-Ad-Relay-Capability", ep_capability ep)].

Lemma request_text_lines ep authority m path body hs :
  request_text ep authority m path body hs =
  end_lines ((m +:+ " " +:+ path +:+ " HTTP/1.1")
             :: map header_line (standard_headers ep authority path ++ hs ++ [content_length body])) +:+ crlf.
Proof.
  unfold standard_headers. cbn [app map]. rewrite map_app.
  change (?x :: ?a :: ?b :: ?c :: ?d :: ?e :: ?l ++ ?r) with ([x; a; b; c; d; e] ++ l ++ r).
  rewrite !end_lines_app. change (map header_line hs) with (map (λ h, h.1 +:+ ": " +:+ h.2) hs).
  apply as_bytes_inj. unfold request_text. cbn [map end_lines foldr]. unfold header_line, content_length. cbn [fst snd].
  rewrite !as_bytes_app, <-!app_assoc. done.
Qed.

(** The request of a client says what the client meant and nothing else: read by the daemon's
    own parser it has the method, the path, the headers in order, the length and the body; a
    capability, an authority or a header value cannot add a header or end the head. *)
Theorem relay_client_request_is_read_back ep authority m path body hs raw :
  word_ok m → word_ok path → contains_byte 63 path = false → contains_byte 35 path = false →
  field_ok authority = true → field_ok (ep_capability ep) = true →
  Forall (λ h, name_ok h.1 ∧ field_ok h.2 = true) hs →
  raw = as_bytes (request_text ep authority m path body hs) ++ body → (blen raw ≤ MAX_REQUEST_BYTES)%N →
  parse_request raw = Some {|
    rq_method := m; rq_path := path;
    rq_headers := map trimmed (standard_headers ep authority path ++ hs ++ [content_length body]);
    rq_body := body |}.
Proof.
  intros Hm Hp Hq Hf Ha Hc Hhs -> Hlen. rewrite request_text_lines in *.
  apply parse_request_lines; try done. apply Forall_app. split; [|apply Forall_app; split; [done|]].
  - unfold standard_headers, content_type.
    repeat (constructor; [split; [by apply name_ok_token|]|]); try done. by case_match.
  - apply Forall_singleton. split; [by apply name_ok_token|]. apply visible_field, u64_to_string_visible.
Qed.

Lemma split_b_first c x r : c ∉ x → ∃ l, split_b c (x ++ c :: r) = x :: l ∧ l ≠ [].
Proof. intros Hx. rewrite split_b_app by done. eexists. split; [done|]. apply split_b_nonempty. Qed.

(** The first line of a head of lines that end with CRLF. *)
Lemma lines_first line rest :
  head_ok line → ∃ l, lines (head_text (line :: rest)) = line :: l.
Proof.
  intros [Hne Hf]. unfold lines, head_text. rewrite as_of_bytes.
  assert (Hlf : n_byte 10 ∉ as_bytes line) by (by eapply forallb_not_elem).
  assert (Hcr : n_byte 13 ∉ as_bytes line) by (by eapply forallb_not_elem).
  destruct rest as [|y rest].
  - cbn [map join_crlf]. rewrite split_b_no_sep by done. cbn [lines_of map].
    destruct (as_bytes line) eqn:E; [by destruct line|]. exists []. rewrite <-E. cbn. by rewrite of_as_bytes.
  - change (join_crlf (map as_bytes (line :: y :: rest)))
      with (as_bytes line ++ n_byte 13 :: n_byte 10 :: join_crlf (map as_bytes (y :: rest))).
    rewrite cons_middle, app_assoc.
    destruct (split_b_first (n_byte 10) (as_bytes line ++ [n_byte 13]) (join_crlf (map as_bytes (y :: rest))))
      as (l & -> & Hl); [set_solver|].
    destruct l as [|z l]; [done|]. exists (map of_bytes (lines_of (z :: l))). cbn [lines_of map]. f_equal.
    unfold strip_cr. rewrite last_snoc, decide_True by done. rewrite length_app. cbn [length].
    rewrite Nat.add_sub, take_app_length. by rewrite of_as_bytes.
Qed.

(** A reply with any well-formed head is read as its status and its body, byte for byte. *)
Theorem relay_client_reply_is_read st words hs body :
  in_range 100 999 st = true → Forall word_ok words →
  Forall (λ h, name_ok h.1 ∧ field_ok h.2 = true) hs →
  parse_response (as_bytes (end_lines (join 32 ("HTTP/1.1" :: u64_to_string st :: words)
                                       :: map header_line hs) +:+ crlf) ++ body) = Ok (st, body).
Proof.
  intros Hst Hw Hhs. set (l := _ :: map header_line hs).
  assert (Hl : Forall head_ok l).
  { constructor; [by apply status_line_head|].
    apply Forall_map. eapply Forall_impl; [exact Hhs|]. intros h [Hn Hv]. by apply header_line_head. }
  unfold parse_response. rewrite head_end_lines, <-app_assoc by done.
  rewrite head_split, head_utf8 by done. unfold l in *. apply Forall_cons in Hl as [Hl _].
  destruct (lines_first _ (map header_line hs) Hl) as [k ->].
  rewrite split_whitespace_words by (by apply status_words). cbn [lookup list_lookup].
  rewrite parse_u16_to_string by (unfold u16_max, in_range in *; lia). done.
Qed.

(** ** Sizes *)

Section sizes.
Context `{Transport, JsonCodec BlobChunkResponse}.

Lemma parse_response_size raw st b : parse_response raw = Ok (st, b) → (blen b + 4 ≤ blen raw)%N.
Proof using Type.
  unfold parse_response. destruct (split_once_b HEAD_END raw) as [[head body]|] eqn:E; [|done].
  apply split_once_b_eq in E as ->. intros E. repeat case_match; simplify_eq.
  unfold blen. rewrite !length_app. change (length HEAD_END) with 4. lia.
Qed.

(** A program whose reply leaves room for a head below [max]. *)
Definition fits (max : N) (m : Net (N * bytes)) : Prop :=
  ∀ log log' reply, m log = (log', Ok reply) → (blen reply.2 + 4 ≤ max)%N.

Lemma fits_bind {A} max (m : Net A) k : (∀ a, fits max (k a)) → fits max (mut_bind m k).
Proof using Type.
  intros Hk log log' reply. unfold mut_bind. destruct (m log) as [l [a|e]]; [|done]. apply Hk.
Qed.
Lemma fits_err max e : fits max (mut_lift (Err e)).
Proof using Type. intros log log' reply [=]. Qed.
Hint Resolve fits_bind fits_err : net.

Lemma fits_stream bound ep s m p b hs max : fits max (request_stream bound ep s m p b hs max).
Proof using Type.
  unfold request_stream. do 7 (apply fits_bind; intros ?). case_match; [apply fits_err|].
  intros log log' [st r] [= _ E]. apply parse_response_size in E. cbn. lia.
Qed.
Hint Resolve fits_stream : net.

Lemma fits_request ep m p b hs max :
  fits max (request_with_headers ep m p b hs max) ∧ fits max (request_blocking_with_headers ep m p b hs max).
Proof using Type.
  unfold request_with_headers, request_blocking_with_headers, request_async_stream, request_blocking_stream.
  split; repeat first [apply fits_stream | apply fits_err | apply fits_bind; intros ? | case_match].
Qed.

Lemma bind_ok {S A B E : Type} (m : Mut S A E) (k : A → Mut S B E) s s' b :
  mut_bind m k s = (s', Ok b) → ∃ s1 a, m s = (s1, Ok a) ∧ k a s1 = (s', Ok b).
Proof using Type. unfold mut_bind. destruct (m s) as [s1 [a|e]]; [|done]. eauto. Qed.

Lemma upload_reply_ok total end_ reply acc :
  upload_reply total end_ reply = Ok acc → ba_total acc = total ∧ ba_received acc = end_.
Proof using Type.
  unfold upload_reply, accept_status. destruct reply as [st r]. case_match; [done|].
  destruct (decode_body r) as [parsed|]; [|done]. cbn [result_bind].
  case_match eqn:E; [done|]. intros [= <-]. cbn. lia.
Qed.

(** An upload that succeeds was acknowledged for exactly the bytes up to the end of its chunk,
    within a blob of the size announced and at most 32 MiB. *)
Theorem relay_client_upload_contract ep id offset total chunk log log' acc :
  upload_blob_chunk ep id offset total chunk log = (log', Ok acc)
  ∨ upload_blob_chunk_blocking ep id offset total chunk log = (log', Ok acc) →
  ba_total acc = total ∧ ba_received acc = (offset + blen chunk)%N ∧
  (ba_received acc ≤ total)%N ∧ (0 < total ≤ MAX_BLOB_BYTES)%N.
Proof using Type.
  intros [E|E]; apply bind_ok in E as (l1 & [path end_] & E1 & E); apply bind_ok in E as (l2 & reply & _ & E);
    injection E as _ E; apply upload_reply_ok in E as [Et Er]; injection E1 as _ E1; unfold upload_check in E1;
    destruct (blob_path id); [|done| |done]; cbn [result_bind snd] in *; case_match; [done| |done|];
    case_match eqn:Ec; simplify_eq/=; lia.
Qed.

(** A downloaded chunk is never longer than what was asked for. A whole blob is downloaded
    only if, with the head of the response, it stays within 32 MiB: a blob of exactly the
    size that uploads allow is never returned. *)
Theorem relay_client_download_bounds ep id offset length log log' b :
  (download_blob_chunk_blocking ep id offset length log = (log', Ok b) →
   (0 < length ≤ CHUNK_SIZE + 16)%N ∧ (blen b ≤ length)%N) ∧
  (download_blob ep id log = (log', Ok b) ∨ download_blob_blocking ep id log = (log', Ok b) →
   (blen b < MAX_BLOB_BYTES)%N).
Proof using Type.
  split.
  - unfold download_blob_chunk_blocking. case_match eqn:El; [done|]. intros E.
    apply bind_ok in E as (l1 & path & _ & E). apply bind_ok in E as (l2 & reply & _ & E).
    injection E as _ E. unfold accept_status in E. case_match; [done|]. case_match eqn:Eb; simplify_eq. lia.
  - intros [E|E]; apply bind_ok in E as (l1 & path & _ & E); apply bind_ok in E as (l2 & reply & Er & E);
      apply (fits_request ep "GET" path [] [] MAX_BLOB_BYTES) in Er; injection E as _ E;
      unfold accept_status in E; repeat case_match; simplify_eq; lia.
Qed.
End sizes.

(** ** Witnesses *)

Module RelayClientSample.
Import Reference.
#[local] Instance host : AuthorityHost := λ a, match split_once ":" a with Some (h, _) => h | None => a end.
Definition certificate : ServerCert :=
  {| sc_end_entity := as_bytes "leaf"; sc_intermediates := []; sc_server_name := "relay.example";
     sc_ocsp_response := []; sc_now := 100 |}.
Definition pin : TlsCertificatePin := sha256 (sc_end_entity certificate).
Definition raw : bytes := as_bytes ("HTTP/1.1 200 OK" +:+ crlf +:+ "Connection: close" +:+ crlf +:+ crlf +:+ "x").
#[local] Instance webpki : WebPki := λ _, false.
#[local] Instance peer : TlsPeer := λ _, certificate.
#[local] Instance transport : Transport := {
  net_connect _ _ := IoOk tt;
  net_set_timeout _ := true;
  net_handshake _ c _ := bool_decide (cc_pin c = pin);
  net_write _ s _ := match s with
                     | PlainTcp _ => IoOk tt
                     | TlsOver _ c _ => if bool_decide (cc_pin c = pin) then IoOk tt else IoFailed
                     end;
  net_read _ _ := IoOk raw;
  tls_verifier_builds := true; tls_versions_ok := true;
  server_name_ok _ := true; client_connection_ok _ _ := true;
}.
#[local] Instance tls_laws : TlsLaws.
Proof.
  split.
  - intros log c n E. apply verify_server_cert_iff. cbn in E. by apply bool_decide_eq_true in E.
  - intros log a c n data E _. apply verify_server_cert_iff. cbn in E. by case_bool_decide.
Qed.

Definition capability : string := of_bytes (replicate 43 (n_byte 97)).
Definition url : string := "http://127.0.0.1:9000/api/v1/inbox/" +:+ capability.
Definition endpoint : RelayEndpoint :=
  {| ep_origin := "http://127.0.0.1:9000"; ep_path := "/api/v1/inbox/" +:+ capability;
     ep_capability := capability; ep_tls_certificate_pin := None; ep_tls_server_name := "127.0.0.1" |}.
Definition pinned : RelayEndpoint :=
  {| ep_origin := "https://relay.example:443"; ep_path := "/api/v1/inbox/" +:+ capability;
     ep_capability := capability; ep_tls_certificate_pin := Some pin; ep_tls_server_name := "relay.example" |}.

Lemma relay_endpoint_of_bound_inbox_witness :
  validate_bound_inbox_url "http://127.0.0.1:9000" url = Ok tt ∧
  ep_origin endpoint = "http://127.0.0.1:9000" ∧ slen (ep_capability endpoint) = 43%N.
Proof.
  assert (Hv : validate_bound_inbox_url "http://127.0.0.1:9000" url = Ok tt) by (vm_compute; reflexivity).
  assert (He : from_inbox_url_with_pin url None = Ok endpoint) by (vm_compute; reflexivity).
  split; [exact Hv|].
  destruct (relay_endpoint_of_bound_inbox "http://127.0.0.1:9000" url None Hv) as (scheme & authority & _ & _ & Hep).
  destruct (Hep endpoint He) as (Eo & _ & _ & El & _). exact (conj Eo El).
Defined.

#[local] Instance post_codec : JsonCodec PostResponse := {| json_to_vec _ := None; json_from_slice _ := None |}.
#[local] Instance sync_codec : JsonCodec SyncResponse := {| json_to_vec _ := None; json_from_slice _ := Some {| sr_items := [] |} |}.
#[local] Instance ack_codec : JsonCodec AckResponse := {| json_to_vec _ := None; json_from_slice _ := Some {| ak_acknowledged := 1 |} |}.
#[local] Instance chunk_codec : JsonCodec BlobChunkResponse := {|
  json_to_vec _ := None;
  json_from_slice _ := Some {| bc_accepted := true; bc_complete := true; bc_received := 1; bc_total := 1; bc_expires_at := 9 |} |}.
#[local] Instance create_codec : JsonCodec InviteCodeResponse := {| json_to_vec _ := None; json_from_slice _ := None |}.
#[local] Instance consume_codec : JsonCodec ConsumeInviteResponse := {| json_to_vec _ := None; json_from_slice _ := None |}.
#[local] Instance revoke_codec : JsonCodec RevokeInviteResponse := {| json_to_vec _ := None; json_from_slice _ := None |}.
#[local] Instance pairing_codec : JsonCodec PairingResponseRead := {| json_to_vec _ := None; json_from_slice _ := None |}.
#[local] Instance wire_codec : JsonCodec WireEnvelope := {| json_to_vec _ := None; json_from_slice _ := None |}.
#[local] Instance value_codec : JsonCodec Value := {| json_to_vec _ := Some (as_bytes "{}"); json_from_slice _ := None |}.

Definition calls : list RelayCall := [CallSync; CallAckBlocking ["1"]; CallReadPairing "c"].

Lemma relay_client_clear_text_is_local_witness :
  length (fold_left (λ log c, call_log endpoint c log) calls []) = 16%nat ∧
  Forall (λ ev, match ev with EvWrite s _ | EvRead s => stream_safe endpoint s | _ => True end)
    (fold_left (λ log c, call_log endpoint c log) calls []).
Proof.
  split; [vm_compute; reflexivity|]. apply (relay_client_clear_text_is_local endpoint calls).
  exists url, None. left. vm_compute. reflexivity.
Defined.

Lemma relay_client_reaches_pinned_certificate_witness :
  pinned_exchange pinned pin [] (request_blocking_with_headers pinned "GET" "/x" [] [] 100 []).1.
Proof.
  apply (relay_client_reaches_pinned_certificate pinned pin "GET" "/x" [] [] 100 [] _ (200%N, as_bytes "x"));
    [reflexivity|discriminate|]. right. vm_compute. reflexivity.
Defined.

Definition upload_hs : list (string * string) := upload_headers 0 5.
Lemma relay_client_request_is_read_back_witness :
  (λ r, rq_body r) <$> parse_request (as_bytes (request_text endpoint "127.0.0.1:9000" "POST" "/api/v1/blobs/b"
    (as_bytes "hello") upload_hs) ++ as_bytes "hello") = Some (as_bytes "hello").
Proof.
  rewrite (relay_client_request_is_read_back endpoint "127.0.0.1:9000" "POST" "/api/v1/blobs/b" (as_bytes "hello")
    upload_hs); [reflexivity|split; [discriminate|reflexivity]|split; [discriminate|reflexivity]|..|reflexivity|];
    try (vm_compute; reflexivity); [|vm_compute; discriminate].
  repeat (constructor; [split; [by apply name_ok_token|vm_compute; reflexivity]|]). constructor.
Defined.

Lemma relay_client_reply_is_read_witness :
  parse_response (as_bytes (end_lines (join 32 ["HTTP/1.1"; u64_to_string 404; "Not"; "Found"]
    :: map header_line [("Connection", "close")]) +:+ crlf) ++ as_bytes "gone") = Ok (404%N, as_bytes "gone").
Proof.
  apply (relay_client_reply_is_read 404 ["Not"; "Found"] [("Connection", "close")] (as_bytes "gone"));
    [reflexivity|repeat constructor; discriminate|].
  constructor; [split; [by apply name_ok_token|reflexivity]|constructor].
Defined.

Definition blob : string := of_bytes (replicate 32 (n_byte 98)).
Lemma relay_client_upload_contract_witness :
  ba_received {| ba_complete := true; ba_received := 1; ba_total := 1; ba_expires_at := 9 |} = (0 + 1)%N.
Proof.
  apply (relay_client_upload_contract endpoint blob 0 1 [n_byte 1] []
    (upload_blob_chunk endpoint blob 0 1 [n_byte 1] []).1). left. vm_compute. reflexivity.
Defined.

Lemma relay_client_download_bounds_witness : (blen (as_bytes "x") < MAX_BLOB_BYTES)%N.
Proof.
  apply (proj2 (relay_client_download_bounds endpoint blob 0 1 [] (download_blob endpoint blob []).1 (as_bytes "x"))).
  left. vm_compute. reflexivity.
Defined.
End RelayClientSample.
