(* ===== verification/MlsSession.v ===== *)
(** * MLS sessions of the daemon ([apps/daemon/src/mls_session.rs])

    A session holds the OpenMLS provider, the credential and the group of one conversation; a
    catalog holds the sessions of all conversations. OpenMLS and its crypto provider are
    parameters: what a call answers is a function of the provider and the group it is given,
    and a call leaves a provider and a group behind also when it fails. The daemon's own part
    is modelled in full: the checks, the order of the calls, the checkpoints in the encrypted
    store, and the poisoning of a session whose checkpoint could not be written. *)
From Stdlib Require Import Ascii NArith Lia ZifyBool ZifyN.
From stdpp Require Import base gmap strings list.
From S2P Require Import Prelude Text Collections Interfaces StoreFormat Storage RecordStore Attachment Contacts MlsProvider.

Definition MAX_IDENTITY_BYTES : N := 1024.
Definition MAX_MESSAGE_BYTES : N := 64 * 1024.
Definition MAX_MLS_WIRE_BYTES : N := 4 * 1024 * 1024.
Definition MAX_CHECKPOINT_BYTES : N := 4 * 1024 * 1024.
Definition ATTACHMENT_MESSAGE_PREFIX : bytes := as_bytes "ADATT1.".
Definition DEFAULT_KEY_PACKAGE_LIFETIME_SECONDS : N := 7 * 24 * 60 * 60.
Definition MAX_KEY_PACKAGE_LIFETIME_SECONDS : N := 7 * 24 * 60 * 60.

Definition attachment_descriptor_from_plaintext `{JsonCodec AttachmentDescriptor} (plaintext : bytes)
  : option AttachmentDescriptor :=
  encoded ← strip_prefix_b ATTACHMENT_MESSAGE_PREFIX plaintext;
  json_from_slice encoded.

Inductive SessionError :=
| SessionProvider | IdentityTooLarge | UnsupportedMessage | SessionInvalidWire | SessionTooLarge
| SessionCrypto | NotJoined | SessionOpenMls | SessionStorage.
#[export] Instance SessionError_eq_dec : EqDecision SessionError.
Proof. solve_decision. Defined.

(** ** OpenMLS *)

(** The types of OpenMLS and its crypto provider. *)
Class MlsTypes := {
  CryptoProvider : Type;
  MlsGroup : Type;
  KeyPackageIn : Type;
  KeyPackage : Type;
  MlsMessageIn : Type;
  Welcome : Type;
  ProtocolMessage : Type;
  StagedCommit : Type;
}.

(** [DaemonProvider]. *)
Record DaemonProvider `{MlsTypes} := { dp_crypto : CryptoProvider; dp_storage : Values }.

(** [CredentialWithKey] over a [BasicCredential]. *)
Record CredentialWithKey := { cw_identity : bytes; cw_signature_key : bytes }.

(** What a message is after [process_message]. *)
Inductive Processed `{MlsTypes} :=
| ApplicationMessage (b : bytes) | StagedCommitMessage (c : StagedCommit) | OtherContent.

Class OpenMls `{MlsTypes} := {
  (** [CryptoProvider::new], seeded by the system. *)
  crypto_new : N → option CryptoProvider;
  crypto_supports : CryptoProvider → bool;
  signature_key_gen : CryptoProvider → CryptoProvider * option (bytes * bytes);
  (** Reading from the front of the input: what was read and what is left. *)
  key_package_deserialize : bytes → option (KeyPackageIn * bytes);
  message_deserialize : bytes → option (MlsMessageIn * bytes);
  key_package_validate : KeyPackageIn → option KeyPackage;
  message_welcome : MlsMessageIn → option Welcome;
  message_protocol : MlsMessageIn → option ProtocolMessage;
  group_id_deserialize : bytes → option bytes;
  (** [KeyPackage::builder().build(..)], then its serialization. *)
  key_package_build : DaemonProvider → bytes → CredentialWithKey → N
    → DaemonProvider * option (option bytes);
  group_new : DaemonProvider → bytes → CredentialWithKey → DaemonProvider * option MlsGroup;
  (** [group_id().tls_serialize_detached()]. *)
  group_id_serialized : MlsGroup → option bytes;
  group_members : MlsGroup → list (bytes * N);
  (** The second result of [add_members] and the first of [remove_members], serialized. *)
  group_add_member : DaemonProvider → bytes → MlsGroup → KeyPackage
    → DaemonProvider * MlsGroup * option (option bytes);
  group_remove_member : DaemonProvider → bytes → MlsGroup → N
    → DaemonProvider * MlsGroup * option (option bytes);
  group_merge_pending : DaemonProvider → MlsGroup → DaemonProvider * MlsGroup * bool;
  staged_join : DaemonProvider → Welcome → DaemonProvider * option MlsGroup;
  group_create_message : DaemonProvider → bytes → MlsGroup → bytes
    → DaemonProvider * MlsGroup * option (option bytes);
  group_process_message : DaemonProvider → MlsGroup → ProtocolMessage
    → DaemonProvider * MlsGroup * option Processed;
  group_merge_staged : DaemonProvider → MlsGroup → StagedCommit → DaemonProvider * MlsGroup * bool;
  (** [MlsGroup::load]: an error, or a group if the storage has one. *)
  group_load : Values → bytes → option (option MlsGroup);
}.

(** ** Sessions *)

Record MlsSession `{MlsTypes} := {
  ms_provider : DaemonProvider;
  ms_credential : CredentialWithKey;
  ms_private_key : bytes;
  ms_group : option MlsGroup;
  ms_poisoned : bool;
}.

Record SnapshotEntry := { se_key : bytes; se_value : bytes }.
Record SessionSnapshot := {
  sn_credential : CredentialWithKey;
  sn_private_key : bytes;
  sn_group_id : bytes;
  sn_storage : list SnapshotEntry;
}.

Definition session_key (conversation_id : string) : string := "mls/session/" +:+ conversation_id.

Section session.
Context `{OpenMls, Crypto, JsonCodec SessionSnapshot, JsonCodec AttachmentDescriptor}.

Definition set_provider (p : DaemonProvider) (s : MlsSession) : MlsSession :=
  {| ms_provider := p; ms_credential := ms_credential s; ms_private_key := ms_private_key s;
     ms_group := ms_group s; ms_poisoned := ms_poisoned s |}.
Definition set_group (p : DaemonProvider) (g : MlsGroup) (s : MlsSession) : MlsSession :=
  {| ms_provider := p; ms_credential := ms_credential s; ms_private_key := ms_private_key s;
     ms_group := Some g; ms_poisoned := ms_poisoned s |}.
Definition set_poisoned (s : MlsSession) : MlsSession :=
  {| ms_provider := ms_provider s; ms_credential := ms_credential s;
     ms_private_key := ms_private_key s; ms_group := ms_group s; ms_poisoned := true |}.

Definition Ses (A : Type) : Type := Mut MlsSession A SessionError.

Definition ensure_usable : Ses unit :=
  λ s, (s, if ms_poisoned s then Err SessionStorage else Ok tt).

(** [DaemonProvider::new] and the check of the cipher suite. *)
Definition provider_new (seed : N) : result DaemonProvider SessionError :=
  let? crypto := ok_or (crypto_new seed) SessionProvider in
  if negb (crypto_supports crypto) then Err SessionProvider
  else Ok {| dp_crypto := crypto; dp_storage := ∅ |}.

Definition identity_ok (identity : bytes) : bool :=
  negb (blen identity =? 0)%N && (blen identity <=? MAX_IDENTITY_BYTES)%N.

Definition from_signature_key (identity : bytes) (provider : DaemonProvider)
    (private_key public_key : bytes) : MlsSession :=
  {| ms_provider := provider;
     ms_credential := {| cw_identity := identity; cw_signature_key := public_key |};
     ms_private_key := private_key; ms_group := None; ms_poisoned := false |}.

Definition session_new (identity : bytes) (seed : N) : result MlsSession SessionError :=
  if negb (identity_ok identity) then Err IdentityTooLarge
  else
    let? provider := provider_new seed in
    match signature_key_gen (dp_crypto provider) with
    | (crypto, Some (private_key, public_key)) =>
      Ok (from_signature_key identity {| dp_crypto := crypto; dp_storage := dp_storage provider |}
            private_key public_key)
    | (_, None) => Err SessionCrypto
    end.

Definition session_new_with_signature_key (identity private_key : bytes) (seed : N)
  : result MlsSession SessionError :=
  if negb (identity_ok identity) then Err IdentityTooLarge
  else
    let? provider := provider_new seed in
    Ok (from_signature_key identity provider private_key (ed_public private_key)).

Definition key_package_with_lifetime (lifetime : N) : Ses bytes :=
  let! _ := ensure_usable in
  if (lifetime =? 0)%N || (MAX_KEY_PACKAGE_LIFETIME_SECONDS <? lifetime)%N
  then mut_lift (Err SessionTooLarge)
  else λ s,
    let '(p, built) :=
      key_package_build (ms_provider s) (ms_private_key s) (ms_credential s) lifetime in
    (set_provider p s,
     let? bundle := ok_or built SessionOpenMls in ok_or bundle SessionInvalidWire).

Definition session_key_package : Ses bytes :=
  let! _ := ensure_usable in
  key_package_with_lifetime DEFAULT_KEY_PACKAGE_LIFETIME_SECONDS.

Definition create_group : Ses unit :=
  let! _ := ensure_usable in
  λ s,
    match ms_group s with
    | Some _ => (s, Err SessionOpenMls)
    | None =>
      match group_new (ms_provider s) (ms_private_key s) (ms_credential s) with
      | (p, Some g) => (set_group p g s, Ok tt)
      | (p, None) => (set_provider p s, Err SessionOpenMls)
      end
    end.

(** The group of the session, or [NotJoined]. *)
Definition with_group {A} (k : MlsGroup → Ses A) : Ses A :=
  λ s, match ms_group s with None => (s, Err NotJoined) | Some g => k g s end.

Definition session_add_member (key_package : bytes) : Ses bytes :=
  let! _ := ensure_usable in
  let! parsed := mut_lift (ok_or (key_package_deserialize key_package) SessionInvalidWire) in
  if negb (blen parsed.2 =? 0)%N then mut_lift (Err SessionInvalidWire)
  else
    let! validated := mut_lift (ok_or (key_package_validate parsed.1) SessionInvalidWire) in
    with_group (λ g s,
      match group_add_member (ms_provider s) (ms_private_key s) g validated with
      | (p, g, None) => (set_group p g s, Err SessionOpenMls)
      | (p, g, Some welcome) =>
        match group_merge_pending p g with
        | (p, g, false) => (set_group p g s, Err SessionOpenMls)
        | (p, g, true) => (set_group p g s, ok_or welcome SessionInvalidWire)
        end
      end).

Definition session_remove_member (device_credential : bytes) : Ses (option bytes) :=
  let! _ := ensure_usable in
  with_group (λ g s,
    match find_first (λ m, bool_decide (m.1 = device_credential)) (group_members g) with
    | None => (s, Ok None)
    | Some member =>
      match group_remove_member (ms_provider s) (ms_private_key s) g member.2 with
      | (p, g, None) => (set_group p g s, Err SessionOpenMls)
      | (p, g, Some commit) =>
        match group_merge_pending p g with
        | (p, g, false) => (set_group p g s, Err SessionOpenMls)
        | (p, g, true) =>
          (set_group p g s, let? c := ok_or commit SessionInvalidWire in Ok (Some c))
        end
      end
    end).

Definition session_join (welcome_wire : bytes) : Ses unit :=
  let! _ := ensure_usable in
  if (MAX_MLS_WIRE_BYTES <? blen welcome_wire)%N then mut_lift (Err SessionTooLarge)
  else
    let! parsed := mut_lift (ok_or (message_deserialize welcome_wire) SessionInvalidWire) in
    if negb (blen parsed.2 =? 0)%N then mut_lift (Err SessionInvalidWire)
    else
      let! welcome := mut_lift (ok_or (message_welcome parsed.1) UnsupportedMessage) in
      λ s,
        match staged_join (ms_provider s) welcome with
        | (p, Some g) => (set_group p g s, Ok tt)
        | (p, None) => (set_provider p s, Err SessionOpenMls)
        end.

Definition encrypt (plaintext : bytes) : Ses bytes :=
  let! _ := ensure_usable in
  if (MAX_MESSAGE_BYTES <? blen plaintext)%N then mut_lift (Err SessionTooLarge)
  else
    with_group (λ g s,
      let '(p, g, message) := group_create_message (ms_provider s) (ms_private_key s) g plaintext in
      (set_group p g s,
       let? wire := ok_or message SessionOpenMls in ok_or wire SessionInvalidWire)).

Definition decrypt_delivery (wire : bytes) : Ses (option bytes) :=
  let! _ := ensure_usable in
  if (MAX_MLS_WIRE_BYTES <? blen wire)%N then mut_lift (Err SessionTooLarge)
  else
    let! parsed := mut_lift (ok_or (message_deserialize wire) SessionInvalidWire) in
    let! message := mut_lift (ok_or (message_protocol parsed.1) SessionInvalidWire) in
    if negb (blen parsed.2 =? 0)%N then mut_lift (Err SessionInvalidWire)
    else
      with_group (λ g s,
        match group_process_message (ms_provider s) g message with
        | (p, g, None) => (set_group p g s, Err SessionOpenMls)
        | (p, g, Some (ApplicationMessage b)) => (set_group p g s, Ok (Some b))
        | (p, g, Some (StagedCommitMessage commit)) =>
          let '(p, g, merged) := group_merge_staged p g commit in
          (set_group p g s, if (merged : bool) then Ok None else Err SessionOpenMls)
        | (p, g, Some OtherContent) => (set_group p g s, Err UnsupportedMessage)
        end).

Definition session_decrypt (wire : bytes) : Ses bytes :=
  let! plaintext := decrypt_delivery wire in
  mut_lift (ok_or plaintext UnsupportedMessage).

Definition encrypt_attachment (descriptor : AttachmentDescriptor) : Ses bytes :=
  let! encoded := mut_lift (ok_or (json_to_vec descriptor) SessionInvalidWire) in
  encrypt (ATTACHMENT_MESSAGE_PREFIX ++ encoded).

Definition decrypt_attachment (wire : bytes) : Ses AttachmentDescriptor :=
  let! payload := session_decrypt wire in
  let! encoded := mut_lift (ok_or (strip_prefix_b ATTACHMENT_MESSAGE_PREFIX payload) UnsupportedMessage) in
  mut_lift (ok_or (json_from_slice encoded) SessionInvalidWire).

Definition session_snapshot_bytes (s : MlsSession) : result bytes SessionError :=
  if ms_poisoned s then Err SessionStorage
  else
    let? g := ok_or (ms_group s) NotJoined in
    let? id := ok_or (group_id_serialized g) SessionInvalidWire in
    let? bytes := ok_or (json_to_vec
      {| sn_credential := ms_credential s; sn_private_key := ms_private_key s;
         sn_group_id := id;
         sn_storage := map (λ kv, {| se_key := kv.1; se_value := kv.2 |})
                         (map_to_list (dp_storage (ms_provider s))) |}) SessionStorage in
    if (MAX_CHECKPOINT_BYTES <? blen bytes)%N then Err SessionTooLarge else Ok bytes.

Definition signature_key_matches (private_key : bytes) (s : MlsSession) : bool :=
  bool_decide (cw_signature_key (ms_credential s) = ed_public private_key).

(** ** Checkpoints *)

Section checkpoints.
Context {S : Type} `{RecordStore S}.

Definition SesStore (A : Type) : Type := Mut (MlsSession * S) A SessionError.

Definition on_session {A} (m : Ses A) : SesStore A :=
  λ '(ses, s), let '(ses, r) := m ses in ((ses, s), r).

Definition session_persist (conversation_id : string) : SesStore unit :=
  λ '(ses, s),
    match session_snapshot_bytes ses with
    | Err e => ((ses, s), Err e)
    | Ok bytes =>
      let '(s, r) := store_put ProtocolSession (session_key conversation_id) bytes s in
      ((ses, s), map_err (λ _, SessionStorage) r)
    end.

Definition persist_or_poison (conversation_id : string) : SesStore unit :=
  λ st,
    match session_persist conversation_id st with
    | (st, Err error) => ((set_poisoned st.1, st.2), Err error)
    | (st, Ok _) => (st, Ok tt)
    end.

Definition create_group_and_persist (conversation_id : string) : SesStore unit :=
  let! _ := on_session create_group in
  persist_or_poison conversation_id.

Definition add_member_and_persist (key_package : bytes) (conversation_id : string) : SesStore bytes :=
  let! welcome := on_session (session_add_member key_package) in
  let! _ := persist_or_poison conversation_id in
  mut_ret welcome.

Definition remove_member_and_persist (device_credential : bytes) (conversation_id : string)
  : SesStore (option bytes) :=
  let! commit := on_session (session_remove_member device_credential) in
  match commit with
  | Some _ => let! _ := persist_or_poison conversation_id in mut_ret commit
  | None => mut_ret commit
  end.

Definition join_and_persist (welcome_wire : bytes) (conversation_id : string) : SesStore unit :=
  let! _ := on_session (session_join welcome_wire) in
  persist_or_poison conversation_id.

Definition session_restore (conversation_id : string) (seed : N) (s : S)
  : result MlsSession SessionError :=
  let? bytes := ok_or (store_get s ProtocolSession (session_key conversation_id)) SessionStorage in
  if (MAX_CHECKPOINT_BYTES <? blen bytes)%N then Err SessionTooLarge
  else
    let? snapshot := ok_or (json_from_slice bytes) SessionStorage in
    if negb (blen (sn_private_key snapshot) =? 32)%N then Err SessionStorage
    else if negb (bool_decide (cw_signature_key (sn_credential snapshot)
                               = ed_public (sn_private_key snapshot)))
    then Err SessionStorage
    else
      let? provider := provider_new seed in
      let values := fold_left (λ m e, <[se_key e := se_value e]> m) (sn_storage snapshot) ∅ in
      let? id := ok_or (group_id_deserialize (sn_group_id snapshot)) SessionInvalidWire in
      let? loaded := ok_or (group_load values id) SessionOpenMls in
      let? group := ok_or loaded SessionStorage in
      Ok {| ms_provider := {| dp_crypto := dp_crypto provider; dp_storage := values |};
            ms_credential := sn_credential snapshot; ms_private_key := sn_private_key snapshot;
            ms_group := Some group; ms_poisoned := false |}.
End checkpoints.
End session.

(** ** The catalog *)

Inductive SessionCatalogError :=
| InvalidConversation | DuplicateConversation | UnknownConversation | CatalogSession (e : SessionError).
#[export] Instance SessionCatalogError_eq_dec : EqDecision SessionCatalogError.
Proof. solve_decision. Defined.

Record MlsSessionCatalog `{MlsTypes} := {
  mc_sessions : gmap string MlsSession;
  mc_device_key : option bytes;
}.

(** A conversation, the commit that removed a device from it, and its checkpoint. *)
Definition DeviceRemovalCommit : Type := string * bytes * bytes.

Section catalog.
Context `{OpenMls, Crypto, JsonCodec SessionSnapshot, JsonCodec AttachmentDescriptor}.
Context {S : Type} `{RecordStore S}.

Definition set_sessions (m : gmap string MlsSession) (c : MlsSessionCatalog) : MlsSessionCatalog :=
  {| mc_sessions := m; mc_device_key := mc_device_key c |}.

Definition catalog_new : MlsSessionCatalog := {| mc_sessions := ∅; mc_device_key := None |}.
Definition catalog_new_with_device_private_key (key : bytes) : MlsSessionCatalog :=
  {| mc_sessions := ∅; mc_device_key := Some key |}.

Definition new_session (identity : bytes) (seed : N) (c : MlsSessionCatalog)
  : result MlsSession SessionCatalogError :=
  map_err CatalogSession
    match mc_device_key c with
    | Some key => session_new_with_signature_key identity key seed
    | None => session_new identity seed
    end.

Definition conversation_ids (c : MlsSessionCatalog) : list string := btree_keys (mc_sessions c).

Definition CatStore (A : Type) : Type := Mut (MlsSessionCatalog * S) A SessionCatalogError.

(** A new session works on the store and enters the catalog if that succeeds. *)
Definition admit_session {A} (conversation_id : string) (m : SesStore A) (fresh : MlsSession)
  : CatStore A :=
  λ '(c, s),
    match m (fresh, s) with
    | ((ses, s), Ok a) => ((set_sessions (<[conversation_id := ses]> (mc_sessions c)) c, s), Ok a)
    | ((_, s), Err e) => ((c, s), Err (CatalogSession e))
    end.

(** A session of the catalog works on the store. *)
Definition with_session {A} (conversation_id : string) (m : SesStore A) : CatStore A :=
  λ '(c, s),
    if negb (valid_conversation_id conversation_id) then ((c, s), Err InvalidConversation)
    else
      match mc_sessions c !! conversation_id with
      | None => ((c, s), Err UnknownConversation)
      | Some ses =>
        let '((ses, s), r) := m (ses, s) in
        ((set_sessions (<[conversation_id := ses]> (mc_sessions c)) c, s), map_err CatalogSession r)
      end.

Definition catalog_create (conversation_id : string) (identity : bytes) (seed : N) : CatStore unit :=
  λ '(c, s),
    if negb (valid_conversation_id conversation_id) then ((c, s), Err InvalidConversation)
    else if bool_decide (is_Some (mc_sessions c !! conversation_id))
    then ((c, s), Err DuplicateConversation)
    else
      match new_session identity seed c with
      | Err e => ((c, s), Err e)
      | Ok fresh => admit_session conversation_id (create_group_and_persist conversation_id) fresh (c, s)
      end.

Definition catalog_join (conversation_id : string) (identity : bytes) (seed : N) (welcome : bytes)
  : CatStore unit :=
  λ '(c, s),
    if negb (valid_conversation_id conversation_id) then ((c, s), Err InvalidConversation)
    else
      match mc_sessions c !! conversation_id with
      | Some _ => with_session conversation_id (join_and_persist welcome conversation_id) (c, s)
      | None =>
        match new_session identity seed c with
        | Err e => ((c, s), Err e)
        | Ok fresh =>
          admit_session conversation_id (join_and_persist welcome conversation_id) fresh (c, s)
        end
      end.

(** The group of the key package is created, the package built, and both checkpointed. *)
Definition prepare_session (conversation_id : string) : SesStore bytes :=
  let! _ := on_session create_group in
  let! key_package := on_session session_key_package in
  let! _ := persist_or_poison conversation_id in
  mut_ret key_package.

Definition prepare (conversation_id : string) (identity : bytes) (seed : N) : CatStore bytes :=
  λ '(c, s),
    if negb (valid_conversation_id conversation_id) then ((c, s), Err InvalidConversation)
    else if bool_decide (is_Some (mc_sessions c !! conversation_id))
    then ((c, s), Err DuplicateConversation)
    else
      match new_session identity seed c with
      | Err e => ((c, s), Err e)
      | Ok fresh => admit_session conversation_id (prepare_session conversation_id) fresh (c, s)
      end.

Definition catalog_restore (conversation_id : string) (seed : N) (s : S)
  : Mut MlsSessionCatalog unit SessionCatalogError :=
  λ c,
    if negb (valid_conversation_id conversation_id) then (c, Err InvalidConversation)
    else if bool_decide (is_Some (mc_sessions c !! conversation_id)) then (c, Err DuplicateConversation)
    else
      match session_restore conversation_id seed s with
      | Err e => (c, Err (CatalogSession e))
      | Ok ses =>
        if match mc_device_key c with Some key => negb (signature_key_matches key ses) | None => false end
        then (c, Err (CatalogSession SessionStorage))
        else (set_sessions (<[conversation_id := ses]> (mc_sessions c)) c, Ok tt)
      end.

Fixpoint restore_each (ids : list string) (seed : N) (s : S)
  : Mut MlsSessionCatalog unit SessionCatalogError :=
  match ids with
  | [] => mut_ret tt
  | id :: t => let! _ := catalog_restore id seed s in restore_each t seed s
  end.

Definition restore_all `{RecordScan S} (seed : N) (s : S)
  : Mut MlsSessionCatalog nat SessionCatalogError :=
  let ids := omap (λ kv, strip_prefix "mls/session/" kv.1)
               (store_prefix s ProtocolSession "mls/session/") in
  let! _ := restore_each ids seed s in
  mut_ret (length ids).

Definition catalog_remove (conversation_id : string) : CatStore unit :=
  λ '(c, s),
    if negb (valid_conversation_id conversation_id) then ((c, s), Err InvalidConversation)
    else
      match mc_sessions c !! conversation_id with
      | None => ((c, s), Err UnknownConversation)
      | Some _ =>
        let '(s, r) := store_delete ProtocolSession (session_key conversation_id) s in
        ((set_sessions (delete conversation_id (mc_sessions c)) c, s),
         match r with Ok _ => Ok tt | Err _ => Err (CatalogSession SessionStorage) end)
      end.

Definition catalog_lock (c : MlsSessionCatalog) : MlsSessionCatalog := set_sessions ∅ c.

Definition catalog_key_package (conversation_id : string) : CatStore bytes :=
  with_session conversation_id (on_session session_key_package).

Definition catalog_add_member (conversation_id : string) (key_package : bytes) : CatStore bytes :=
  with_session conversation_id (add_member_and_persist key_package conversation_id).

Fixpoint add_members (key_packages : list bytes) (conversation_id : string) : SesStore (list bytes) :=
  match key_packages with
  | [] => mut_ret []
  | key_package :: t =>
    let! welcome := add_member_and_persist key_package conversation_id in
    let! welcomes := add_members t conversation_id in
    mut_ret (welcome :: welcomes)
  end.
Definition add_members_batch (conversation_id : string) (key_packages : list bytes)
  : CatStore (list bytes) :=
  with_session conversation_id (add_members key_packages conversation_id).

Definition remove_group_member (conversation_id : string) (device_credential : bytes)
  : CatStore (option bytes) :=
  with_session conversation_id (remove_member_and_persist device_credential conversation_id).

(** The loop over the sessions, in the order of the map. *)
Fixpoint remove_device_loop (ids : list string) (device_credential : bytes)
  : Mut MlsSessionCatalog (list DeviceRemovalCommit) SessionCatalogError :=
  match ids with
  | [] => mut_ret []
  | id :: t => λ c,
    match mc_sessions c !! id with
    | None => remove_device_loop t device_credential c
    | Some ses =>
      let '(ses, removed) := session_remove_member device_credential ses in
      let c := set_sessions (<[id := ses]> (mc_sessions c)) c in
      match removed with
      | Err e => (c, Err (CatalogSession e))
      | Ok None => remove_device_loop t device_credential c
      | Ok (Some commit) =>
        match session_snapshot_bytes ses with
        | Err e => (c, Err (CatalogSession e))
        | Ok checkpoint =>
          let '(c, rest) := remove_device_loop t device_credential c in
          (c, let? commits := rest in Ok ((id, commit, checkpoint) :: commits))
        end
      end
    end
  end.
Definition remove_device_unpersisted (device_credential : bytes)
  : Mut MlsSessionCatalog (list DeviceRemovalCommit) SessionCatalogError :=
  λ c, remove_device_loop (conversation_ids c) device_credential c.

Definition poison_all (c : MlsSessionCatalog) : MlsSessionCatalog :=
  set_sessions (set_poisoned <$> mc_sessions c) c.
Definition poison (conversation_id : string) (c : MlsSessionCatalog) : MlsSessionCatalog :=
  set_sessions (alter set_poisoned conversation_id (mc_sessions c)) c.

(** The operations that leave the checkpoint to the caller. *)
Definition unpersisted {A} (conversation_id : string) (m : Ses A)
  : Mut MlsSessionCatalog A SessionCatalogError :=
  λ c,
    if negb (valid_conversation_id conversation_id) then (c, Err InvalidConversation)
    else
      match mc_sessions c !! conversation_id with
      | None => (c, Err UnknownConversation)
      | Some ses =>
        let '(ses, r) := m ses in
        (set_sessions (<[conversation_id := ses]> (mc_sessions c)) c, map_err CatalogSession r)
      end.

Definition send_unpersisted (conversation_id : string) (plaintext : bytes) :=
  unpersisted conversation_id (encrypt plaintext).
Definition receive_delivery_unpersisted (conversation_id : string) (wire : bytes) :=
  unpersisted conversation_id (decrypt_delivery wire).
Definition receive_attachment_unpersisted (conversation_id : string) (wire : bytes) :=
  unpersisted conversation_id (decrypt_attachment wire).
Definition send_attachment_unpersisted (conversation_id : string) (descriptor : AttachmentDescriptor) :=
  unpersisted conversation_id (encrypt_attachment descriptor).

Definition checkpoint_bytes (conversation_id : string) (c : MlsSessionCatalog)
  : result bytes SessionCatalogError :=
  if negb (valid_conversation_id conversation_id) then Err InvalidConversation
  else
    let? ses := ok_or (mc_sessions c !! conversation_id) UnknownConversation in
    map_err CatalogSession (session_snapshot_bytes ses).
End catalog.
