(* ===== verification/MlsSessionProps.v ===== *)
(** * What MLS sessions guarantee

    Every session of a catalog keeps the keys it was made with and a group its storage can
    load; an operation that reports success and checkpoints has left a checkpoint from which a
    restart gets the same session; a session whose checkpoint failed answers nothing more. *)
From Stdlib Require Import Ascii NArith Lia ZifyBool ZifyN.
From stdpp Require Import base gmap strings list.
From S2P Require Import Prelude Text Collections Interfaces StoreFormat Storage RecordStore TableStore Attachment Contacts MlsProvider MlsSession.

Create HintDb mls discriminated.

(** The group is what the storage of the provider loads under its identifier. *)
Definition loads `{OpenMls} (p : DaemonProvider) (g : MlsGroup) : Prop :=
  ∀ sid, group_id_serialized g = Some sid →
    ∃ id, group_id_deserialize sid = Some id ∧ group_load (dp_storage p) id = Some (Some g).

(** What OpenMLS and its provider document: an operation that succeeds has written the group it
    leaves behind through the storage provider, a key package is written next to it, and a
    generated key is an Ed25519 key pair. *)
Class OpenMlsLaws `{OpenMls, Crypto} : Prop := {
  signature_key_gen_law c c' sk pk :
    signature_key_gen c = (c', Some (sk, pk)) → length sk = 32 ∧ pk = ed_public sk;
  key_package_law p sk cr n p' r g :
    key_package_build p sk cr n = (p', Some r) → loads p g → loads p' g;
  group_new_law p sk cr p' g : group_new p sk cr = (p', Some g) → loads p' g;
  merge_pending_law p g p' g' : group_merge_pending p g = (p', g', true) → loads p' g';
  staged_join_law p w p' g : staged_join p w = (p', Some g) → loads p' g;
  create_message_law p sk g m p' g' r : group_create_message p sk g m = (p', g', Some r) → loads p' g';
  process_message_law p g m p' g' b :
    group_process_message p g m = (p', g', Some (ApplicationMessage b)) → loads p' g';
  merge_staged_law p g k p' g' : group_merge_staged p g k = (p', g', true) → loads p' g';
}.

Section programs.
Context `{OpenMls, Crypto}.

(** ** Keys *)

(** The keys of a session, which no operation changes. *)
Definition keys (ses : MlsSession) : CredentialWithKey * bytes := (ms_credential ses, ms_private_key ses).

Record keys_wf (ses : MlsSession) : Prop := {
  wf_private : length (ms_private_key ses) = 32;
  wf_public : cw_signature_key (ms_credential ses) = ed_public (ms_private_key ses);
}.

Lemma keys_wf_same ses ses' : keys ses = keys ses' → keys_wf ses → keys_wf ses'.
Proof using Type. intros E [H1' H2']. injection E as Ec Ek. split; congruence. Qed.

(** A program that does nothing but report an error to a poisoned session, and keeps the keys
    and the poison of any other. *)
Record orderly {A} (m : Ses A) : Prop := {
  orderly_keys : ∀ ses, keys (m ses).1 = keys ses;
  orderly_poison : ∀ ses, ms_poisoned (m ses).1 = ms_poisoned ses;
}.
Definition inert {A} (m : Ses A) : Prop :=
  ∀ ses, ms_poisoned ses = true → ∃ e, m ses = (ses, Err e).

Lemma orderly_lift {A} (r : result A SessionError) : orderly (mut_lift r).
Proof using Type. done. Qed.
Lemma orderly_usable : orderly ensure_usable.
Proof using Type. done. Qed.
Lemma orderly_bind {A B} (m : Ses A) (k : A → Ses B) :
  orderly m → (∀ a, orderly (k a)) → orderly (mut_bind m k).
Proof using Type.
  intros [Hk Hp] Hm. split; intros ses; unfold mut_bind; specialize (Hk ses); specialize (Hp ses);
    destruct (m ses) as [ses' [a|e]]; try done; destruct (Hm a) as [Hk' Hp']; cbn in *;
    [by rewrite Hk'|by rewrite Hp'].
Qed.
Lemma orderly_fun {A} (m : Ses A) :
  (∀ ses, keys (m ses).1 = keys ses ∧ ms_poisoned (m ses).1 = ms_poisoned ses) → orderly m.
Proof using Type. intros Hm. split; intros ses; apply Hm. Qed.

Lemma inert_bind {A B} (m : Ses A) (k : A → Ses B) : inert m → inert (mut_bind m k).
Proof using Type. intros Hm ses Hp. unfold mut_bind. destruct (Hm ses Hp) as [e ->]. by exists e. Qed.
Lemma inert_lift {A B} (r : result A SessionError) (k : A → Ses B) :
  (∀ a, inert (k a)) → inert (mut_bind (mut_lift r) k).
Proof using Type. intros Hk ses Hp. unfold mut_bind, mut_lift. destruct r; [by apply Hk|by eexists]. Qed.
Lemma inert_usable : inert ensure_usable.
Proof using Type. intros ses Hp. unfold ensure_usable. rewrite Hp. by eexists. Qed.

(** ** Groups *)

Definition settled (ses : MlsSession) : Prop :=
  ∃ g, ms_group ses = Some g ∧ loads (ms_provider ses) g.

(** A program that leaves a settled session when its answer satisfies [P]. *)
Definition settles {A} (P : A → Prop) (m : Ses A) : Prop :=
  ∀ ses ses' a, m ses = (ses', Ok a) → P a → settled ses'.

Lemma settles_bind {A B} P (m : Ses A) (k : A → Ses B) :
  (∀ a, settles P (k a)) → settles P (mut_bind m k).
Proof using Type.
  intros Hk ses ses' b. unfold mut_bind. destruct (m ses) as [ses1 [a|e]]; [|done]. apply Hk.
Qed.
Lemma settles_err {A} P e : settles P (@mut_lift _ A _ (Err e)).
Proof using Type. intros ses ses' a [=]. Qed.
Lemma settled_group p g ses : loads p g → settled (set_group p g ses).
Proof using Type. intros Hl. by exists g. Qed.
End programs.
#[export] Hint Resolve orderly_lift orderly_usable orderly_bind inert_bind inert_lift inert_usable
  settles_bind settles_err settled_group : mls.
#[export] Hint Resolve group_new_law merge_pending_law staged_join_law create_message_law
  process_message_law merge_staged_law : mls.
#[export] Hint Extern 1 (orderly (if ?b then _ else _)) => destruct b : mls.
#[export] Hint Extern 1 (settles _ (if ?b then _ else _)) => destruct b : mls.

(** The last step of an operation, which calls OpenMLS. *)
Ltac orderly_step := apply orderly_fun; intros ?ses; unfold with_group; repeat case_match; done.
Ltac settles_step :=
  let E := fresh "E" in
  intros ?ses ?ses' ?a E ?HP; unfold with_group in E; repeat case_match; simplify_eq; eauto with mls.

Section session_ops.
Context `{OpenMls, Crypto, JsonCodec AttachmentDescriptor}.

Lemma key_package_ordered n : orderly (key_package_with_lifetime n) ∧ inert (key_package_with_lifetime n).
Proof using Type.
  unfold key_package_with_lifetime. split; [|auto with mls].
  apply orderly_bind; [auto with mls|]. intros _. case_match; [auto with mls|orderly_step].
Qed.
Lemma create_group_ordered : orderly create_group ∧ inert create_group.
Proof using Type.
  unfold create_group. split; [|auto with mls]. apply orderly_bind; [auto with mls|]. intros _. orderly_step.
Qed.
Lemma add_member_ordered kp : orderly (session_add_member kp) ∧ inert (session_add_member kp).
Proof using Type.
  unfold session_add_member. split; [|auto with mls]. repeat (apply orderly_bind; [auto with mls|]; intros ?).
  case_match; [auto with mls|]. apply orderly_bind; [auto with mls|]. intros ?. orderly_step.
Qed.
Lemma remove_member_ordered cr : orderly (session_remove_member cr) ∧ inert (session_remove_member cr).
Proof using Type.
  unfold session_remove_member. split; [|auto with mls]. apply orderly_bind; [auto with mls|]. intros ?. orderly_step.
Qed.
Lemma join_ordered w : orderly (session_join w) ∧ inert (session_join w).
Proof using Type.
  unfold session_join. split; [|auto with mls]. apply orderly_bind; [auto with mls|]. intros ?.
  case_match; [auto with mls|]. apply orderly_bind; [auto with mls|]. intros ?. case_match; [auto with mls|].
  apply orderly_bind; [auto with mls|]. intros ?. orderly_step.
Qed.
Lemma encrypt_ordered m : orderly (encrypt m) ∧ inert (encrypt m).
Proof using Type.
  unfold encrypt. split; [|auto with mls]. apply orderly_bind; [auto with mls|]. intros ?.
  case_match; [auto with mls|]. orderly_step.
Qed.
Lemma decrypt_ordered w : orderly (decrypt_delivery w) ∧ inert (decrypt_delivery w).
Proof using Type.
  unfold decrypt_delivery. split; [|auto with mls]. apply orderly_bind; [auto with mls|]. intros ?.
  case_match; [auto with mls|]. repeat (apply orderly_bind; [auto with mls|]; intros ?).
  case_match; [auto with mls|]. orderly_step.
Qed.

Lemma decrypt_plain_ordered w : orderly (session_decrypt w) ∧ inert (session_decrypt w).
Proof using Type.
  destruct (decrypt_ordered w) as [Ho Hi]. unfold session_decrypt. auto with mls.
Qed.
Lemma encrypt_attachment_ordered d : orderly (encrypt_attachment d) ∧ inert (encrypt_attachment d).
Proof using Type.
  unfold encrypt_attachment. split.
  - apply orderly_bind; [auto with mls|]. intros b. apply encrypt_ordered.
  - apply inert_lift. intros b. apply encrypt_ordered.
Qed.
Lemma decrypt_attachment_ordered w : orderly (decrypt_attachment w) ∧ inert (decrypt_attachment w).
Proof using Type.
  destruct (decrypt_plain_ordered w) as [Ho Hi]. unfold decrypt_attachment. auto with mls.
Qed.

Context `{!OpenMlsLaws}.

Lemma create_group_settles : settles (λ _, True) create_group.
Proof using Type*. unfold create_group. apply settles_bind. intros _. settles_step. Qed.
Lemma add_member_settles kp : settles (λ _, True) (session_add_member kp).
Proof using Type*.
  unfold session_add_member. do 2 (apply settles_bind; intros ?). case_match; [auto with mls|].
  apply settles_bind. intros ?. settles_step.
Qed.
Lemma remove_member_settles cr : settles is_Some (session_remove_member cr).
Proof using Type*.
  unfold session_remove_member. apply settles_bind. intros _.
  intros ses ses' a E HP. unfold with_group in E. repeat case_match; simplify_eq; eauto with mls.
  by destruct HP.
Qed.
Lemma join_settles w : settles (λ _, True) (session_join w).
Proof using Type*.
  unfold session_join. apply settles_bind; intros ?. case_match; [auto with mls|].
  apply settles_bind; intros ?. case_match; [auto with mls|]. apply settles_bind; intros ?. settles_step.
Qed.
End session_ops.

(** ** Checkpoints *)

Section checkpoints.
Context `{OpenMls, Crypto, JsonCodec SessionSnapshot, JsonCodec AttachmentDescriptor}.
Context {S : Type} `{RecordStoreLaws S}.

Definition checkpointed (id : string) (ses : MlsSession) (s : S) : Prop :=
  ∃ b, session_snapshot_bytes ses = Ok b ∧ store_get s ProtocolSession (session_key id) = Some b.

(** Two sessions that differ at most in the instance of the crypto provider. *)
Definition same_session (a b : MlsSession) : Prop :=
  keys a = keys b ∧ dp_storage (ms_provider a) = dp_storage (ms_provider b)
  ∧ ms_group a = ms_group b ∧ ms_poisoned a = ms_poisoned b.

(** What a program on a session and the store may do: keep the keys, keep every other record,
    and nothing at all to a poisoned session. *)
Record bounded {A} (id : string) (m : SesStore A) : Prop := {
  bounded_keys : ∀ st, keys (m st).1.1 = keys st.1;
  bounded_inv : ∀ st, store_inv st.2 → store_inv (m st).1.2;
  bounded_frame : ∀ st, store_inv st.2 → ∀ c k, (c, k) ≠ (ProtocolSession, session_key id) →
    store_get (m st).1.2 c k = store_get st.2 c k;
  bounded_inert : ∀ st, ms_poisoned st.1 = true → ∃ e, m st = (st, Err e);
}.

(** The same without the last part, for programs that follow one that has it. *)
Record local {A} (id : string) (m : SesStore A) : Prop := {
  local_keys : ∀ st, keys (m st).1.1 = keys st.1;
  local_inv : ∀ st, store_inv st.2 → store_inv (m st).1.2;
  local_frame : ∀ st, store_inv st.2 → ∀ c k, (c, k) ≠ (ProtocolSession, session_key id) →
    store_get (m st).1.2 c k = store_get st.2 c k;
}.

Lemma bounded_local {A} id (m : SesStore A) : bounded id m → local id m.
Proof using Type. intros [? ? ? _]. by split. Qed.

Lemma local_bind {A B} id (m : SesStore A) (k : A → SesStore B) :
  local id m → (∀ a, local id (k a)) → local id (mut_bind m k).
Proof using Type.
  intros [Hk Hi Hf] Hm. split; intros st; unfold mut_bind; specialize (Hk st); specialize (Hi st);
    specialize (Hf st); destruct (m st) as [st' [a|e]]; cbn in *; try done; destruct (Hm a) as [Hk' Hi' Hf'];
    [by rewrite Hk'|eauto|].
  intros Hs c k' Hne. rewrite Hf' by auto. by apply Hf.
Qed.
Lemma local_ret {A} id (a : A) : local id (mut_ret a).
Proof using Type. by split. Qed.
Lemma bounded_bind {A B} id (m : SesStore A) (k : A → SesStore B) :
  bounded id m → (∀ a, local id (k a)) → bounded id (mut_bind m k).
Proof using Type.
  intros Hm Hk. destruct (local_bind id m k (bounded_local _ _ Hm) Hk) as [H1' H2' H3']. split; [done..|].
  intros st Hp. unfold mut_bind. destruct (bounded_inert _ _ Hm st Hp) as [e ->]. by exists e.
Qed.

Lemma on_session_bounded {A} id (m : Ses A) : orderly m ∧ inert m → bounded id (on_session m).
Proof using Type.
  intros [[Hk _] Hi]. split; intros [ses s]; unfold on_session; cbn.
  - specialize (Hk ses). by destruct (m ses).
  - by destruct (m ses).
  - by destruct (m ses).
  - intros Hp. destruct (Hi ses Hp) as [e ->]. by exists e.
Qed.

Lemma persist_local id : local id (persist_or_poison id).
Proof using Type.
  split; intros [ses s]; unfold persist_or_poison, session_persist; cbn;
    destruct (session_snapshot_bytes ses) as [b|e]; try done;
    destruct (store_put _ _ _ s) as [s' [[]|e]] eqn:E; try done; cbn.
  - intros Hs. by eapply store_put_inv.
  - intros Hs. by eapply store_put_inv.
  - intros Hs c k Hne. rewrite (store_put_ok _ _ _ _ _ Hs E). by apply view_update_ne.
  - intros Hs c k Hne. by eapply store_put_err.
Qed.

Lemma persist_cases id ses s st r :
  store_inv s → persist_or_poison id (ses, s) = (st, r) →
  match r with
  | Ok _ => st.1 = ses ∧ checkpointed id ses st.2
  | Err _ => st.1 = set_poisoned ses ∧ ∀ c k, store_get st.2 c k = store_get s c k
  end.
Proof using Type.
  intros Hs. unfold persist_or_poison, session_persist.
  destruct (session_snapshot_bytes ses) as [b|e] eqn:Eb; [|by intros [= <- <-]].
  destruct (store_put _ _ _ s) as [s' [[]|e]] eqn:E; intros [= <- <-]; cbn.
  - split; [done|]. exists b. split; [done|]. rewrite (store_put_ok _ _ _ _ _ Hs E). apply view_update_eq.
  - split; [done|]. by eapply store_put_err.
Qed.

Lemma fold_entries (m : Values) :
  fold_left (λ m e, <[se_key e := se_value e]> m)
    (map (λ kv, {| se_key := kv.1; se_value := kv.2 |}) (map_to_list m)) ∅ = m.
Proof using Type.
  assert (E : ∀ l (acc : Values), NoDup l.*1 → (∀ k, k ∈ l.*1 → acc !! k = None) →
    fold_left (λ m e, <[se_key e := se_value e]> m) (map (λ kv, {| se_key := kv.1; se_value := kv.2 |}) l) acc
    = list_to_map l ∪ acc).
  { induction l as [|[k v] l IH]; intros acc Hn Hacc; [by rewrite list_to_map_nil, map_empty_union|].
    rewrite fmap_cons in Hn. apply NoDup_cons in Hn as [Hk Hn]. cbn [map fold_left se_key se_value].
    cbn [fst] in Hk. rewrite IH; [|done|].
    - rewrite list_to_map_cons, <-insert_union_r by (by apply not_elem_of_list_to_map).
      by rewrite insert_union_l.
    - intros k' Hk'. rewrite lookup_insert_ne by (cbn; intros ->; done). apply Hacc. by right. }
  rewrite E; [|apply NoDup_fst_map_to_list|intros; apply lookup_empty].
  by rewrite list_to_map_to_list, map_union_empty.
Qed.

Lemma checkpoint_restores `{!JsonRoundTrip SessionSnapshot} id ses s seed p :
  keys_wf ses → settled ses → checkpointed id ses s → provider_new seed = Ok p →
  ∃ ses', session_restore id seed s = Ok ses' ∧ same_session ses ses'.
Proof using Type*.
  intros [Hl Hp] (g & Eg & Hg) (b & Eb & Es) Ep. unfold session_snapshot_bytes in Eb.
  destruct (ms_poisoned ses) eqn:Epo; [done|]. rewrite Eg in Eb. cbn [ok_or result_bind] in Eb.
  destruct (group_id_serialized g) as [sid|] eqn:Esid; [|done]. cbn [ok_or result_bind] in Eb.
  destruct (json_to_vec _) as [j|] eqn:Ej; [|done]. cbn [ok_or result_bind] in Eb.
  destruct (MAX_CHECKPOINT_BYTES <? blen j)%N eqn:Em; [done|]. injection Eb as <-.
  destruct (Hg sid Esid) as (gid & Egid & Eload).
  unfold session_restore. rewrite Es. cbn [ok_or result_bind]. rewrite Em, (json_roundtrip _ _ Ej).
  cbn [ok_or result_bind sn_private_key sn_credential sn_storage sn_group_id].
  unfold blen. rewrite Hl. cbn [N.of_nat N.eqb Pos.eqb negb Pos.of_succ_nat Pos.succ].
  rewrite bool_decide_true by done. cbn [negb]. rewrite Ep. cbn [result_bind].
  rewrite fold_entries, Egid. cbn [ok_or result_bind]. rewrite Eload. cbn [ok_or result_bind].
  eexists. split; [done|]. unfold same_session, keys. cbn. by rewrite Eg, Epo.
Qed.
End checkpoints.
#[export] Hint Resolve bounded_local local_ret persist_local : mls.
#[export] Hint Resolve on_session_bounded create_group_ordered add_member_ordered remove_member_ordered
  join_ordered encrypt_ordered decrypt_ordered key_package_ordered : mls.

Section persisted.
Context `{OpenMls, Crypto, JsonCodec SessionSnapshot, JsonCodec AttachmentDescriptor}.
Context {S : Type} `{RecordStoreLaws S}.

Lemma session_key_package_ordered : orderly session_key_package ∧ inert session_key_package.
Proof using Type.
  unfold session_key_package. split; [|auto with mls]. apply orderly_bind; [auto with mls|].
  intros _. apply key_package_ordered.
Qed.

(** The five programs that end with a checkpoint. *)
Lemma create_bounded id : bounded id (create_group_and_persist (S:=S) id).
Proof using Type. unfold create_group_and_persist. apply bounded_bind; auto with mls. Qed.
Lemma join_bounded w id : bounded id (join_and_persist (S:=S) w id).
Proof using Type. unfold join_and_persist. apply bounded_bind; auto with mls. Qed.
Lemma add_bounded kp id : bounded id (add_member_and_persist (S:=S) kp id).
Proof using Type.
  unfold add_member_and_persist. apply bounded_bind; [auto with mls|]. intros w.
  apply local_bind; auto with mls.
Qed.
Lemma remove_bounded cr id : bounded id (remove_member_and_persist (S:=S) cr id).
Proof using Type.
  unfold remove_member_and_persist. apply bounded_bind; [auto with mls|].
  intros [w|]; [|auto with mls]. apply local_bind; auto with mls.
Qed.
Lemma prepare_bounded id : bounded id (prepare_session (S:=S) id).
Proof using Type.
  unfold prepare_session. apply bounded_bind; [auto with mls|]. intros _.
  apply local_bind; [apply bounded_local, on_session_bounded, session_key_package_ordered|].
  intros kp. apply local_bind; auto with mls.
Qed.
Lemma add_all_local kps id : local id (add_members (S:=S) kps id).
Proof using Type.
  induction kps as [|kp kps IH]; cbn [add_members]; [auto with mls|].
  apply local_bind; [apply bounded_local, add_bounded|]. intros w. apply local_bind; auto with mls.
Qed.

(** A program that leaves a checkpoint of a settled session when its answer satisfies [P]. *)
Definition checkpoints {A} (id : string) (P : A → Prop) (m : SesStore (S:=S) A) : Prop :=
  ∀ st st' a, store_inv st.2 → m st = (st', Ok a) → P a → settled st'.1 ∧ checkpointed id st'.1 st'.2.

Context `{!OpenMlsLaws}.

Lemma create_checkpoints id : checkpoints id (λ _, True) (create_group_and_persist (S:=S) id).
Proof using Type*.
  intros [ses s] st' [] Hs E _. unfold create_group_and_persist, mut_bind, on_session in E.
  destruct (create_group ses) as [ses1 [[]|e]] eqn:Em; [|done]. pose proof (create_group_settles _ _ _ Em I) as Hset.
  by apply persist_cases in E as [-> Hc].
Qed.
Lemma join_checkpoints w id : checkpoints id (λ _, True) (join_and_persist (S:=S) w id).
Proof using Type*.
  intros [ses s] st' [] Hs E _. unfold join_and_persist, mut_bind, on_session in E.
  destruct (session_join w ses) as [ses1 [[]|e]] eqn:Em; [|done]. pose proof (join_settles _ _ _ _ Em I) as Hset.
  by apply persist_cases in E as [-> Hc].
Qed.
Lemma add_checkpoints kp id : checkpoints id (λ _, True) (add_member_and_persist (S:=S) kp id).
Proof using Type*.
  intros [ses s] st' w Hs E _. unfold add_member_and_persist, mut_bind, on_session in E.
  destruct (session_add_member kp ses) as [ses1 [w1|e]] eqn:Em; [|done]. pose proof (add_member_settles _ _ _ _ Em I) as Hset.
  destruct (persist_or_poison id (ses1, s)) as [st1 [[]|e]] eqn:Ep; [|done]. injection E as <- _.
  by apply persist_cases in Ep as [-> Hc].
Qed.
Lemma remove_checkpoints cr id : checkpoints id is_Some (remove_member_and_persist (S:=S) cr id).
Proof using Type*.
  intros [ses s] st' w Hs E HP. unfold remove_member_and_persist, mut_bind, on_session in E.
  destruct (session_remove_member cr ses) as [ses1 [[w1|]|e]] eqn:Em; [|injection E as _ <-; by destruct HP|done].
  pose proof (remove_member_settles _ _ _ _ Em (mk_is_Some _ _ eq_refl)) as Hset.
  destruct (persist_or_poison id (ses1, s)) as [st1 [[]|e]] eqn:Ep; [|done]. injection E as <- _.
  by apply persist_cases in Ep as [-> Hc].
Qed.
Lemma prepare_checkpoints id : checkpoints id (λ _, True) (prepare_session (S:=S) id).
Proof using Type*.
  intros [ses s] st' w Hs E _. unfold prepare_session, mut_bind, on_session in E.
  destruct (create_group ses) as [ses1 [[]|e]] eqn:Em; [|done]. destruct (create_group_settles _ _ _ Em I) as (g & Eg & Hg).
  destruct (session_key_package ses1) as [ses2 [kp|e]] eqn:Ek; [|done].
  assert (settled ses2) as Hset.
  { unfold session_key_package, key_package_with_lifetime, mut_bind, ensure_usable, mut_lift in Ek.
    destruct (ms_poisoned ses1); [done|]. change (_ || _) with false in Ek. cbn beta iota in Ek.
    destruct (key_package_build _ _ _ _) as [pr [r|]] eqn:Eb; simplify_eq/=.
    exists g. split; [done|]. by eapply key_package_law. }
  destruct (persist_or_poison id (ses2, s)) as [st1 [[]|e]] eqn:Ep; [|done]. injection E as <- _.
  by apply persist_cases in Ep as [-> Hc].
Qed.
Lemma add_all_checkpoints kps id :
  checkpoints id (λ ws, ws ≠ []) (add_members (S:=S) kps id).
Proof using Type*.
  induction kps as [|kp kps IH]; intros st st' ws Hs E Hne; cbn [add_members] in E; [by injection E as _ <-|].
  unfold mut_bind at 1 in E. destruct (add_member_and_persist kp id st) as [st1 [w|e]] eqn:E1; [|done].
  unfold mut_bind in E. destruct (add_members kps id st1) as [st2 [ws'|e]] eqn:E2; [|done].
  injection E as <- <-. pose proof (add_checkpoints kp id st st1 w Hs E1 I) as Hc.
  pose proof (bounded_inv _ _ (add_bounded kp id) st Hs) as Hs1. rewrite E1 in Hs1.
  destruct kps as [|kp2 kps]; [cbn in E2; by injection E2 as <- _|]. apply (IH st1 st2 ws' Hs1 E2).
  cbn [add_members] in E2. unfold mut_bind, mut_ret in E2. repeat case_match; by simplify_eq.
Qed.
End persisted.

(** ** The catalog *)

Inductive CatalogOp :=
| OpCreate (id : string) (identity : bytes) (seed : N)
| OpJoin (id : string) (identity : bytes) (seed : N) (welcome : bytes)
| OpPrepare (id : string) (identity : bytes) (seed : N)
| OpAddMember (id : string) (key_package : bytes)
| OpAddMembers (id : string) (key_packages : list bytes)
| OpRemoveMember (id : string) (credential : bytes)
| OpKeyPackage (id : string)
| OpSend (id : string) (plaintext : bytes)
| OpReceive (id : string) (wire : bytes)
| OpSendAttachment (id : string) (descriptor : AttachmentDescriptor)
| OpReceiveAttachment (id : string) (wire : bytes)
| OpRemoveDevice (credential : bytes)
| OpPoison (id : string)
| OpPoisonAll
| OpRemove (id : string)
| OpLock
| OpRestore (id : string) (seed : N)
| OpRestoreAll (seed : N)
| OpRestart (seed : N).

Section catalog.
Context `{OpenMls, Crypto, JsonCodec SessionSnapshot, JsonCodec AttachmentDescriptor}.
Context {S : Type} `{RecordStoreLaws S} `{RecordScan S}.

Definition CatState : Type := MlsSessionCatalog * S.
Definition fresh_catalog (k : option bytes) : MlsSessionCatalog :=
  match k with Some b => catalog_new_with_device_private_key b | None => catalog_new end.

(** The conversation that an operation has reported as done and checkpointed. *)
Definition reports {A} (id : string) (P : A → bool) (r : result A SessionCatalogError) : option string :=
  match r with Ok a => if P a then Some id else None | Err _ => None end.
Definition step_store {A} (id : string) (P : A → bool) (m : CatStore (S:=S) A) (st : CatState)
  : CatState * option string := let '(st, r) := m st in (st, reports id P r).
Definition step_memory {A} (m : Mut MlsSessionCatalog A SessionCatalogError) (st : CatState)
  : CatState * option string := (((m st.1).1, st.2), None).

Definition catalog_step (op : CatalogOp) : CatState → CatState * option string :=
  match op with
  | OpCreate id i n => step_store id (λ _, true) (catalog_create id i n)
  | OpJoin id i n w => step_store id (λ _, true) (catalog_join id i n w)
  | OpPrepare id i n => step_store id (λ _, true) (prepare id i n)
  | OpAddMember id k => step_store id (λ _, true) (catalog_add_member id k)
  | OpAddMembers id ks => step_store id (λ ws, negb (bool_decide (ws = []))) (add_members_batch id ks)
  | OpRemoveMember id c => step_store id (λ o, bool_decide (is_Some o)) (remove_group_member id c)
  | OpKeyPackage id => step_store id (λ _, false) (catalog_key_package id)
  | OpSend id m => step_memory (send_unpersisted id m)
  | OpReceive id w => step_memory (receive_delivery_unpersisted id w)
  | OpSendAttachment id d => step_memory (send_attachment_unpersisted id d)
  | OpReceiveAttachment id w => step_memory (receive_attachment_unpersisted id w)
  | OpRemoveDevice c => step_memory (remove_device_unpersisted c)
  | OpPoison id => λ st, ((poison id st.1, st.2), None)
  | OpPoisonAll => λ st, ((poison_all st.1, st.2), None)
  | OpRemove id => step_store id (λ _, false) (catalog_remove id)
  | OpLock => λ st, ((catalog_lock st.1, st.2), None)
  | OpRestore id n => λ st, (((catalog_restore id n st.2 st.1).1, st.2), None)
  | OpRestoreAll n => λ st, (((restore_all n st.2 st.1).1, st.2), None)
  | OpRestart n => λ st, (((restore_all n st.2 (fresh_catalog (mc_device_key st.1))).1, st.2), None)
  end.
Definition catalog_run (ops : list CatalogOp) (st : CatState) : CatState :=
  fold_left (λ st op, (catalog_step op st).1) ops st.

(** The keys of every session, and that they are those of the device. *)
Definition session_fits (device_key : option bytes) (ses : MlsSession) : Prop :=
  keys_wf ses ∧ match device_key with Some k => cw_signature_key (ms_credential ses) = ed_public k | None => True end.
Record catalog_wf (device_key : option bytes) (st : CatState) : Prop := {
  cat_key : mc_device_key st.1 = device_key;
  cat_sessions : map_Forall (λ _ ses, session_fits device_key ses) (mc_sessions st.1);
  cat_store : store_inv st.2;
}.

Definition key_length (k : option bytes) : Prop := from_option (λ b, length b = 32) True k.

Lemma session_fits_same k ses ses' : keys ses = keys ses' → session_fits k ses → session_fits k ses'.
Proof using Type.
  intros E [Hw Hk]. split; [by eapply keys_wf_same|]. injection E as Ec _. by rewrite <-Ec.
Qed.

Lemma insert_wf k c s id ses s' :
  catalog_wf k (c, s) → session_fits k ses → store_inv s' →
  catalog_wf k (set_sessions (<[id := ses]> (mc_sessions c)) c, s').
Proof using Type. intros [Hk Hs _] Hf Hi. split; [done| |done]. by apply map_Forall_insert_2. Qed.

Lemma with_session_wf {A} k id (m : SesStore A) st :
  local id m → catalog_wf k st → catalog_wf k (with_session id m st).1.
Proof using Type.
  intros [Hk Hi _] Hw. destruct st as [c s]. unfold with_session. case_match; [done|].
  destruct (mc_sessions c !! id) as [ses|] eqn:E; [|done].
  specialize (Hk (ses, s)). specialize (Hi (ses, s)). destruct (m (ses, s)) as [[ses' s'] r]. cbn in *.
  eapply insert_wf; [exact Hw| |apply Hi, Hw]. eapply session_fits_same; [by symmetry|]. by apply (cat_sessions _ _ Hw id).
Qed.

Lemma admit_wf {A} k id (m : SesStore A) fresh st :
  local id m → session_fits k fresh → catalog_wf k st → catalog_wf k (admit_session id m fresh st).1.
Proof using Type.
  intros [Hk Hi _] Hf Hw. destruct st as [c s]. unfold admit_session.
  specialize (Hk (fresh, s)). specialize (Hi (fresh, s)). destruct (m (fresh, s)) as [[ses' s'] [a|e]]; cbn in *.
  - eapply insert_wf; [exact Hw| |apply Hi, Hw]. by eapply session_fits_same.
  - split; [by apply (cat_key _ _ Hw)|by apply (cat_sessions _ _ Hw)|apply Hi, Hw].
Qed.

Lemma unpersisted_wf {A} k id (m : Ses A) st :
  orderly m → catalog_wf k st → catalog_wf k ((unpersisted id m st.1).1, st.2).
Proof using Type.
  intros [Hk _] Hw. unfold unpersisted. case_match; [by destruct st|].
  destruct (mc_sessions st.1 !! id) as [ses|] eqn:E; [|by destruct st].
  specialize (Hk ses). destruct (m ses) as [ses' r]. cbn in *. destruct st as [c s].
  eapply insert_wf; [exact Hw| |apply Hw]. eapply session_fits_same; [by symmetry|]. by apply (cat_sessions _ _ Hw id).
Qed.

Context `{!OpenMlsLaws}.

Lemma new_session_fits k st identity seed fresh :
  catalog_wf k st → key_length k →
  new_session identity seed st.1 = Ok fresh → session_fits k fresh ∧ ms_poisoned fresh = false.
Proof using Type*.
  intros Hw Hlen. unfold new_session. rewrite (cat_key _ _ Hw). destruct k as [b|]; intros E.
  - unfold session_new_with_signature_key in E. case_match; [done|].
    destruct (provider_new seed) as [p|]; [|done]. by injection E as <-.
  - unfold session_new in E. case_match; [done|]. destruct (provider_new seed) as [p|]; [|done].
    cbn [result_bind map_err] in E. destruct (signature_key_gen (dp_crypto p)) as [c' [[sk pk]|]] eqn:Eg; [|done].
    apply signature_key_gen_law in Eg as [Hl ->]. by injection E as <-.
Qed.

Lemma remove_loop_wf k ids cr c s :
  catalog_wf k (c, s) → catalog_wf k ((remove_device_loop ids cr c).1, s).
Proof using Type.
  revert c. induction ids as [|id ids IH]; intros c Hw; cbn [remove_device_loop]; [done|].
  destruct (mc_sessions c !! id) as [ses|] eqn:E; [|by apply IH].
  destruct (remove_member_ordered cr) as [[Hk _] _]. specialize (Hk ses).
  destruct (session_remove_member cr ses) as [ses' r]. cbn in Hk.
  assert (catalog_wf k (set_sessions (<[id:=ses']> (mc_sessions c)) c, s)) as Hw'.
  { eapply insert_wf; [exact Hw| |apply Hw]. eapply session_fits_same; [by symmetry|]. by apply (cat_sessions _ _ Hw id). }
  destruct r as [[commit|]|e]; [|by apply IH|done].
  destruct (session_snapshot_bytes ses'); [|done]. specialize (IH _ Hw').
  by destruct (remove_device_loop ids cr _).
Qed.

Lemma restore_fits id seed s ses : session_restore id seed s = Ok ses → keys_wf ses.
Proof using Type.
  unfold session_restore. destruct (store_get s _ _) as [b|]; [|done]. cbn [ok_or result_bind].
  destruct (_ <? blen b)%N; [done|]. destruct (json_from_slice b) as [snap|]; [|done]. cbn [ok_or result_bind].
  destruct (blen (sn_private_key snap) =? 32)%N eqn:El; [|done]. cbn [negb].
  destruct (bool_decide _) eqn:Ec; [|done]. cbn [negb]. apply bool_decide_eq_true in Ec.
  destruct (provider_new seed); [|done]. cbn [result_bind].
  destruct (group_id_deserialize _); [|done]. cbn [ok_or result_bind].
  destruct (group_load _ _) as [[g|]|]; try done. cbn [ok_or result_bind]. intros [= <-].
  split; [|exact Ec]. cbn. unfold blen in El. lia.
Qed.

Lemma catalog_restore_wf k id seed c s : catalog_wf k (c, s) → catalog_wf k ((catalog_restore id seed s c).1, s).
Proof using Type.
  intros Hw. unfold catalog_restore. case_match; [done|]. case_match; [done|].
  destruct (session_restore id seed s) as [ses|e] eqn:Er; [|done]. apply restore_fits in Er.
  pose proof (cat_key _ _ Hw) as Hk. cbn in Hk. rewrite Hk.
  destruct k as [key|]; [|by apply insert_wf with s; [..|apply Hw]].
  destruct (signature_key_matches key ses) eqn:Em; [|done]. apply bool_decide_eq_true in Em.
  by apply insert_wf with s; [..|apply Hw].
Qed.
Lemma restore_each_wf k ids seed c s : catalog_wf k (c, s) → catalog_wf k ((restore_each ids seed s c).1, s).
Proof using Type.
  revert c. induction ids as [|id ids IH]; intros c Hw; [done|]. cbn [restore_each]. unfold mut_bind.
  pose proof (catalog_restore_wf k id seed c s Hw). by destruct (catalog_restore id seed s c) as [c' [[]|]]; [apply IH|].
Qed.
Lemma restore_all_wf k seed c s : catalog_wf k (c, s) → catalog_wf k ((restore_all seed s c).1, s).
Proof using Type.
  intros Hw. unfold restore_all, mut_bind. set (ids := omap _ _).
  pose proof (restore_each_wf k ids seed c s Hw). by destruct (restore_each ids seed s c) as [c' []].
Qed.
Lemma fresh_wf k s : store_inv s → catalog_wf k (fresh_catalog k, s).
Proof using Type. intros Hs. split; [by destruct k| |done]. destruct k; apply map_Forall_empty. Qed.

Lemma step_wf k op st :
  key_length k →
  catalog_wf k st → catalog_wf k (catalog_step op st).1.
Proof using Type*.
  intros Hlen Hw.
  assert (Store : ∀ A id P (m : CatStore A), catalog_wf k (m st).1 → catalog_wf k (step_store id P m st).1).
  { intros A id P m. unfold step_store. by destruct (m st). }
  destruct op; cbn [catalog_step]; try apply Store; try (unfold step_memory; cbn [fst]).
  - unfold catalog_create. destruct st as [c s]. repeat (case_match; [done|]).
    destruct (new_session identity seed c) as [fresh|] eqn:E; [|done].
    destruct (new_session_fits k (c, s) identity seed fresh Hw Hlen E) as [Hf _].
    apply admit_wf; [apply bounded_local, create_bounded|done..].
  - unfold catalog_join. destruct st as [c s]. case_match; [done|].
    destruct (mc_sessions c !! id).
    + apply with_session_wf; [apply bounded_local, join_bounded|done].
    + destruct (new_session identity seed c) as [fresh|] eqn:E; [|done].
      destruct (new_session_fits k (c, s) identity seed fresh Hw Hlen E) as [Hf _].
      apply admit_wf; [apply bounded_local, join_bounded|done..].
  - unfold prepare. destruct st as [c s]. repeat (case_match; [done|]).
    destruct (new_session identity seed c) as [fresh|] eqn:E; [|done].
    destruct (new_session_fits k (c, s) identity seed fresh Hw Hlen E) as [Hf _].
    apply admit_wf; [apply bounded_local, prepare_bounded|done..].
  - apply with_session_wf; [apply bounded_local, add_bounded|done].
  - apply with_session_wf; [apply add_all_local|done].
  - apply with_session_wf; [apply bounded_local, remove_bounded|done].
  - apply with_session_wf; [apply bounded_local, on_session_bounded, session_key_package_ordered|done].
  - apply unpersisted_wf; [apply encrypt_ordered|done].
  - apply unpersisted_wf; [apply decrypt_ordered|done].
  - apply unpersisted_wf; [apply encrypt_attachment_ordered|done].
  - apply unpersisted_wf; [apply decrypt_attachment_ordered|done].
  - destruct st. by apply remove_loop_wf.
  - destruct Hw as [Hk Hs Hi]. split; [done| |done]. cbn. intros id' ses E.
    apply lookup_alter_Some in E as [(<- & ses1 & E & ->)|[_ E]]; [|by apply (Hs id')].
    eapply session_fits_same; [|by apply (Hs id)]. done.
  - destruct Hw as [Hk Hs Hi]. split; [done| |done]. cbn. intros id' ses E.
    apply lookup_fmap_Some in E as (ses1 & <- & E). eapply session_fits_same; [|by apply (Hs id')]. done.
  - unfold catalog_remove. destruct st as [c s]. case_match; [done|]. case_match; [|done].
    destruct (store_delete _ _ s) as [s' r] eqn:E. destruct Hw as [Hk Hs Hi]. split; [done| |].
    + cbn. by apply map_Forall_delete.
    + by eapply store_delete_inv.
  - destruct Hw as [Hk Hs Hi]. split; [done| |done]. apply map_Forall_empty.
  - destruct st. by apply catalog_restore_wf.
  - destruct st. by apply restore_all_wf.
  - destruct st. pose proof (cat_key _ _ Hw) as Hk. cbn in *. rewrite Hk. apply restore_all_wf, fresh_wf, Hw.
Qed.

Lemma run_wf k ops s :
  key_length k → store_inv s → catalog_wf k (catalog_run ops (fresh_catalog k, s)).
Proof using Type*.
  intros Hk Hs. unfold catalog_run. pose proof (fresh_wf k s Hs) as Hw. revert Hw. generalize (fresh_catalog k, s). induction ops as [|op ops IH]; intros st Hw; [done|].
  cbn. by apply IH, step_wf.
Qed.

(** C33. After any operations on a catalog, restoring sessions from whatever records the store holds
    and restarts of the daemon among them, every session in it has a 32-byte private key and the
    credential of its public key; a catalog of a device, whose key has 32 bytes, has only
    sessions with the key of that device. *)
Theorem mls_catalog_keys k ops s id ses :
  key_length k → store_inv s →
  mc_sessions (catalog_run ops (fresh_catalog k, s)).1 !! id = Some ses →
  length (ms_private_key ses) = 32 ∧
  cw_signature_key (ms_credential ses) = ed_public (ms_private_key ses) ∧
  (∀ b, k = Some b → cw_signature_key (ms_credential ses) = ed_public b).
Proof using Type*.
  intros Hk Hs E. pose proof (run_wf k ops s Hk Hs) as Hw.
  destruct (cat_sessions _ _ Hw id ses E) as [[Hl Hp] Hd]. split_and!; [done..|]. by intros b ->.
Qed.

(** *** What is reported is checkpointed *)

Definition done_at (id : string) (st : CatState) : Prop :=
  valid_conversation_id id = true ∧
  ∃ ses, mc_sessions st.1 !! id = Some ses ∧ settled ses ∧ checkpointed id ses st.2.

Lemma with_session_reports {A} id (P : A → Prop) (m : SesStore A) st st' a :
  store_inv st.2 → checkpoints id P m → with_session id m st = (st', Ok a) → P a → done_at id st'.
Proof using Type.
  intros Hs Hm E HP. destruct st as [c s]. unfold with_session in E.
  destruct (valid_conversation_id id) eqn:Ev; [|done]. cbn [negb] in E.
  destruct (mc_sessions c !! id) as [ses|]; [|done].
  destruct (m (ses, s)) as [[ses' s'] [b|e]] eqn:Em; [|done]. injection E as <- <-.
  split; [done|]. exists ses'. cbn. rewrite lookup_insert_eq. split; [done|].
  apply (Hm (ses, s) _ _ Hs Em HP).
Qed.
Lemma admit_reports {A} id (P : A → Prop) (m : SesStore A) fresh st st' a :
  valid_conversation_id id = true → store_inv st.2 → checkpoints id P m →
  admit_session id m fresh st = (st', Ok a) → P a → done_at id st'.
Proof using Type.
  intros Hv Hs Hm E HP. destruct st as [c s]. unfold admit_session in E.
  destruct (m (fresh, s)) as [[ses' s'] [b|e]] eqn:Em; [|done]. injection E as <- <-.
  split; [done|]. exists ses'. cbn. rewrite lookup_insert_eq. split; [done|].
  apply (Hm (fresh, s) _ _ Hs Em HP).
Qed.

Lemma step_reports op st st' id :
  store_inv st.2 → catalog_step op st = (st', Some id) → done_at id st'.
Proof using Type*.
  intros Hs E.
  assert (R : ∀ A i P (m : CatStore A), step_store i P m st = (st', Some id) →
    ∃ a, i = id ∧ m st = (st', Ok a) ∧ P a = true).
  { intros A i P m Em. unfold step_store, reports in Em. destruct (m st) as [st1 [a|e]]; [|done].
    destruct (P a) eqn:EP; simplify_eq. eauto. }
  destruct op; cbn [catalog_step] in E; try done; apply R in E as (a & -> & E & HP); try done.
  - unfold catalog_create in E. destruct st as [c s]. destruct (valid_conversation_id id) eqn:Ev; [|done].
    cbn [negb] in E. case_match; [done|]. case_match; [|done].
    by eapply admit_reports; [..|apply create_checkpoints|exact E|].
  - unfold catalog_join in E. destruct st as [c s]. destruct (valid_conversation_id id) eqn:Ev; [|done].
    cbn [negb] in E. destruct (mc_sessions c !! id).
    + by eapply with_session_reports; [|apply join_checkpoints|exact E|].
    + case_match; [|done]. by eapply admit_reports; [..|apply join_checkpoints|exact E|].
  - unfold prepare in E. destruct st as [c s]. destruct (valid_conversation_id id) eqn:Ev; [|done].
    cbn [negb] in E. case_match; [done|]. case_match; [|done].
    by eapply admit_reports; [..|apply prepare_checkpoints|exact E|].
  - by eapply with_session_reports; [|apply add_checkpoints|exact E|].
  - eapply with_session_reports; [done|apply add_all_checkpoints|exact E|].
    apply negb_true_iff, bool_decide_eq_false in HP. done.
  - eapply with_session_reports; [done|apply remove_checkpoints|exact E|].
    by apply bool_decide_eq_true in HP.
Qed.

(** C32. A catalog operation that creates, joins or prepares a conversation or changes its members,
    and reports success, is durable: a new catalog of the same device that restores that
    conversation from the store gets it with the same credential, keys, storage and group. This
    holds after any operations on the catalog before it, restoring sessions from the store and
    restarts of the daemon among them, and whichever of these failed; it assumes a device key of
    32 bytes and that a crypto provider can be made. *)
Theorem mls_checkpoint_survives_restart `{!JsonRoundTrip SessionSnapshot} k ops op s st' id seed p :
  key_length k → store_inv s →
  catalog_step op (catalog_run ops (fresh_catalog k, s)) = (st', Some id) →
  provider_new seed = Ok p →
  ∃ ses ses' c, mc_sessions st'.1 !! id = Some ses ∧
    catalog_restore id seed st'.2 (fresh_catalog k) = (c, Ok tt) ∧
    mc_sessions c !! id = Some ses' ∧ same_session ses ses'.
Proof using Type*.
  intros Hk Hs E Ep. pose proof (run_wf k ops s Hk Hs) as Hw.
  pose proof (step_wf k op _ Hk Hw) as Hw'. rewrite E in Hw'. cbn [fst] in Hw'.
  apply step_reports in E as (Hv & ses & Eses & Hset & Hc); [|apply Hw].
  destruct (cat_sessions _ _ Hw' id ses Eses) as [Hkeys Hd].
  destruct (checkpoint_restores id ses st'.2 seed p Hkeys Hset Hc Ep) as (ses' & Er & Hsame).
  exists ses, ses', (set_sessions (<[id := ses']> ∅) (fresh_catalog k)). split; [done|].
  unfold catalog_restore. rewrite Hv. cbn [negb].
  replace (mc_sessions (fresh_catalog k)) with (∅ : gmap string MlsSession) by (by destruct k).
  rewrite lookup_empty, bool_decide_false by (by intros []). rewrite Er.
  replace (mc_device_key (fresh_catalog k)) with k by (by destruct k).
  assert (match k with Some key => negb (signature_key_matches key ses') | None => false end = false) as ->.
  { destruct k as [b|]; [|done]. unfold signature_key_matches. destruct Hsame as [Ek _]. injection Ek as Ec _.
    rewrite <-Ec, Hd. by rewrite bool_decide_true. }
  split; [done|]. split; [apply lookup_insert_eq|done].
Qed.
End catalog.

(** *** Poisoned sessions *)

Section sealed.
Context `{OpenMls, Crypto, JsonCodec SessionSnapshot, JsonCodec AttachmentDescriptor}.
Context {S : Type} `{RecordStoreLaws S} `{RecordScan S}.

Lemma session_key_inj a b : session_key a = session_key b → a = b.
Proof using Type.
  intros E. apply (f_equal as_bytes) in E. unfold session_key in E. rewrite !as_bytes_app in E.
  by apply app_inv_head, as_bytes_inj in E.
Qed.

(** A program that is local and leaves a poisoned session and its store alone. *)
Definition quiet {A} (id : string) (m : SesStore (S:=S) A) : Prop :=
  local id m ∧ ∀ st, ms_poisoned st.1 = true → (m st).1 = st.

Lemma bounded_quiet {A} id (m : SesStore A) : bounded id m → quiet id m.
Proof using Type.
  intros Hm. split; [by apply bounded_local|]. intros st Hp. by destruct (bounded_inert _ _ Hm st Hp) as [e ->].
Qed.
Lemma add_all_quiet kps id : quiet id (add_members kps id).
Proof using Type.
  split; [apply add_all_local|]. intros st Hp. destruct kps as [|kp kps]; [done|]. cbn [add_members].
  unfold mut_bind at 1. by destruct (bounded_inert _ _ (add_bounded kp id) st Hp) as [e ->].
Qed.

(** What stays as it is: the session at [id] and its record. *)
Record sealed (id : string) (ses : MlsSession) (rec : option bytes) (st : CatState) : Prop := {
  sealed_session : mc_sessions st.1 !! id = Some ses;
  sealed_poison : ms_poisoned ses = true;
  sealed_record : store_get st.2 ProtocolSession (session_key id) = rec;
  sealed_inv : store_inv st.2;
}.

Lemma sealed_other id id' ses rec c s ses' s' :
  id' ≠ id → sealed id ses rec (c, s) →
  store_get s' ProtocolSession (session_key id) = store_get s ProtocolSession (session_key id) → store_inv s' →
  sealed id ses rec (set_sessions (<[id' := ses']> (mc_sessions c)) c, s').
Proof using Type.
  intros Hne [He Hp Hr Hi] Hf Hi'. cbn in Hr. split; cbn; [by rewrite lookup_insert_ne|done|congruence|done].
Qed.

Lemma record_key_ne id id' : id' ≠ id → (ProtocolSession, session_key id) ≠ (ProtocolSession, session_key id').
Proof using Type. intros Hne [= E]. by apply Hne, session_key_inj. Qed.

Lemma with_session_sealed {A} id id' (m : SesStore A) ses rec st :
  quiet id' m → sealed id ses rec st → sealed id ses rec (with_session id' m st).1.
Proof using Type.
  intros [Hl Hq] Hs. destruct st as [c s]. unfold with_session. case_match; [done|].
  destruct (mc_sessions c !! id') as [ses'|] eqn:E; [|done]. destruct (decide (id' = id)) as [->|Hne].
  - pose proof (sealed_session _ _ _ _ Hs) as Es. cbn in Es. rewrite Es in E. injection E as <-.
    specialize (Hq (ses, s) (sealed_poison _ _ _ _ Hs)). destruct (m (ses, s)) as [[ses1 s1] r]. cbn in Hq.
    injection Hq as -> ->. destruct Hs as [He Hp Hr Hi]. split; try done. cbn. by rewrite lookup_insert_eq.
  - pose proof (local_frame _ _ Hl (ses', s) (sealed_inv _ _ _ _ Hs) _ _ (record_key_ne _ _ Hne)) as Hf.
    pose proof (local_inv _ _ Hl (ses', s) (sealed_inv _ _ _ _ Hs)) as Hi.
    destruct (m (ses', s)) as [[ses1 s1] r]. by eapply sealed_other.
Qed.
Lemma admit_sealed {A} id id' (m : SesStore A) fresh ses rec st :
  mc_sessions st.1 !! id' = None → local id' m → sealed id ses rec st →
  sealed id ses rec (admit_session id' m fresh st).1.
Proof using Type.
  intros En Hl Hs. destruct st as [c s]. unfold admit_session.
  assert (id' ≠ id) as Hne by (intros ->; by rewrite (sealed_session _ _ _ _ Hs) in En).
  pose proof (local_frame _ _ Hl (fresh, s) (sealed_inv _ _ _ _ Hs) _ _ (record_key_ne _ _ Hne)) as Hf.
  pose proof (local_inv _ _ Hl (fresh, s) (sealed_inv _ _ _ _ Hs)) as Hi.
  destruct (m (fresh, s)) as [[ses1 s1] [a|e]]; [by eapply sealed_other|].
  destruct Hs as [He Hp Hr Hi']. split; [done|done|cbn in *; congruence|done].
Qed.
Lemma unpersisted_sealed {A} id id' (m : Ses A) ses rec st :
  inert m → sealed id ses rec st → sealed id ses rec ((unpersisted id' m st.1).1, st.2).
Proof using Type.
  intros Hm Hs. destruct st as [c s]. unfold unpersisted. cbn. case_match; [done|].
  destruct (mc_sessions c !! id') as [ses'|] eqn:E; [|done]. destruct (decide (id' = id)) as [->|Hne].
  - pose proof (sealed_session _ _ _ _ Hs) as Es. cbn in Es. rewrite Es in E. injection E as <-.
    destruct (Hm ses (sealed_poison _ _ _ _ Hs)) as [e ->]. destruct Hs as [He Hp Hr Hi]. split; try done.
    cbn. by rewrite lookup_insert_eq.
  - destruct (m ses') as [ses1 r]. eapply sealed_other; [done..|apply Hs].
Qed.
Lemma loop_sealed id ids cr ses rec c s :
  sealed id ses rec (c, s) → sealed id ses rec ((remove_device_loop ids cr c).1, s).
Proof using Type.
  revert c. induction ids as [|id' ids IH]; intros c Hs; cbn [remove_device_loop]; [done|].
  destruct (mc_sessions c !! id') as [ses'|] eqn:E; [|by apply IH]. destruct (decide (id' = id)) as [->|Hne].
  - pose proof (sealed_session _ _ _ _ Hs) as Es. cbn in Es. rewrite Es in E. injection E as <-.
    destruct (remove_member_ordered cr) as [_ Hm]. destruct (Hm ses (sealed_poison _ _ _ _ Hs)) as [e ->].
    destruct Hs as [He Hp Hr Hi]. split; try done. cbn. by rewrite lookup_insert_eq.
  - destruct (session_remove_member cr ses') as [ses1 r].
    assert (sealed id ses rec (set_sessions (<[id' := ses1]> (mc_sessions c)) c, s)) as Hs'
      by (eapply sealed_other; [done..|apply Hs]).
    destruct r as [[commit|]|e]; [|by apply IH|done].
    destruct (session_snapshot_bytes ses1); [|done]. specialize (IH _ Hs').
    by destruct (remove_device_loop ids cr _).
Qed.

Lemma restore_sealed id id' ses rec seed c s :
  sealed id ses rec (c, s) → sealed id ses rec ((catalog_restore id' seed s c).1, s).
Proof using Type.
  intros Hs. unfold catalog_restore. case_match; [done|]. destruct (bool_decide _) eqn:Eb; [done|].
  apply bool_decide_eq_false in Eb. destruct (session_restore id' seed s) as [fresh|]; [|done].
  destruct (match mc_device_key c with Some _ => _ | None => _ end); [done|].
  eapply sealed_other; [|done|done|apply Hs]. intros ->. apply Eb. exists ses. by apply (sealed_session _ _ _ _ Hs).
Qed.
Lemma restore_all_sealed id ses rec seed c s :
  sealed id ses rec (c, s) → sealed id ses rec ((restore_all seed s c).1, s).
Proof using Type.
  intros Hs. unfold restore_all, mut_bind. generalize (omap (λ kv : string * bytes, strip_prefix "mls/session/" kv.1)
    (store_prefix s ProtocolSession "mls/session/")) at 1 as ids. intros ids.
  assert (∀ ids c, sealed id ses rec (c, s) → sealed id ses rec ((restore_each ids seed s c).1, s)) as Each.
  { clear. intros ids. induction ids as [|i ids IH]; intros c Hs; [done|]. cbn [restore_each]. unfold mut_bind.
    pose proof (restore_sealed id i ses rec seed c s Hs). by destruct (catalog_restore i seed s c) as [c' [[]|]]; [apply IH|]. }
  specialize (Each ids c Hs). by destruct (restore_each ids seed s c) as [c' []].
Qed.

(** The operations that take a session out of the catalog. *)
Definition drops (id : string) (op : CatalogOp) : Prop :=
  op = OpRemove id ∨ op = OpLock ∨ ∃ seed, op = OpRestart seed.

Lemma step_sealed id ses rec op st :
  ¬ drops id op → sealed id ses rec st → sealed id ses rec (catalog_step op st).1.
Proof using Type.
  intros Hd Hs. unfold drops in Hd.
  assert (Store : ∀ A i P (m : CatStore A), sealed id ses rec (m st).1 → sealed id ses rec (step_store i P m st).1).
  { intros A i P m. unfold step_store. by destruct (m st). }
  assert (Fresh : ∀ i c s, bool_decide (is_Some (mc_sessions c !! i)) = false → st = (c, s) → mc_sessions st.1 !! i = None).
  { intros i c s Hn ->. apply bool_decide_eq_false in Hn. by apply eq_None_not_Some. }
  destruct op; cbn [catalog_step]; try apply Store; try (unfold step_memory; cbn [fst]).
  - unfold catalog_create. destruct st as [c s] eqn:Est. destruct (negb _); [done|].
    destruct (bool_decide _) eqn:En; [done|]. case_match; [|done].
    apply admit_sealed; [by eapply Fresh|apply bounded_local, create_bounded|done].
  - unfold catalog_join. destruct st as [c s]. destruct (negb _); [done|].
    destruct (mc_sessions c !! id0) eqn:En.
    + apply with_session_sealed; [apply bounded_quiet, join_bounded|done].
    + case_match; [|done]. apply admit_sealed; [done|apply bounded_local, join_bounded|done].
  - unfold prepare. destruct st as [c s] eqn:Est. destruct (negb _); [done|].
    destruct (bool_decide _) eqn:En; [done|]. case_match; [|done].
    apply admit_sealed; [by eapply Fresh|apply bounded_local, prepare_bounded|done].
  - apply with_session_sealed; [apply bounded_quiet, add_bounded|done].
  - apply with_session_sealed; [apply add_all_quiet|done].
  - apply with_session_sealed; [apply bounded_quiet, remove_bounded|done].
  - apply with_session_sealed; [apply bounded_quiet, on_session_bounded, session_key_package_ordered|done].
  - apply unpersisted_sealed; [apply encrypt_ordered|done].
  - apply unpersisted_sealed; [apply decrypt_ordered|done].
  - apply unpersisted_sealed; [apply encrypt_attachment_ordered|done].
  - apply unpersisted_sealed; [apply decrypt_attachment_ordered|done].
  - destruct st. by apply loop_sealed.
  - destruct Hs as [He Hp Hr Hi]. split; try done. cbn. destruct (decide (id0 = id)) as [->|Hne].
    + rewrite lookup_alter_eq, He. cbn. f_equal. destruct ses. cbn in *. by subst.
    + by rewrite lookup_alter_ne.
  - destruct Hs as [He Hp Hr Hi]. split; try done. cbn. rewrite lookup_fmap, He. cbn. f_equal.
    destruct ses. cbn in *. by subst.
  - assert (id0 ≠ id) as Hne by naive_solver. unfold catalog_remove. destruct st as [c s].
    destruct (negb _); [done|]. case_match; [|done]. destruct (store_delete _ _ s) as [s' r] eqn:Ed.
    destruct Hs as [He Hp Hr Hi]. split; cbn in *; [by rewrite lookup_delete_ne|done| |by eapply store_delete_inv].
    destruct r as [b|e].
    + destruct (store_delete_ok _ _ _ _ _ Hi Ed) as [_ Hv]. rewrite Hv.
      rewrite view_update_ne; [done|]. by apply record_key_ne.
    + by rewrite (store_delete_err _ _ _ _ _ Hi Ed).
  - naive_solver.
  - destruct st. by apply restore_sealed.
  - destruct st. by apply restore_all_sealed.
  - naive_solver.
Qed.

(** C37. When a member was added to a group but the checkpoint cannot be written, the caller gets the
    error of the checkpoint and no welcome, the old checkpoint is still the one in the store, and
    the session is sealed: whatever is done to the catalog, short of removing the conversation,
    locking the catalog or restarting the daemon, the session and its checkpoint stay exactly as
    they are, so that no later message or checkpoint can build on the lost step. *)
Theorem mls_failed_checkpoint_seals id kp c s s' ses ses1 w e :
  store_inv s → valid_conversation_id id = true → mc_sessions c !! id = Some ses →
  session_add_member kp ses = (ses1, Ok w) → session_persist id (ses1, s) = ((ses1, s'), Err e) →
  ∃ c', catalog_add_member id kp (c, s) = ((c', s'), Err (CatalogSession e)) ∧
    ∀ ops, Forall (λ op, ¬ drops id op) ops →
      let after := catalog_run ops (c', s') in
      mc_sessions after.1 !! id = Some (set_poisoned ses1) ∧
      store_get after.2 ProtocolSession (session_key id) = store_get s ProtocolSession (session_key id).
Proof using Type.
  intros Hs Hv Eses Eadd Ep. eexists. split.
  { unfold catalog_add_member, with_session. rewrite Hv, Eses. cbn [negb].
    unfold add_member_and_persist, mut_bind, on_session, persist_or_poison. rewrite Eadd, Ep. done. }
  intros ops Hops after.
  assert (sealed id (set_poisoned ses1) (store_get s ProtocolSession (session_key id))
            (set_sessions (<[id := set_poisoned ses1]> (mc_sessions c)) c, s')) as Hseal.
  { pose proof (local_inv _ _ (persist_local id) (ses1, s) Hs) as Hi. unfold persist_or_poison in Hi. rewrite Ep in Hi.
    assert (persist_or_poison id (ses1, s) = ((set_poisoned ses1, s'), Err e)) as Ec by (unfold persist_or_poison; by rewrite Ep).
    apply persist_cases in Ec as [_ Ef]; [|done]. split; cbn; [by rewrite lookup_insert_eq|done|by apply Ef|done]. }
  assert (sealed id (set_poisoned ses1) (store_get s ProtocolSession (session_key id)) after) as Ha.
  { unfold after, catalog_run. clear after. revert Hseal. cbn [fst snd].
    match goal with |- sealed _ _ _ ?x → _ => generalize x end.
    induction Hops as [|op ops Hop _ IH]; intros st Hst; [done|]. cbn. by apply IH, step_sealed. }
  split; apply Ha.
Qed.

(** A conversation whose record cannot be deleted is gone from memory all the same: removing it
    again reports that it is unknown, while its record is still in the store and brings it back
    at the next start. *)
Theorem mls_failed_remove_comes_back id c s c' s' e :
  store_inv s → catalog_remove id (c, s) = ((c', s'), Err e) → is_Some (mc_sessions c !! id) →
  valid_conversation_id id = true →
  (∀ s2, catalog_remove id (c', s2) = ((c', s2), Err UnknownConversation)) ∧
  store_get s' ProtocolSession (session_key id) = store_get s ProtocolSession (session_key id).
Proof using Type.
  intros Hs E [ses Eses] Hv. unfold catalog_remove in *. rewrite Hv, Eses in E. rewrite Hv. cbn [negb] in *.
  destruct (store_delete _ _ s) as [s1 [b|e1]] eqn:Ed; [done|]. injection E as <- <- _. cbn.
  split; [|by eapply store_delete_err]. intros s2. by rewrite lookup_delete_eq.
Qed.
End sealed.

(** ** Witnesses *)

Module MlsSessionSample.
Import Reference TableStore.
(** A group is a number that every operation raises, and its record in the storage has that
    many bytes. *)
#[local] Instance types : MlsTypes := {|
  CryptoProvider := unit; MlsGroup := nat; KeyPackageIn := bytes; KeyPackage := bytes;
  MlsMessageIn := bytes; Welcome := bytes; ProtocolMessage := bytes; StagedCommit := unit |}.
Definition gid : bytes := as_bytes "group".
Definition stored (p : DaemonProvider) (g : nat) : DaemonProvider :=
  {| dp_crypto := dp_crypto p; dp_storage := <[gid := replicate g (n_byte 1)]> (dp_storage p) |}.
Definition sk : bytes := replicate 32 (n_byte 7).
#[local] Instance openmls : OpenMls := {|
  crypto_new _ := Some tt; crypto_supports _ := true;
  signature_key_gen c := (c, Some (sk, ed_public sk));
  key_package_deserialize b := Some (b, []); message_deserialize b := Some (b, []);
  key_package_validate k := Some k; message_welcome m := Some m; message_protocol m := Some m;
  group_id_deserialize b := Some b;
  key_package_build p _ _ _ := (p, Some (Some (as_bytes "package")));
  group_new p _ _ := (stored p 0, Some 0);
  group_id_serialized _ := Some gid;
  group_members _ := [];
  group_add_member p _ g _ := (p, g, Some (Some (as_bytes "welcome")));
  group_remove_member p _ g _ := (p, g, None);
  group_merge_pending p g := (stored p (S g), S g, true);
  staged_join p _ := (stored p 3, Some 3);
  group_create_message p _ g m := (stored p (S g), S g, Some (Some m));
  group_process_message p g m := (stored p (S g), S g, Some (ApplicationMessage m));
  group_merge_staged p g _ := (stored p (S g), S g, true);
  group_load values id := Some (length <$> values !! id) |}.

Definition p0 : DaemonProvider := @Build_DaemonProvider types tt ∅.

Lemma stored_loads p g : loads (stored p g) g.
Proof.
  intros sid [= <-]. exists gid. split; [done|]. cbn. rewrite lookup_insert_eq. cbn.
  by rewrite length_replicate.
Qed.
#[local] Instance openmls_laws : OpenMlsLaws.
Proof. split; cbn; intros; simplify_eq; try apply stored_loads; done. Qed.

#[local] Instance credential_eq_dec : EqDecision CredentialWithKey.
Proof. solve_decision. Defined.
#[local] Instance entry_eq_dec : EqDecision SnapshotEntry.
Proof. solve_decision. Defined.
#[local] Instance snapshot_eq_dec : EqDecision SessionSnapshot.
Proof. solve_decision. Defined.
#[local] Instance descriptor_codec : JsonCodec AttachmentDescriptor :=
  {| json_to_vec _ := None; json_from_slice _ := None |}.

Definition key : bytes := replicate 32 (n_byte 9).
Definition snapshot (g : nat) : SessionSnapshot :=
  {| sn_credential := {| cw_identity := as_bytes "me"; cw_signature_key := ed_public key |};
     sn_private_key := key; sn_group_id := gid;
     sn_storage := [{| se_key := gid; se_value := replicate g (n_byte 1) |}] |}.

Section working.
#[local] Instance codec : JsonCodec SessionSnapshot := json_table [snapshot 0; snapshot 1].
#[local] Instance codec_laws : JsonRoundTrip SessionSnapshot := json_table_laws [snapshot 0; snapshot 1].
Definition created : list CatalogOp := [OpCreate "conversation" (as_bytes "me") 0].
Definition st0 : CatState := (fresh_catalog (Some key), [] : Table).

Definition ses1 : MlsSession :=
  set_group (stored p0 0) 0 (from_signature_key (as_bytes "me") p0 key (ed_public key)).

Lemma mls_catalog_keys_witness :
  length (ms_private_key ses1) = 32.
Proof.
  assert (Hses : mc_sessions (catalog_run (created ++ [OpRestart 0]) st0).1 !! "conversation" = Some ses1)
    by (vm_compute; reflexivity).
  exact (proj1 (mls_catalog_keys (Some key) (created ++ [OpRestart 0]) ([] : Table) "conversation" ses1 eq_refl table_empty_inv Hses)).
Defined.

Lemma mls_checkpoint_survives_restart_witness :
  ∃ ses ses' c, mc_sessions (catalog_step (OpAddMember "conversation" (as_bytes "bob")) (catalog_run created st0)).1.1
      !! "conversation" = Some ses ∧
    catalog_restore "conversation" 0
      (catalog_step (OpAddMember "conversation" (as_bytes "bob")) (catalog_run created st0)).1.2
      (fresh_catalog (Some key)) = (c, Ok tt) ∧
    mc_sessions c !! "conversation" = Some ses' ∧ same_session ses ses'.
Proof.
  apply (mls_checkpoint_survives_restart (Some key) created (OpAddMember "conversation" (as_bytes "bob")) ([] : Table)
    (catalog_step (OpAddMember "conversation" (as_bytes "bob")) (catalog_run created st0)).1 "conversation" 0
    p0); [reflexivity|apply table_empty_inv| |reflexivity].
  rewrite (surjective_pairing (catalog_step _ _)). f_equal.
Defined.
End working.

Section failing.
#[local] Instance no_codec : JsonCodec SessionSnapshot := {| json_to_vec _ := None; json_from_slice _ := None |}.
Definition cat0 : MlsSessionCatalog := {| mc_sessions := {[ "conversation" := ses1 ]}; mc_device_key := Some key |}.

Lemma mls_failed_checkpoint_seals_witness :
  ∃ c', catalog_add_member "conversation" (as_bytes "bob") (cat0, [] : Table) = ((c', []), Err (CatalogSession SessionStorage)) ∧
    mc_sessions (catalog_run [OpSend "conversation" (as_bytes "hello"); OpPoisonAll; OpRestoreAll 0] (c', [] : Table)).1
      !! "conversation" = Some (set_poisoned (session_add_member (as_bytes "bob") ses1).1).
Proof.
  destruct (mls_failed_checkpoint_seals "conversation" (as_bytes "bob") cat0 ([] : Table) ([] : Table) ses1
    (session_add_member (as_bytes "bob") ses1).1 (as_bytes "welcome") SessionStorage) as (c' & E & Hops).
  - apply table_empty_inv.
  - reflexivity.
  - apply lookup_singleton_eq.
  - reflexivity.
  - vm_compute. reflexivity.
  - exists c'. split; [exact E|]. apply Hops.
    repeat (apply Forall_cons; split; [intros [?|[?|[? ?]]]; discriminate|]). apply Forall_nil_2.
Defined.

Import FrozenStore.
Lemma mls_failed_remove_comes_back_witness :
  catalog_remove "conversation" (set_sessions ∅ cat0, {| frozen_table := [] |})
  = ((set_sessions ∅ cat0, {| frozen_table := [] |}), Err UnknownConversation).
Proof.
  apply (mls_failed_remove_comes_back "conversation" cat0 {| frozen_table := [] |} (set_sessions ∅ cat0)
    {| frozen_table := [] |} (CatalogSession SessionStorage)); [exact I|vm_compute; reflexivity| |reflexivity].
  exists ses1. apply lookup_singleton_eq.
Defined.
End failing.
End MlsSessionSample.
