(* ===== verification/Authority.v ===== *)
(** * The invite authority ([apps/daemon/src/authority.rs])

    The daemon's account: its issuer of invites (see [Invite.v]), the relay it is bound to, the
    pairing in progress, the contacts, the attachments that are being uploaded, completed or
    received, and the attestations of peers. The operations that change the pairing or the
    contacts write the result to the record store before they answer. *)
From Stdlib Require Import Ascii NArith Lia ZifyBool ZifyN.
From stdpp Require Import base gmap strings list.
From S2P Require Import Prelude Text TextScan Collections Interfaces Model Fs StoreFormat Storage RecordStore Identity DeviceRegistry Trust Invite Pairing Contacts Attachment Attestation DeviceAuthority.

#[export] Instance AttachmentChunkDescriptor_eq_dec : EqDecision AttachmentChunkDescriptor.
Proof. solve_decision. Defined.
#[export] Instance AttachmentDescriptor_eq_dec : EqDecision AttachmentDescriptor.
Proof. solve_decision. Defined.
#[export] Instance EncryptedAttachment_eq_dec : EqDecision EncryptedAttachment.
Proof. solve_decision. Defined.

Definition COMPLETED_ATTACHMENT_TTL_SECONDS : N := 60 * 60.
Definition MAX_COMPLETED_ATTACHMENT_COUNT : N := 2.
Definition MAX_COMPLETED_ATTACHMENT_BYTES : N := 64 * 1024 * 1024.

Definition mls_device_credential (account_id device_id : string) : bytes :=
  as_bytes (join 10 ["ADDEVICE1"; account_id; device_id]).

(** The attachment fields of [InviteAuthority]. *)
Record AttachmentState := {
  as_jobs : gmap string AttachmentJob;
  as_started_at : gmap string N;
  as_completed : gmap string EncryptedAttachment;
  as_created_at : gmap string N;
  as_received : gmap string AttachmentDescriptor;
}.

(** The relay the account is bound to: fields [relay_public_key], [relay_tls_pin] and
    [relay_trust]. *)
Record RelayBinding := {
  rb_public_key : option bytes;
  rb_tls_pin : option TlsCertificatePin;
  rb_trust : option RelayTrust;
}.

(** Fields [pending_rendezvous_codes], [pending_conversation_id] and [pending_key_packages]. *)
Record PendingRendezvous := {
  pr_codes : list string;
  pr_conversation_id : option string;
  pr_key_packages : list bytes;
}.

Record InviteAuthority := {
  au_issuer : InviteIssuer;
  au_account_id : string;
  au_relay : RelayBinding;
  au_rendezvous : PendingRendezvous;
  au_staged_peer : option VerifiedInvite;
  au_pairing : PairingSession;
  au_contacts : ContactDirectory;
  au_attachments : AttachmentState;
  au_attestations : PeerAttestationStore;
}.

Definition no_attachments : AttachmentState :=
  {| as_jobs := ∅; as_started_at := ∅; as_completed := ∅; as_created_at := ∅; as_received := ∅ |}.

(** Field updates. *)
Definition set_issuer (v : InviteIssuer) (a : InviteAuthority) : InviteAuthority :=
  {| au_issuer := v; au_account_id := au_account_id a; au_relay := au_relay a;
     au_rendezvous := au_rendezvous a; au_staged_peer := au_staged_peer a;
     au_pairing := au_pairing a; au_contacts := au_contacts a;
     au_attachments := au_attachments a; au_attestations := au_attestations a |}.
Definition set_au_pairing (v : PairingSession) (a : InviteAuthority) : InviteAuthority :=
  {| au_issuer := au_issuer a; au_account_id := au_account_id a; au_relay := au_relay a;
     au_rendezvous := au_rendezvous a; au_staged_peer := au_staged_peer a;
     au_pairing := v; au_contacts := au_contacts a;
     au_attachments := au_attachments a; au_attestations := au_attestations a |}.
Definition set_staged_peer (v : option VerifiedInvite) (a : InviteAuthority) : InviteAuthority :=
  {| au_issuer := au_issuer a; au_account_id := au_account_id a; au_relay := au_relay a;
     au_rendezvous := au_rendezvous a; au_staged_peer := v;
     au_pairing := au_pairing a; au_contacts := au_contacts a;
     au_attachments := au_attachments a; au_attestations := au_attestations a |}.
Definition set_contacts (v : ContactDirectory) (a : InviteAuthority) : InviteAuthority :=
  {| au_issuer := au_issuer a; au_account_id := au_account_id a; au_relay := au_relay a;
     au_rendezvous := au_rendezvous a; au_staged_peer := au_staged_peer a;
     au_pairing := au_pairing a; au_contacts := v;
     au_attachments := au_attachments a; au_attestations := au_attestations a |}.
Definition set_attachments (v : AttachmentState) (a : InviteAuthority) : InviteAuthority :=
  {| au_issuer := au_issuer a; au_account_id := au_account_id a; au_relay := au_relay a;
     au_rendezvous := au_rendezvous a; au_staged_peer := au_staged_peer a;
     au_pairing := au_pairing a; au_contacts := au_contacts a;
     au_attachments := v; au_attestations := au_attestations a |}.
Definition set_rendezvous (v : PendingRendezvous) (a : InviteAuthority) : InviteAuthority :=
  {| au_issuer := au_issuer a; au_account_id := au_account_id a; au_relay := au_relay a;
     au_rendezvous := v; au_staged_peer := au_staged_peer a;
     au_pairing := au_pairing a; au_contacts := au_contacts a;
     au_attachments := au_attachments a; au_attestations := au_attestations a |}.
Definition set_attestations (v : PeerAttestationStore) (a : InviteAuthority) : InviteAuthority :=
  {| au_issuer := au_issuer a; au_account_id := au_account_id a; au_relay := au_relay a;
     au_rendezvous := au_rendezvous a; au_staged_peer := au_staged_peer a;
     au_pairing := au_pairing a; au_contacts := au_contacts a;
     au_attachments := au_attachments a; au_attestations := v |}.

(** ** The attachments *)

Section attachments.
Context `{Crypto}.

(** [completed_attachments.values().map(|item| item.blob.len()).sum()]. *)
Definition completed_bytes (s : AttachmentState) : N :=
  foldr (λ e acc, (blen (ea_blob e) + acc)%N) 0%N (btree_values (as_completed s)).

Definition attachment_start (blob_id : string) (total : N) (file_name media_type : option string)
    (now : N) : Mut (AttachmentState * World) unit AttachmentError :=
  λ '(s, w),
    if bool_decide (is_Some (as_jobs s !! blob_id)) then (s, w, Err InvalidManifest)
    else if negb (bool_decide (as_jobs s = ∅))
            || (MAX_COMPLETED_ATTACHMENT_COUNT <=? N.of_nat (size (as_completed s)))%N
            || (MAX_COMPLETED_ATTACHMENT_BYTES <? u64_saturating_add (completed_bytes s) total)%N
    then (s, w, Err TooLarge)
    else
      let '(w, started) := start_with_metadata blob_id total file_name media_type w in
      match started with
      | Err e => (s, w, Err e)
      | Ok job =>
        ({| as_jobs := <[blob_id := job]> (as_jobs s);
            as_started_at := <[blob_id := now]> (as_started_at s);
            as_completed := as_completed s; as_created_at := as_created_at s;
            as_received := as_received s |}, w, Ok tt)
      end.

Definition attachment_append (blob_id : string) (index : N) (plaintext : bytes)
  : Mut (AttachmentState * World) unit AttachmentError :=
  λ '(s, w),
    match as_jobs s !! blob_id with
    | None => (s, w, Err InvalidManifest)
    | Some job =>
      let '(job, w, r) := append index plaintext (job, w) in
      ({| as_jobs := <[blob_id := job]> (as_jobs s); as_started_at := as_started_at s;
          as_completed := as_completed s; as_created_at := as_created_at s;
          as_received := as_received s |}, w, r)
    end.

(** The job is taken out before it is finished: one that cannot be finished is lost, and its
    start time stays. *)
Definition attachment_finish (blob_id : string) (now : N)
  : Mut AttachmentState unit AttachmentError :=
  λ s,
    match as_jobs s !! blob_id with
    | None => (s, Err InvalidManifest)
    | Some job =>
      let jobs := delete blob_id (as_jobs s) in
      match finish job with
      | Err e =>
        ({| as_jobs := jobs; as_started_at := as_started_at s; as_completed := as_completed s;
            as_created_at := as_created_at s; as_received := as_received s |}, Err e)
      | Ok package =>
        ({| as_jobs := jobs; as_started_at := delete blob_id (as_started_at s);
            as_completed := <[blob_id := package]> (as_completed s);
            as_created_at := <[blob_id := now]> (as_created_at s);
            as_received := as_received s |}, Ok tt)
      end
    end.

Definition take_completed_attachment (blob_id : string) (s : AttachmentState)
  : AttachmentState * option EncryptedAttachment :=
  ({| as_jobs := as_jobs s; as_started_at := as_started_at s;
      as_completed := delete blob_id (as_completed s);
      as_created_at := delete blob_id (as_created_at s); as_received := as_received s |},
   as_completed s !! blob_id).

Definition take_completed_attachment_if_equal (blob_id : string) (expected : EncryptedAttachment)
    (s : AttachmentState) : AttachmentState * bool :=
  match as_completed s !! blob_id with
  | None => (s, false)
  | Some current =>
    if negb (bool_decide (current = expected)) then (s, false)
    else
      let '(s, taken) := take_completed_attachment blob_id s in
      (s, bool_decide (is_Some taken))
  end.

(** [a || b || c] over removals: the first that removes something is the last that is tried. *)
Definition remove_first (blob_id : string) (s : AttachmentState) : AttachmentState * bool :=
  if bool_decide (is_Some (as_jobs s !! blob_id)) then
    ({| as_jobs := delete blob_id (as_jobs s); as_started_at := as_started_at s;
        as_completed := as_completed s; as_created_at := as_created_at s;
        as_received := as_received s |}, true)
  else if bool_decide (is_Some (as_completed s !! blob_id)) then
    ({| as_jobs := as_jobs s; as_started_at := as_started_at s;
        as_completed := delete blob_id (as_completed s); as_created_at := as_created_at s;
        as_received := as_received s |}, true)
  else
    ({| as_jobs := as_jobs s; as_started_at := as_started_at s;
        as_completed := as_completed s; as_created_at := as_created_at s;
        as_received := delete blob_id (as_received s) |},
     bool_decide (is_Some (as_received s !! blob_id))).

Definition received_key (attachment_id : string) : string := "received/" +:+ attachment_id.

Definition cancel_attachment {St : Type} `{RecordStore St} (blob_id : string) (s : AttachmentState)
    (st : St) : AttachmentState * St * bool :=
  let '(s, cancelled) := remove_first blob_id s in
  let s :=
    {| as_jobs := as_jobs s; as_started_at := delete blob_id (as_started_at s);
       as_completed := as_completed s; as_created_at := delete blob_id (as_created_at s);
       as_received := as_received s |} in
  (s, if cancelled then (store_delete Attachment (received_key blob_id) st).1 else st, cancelled).

Definition stage_received_attachment `{JsonCodec AttachmentDescriptor} (attachment_id : string)
    (descriptor : AttachmentDescriptor) : Mut AttachmentState bytes StorageError :=
  λ s,
    match json_to_vec descriptor with
    | None => (s, Err CorruptStore)
    | Some encoded =>
      ({| as_jobs := as_jobs s; as_started_at := as_started_at s;
          as_completed := as_completed s; as_created_at := as_created_at s;
          as_received := <[attachment_id := descriptor]> (as_received s) |}, Ok encoded)
    end.

Definition clear_attachment_state (s : AttachmentState) : AttachmentState := no_attachments.

(** The identifiers whose time is more than the TTL ago. *)
Definition expired_ids (now : N) (times : gmap string N) : list string :=
  map fst (filter (λ p, (COMPLETED_ATTACHMENT_TTL_SECONDS <? saturating_sub now p.2)%N = true)
             (btree_iter times)).

Definition remove_all {A} (ids : list string) (m : gmap string A) : gmap string A :=
  foldl (λ m id, delete id m) m ids.

Definition purge_attachment_state (now : N) (s : AttachmentState) : AttachmentState :=
  let expired_jobs := expired_ids now (as_started_at s) in
  let expired_completed := expired_ids now (as_created_at s) in
  {| as_jobs := remove_all expired_jobs (as_jobs s);
     as_started_at := remove_all expired_jobs (as_started_at s);
     as_completed := remove_all expired_completed (as_completed s);
     as_created_at := remove_all expired_completed (as_created_at s);
     as_received := as_received s |}.

(** The loop of [restore_received_attachments], which stops at the first record that is no
    descriptor; those before it stay. *)
Fixpoint insert_received `{JsonCodec AttachmentDescriptor} (records : list (string * bytes))
  : Mut (gmap string AttachmentDescriptor) unit StorageError :=
  λ m,
    match records with
    | [] => (m, Ok tt)
    | (key, value) :: rest =>
      match (let? attachment_id := ok_or (strip_prefix "received/" key) CorruptStore in
             let? descriptor := ok_or (json_from_slice value) CorruptStore in
             let? _ := map_err (λ _, CorruptStore) (validate_descriptor descriptor) in
             Ok (attachment_id, descriptor)) with
      | Err e => (m, Err e)
      | Ok (attachment_id, descriptor) => insert_received rest (<[attachment_id := descriptor]> m)
      end
    end.

Definition restore_received_attachments `{JsonCodec AttachmentDescriptor} {St : Type}
    `{RecordScan St} (st : St) : Mut AttachmentState unit StorageError :=
  λ s,
    let '(received, r) := insert_received (store_prefix st Attachment "received/") ∅ in
    ({| as_jobs := as_jobs s; as_started_at := as_started_at s;
        as_completed := as_completed s; as_created_at := as_created_at s;
        as_received := received |}, r).
End attachments.

(** ** The account *)

Section authority.
Context `{Crypto, UriParser}.

Definition new_internal (root : option AccountRootKey) (device_id relay_origin : string)
    (inbox_url : option string) (relay : RelayBinding) : InviteAuthority :=
  let local_account_id := from_option root_account_id EmptyString root in
  {| au_issuer :=
       {| ii_root := root; ii_device_id := device_id; ii_relay_origin := relay_origin;
          ii_inbox_url := inbox_url;
          ii_device_registry :=
            match root with
            | Some r => registry_new r
            | None => new_for_public_key (replicate 32 zero)
            end;
          ii_pending := None |};
     au_account_id := local_account_id;
     au_relay := relay;
     au_rendezvous := {| pr_codes := []; pr_conversation_id := None; pr_key_packages := [] |};
     au_staged_peer := None;
     au_pairing := pairing_new local_account_id device_id;
     au_contacts := contacts_new;
     au_attachments := no_attachments;
     au_attestations := attestations_new |}.

Definition with_public_account_key (account_public_key : bytes) (a : InviteAuthority)
  : InviteAuthority :=
  let account_id := account_id_from_public account_public_key in
  {| au_issuer := set_device_registry (new_for_public_key account_public_key) (au_issuer a);
     au_account_id := account_id; au_relay := au_relay a; au_rendezvous := au_rendezvous a;
     au_staged_peer := au_staged_peer a;
     au_pairing := pairing_new account_id (ii_device_id (au_issuer a));
     au_contacts := au_contacts a; au_attachments := au_attachments a;
     au_attestations := au_attestations a |}.

Definition authority_new (root : AccountRootKey) (device_id relay_origin : string)
    (inbox_url : option string) (relay : RelayBinding) : InviteAuthority :=
  new_internal (Some root) device_id relay_origin inbox_url relay.

Definition new_rootless (account_public_key : bytes) (device_id relay_origin : string)
    (inbox_url : option string) (relay : RelayBinding) : InviteAuthority :=
  with_public_account_key account_public_key
    (new_internal None device_id relay_origin inbox_url relay).

Definition create_attestation (subject_account_id subject_device_public_key : string) (now : N)
    (a : InviteAuthority) : Outcome (result PeerAttestation AttestationError) :=
  match ii_root (au_issuer a) with
  | None => Returns (Err AttestationStorage)
  | Some root => attestation_create root subject_account_id subject_device_public_key now
  end.

Definition add_peer_attestation (attestation : PeerAttestation) (a : InviteAuthority)
  : InviteAuthority :=
  set_attestations (attestations_add attestation (au_attestations a)) a.

(** The words of a message, one space apart, cut to [160] characters. *)
Definition message_preview (plaintext : bytes) : string :=
  let preview := join 32 (split_whitespace (from_utf8_lossy plaintext)) in
  of_bytes (concat (map snd (take 160 (utf8_spans (as_bytes preview))))).

Definition stage_contact_message (conversation_id : string) (plaintext : bytes) (now : N)
    (background : bool) : Mut InviteAuthority unit ContactDirectoryError :=
  λ a,
    let '(d, r) :=
      record_message conversation_id (message_preview plaintext) now background (au_contacts a) in
    (set_contacts d a, r).

(** ** With the store *)

Context {St : Type} `{RecordStore St}.
Context `{JsonCodec PairingSnapshot, JsonCodec DirectorySnapshot}.

Definition restore_contacts (st : St) : Mut InviteAuthority unit StorageError :=
  λ a,
    match contacts_restore st with
    | Err e => (a, Err e)
    | Ok d => (set_contacts d a, Ok tt)
    end.

Definition restore_pairing (st : St) : Mut InviteAuthority unit StorageError :=
  λ a,
    match pairing_restore (au_account_id a) (ii_device_id (au_issuer a)) st with
    | Err e => (a, Err e)
    | Ok p => (set_au_pairing p a, Ok tt)
    end.

(** [self.contacts.op()?; self.contacts.persist(store).map_err(|_| Corrupt)]: the directory
    keeps the change when it cannot be written. *)
Definition with_contacts {A} (op : Mut ContactDirectory A ContactDirectoryError)
  : Mut (InviteAuthority * St) A ContactDirectoryError :=
  λ '(a, st),
    match op (au_contacts a) with
    | (d, Err e) => (set_contacts d a, st, Err e)
    | (d, Ok v) =>
      let '(st, r) := contacts_persist d st in
      (set_contacts d a, st, let? _ := map_err (λ _, Corrupt) r in Ok v)
    end.

(** The two changes of [register_approved_contact] before it persists. *)
Definition upsert_and_bind (peer : VerifiedInvite) (now : N)
  : Mut ContactDirectory unit ContactDirectoryError :=
  let! _ := upsert_verified_with_inbox (vi_account_id peer) (vi_device_id peer)
              (vi_relay_origin peer) (vi_inbox_url peer) now in
  match vi_conversation_id peer with
  | Some conversation_id => bind_conversation (vi_account_id peer) conversation_id
  | None => mut_ret tt
  end.

Definition register_approved_contact (now : N)
  : Mut (InviteAuthority * St) unit ContactDirectoryError :=
  λ '(a, st),
    match sn_peer (snapshot (au_pairing a)) with
    | None => (a, st, Err ContactNotFound)
    | Some peer => with_contacts (upsert_and_bind peer now) (a, st)
    end.

Definition set_contact_alias (account_id alias : string)
  : Mut (InviteAuthority * St) unit ContactDirectoryError := with_contacts (set_alias account_id alias).
Definition set_contact_blocked (account_id : string) (blocked : bool)
  : Mut (InviteAuthority * St) unit ContactDirectoryError :=
  with_contacts (if blocked then block account_id else unblock account_id).
Definition remove_contact (account_id : string)
  : Mut (InviteAuthority * St) ContactRecord ContactDirectoryError :=
  with_contacts (Contacts.remove account_id).
Definition bind_contact_conversation (account_id conversation_id : string)
  : Mut (InviteAuthority * St) unit ContactDirectoryError :=
  with_contacts (bind_conversation account_id conversation_id).
Definition mark_contact_read (account_id : string)
  : Mut (InviteAuthority * St) unit ContactDirectoryError := with_contacts (mark_read account_id).

(** [self.pairing.op()?; self.pairing.persist(store).map_err(|_| InvalidTransition)]. *)
Definition with_pairing (op : Mut PairingSession unit PairingError)
  : Mut (InviteAuthority * St) unit PairingError :=
  λ '(a, st),
    match op (au_pairing a) with
    | (p, Err e) => (set_au_pairing p a, st, Err e)
    | (p, Ok _) =>
      let '(st, r) := pairing_persist p st in
      (set_au_pairing p a, st, map_err (λ _, InvalidTransition) r)
    end.

Definition authority_mark_invite_created : Mut (InviteAuthority * St) unit PairingError :=
  with_pairing mark_invite_created.

Definition stage_peer (invite : VerifiedInvite) (now : N)
  : Mut (InviteAuthority * St) unit PairingError :=
  λ s,
    match with_pairing (verify_peer invite now) s with
    | (s, Err e) => (s, Err e)
    | (a, st, Ok _) => (set_staged_peer (Some invite) a, st, Ok tt)
    end.

(** An established pairing answers [Duplicate], which counts as success. *)
Definition approve_again (now : N) : Mut PairingSession unit PairingError :=
  λ p,
    match approve now p with
    | (p, Err Duplicate) => (p, Ok tt)
    | r => r
    end.

Definition approve_pairing (now : N) : Mut (InviteAuthority * St) unit PairingError :=
  with_pairing (approve_again now).
Definition authority_confirm_safety (value : string)
  : Mut (InviteAuthority * St) unit PairingError := with_pairing (confirm_safety value).
Definition authority_unverify_safety : Mut (InviteAuthority * St) unit PairingError :=
  with_pairing unverify_safety.
Definition reject_pairing : Mut (InviteAuthority * St) unit PairingError := with_pairing reject.
Definition invalidate_relay_binding : Mut (InviteAuthority * St) unit PairingError :=
  with_pairing invalidate_binding.
End authority.
