(* ===== verification/AuthorityProps.v ===== *)
(** * Properties of the invite authority

    The attachments an account holds are bounded and decryptable in every reachable state, an
    upload that is abandoned frees its slot, and the pairing and the contacts come back from a
    restart as the last operation left them. *)
From Stdlib Require Import Ascii NArith Lia ZifyBool ZifyN.
From stdpp Require Import base gmap strings list relations.
From S2P Require Import Prelude Text TextScan Collections Interfaces Model Fs StoreFormat Storage RecordStore TableStore Identity DeviceRegistry Trust Invite Pairing Contacts Attachment AttachmentProps Attestation DeviceAuthority Authority.

(** ** Attachments *)

Lemma remove_all_subseteq {A} ids (m : gmap string A) : remove_all ids m ⊆ m.
Proof.
  revert m. induction ids as [|i ids IH]; intros m; [done|]. cbn.
  transitivity (delete i m); [apply IH|apply delete_subseteq].
Qed.

Lemma lookup_remove_all {A} ids (m : gmap string A) k :
  remove_all ids m !! k = if decide (k ∈ ids) then None else m !! k.
Proof.
  revert m. induction ids as [|i ids IH]; intros m; [done|].
  change (remove_all (i :: ids) m) with (remove_all ids (delete i m)). rewrite IH.
  destruct (decide (k = i)) as [->|Hne].
  - rewrite lookup_delete_eq. rewrite (decide_True (P := i ∈ i :: ids)) by by left. by case_decide.
  - rewrite lookup_delete_ne by done. repeat case_decide; set_solver.
Qed.

Lemma elem_of_expired now times k :
  k ∈ expired_ids now times ↔
  ∃ t, times !! k = Some t ∧ (COMPLETED_ATTACHMENT_TTL_SECONDS < now - t)%N.
Proof.
  unfold expired_ids. rewrite list_elem_of_fmap. split.
  - intros ([k' t] & -> & [Ht Hin]%list_elem_of_filter). apply elem_of_btree_iter in Hin.
    exists t. split; [done|]. cbn in Ht. unfold saturating_sub in Ht. lia.
  - intros (t & Hk & Ht). exists (k, t). split; [done|]. apply list_elem_of_filter.
    split; [unfold saturating_sub; cbn; lia|]. by apply elem_of_btree_iter.
Qed.

Lemma size_insert_le {A} (m : gmap string A) k x : size (<[k := x]> m) ≤ S (size m).
Proof. rewrite map_size_insert. destruct (m !! k); cbn; lia. Qed.

Section attachments.
Context `{HC : Crypto} {HL : CryptoLaws}.
Context {St : Type} `{HS : RecordStore St}.

(** What the daemon does with the attachments of an account, in any world and store. *)
Inductive attachment_step : relation AttachmentState :=
| step_start id total name type now s w :
    attachment_step s (attachment_start id total name type now (s, w)).1.1
| step_append id index plaintext s w :
    attachment_step s (attachment_append id index plaintext (s, w)).1.1
| step_finish id now s : attachment_step s (attachment_finish id now s).1
| step_take id s : attachment_step s (take_completed_attachment id s).1
| step_take_equal id e s : attachment_step s (take_completed_attachment_if_equal id e s).1
| step_cancel id (st : St) s : attachment_step s (cancel_attachment id s st).1.1
| step_purge now s : attachment_step s (purge_attachment_state now s)
| step_clear s : attachment_step s (clear_attachment_state s).

Record attachments_inv (s : AttachmentState) : Prop := {
  av_jobs : map_Forall (λ _ j, ∃ l, job_inv j l) (as_jobs s);
  av_completed : map_Forall (λ _ e, ∃ l, describes (ea_descriptor e) l ∧ ea_blob e = cipher l)
                   (as_completed s);
  av_one : size (as_jobs s) ≤ 1;
  av_slots : size (as_jobs s) + size (as_completed s) ≤ 2;
  av_timed : dom (as_jobs s) ⊆ dom (as_started_at s);
}.

(** Dropping jobs, completed attachments and the times of jobs that are gone. *)
Lemma attachments_inv_smaller s s' :
  attachments_inv s → as_jobs s' ⊆ as_jobs s → as_completed s' ⊆ as_completed s →
  dom (as_jobs s') ⊆ dom (as_started_at s') → attachments_inv s'.
Proof using Type.
  intros [Hj Hc H1 H2 _] Hj' Hc' Ht.
  pose proof (map_subseteq_size _ _ Hj'). pose proof (map_subseteq_size _ _ Hc').
  split; [..|lia|lia|done]; intros k x Hk; eapply lookup_weaken in Hk; eauto.
Qed.

Lemma attachment_step_inv s s' : attachments_inv s → attachment_step s s' → attachments_inv s'.
Proof using HL.
  intros Hi Hs. destruct Hs as [id total name type now s w|id i p s w|id now s|id s|id e s|id st s|now s|s].
  - unfold attachment_start. case_bool_decide as Hn; [done|]. destruct (_ || _) eqn:G; [done|].
    bool_props. destruct (start_with_metadata _ _ _ _ w) as [w' [j|]] eqn:E; [|done].
    destruct (start_inv _ _ _ _ _ _ _ E) as (Hj & _). cbn [fst].
    match goal with Hx : as_jobs s = ∅ |- _ => rename Hx into He end.
    destruct Hi as [_ Hc _ _ _]. rewrite He. unfold MAX_COMPLETED_ATTACHMENT_COUNT in *.
    split; cbn [as_jobs as_completed as_started_at]; rewrite ?map_size_insert, ?lookup_empty, ?map_size_empty.
    + apply map_Forall_insert_2; [eauto|]. apply map_Forall_empty.
    + done.
    + cbn. lia.
    + cbn. lia.
    + rewrite !dom_insert_L, dom_empty_L. set_solver.
  - unfold attachment_append. destruct (as_jobs s !! id) as [j|] eqn:Hj; [|done].
    destruct (append i p (j, w)) as [[j' w'] r] eqn:E. cbn [fst].
    destruct Hi as [Hjs Hc H1 H2 Ht]. destruct (Hjs _ _ Hj) as [l Hl].
    assert (∃ l', job_inv j' l').
    { destruct (append_inv _ _ _ _ _ _ _ _ Hl E) as [[_ ->]|(_ & q & _ & ?)]; eauto. }
    split; cbn [as_jobs as_completed as_started_at]; [by apply map_Forall_insert_2|done|..];
      rewrite ?map_size_insert, ?dom_insert_L, ?Hj; [done|done|].
    apply elem_of_dom_2 in Hj. set_solver.
  - unfold attachment_finish. destruct (as_jobs s !! id) as [j|] eqn:Hj; [|done].
    assert (Hsub : dom (delete id (as_jobs s)) ⊆ dom (as_started_at s) ∖ {[ id ]})
      by (rewrite dom_delete_L; pose proof (av_timed _ Hi); set_solver).
    destruct (finish j) as [e|] eqn:Hf; cbn [fst].
    + destruct Hi as [Hjs Hc H1 H2 Ht]. destruct (Hjs _ _ Hj) as [l Hl].
      pose proof (size_insert_le (as_completed s) id e).
      assert (size (delete id (as_jobs s)) = pred (size (as_jobs s))) as Hsz
        by (rewrite map_size_delete; by rewrite Hj).
      assert (size (as_jobs s) ≠ 0) by (rewrite map_size_ne_0_lookup; exists id; eauto).
      split; cbn [as_jobs as_completed as_started_at]; rewrite ?Hsz, ?dom_delete_L in *; [| |lia|lia|done].
      * by apply map_Forall_delete.
      * apply map_Forall_insert_2; [|done]. destruct (finish_describes _ _ _ Hl Hf) as (? & ? & _). eauto.
    + eapply attachments_inv_smaller; [done|apply delete_subseteq|done|]. cbn. set_solver.
  - eapply attachments_inv_smaller; [done|done|apply delete_subseteq|apply Hi].
  - unfold take_completed_attachment_if_equal. destruct (as_completed s !! id); [|done].
    destruct (negb _); [done|]. cbn.
    eapply attachments_inv_smaller; [done|done|apply delete_subseteq|apply Hi].
  - unfold cancel_attachment, remove_first. pose proof (av_timed _ Hi) as Ht.
    case_bool_decide as Hj; [|case_bool_decide];
      (eapply attachments_inv_smaller; [done|..]; cbn;
       [try done; apply delete_subseteq|try done; apply delete_subseteq|]); rewrite ?dom_delete_L;
      [set_solver|..];
      apply not_elem_of_dom in Hj || (rewrite <-not_eq_None_Some, <-not_elem_of_dom in Hj); set_solver.
  - eapply attachments_inv_smaller; [done|apply remove_all_subseteq|apply remove_all_subseteq|].
    cbn. intros k. rewrite !elem_of_dom, !lookup_remove_all. intros Hk.
    case_decide; [by destruct Hk|]. by apply elem_of_dom, (av_timed _ Hi), elem_of_dom.
  - split; cbn; [apply map_Forall_empty..|vm_compute; lia|vm_compute; lia|set_solver].
Qed.

Lemma no_attachments_inv : attachments_inv no_attachments.
Proof using Type. split; cbn; [apply map_Forall_empty..|vm_compute; lia|vm_compute; lia|set_solver]. Qed.

Lemma attachments_reachable_inv s : rtc attachment_step no_attachments s → attachments_inv s.
Proof using HL.
  assert (H : ∀ t, attachments_inv t → rtc attachment_step t s → attachments_inv s).
  { intros t Ht Hr. induction Hr; [done|]. eauto using attachment_step_inv. }
  apply H, no_attachments_inv.
Qed.

(** C40. In every state the attachment operations can reach, at most one upload is open, an open
    upload and the completed ones together are at most two, and each completed attachment
    decrypts, with its own descriptor, to a plaintext of the size it announces, of at most
    32 MiB; its blob is longer by at most 8 KiB. *)
Theorem authority_attachments_bounded s :
  rtc attachment_step no_attachments s →
  size (as_jobs s) ≤ 1 ∧ size (as_jobs s) + size (as_completed s) ≤ 2 ∧
  map_Forall (λ _ e, ∃ plaintext,
    decrypt_blob (ea_descriptor e) (ea_blob e) = Ok plaintext ∧
    blen plaintext = ad_original_size (ea_descriptor e) ∧
    (blen plaintext ≤ MAX_ATTACHMENT_BYTES)%N ∧
    (blen (ea_blob e) ≤ blen plaintext + 8 * 1024)%N) (as_completed s).
Proof using HL.
  intros [_ Hc H1 H2 _]%attachments_reachable_inv. split_and!; [done|done|].
  intros k e (l & Hd & ->)%Hc. exists (plain l). pose proof (describes_decrypt _ _ Hd) as He.
  destruct Hd. pose proof (parts_count l ds_bound ds_shaped).
  rewrite (cipher_blen _ _ _ _ ds_sealed). split_and!; [done|done|lia|lia].
Qed.

(** An upload that is abandoned does not hold its slot for ever: a purge more than an hour
    after every start removes the open upload and every completed attachment with a creation
    time, whatever the operations before, and what a purge keeps is not older than an hour. *)
Theorem authority_purge_releases s now :
  rtc attachment_step no_attachments s →
  let s' := purge_attachment_state now s in
  (∀ id j, as_jobs s' !! id = Some j →
     ∃ t, as_started_at s !! id = Some t ∧ (now ≤ t + COMPLETED_ATTACHMENT_TTL_SECONDS)%N) ∧
  (∀ id e, as_completed s' !! id = Some e →
     as_created_at s !! id = None ∨
     ∃ t, as_created_at s !! id = Some t ∧ (now ≤ t + COMPLETED_ATTACHMENT_TTL_SECONDS)%N) ∧
  ((∀ id t, as_started_at s !! id = Some t → (t + COMPLETED_ATTACHMENT_TTL_SECONDS < now)%N) →
   as_jobs s' = ∅).
Proof using HL.
  intros Hr%attachments_reachable_inv s'.
  assert (Hjobs : ∀ id j, as_jobs s' !! id = Some j →
    ∃ t, as_started_at s !! id = Some t ∧ (now ≤ t + COMPLETED_ATTACHMENT_TTL_SECONDS)%N).
  { intros id j Hj. cbn in Hj. rewrite lookup_remove_all in Hj. case_decide as Hn; [done|].
    apply elem_of_dom_2, (av_timed _ Hr), elem_of_dom in Hj as [t Ht]. exists t. split; [done|].
    rewrite elem_of_expired in Hn.
    destruct (decide (now ≤ t + COMPLETED_ATTACHMENT_TTL_SECONDS)%N); [done|].
    exfalso. apply Hn. exists t. split; [done|lia]. }
  split_and!; [done| |].
  - intros id e He. cbn in He. rewrite lookup_remove_all in He. case_decide as Hn; [done|].
    rewrite elem_of_expired in Hn. destruct (as_created_at s !! id) as [t|]; [right|by left].
    exists t. split; [done|].
    destruct (decide (now ≤ t + COMPLETED_ATTACHMENT_TTL_SECONDS)%N); [done|].
    exfalso. apply Hn. exists t. split; [done|lia].
  - intros Hold. apply map_eq. intros id. rewrite lookup_empty.
    destruct (as_jobs s' !! id) as [j|] eqn:Hj; [|done].
    destruct (Hjobs _ _ Hj) as (t & Ht & ?). specialize (Hold _ _ Ht). lia.
Qed.

(** Cancelling an upload whose identifier also names a completed attachment removes the
    upload and the creation time, and leaves the completed attachment: no purge removes it any
    more, at whatever time. *)
Theorem authority_cancel_strands_completed id j e s (st : St) now :
  as_jobs s !! id = Some j → as_completed s !! id = Some e →
  let s' := (cancel_attachment id s st).1.1 in
  (cancel_attachment id s st).2 = true ∧ as_created_at s' !! id = None ∧
  as_completed (purge_attachment_state now s') !! id = Some e.
Proof using Type.
  intros Hj He s'. subst s'. unfold cancel_attachment, remove_first. rewrite Hj. cbn.
  rewrite lookup_delete_eq. split_and!; [done|done|]. rewrite lookup_remove_all, decide_False; [done|].
  rewrite elem_of_expired. intros (t & Ht & _). by rewrite lookup_delete_eq in Ht.
Qed.
End attachments.

(** ** Restart *)

Inductive AuthorityOp :=
| AuInviteCreated
| AuStagePeer (invite : VerifiedInvite) (now : N)
| AuApprove (now : N)
| AuConfirmSafety (value : string)
| AuUnverifySafety
| AuReject
| AuInvalidateBinding
| AuRegisterContact (now : N)
| AuSetAlias (account_id alias : string)
| AuSetBlocked (account_id : string) (blocked : bool)
| AuRemoveContact (account_id : string)
| AuBindConversation (account_id conversation_id : string)
| AuMarkRead (account_id : string).

Section restart.
Context `{HC : Crypto, HU : UriParser} {St : Type} `{HS : RecordStore St} {HSL : RecordStoreLaws St}.
Context `{HJp : JsonCodec PairingSnapshot} {HRp : JsonRoundTrip PairingSnapshot}.
Context `{HJd : JsonCodec DirectorySnapshot} {HRd : JsonRoundTrip DirectorySnapshot}.

(** The operation, and whether it answered [Ok]. *)
Definition authority_apply (op : AuthorityOp) (s : InviteAuthority * St)
  : InviteAuthority * St * bool :=
  match op with
  | AuInviteCreated => let '(s, r) := authority_mark_invite_created s in (s, is_ok r)
  | AuStagePeer invite now => let '(s, r) := stage_peer invite now s in (s, is_ok r)
  | AuApprove now => let '(s, r) := approve_pairing now s in (s, is_ok r)
  | AuConfirmSafety value => let '(s, r) := authority_confirm_safety value s in (s, is_ok r)
  | AuUnverifySafety => let '(s, r) := authority_unverify_safety s in (s, is_ok r)
  | AuReject => let '(s, r) := reject_pairing s in (s, is_ok r)
  | AuInvalidateBinding => let '(s, r) := invalidate_relay_binding s in (s, is_ok r)
  | AuRegisterContact now => let '(s, r) := register_approved_contact now s in (s, is_ok r)
  | AuSetAlias account_id alias => let '(s, r) := set_contact_alias account_id alias s in (s, is_ok r)
  | AuSetBlocked account_id b => let '(s, r) := set_contact_blocked account_id b s in (s, is_ok r)
  | AuRemoveContact account_id => let '(s, r) := remove_contact account_id s in (s, is_ok r)
  | AuBindConversation account_id c =>
    let '(s, r) := bind_contact_conversation account_id c s in (s, is_ok r)
  | AuMarkRead account_id => let '(s, r) := mark_contact_read account_id s in (s, is_ok r)
  end.

(** The operations one after the other, and whether all of them answered [Ok]. *)
Fixpoint authority_run (ops : list AuthorityOp) (s : InviteAuthority * St)
  : InviteAuthority * St * bool :=
  match ops with
  | [] => (s, true)
  | op :: ops =>
    let '(s, ok) := authority_apply op s in
    let '(s, rest) := authority_run ops s in (s, ok && rest)
  end.

Record authority_saved (account_id device_id : string) (s : InviteAuthority * St) : Prop := {
  sv_store : store_inv s.2;
  sv_inv : pairing_inv (au_pairing s.1);
  sv_account : ps_local_account_id (au_pairing s.1) = account_id;
  sv_device : ps_local_device_id (au_pairing s.1) = device_id;
  sv_pairing : pairing_restore account_id device_id s.2
    = if stale_invite (au_pairing s.1) then Err CorruptStore else Ok (au_pairing s.1);
  sv_contacts : contacts_restore s.2
    = if decide (restorable (au_contacts s.1)) then Ok (au_contacts s.1) else Err CorruptStore;
}.

(** A write of one of the two records leaves the other. *)
Lemma pairing_persist_frame p st st' :
  store_inv st → pairing_persist p st = (st', Ok tt) →
  store_inv st' ∧ contacts_restore st' = contacts_restore st.
Proof using HSL.
  unfold pairing_persist, contacts_restore. intros Hi. destruct (json_to_vec _); [|done]. intros Hp.
  split; [by eapply store_put_inv|]. by rewrite (store_put_ok _ _ _ _ _ Hi Hp), view_update_ne.
Qed.
Lemma contacts_persist_frame d st st' a dev :
  store_inv st → contacts_persist d st = (st', Ok tt) →
  store_inv st' ∧ pairing_restore a dev st' = pairing_restore a dev st.
Proof using HSL.
  unfold contacts_persist, pairing_restore. intros Hi. destruct (snapshot_bytes d); [|done]. intros Hp.
  split; [by eapply store_put_inv|]. by rewrite (store_put_ok _ _ _ _ _ Hi Hp), view_update_ne.
Qed.

(** A pairing operation that keeps the invariant and the local identity. *)
Definition pairing_sound (op : Mut PairingSession unit PairingError) : Prop :=
  ∀ p, pairing_inv p → pairing_inv (op p).1 ∧
    ps_local_account_id (op p).1 = ps_local_account_id p ∧
    ps_local_device_id (op p).1 = ps_local_device_id p.

Lemma pairing_apply_sound op : pairing_sound (pairing_apply op).
Proof using Type.
  intros p Hp. split; [by apply pairing_apply_inv|]. apply pairing_apply_local.
Qed.
Lemma approve_again_sound now : pairing_sound (approve_again now).
Proof using HC.
  intros p Hp. pose proof (pairing_apply_sound (OpApprove now) p Hp) as Ha. cbn [pairing_apply] in Ha.
  unfold approve_again. destruct (approve now p) as [p' [?|[]]]; done.
Qed.

Lemma with_pairing_saved op x y s s' :
  pairing_sound op → authority_saved x y s → with_pairing op s = (s', Ok tt) →
  authority_saved x y s'.
Proof using All.
  destruct s as [a st]. intros Hop [Hst Hi Hx Hy Hp Hc]. cbn [fst snd] in *. unfold with_pairing.
  destruct (Hop _ Hi) as (Hi' & Hx' & Hy'). destruct (op (au_pairing a)) as [p [[]|e]]; [|done].
  cbn [fst] in *. destruct (pairing_persist p st) as [st' [[]|e]] eqn:E; [|done]. intros [= <-].
  destruct (pairing_persist_frame _ _ _ Hst E) as [Hst' Hc'].
  split; cbn [fst snd set_au_pairing au_pairing au_contacts]; [done|done|congruence|congruence| |congruence].
  rewrite <-Hx, <-Hy, <-Hx', <-Hy'. exact (pairing_restore_persisted p st st' Hi' Hst E).
Qed.

Lemma with_contacts_saved {A} (op : Mut ContactDirectory A ContactDirectoryError) x y s s' v :
  authority_saved x y s → with_contacts op s = (s', Ok v) → authority_saved x y s'.
Proof using All.
  destruct s as [a st]. intros [Hst Hi Hx Hy Hp Hc]. cbn [fst snd] in *. unfold with_contacts.
  destruct (op (au_contacts a)) as [d [v'|e]]; [|done].
  destruct (contacts_persist d st) as [st' [[]|e]] eqn:E; [|done]. intros [= <- _].
  destruct (contacts_persist_frame d st st' x y Hst E) as [Hst' Hp'].
  split; cbn [fst snd set_contacts au_pairing au_contacts]; [done..|congruence|].
  exact (contacts_restart d st st' Hst E).
Qed.

(** The answer of the operation in the goal, when it is [Ok]. *)
Ltac answered :=
  lazymatch goal with |- (let '(_, _) := ?m in _) = _ → _ =>
    destruct m as [? [v|?]] eqn:E; cbn [is_ok]; intros [= <-] end.

Lemma authority_apply_saved op x y s s' :
  authority_saved x y s → authority_apply op s = (s', true) → authority_saved x y s'.
Proof using All.
  intros Hs. destruct op; cbn [authority_apply].
  2: { unfold stage_peer. destruct (with_pairing _ s) as [[a st] [[]|e]] eqn:E; [|done]. intros [= <-].
       eapply with_pairing_saved in E as []; [by split|apply (pairing_apply_sound (OpVerifyPeer _ _))|done]. }
  all: answered.
  all: first [eapply with_contacts_saved; [done|exact E] | idtac].
  - destruct v. eapply with_pairing_saved; [apply (pairing_apply_sound OpMarkInviteCreated)|done|exact E].
  - destruct v. eapply with_pairing_saved; [apply approve_again_sound|done|exact E].
  - destruct v. eapply with_pairing_saved; [apply (pairing_apply_sound (OpConfirmSafety value))|done|exact E].
  - destruct v. eapply with_pairing_saved; [apply (pairing_apply_sound OpUnverifySafety)|done|exact E].
  - destruct v. eapply with_pairing_saved; [apply (pairing_apply_sound OpReject)|done|exact E].
  - destruct v. eapply with_pairing_saved; [apply (pairing_apply_sound OpInvalidateBinding)|done|exact E].
  - destruct s as [a st]. unfold register_approved_contact in E. destruct (sn_peer _); [|done].
    eapply with_contacts_saved; [done|exact E].
Qed.

Lemma authority_run_saved ops : ∀ x y s s',
  authority_saved x y s → authority_run ops s = (s', true) → authority_saved x y s'.
Proof using All.
  induction ops as [|op ops IH]; intros x y s s' Hs; [by intros [= <-]|]. cbn [authority_run].
  destruct (authority_apply op s) as [s1 ok] eqn:E1. destruct (authority_run ops s1) as [s2 rest] eqn:E2.
  destruct ok, rest; try done. intros [= <-]. eauto using authority_apply_saved.
Qed.

(** C31. After pairing and contact operations that all answered [Ok], by an account with its root key
    on a store that began without the two records, a restart from the store alone gives the
    pairing and the contacts exactly as they were in memory, with two exceptions that are refused
    as a corrupt store: the session with an invite created over an established pairing, and a
    directory with a contact that fails the checks of the restart. *)
Theorem authority_restart ops root device_id origin inbox relay (st0 : St) a st :
  let a0 := authority_new root device_id origin inbox relay in
  store_inv st0 → store_get st0 Contact PAIRING_KEY = None →
  store_get st0 Contact CONTACTS_KEY = None →
  authority_run ops (a0, st0) = (a, st, true) →
  restore_pairing st a0
  = (if stale_invite (au_pairing a) then (a0, Err CorruptStore)
     else (set_au_pairing (au_pairing a) a0, Ok tt)) ∧
  restore_contacts st a0
  = if decide (restorable (au_contacts a)) then (set_contacts (au_contacts a) a0, Ok tt)
    else (a0, Err CorruptStore).
Proof using All.
  intros a0 Hst Hp Hc Hrun.
  assert (Hs : authority_saved (root_account_id root) device_id (a0, st0)).
  { split; cbn [fst snd]; [done|apply pairing_new_inv|done|done|..].
    - unfold pairing_restore. by rewrite Hp.
    - unfold contacts_restore. rewrite Hc. rewrite decide_True; [done|]. split; [done|apply map_Forall_empty]. }
  destruct (authority_run_saved _ _ _ _ _ Hs Hrun) as [_ _ _ _ Hpair Hcon]. cbn [fst snd] in *.
  unfold restore_pairing, restore_contacts. cbn [au_account_id au_issuer ii_device_id] in *.
  change (au_account_id a0) with (root_account_id root).
  change (ii_device_id (au_issuer a0)) with device_id. rewrite Hpair, Hcon.
  split; [by destruct (stale_invite _)|by case_decide].
Qed.

(** A contact whose block or unblock the store refused to write is reported as an error and
    is blocked or unblocked all the same, until the restart brings the old state back. *)
Theorem authority_failed_block_takes_effect account_id c blocked a (st st' : St) a' e :
  store_inv st → au_contacts a !! account_id = Some c →
  set_contact_blocked account_id blocked (a, st) = (a', st', Err e) →
  e = Corrupt ∧
  ct_state <$> au_contacts a' !! account_id = Some (if blocked then "blocked" else "verified") ∧
  contacts_restore st' = contacts_restore st.
Proof using HSL.
  intros Hst Hc. unfold set_contact_blocked, with_contacts.
  assert (E : (if blocked then block account_id else unblock account_id) (au_contacts a)
    = (<[account_id := set_state_field (if blocked then "blocked" else "verified") c]> (au_contacts a), Ok tt)).
  { destruct blocked; unfold block, unblock, with_contact; by rewrite Hc. }
  rewrite E. destruct (contacts_persist _ st) as [st1 [[]|e1]] eqn:Ep; [done|].
  cbn [map_err result_bind]. intros [= <- <- <-]. split; [done|]. cbn [set_contacts au_contacts].
  rewrite lookup_insert_eq. split; [done|]. unfold contacts_persist in Ep. unfold contacts_restore.
  destruct (snapshot_bytes _) as [b|e2]; [|by simplify_eq].
  by rewrite (store_put_err _ _ _ _ _ _ Hst Ep).
Qed.
End restart.

(** ** Samples *)

Module AuthoritySample.
Import Reference TableStore FrozenStore AttachmentSample.

Definition no_binding : RelayBinding := {| rb_public_key := None; rb_tls_pin := None; rb_trust := None |}.

(** One upload of 17 bytes, finished, and another one of the same identifier begun. *)
Definition s1 : AttachmentState := (attachment_start blob_id 17 None None 100 (no_attachments, world)).1.1.
Definition s2 : AttachmentState := (attachment_append blob_id 0 letters (s1, world1)).1.1.
Definition s3 : AttachmentState := (attachment_finish blob_id 200 s2).1.
Definition s4 : AttachmentState := (attachment_start blob_id 17 None None 300 (s3, world)).1.1.

Lemma reached_s3 : rtc (attachment_step (St := TableStore.Table)) no_attachments s3.
Proof.
  eapply rtc_l; [apply (step_start blob_id 17 None None 100 _ world)|].
  eapply rtc_l; [apply (step_append blob_id 0 letters _ world1)|].
  eapply rtc_l; [apply (step_finish blob_id 200)|]. apply rtc_refl.
Qed.
Lemma reached_s4 : rtc (attachment_step (St := TableStore.Table)) no_attachments s4.
Proof. eapply rtc_r; [apply reached_s3|]. apply (step_start blob_id 17 None None 300 _ world). Qed.

Lemma authority_attachments_bounded_witness :
  size (as_completed s4) = 1 ∧ size (as_jobs s4) + size (as_completed s4) ≤ 2.
Proof.
  split; [vm_compute; reflexivity|].
  apply (authority_attachments_bounded (St := TableStore.Table) s4 reached_s4).
Defined.

Lemma authority_purge_releases_witness :
  size (as_jobs s4) = 1 ∧ as_jobs (purge_attachment_state 4000 s4) = ∅.
Proof.
  split; [vm_compute; reflexivity|].
  assert (Ht : as_started_at s4 = {[ blob_id := 300%N ]}) by (vm_compute; reflexivity).
  apply (authority_purge_releases (St := TableStore.Table) s4 4000 reached_s4).
  intros id t. rewrite Ht, lookup_singleton_Some. intros [_ <-]. vm_compute. reflexivity.
Defined.

Lemma authority_cancel_strands_completed_witness :
  as_created_at (cancel_attachment blob_id s4 ([] : TableStore.Table)).1.1 !! blob_id = None.
Proof.
  assert (Hj : is_Some (as_jobs s4 !! blob_id)) by (vm_compute; eauto).
  assert (Hc : is_Some (as_completed s4 !! blob_id)) by (vm_compute; eauto).
  destruct Hj as [j Hj], Hc as [e He].
  apply (authority_cancel_strands_completed blob_id j e s4 [] 0 Hj He).
Defined.

(** Alice pairs with Bob, registers the contact and blocks it. *)
Definition root : AccountRootKey := DeviceRegistry.RegistrySample.root.
Definition a0 : InviteAuthority := authority_new root "device-1" "https://relay.test" None no_binding.
Definition bob : VerifiedInvite := PairingSample.peer "bob".
Definition spoken : string :=
  default EmptyString (safety_number (verify_peer bob 10 (au_pairing a0)).1).
Definition ops : list AuthorityOp :=
  [AuInviteCreated; AuStagePeer bob 10; AuConfirmSafety spoken; AuApprove 11; AuRegisterContact 12;
   AuSetBlocked "bob" true].
(** The same run over the models of the components gives the snapshots the codecs must know. *)
Definition pairings : list PairingSession :=
  let p1 := (mark_invite_created (au_pairing a0)).1 in
  let p2 := (verify_peer bob 10 p1).1 in
  let p3 := (confirm_safety spoken p2).1 in
  [p1; p2; p3; (approve 11 p3).1].
Definition directories : list ContactDirectory :=
  let d1 := (upsert_and_bind bob 12 contacts_new).1 in [d1; (block "bob" d1).1].

#[local] Instance pairing_codec : JsonCodec PairingSnapshot := json_table (snapshot <$> pairings).
#[local] Instance pairing_laws : JsonRoundTrip PairingSnapshot := json_table_laws (snapshot <$> pairings).
Definition snapshots : list DirectorySnapshot :=
  (λ d, {| Contacts.ds_version := DIRECTORY_VERSION; ds_contacts := d |}) <$> directories.
#[local] Instance directory_codec : JsonCodec DirectorySnapshot := json_table snapshots.
#[local] Instance directory_laws : JsonRoundTrip DirectorySnapshot := json_table_laws snapshots.

Definition ended := (authority_run ops (a0, [] : TableStore.Table)).

Lemma authority_restart_witness :
  restore_pairing ended.1.2 a0 = (set_au_pairing (au_pairing ended.1.1) a0, Ok tt).
Proof.
  assert (Hok : ended.2 = true) by (vm_compute; reflexivity).
  assert (Hrun : authority_run ops (a0, [] : TableStore.Table) = (ended.1.1, ended.1.2, true))
    by (rewrite <-Hok, <-!surjective_pairing; reflexivity).
  assert (Hstale : stale_invite (au_pairing ended.1.1) = false) by (vm_compute; reflexivity).
  pose proof (proj1 (authority_restart ops root "device-1" "https://relay.test" None no_binding []
    ended.1.1 ended.1.2 TableStore.table_empty_inv eq_refl eq_refl Hrun)) as E.
  rewrite Hstale in E. exact E.
Defined.

(** A store that cannot be written, and a contact that is to be unblocked. *)
Definition frozen : FrozenStore.Frozen := {| FrozenStore.frozen_table := ended.1.2 |}.
Definition unblocked := (set_contact_blocked "bob" false (ended.1.1, frozen)).

Lemma authority_failed_block_takes_effect_witness :
  ct_state <$> au_contacts unblocked.1.1 !! "bob" = Some "verified".
Proof.
  assert (Hc : is_Some (au_contacts ended.1.1 !! "bob")) by (vm_compute; eauto).
  destruct Hc as [c Hc]. assert (Hi : store_inv frozen) by exact I.
  assert (Hr : unblocked.2 = Err Corrupt) by (vm_compute; reflexivity).
  assert (Hrun : set_contact_blocked "bob" false (ended.1.1, frozen)
    = (unblocked.1.1, unblocked.1.2, Err Corrupt)) by (rewrite <-Hr, <-!surjective_pairing; reflexivity).
  apply (authority_failed_block_takes_effect "bob" c false ended.1.1 frozen unblocked.1.2
    unblocked.1.1 Corrupt Hi Hc Hrun).
Defined.
End AuthoritySample.
