(* ===== verification/Inbox.v ===== *)
(** * Receiving messages ([apps/daemon/src/maintenance.rs], [apps/daemon/src/delivery_routes.rs])

    What the daemon does with the items of its relay inbox while it holds the locks of its
    services: the items are checked, decrypted by the MLS session of a conversation, and one
    batch of the record store holds everything an item changes (the session's checkpoint, the
    message or attachment, the contact directory and the delivery ledger). Only then may the
    relay be told that the item has arrived. *)
From Stdlib Require Import Ascii NArith Lia ZifyBool ZifyN.
From stdpp Require Import base gmap strings list.
From S2P Require Import Prelude Text Collections Interfaces Fs StoreFormat Storage RecordStore DeliveryLedger RelayEnvelope Trust Invite Pairing Contacts Attachment MessageService MlsProvider MlsSession RelayClient Http Authority.

(** The services a request locks together. *)
Record Services `{MlsTypes} {St : Type} := {
  sx_authority : InviteAuthority;
  sx_catalog : MlsSessionCatalog;
  sx_store : St;
  sx_ledger : DeliveryLedger;
}.
Arguments Services {_} _.

(** [result.map_err(|_| e)], and a call whose error is looked at. *)
Definition or_err {S A E F} (e : F) (m : Mut S A E) : Mut S A F :=
  λ s, let '(s, r) := m s in (s, map_err (λ _, e) r).
Definition attempt {S A E F} (m : Mut S A E) : Mut S (result A E) F :=
  λ s, let '(s, r) := m s in (s, Ok r).

(** [RelayEnvelope::create] with its two random draws: the checks come first. *)
Definition create_envelope (mailbox : string) (ciphertext : bytes) (expires_at now : N) (w : World)
  : World * result RelayEnvelope EnvelopeError :=
  let pad := N.to_nat (div_ceil (blen ciphertext) BLOCK_SIZE * BLOCK_SIZE - blen ciphertext)%N in
  match RelayEnvelope.create mailbox ciphertext expires_at now (Some (replicate pad zero))
          (Some (replicate 16 zero)) with
  | Err e => (w, Err e)
  | Ok _ =>
    let '(w, padding) := secure_random pad w in
    match padding with
    | None => (w, Err InvalidWire)
    | Some _ =>
      let '(w, id) := secure_random 16 w in
      (w, RelayEnvelope.create mailbox ciphertext expires_at now padding id)
    end
  end.

Section inbox.
Context `{OpenMls, Crypto, UriParser, AuthorityHost, Transport}.
Context {St : Type} `{RecordStore St, RecordScan St}.
Context `{JsonCodec SessionSnapshot, JsonCodec AttachmentDescriptor, JsonCodec WireEnvelope}.
Context `{JsonCodec (gmap string DeliveryRecord), JsonCodec DirectorySnapshot, JsonCodec Value}.
Context `{JsonCodec MessagePayload, JsonCodec StoredMessage}.
Context `{JsonCodec PostResponse, JsonCodec SyncResponse}.

Definition Svc (A E : Type) : Type := Mut (Services St) A E.

(** Field updates, and operations of one service. *)
Definition set_sx_authority (v : InviteAuthority) (s : Services St) : Services St :=
  {| sx_authority := v; sx_catalog := sx_catalog s; sx_store := sx_store s; sx_ledger := sx_ledger s |}.
Definition set_sx_catalog (v : MlsSessionCatalog) (s : Services St) : Services St :=
  {| sx_authority := sx_authority s; sx_catalog := v; sx_store := sx_store s; sx_ledger := sx_ledger s |}.
Definition set_sx_store (v : St) (s : Services St) : Services St :=
  {| sx_authority := sx_authority s; sx_catalog := sx_catalog s; sx_store := v; sx_ledger := sx_ledger s |}.
Definition set_sx_ledger (v : DeliveryLedger) (s : Services St) : Services St :=
  {| sx_authority := sx_authority s; sx_catalog := sx_catalog s; sx_store := sx_store s; sx_ledger := v |}.

Definition on_authority {A E} (m : Mut InviteAuthority A E) : Svc A E :=
  λ s, let '(a, r) := m (sx_authority s) in (set_sx_authority a s, r).
Definition on_attachments {A E} (m : Mut AttachmentState A E) : Svc A E :=
  on_authority (λ a, let '(t, r) := m (au_attachments a) in (set_attachments t a, r)).
Definition on_catalog {A E} (m : Mut MlsSessionCatalog A E) : Svc A E :=
  λ s, let '(c, r) := m (sx_catalog s) in (set_sx_catalog c s, r).
Definition on_store {A E} (m : Mut St A E) : Svc A E :=
  λ s, let '(st, r) := m (sx_store s) in (set_sx_store st s, r).
Definition on_ledger {A E} (m : Mut DeliveryLedger A E) : Svc A E :=
  λ s, let '(l, r) := m (sx_ledger s) in (set_sx_ledger l s, r).

Definition persist_ledger : Svc unit StorageError :=
  λ s, on_store (DeliveryLedger.persist (sx_ledger s)) s.

(** ** One item *)

(** The envelope of an item and its digest, after the checks. *)
Definition check_item (capability : string) (now : N) (item : RelayItem)
  : result (RelayEnvelope * string) RelayError :=
  let? wire := ok_or (strip_prefix "ADENV1." (rit_envelope item)) InvalidResponse in
  let? envelope := map_err (λ _, InvalidResponse) (from_wire wire now) in
  if negb (seqb (re_mailbox envelope) capability)
     || negb (seqb (hex_bytes (sha256 (as_bytes (rit_envelope item)))) (rit_id item))
  then Err InvalidResponse
  else
    let? d := map_err (λ _, InvalidResponse) (digest envelope) in Ok (envelope, d).

(** The contact directory with the preview of a message, if the conversation has a contact. *)
Definition stage_preview (conversation_id : string) (text : bytes) (now : N)
  : Svc (list RecordMutation) RelayError :=
  let! staged := attempt (on_authority (stage_contact_message conversation_id text now true)) in
  match staged with
  | Err _ => mut_ret []
  | Ok _ =>
    let! contents := λ s, (s, map_err (λ _, InvalidResponse)
                               (snapshot_bytes (au_contacts (sx_authority s)))) in
    mut_ret [Put Contact CONTACTS_KEY contents]
  end.

Definition attachment_text : bytes := as_bytes "[encrypted attachment]".

(** The records of a decrypted message or attachment. *)
Definition stage_plaintext (conversation_id digest : string) (plaintext : bytes) (now : N)
  : Svc (list RecordMutation) RelayError :=
  match attachment_descriptor_from_plaintext plaintext with
  | Some descriptor =>
    let! encoded :=
      or_err InvalidResponse (on_attachments (stage_received_attachment digest descriptor)) in
    let! preview := stage_preview conversation_id attachment_text now in
    mut_ret (Put Attachment (received_key digest) encoded :: preview)
  | None =>
    match decode_message_payload plaintext with
    | None => mut_ret []
    | Some message =>
      if (mp_expires_at message =? 0)%N || (now <? mp_expires_at message)%N then
        let! record := mut_lift (map_err (λ _, InvalidResponse)
                         (encoded_message_record conversation_id message "incoming")) in
        let! preview := stage_preview conversation_id (as_bytes (mp_text message)) now in
        mut_ret (Put Message record.1 record.2 :: preview)
      else mut_ret []
    end
  end.

(** What is undone when the batch is refused: the session is sealed, and what the store holds
    replaces the contacts, the received attachments and the ledger. *)
Definition roll_back (conversation_id : string) (s : Services St) : Services St :=
  let s := set_sx_catalog (poison conversation_id (sx_catalog s)) s in
  let s := (on_authority (restore_contacts (sx_store s)) s).1 in
  let s := (on_attachments (restore_received_attachments (sx_store s)) s).1 in
  match DeliveryLedger.restore (sx_store s) with
  | Ok restored => set_sx_ledger restored s
  | Err _ => s
  end.

Definition apply_batch_or_roll_back {E} (e : E) (conversation_id : string)
    (mutations : list RecordMutation) : Svc unit E :=
  λ s,
    match on_store (store_batch mutations) s with
    | (s, Ok _) => (s, Ok tt)
    | (s, Err _) => (roll_back conversation_id s, Err e)
    end.

(** The ledger, and the batch. *)
Definition commit_delivery (conversation_id digest relay_id : string) (checkpoint : bytes)
    (staged : list RecordMutation) : Svc bool RelayError :=
  let! _ := or_err InvalidResponse (on_ledger (register_recipient_received digest relay_id)) in
  let! _ := or_err InvalidResponse (on_ledger (mark_decrypted digest)) in
  let! encoded := λ s, (s, map_err (λ _, InvalidResponse) (encoded_bytes (sx_ledger s))) in
  let! _ := apply_batch_or_roll_back InvalidResponse conversation_id
              (Put ProtocolSession (session_key conversation_id) checkpoint
               :: staged ++ [Put Outbox LEDGER_KEY encoded]) in
  mut_ret true.

Definition stage_received (conversation_id digest : string) (plaintext : option bytes) (now : N)
  : Svc (list RecordMutation) RelayError :=
  match plaintext with
  | Some plaintext => stage_plaintext conversation_id digest plaintext now
  | None => mut_ret []
  end.

(** One conversation tries to decrypt the item; [false] when it cannot. *)
Definition deliver_to (conversation_id : string) (envelope : RelayEnvelope) (digest relay_id : string)
    (now : N) : Svc bool RelayError :=
  let! received := attempt (on_catalog
    (receive_delivery_unpersisted conversation_id (re_ciphertext envelope))) in
  match received with
  | Err _ => mut_ret false
  | Ok plaintext =>
    let! checkpoint := λ s, (s, map_err (λ _, InvalidResponse)
                                 (checkpoint_bytes conversation_id (sx_catalog s))) in
    let! staged := stage_received conversation_id digest plaintext now in
    commit_delivery conversation_id digest relay_id checkpoint staged
  end.

Fixpoint deliver_any (conversation_ids : list string) (envelope : RelayEnvelope)
    (digest relay_id : string) (now : N) : Svc bool RelayError :=
  match conversation_ids with
  | [] => mut_ret false
  | id :: rest =>
    let! delivered := deliver_to id envelope digest relay_id now in
    if (delivered : bool) then mut_ret true else deliver_any rest envelope digest relay_id now
  end.

Definition known_state (states : list DeliveryState) (digest : string) (l : DeliveryLedger) : bool :=
  match l !! digest with Some r => existsb (λ s, state_is s r) states | None => false end.

(** Whether the item was decrypted now, and whether the relay may drop it. *)
Definition process_item (conversation_ids : list string) (capability : string) (now : N)
    (item : RelayItem) : Svc (bool * bool) RelayError :=
  let! checked := mut_lift (check_item capability now item) in
  let '(envelope, digest) := checked in
  let! ledger := λ s, (s, Ok (sx_ledger s)) in
  if known_state [Decrypted] digest ledger then mut_ret (false, true)
  else
    let! delivered := deliver_any conversation_ids envelope digest (rit_id item) now in
    mut_ret (delivered, delivered).

Fixpoint process_each (conversation_ids : list string) (capability : string) (now : N)
    (items : list RelayItem) : Svc (nat * list string) RelayError :=
  match items with
  | [] => mut_ret (0, [])
  | item :: rest =>
    let! done := process_item conversation_ids capability now item in
    let! others := process_each conversation_ids capability now rest in
    mut_ret ((if (done.1 : bool) then 1 else 0) + others.1,
             (if (done.2 : bool) then [rit_id item] else []) ++ others.2)
  end.

Definition process_inbox_items (capability : string) (items : list RelayItem) (now : N)
  : Svc (nat * list string) RelayError :=
  let! ids := λ s, (s, Ok (conversation_ids (sx_catalog s))) in
  let! result := process_each ids capability now items in
  let! _ := or_err InvalidResponse persist_ledger in
  mut_ret result.

(** ** The request of one conversation ([process_sync_items]) *)

Definition validate_sync_item (capability : string) (now : N) (item : RelayItem)
  : result (string * RelayEnvelope) bytes :=
  let bad := json_error 502 "invalid_relay_envelope" in
  let? wire := ok_or (strip_prefix "ADENV1." (rit_envelope item)) bad in
  let? envelope := map_err (λ _, bad) (from_wire wire now) in
  if negb (seqb (re_mailbox envelope) capability)
     || negb (seqb (hex_bytes (sha256 (as_bytes (rit_envelope item)))) (rit_id item))
  then Err bad
  else Ok (rit_id item, envelope).

Fixpoint validate_sync_items (capability : string) (now : N) (items : list RelayItem)
  : result (list (string * RelayEnvelope)) bytes :=
  match items with
  | [] => Ok []
  | item :: rest =>
    let? valid := validate_sync_item capability now item in
    let? others := validate_sync_items capability now rest in
    Ok (valid :: others)
  end.

(** [result.map_err(|_| { catalog.poison(conversation_id); reply })]. *)
Definition or_poison {A E} (conversation_id : string) (reply : bytes) (m : Svc A E) : Svc A bytes :=
  λ s,
    match m s with
    | (s, Ok a) => (s, Ok a)
    | (s, Err _) => (set_sx_catalog (poison conversation_id (sx_catalog s)) s, Err reply)
    end.

(** Here a directory that cannot be encoded is left out of the batch. *)
Definition stage_sync_preview (conversation_id : string) (text : bytes) (now : N) (background : bool)
  : Svc (list RecordMutation) bytes :=
  let! staged :=
    attempt (on_authority (stage_contact_message conversation_id text now background)) in
  match staged with
  | Err _ => mut_ret []
  | Ok _ => λ s, (s, Ok (match snapshot_bytes (au_contacts (sx_authority s)) with
                         | Ok contents => [Put Contact CONTACTS_KEY contents]
                         | Err _ => []
                         end))
  end.

Definition json_field (name value : string) : string :=
  quote +:+ name +:+ quote +:+ ":" +:+ value.
Definition json_str (value : string) : string := quote +:+ json_escape value +:+ quote.
(** [{"a":..,"b":..}]. *)
Definition json_object (fields : list (string * string)) : string :=
  "{" +:+ join 44 (map (λ f, json_field f.1 f.2) fields) +:+ "}".
Definition json_of_bool (b : bool) : string := if b then "true" else "false".

Definition rendered_text (relay_id digest : string) (message : option MessagePayload) (expired : bool)
    (display_text : bytes) : string :=
  "{" +:+ join 44
    ([json_field "id" (json_str relay_id); json_field "digest" (json_str digest);
      json_field "plaintext" (quote +:+ (if expired then EmptyString else hex_bytes display_text) +:+ quote)]
     ++ match message with
        | Some m => [json_field "message_id" (json_str (mp_id m));
                     json_field "created_at" (u64_to_string (mp_created_at m));
                     json_field "expires_at" (u64_to_string (mp_expires_at m));
                     json_field "expired" (json_of_bool expired)]
        | None => []
        end) +:+ " }".

Definition message_expired (now : N) (message : option MessagePayload) : bool :=
  match message with
  | Some m => negb (mp_expires_at m =? 0)%N && (mp_expires_at m <=? now)%N
  | None => false
  end.

Definition stage_message_record (conversation_id : string) (message : option MessagePayload)
    (expired : bool) : Svc (list RecordMutation) bytes :=
  match message with
  | Some m =>
    if negb expired then
      let! record := or_poison conversation_id (response 503 "message_storage_unavailable" None None)
                       (mut_lift (encoded_message_record conversation_id m "incoming")) in
      mut_ret [Put Message record.1 record.2]
    else mut_ret []
  | None => mut_ret []
  end.

(** The records of a plaintext, and what the user interface is told. *)
Definition stage_sync_plaintext (conversation_id relay_id digest : string) (plaintext : bytes)
    (now : N) (background : bool) : Svc (list RecordMutation * string) bytes :=
  match attachment_descriptor_from_plaintext plaintext with
  | Some descriptor =>
    let! encoded := or_poison conversation_id (response 503 "attachment_state_unavailable" None None)
                      (on_attachments (stage_received_attachment digest descriptor)) in
    let! preview := stage_sync_preview conversation_id attachment_text now background in
    mut_ret (Put Attachment (received_key digest) encoded :: preview,
             json_object [("id", json_str relay_id); ("digest", json_str digest);
                          ("attachment_id", json_str digest)])
  | None =>
    let message := decode_message_payload plaintext in
    let expired := message_expired now message in
    let display_text := match message with Some m => as_bytes (mp_text m) | None => plaintext end in
    let! record := stage_message_record conversation_id message expired in
    let! preview :=
      if negb expired then stage_sync_preview conversation_id display_text now background
      else mut_ret [] in
    mut_ret (record ++ preview, rendered_text relay_id digest message expired display_text)
  end.

Definition stage_sync_received (conversation_id relay_id digest : string) (plaintext : option bytes)
    (now : N) (background : bool) : Svc (list RecordMutation * list string) bytes :=
  match plaintext with
  | Some plaintext =>
    let! staged := stage_sync_plaintext conversation_id relay_id digest plaintext now background in
    mut_ret (staged.1, [staged.2])
  | None => mut_ret ([], [])
  end.

Definition process_sync_item (conversation_id : string) (background : bool) (now : N)
    (relay_id : string) (envelope : RelayEnvelope) : Svc (list string) bytes :=
  let! digest := mut_lift (map_err (λ _, json_error 502 "invalid_relay_envelope") (digest envelope)) in
  let! ledger := λ s, (s, Ok (sx_ledger s)) in
  if known_state [RecipientReceived; Decrypted] digest ledger then mut_ret []
  else
    let! plaintext := or_err (json_error 409 "message_decrypt_failed")
      (on_catalog (receive_delivery_unpersisted conversation_id (re_ciphertext envelope))) in
    let! checkpoint := or_poison conversation_id (response 503 "session_storage_unavailable" None None)
      (λ s, (s, checkpoint_bytes conversation_id (sx_catalog s))) in
    let! staged := stage_sync_received conversation_id relay_id digest plaintext now background in
    let unavailable := response 503 "delivery_state_unavailable" None None in
    let! _ := or_poison conversation_id unavailable
                (on_ledger (register_recipient_received digest relay_id)) in
    let! _ := or_poison conversation_id unavailable (on_ledger (mark_decrypted digest)) in
    let! encoded := λ s, (s, map_err (λ _, unavailable) (encoded_bytes (sx_ledger s))) in
    let! _ := apply_batch_or_roll_back (response 503 "message_storage_unavailable" None None)
                conversation_id
                (Put ProtocolSession (session_key conversation_id) checkpoint
                 :: staged.1 ++ [Put Outbox LEDGER_KEY encoded]) in
    mut_ret staged.2.

Record SyncProcessResult := { sp_acknowledged_ids : list string; sp_messages : list string }.

Fixpoint process_sync_each (conversation_id : string) (background : bool) (now : N)
    (items : list (string * RelayEnvelope)) : Svc SyncProcessResult bytes :=
  match items with
  | [] => mut_ret {| sp_acknowledged_ids := []; sp_messages := [] |}
  | (relay_id, envelope) :: rest =>
    let! message := process_sync_item conversation_id background now relay_id envelope in
    let! others := process_sync_each conversation_id background now rest in
    mut_ret {| sp_acknowledged_ids := relay_id :: sp_acknowledged_ids others;
               sp_messages := message ++ sp_messages others |}
  end.

Definition process_sync_items (conversation_id : string) (background : bool) (capability : string)
    (items : list RelayItem) (now : N) : Svc SyncProcessResult bytes :=
  let! valid := mut_lift (validate_sync_items capability now items) in
  process_sync_each conversation_id background now valid.
End inbox.
