(* ===== verification/InboxProps.v ===== *)
(** * Properties of receiving messages

    An item is acknowledged to the relay only when its delivery is in the store; a delivery
    commits the session, the ledger and the message together or undoes them together; and one
    item that fails the checks holds up all others. *)
From Stdlib Require Import Ascii NArith Lia ZifyBool ZifyN.
From stdpp Require Import base gmap strings list.
From S2P Require Import Prelude Text Collections Interfaces Hoare Fs StoreFormat Storage RecordStore TableStore DeliveryLedger RelayEnvelope Trust Invite Pairing Contacts Attachment MessageService MlsProvider MlsSession MlsSessionProps RelayClient Http Authority AuthorityProps Inbox.

Section props.
Context `{HM : OpenMls, HC : Crypto}.
Context {St : Type} `{HS : RecordStore St} {HSL : RecordStoreLaws St} `{HSc : RecordScan St}.
Context `{HJs : JsonCodec SessionSnapshot, HJa : JsonCodec AttachmentDescriptor, HJw : JsonCodec WireEnvelope}.
Context `{HJl : JsonCodec (gmap string DeliveryRecord), HJd : JsonCodec DirectorySnapshot}.
Context `{HJm : JsonCodec MessagePayload, HJr : JsonCodec StoredMessage}.
Implicit Types s : Services St.

(** ** What each part leaves alone *)

(** The sessions, the store and the ledger are as in [s0]. *)
Definition same_core s0 s : Prop :=
  sx_catalog s = sx_catalog s0 ∧ sx_store s = sx_store s0 ∧ sx_ledger s = sx_ledger s0.

Lemma on_authority_core {A E} s0 (m : Mut InviteAuthority A E) : stable (same_core s0) (on_authority m).
Proof using Type.
  intros s Hs. unfold on_authority. destruct (m _) as [a [v|e]]; exact Hs.
Qed.
Lemma attempt_stable {A E F} (P : Services St → Prop) (m : Svc A E) :
  stable P m → stable P (attempt m : Svc _ F).
Proof using Type. intros Hm s Hs. specialize (Hm s Hs). unfold attempt. by destruct (m s) as [s' []]. Qed.
Lemma or_err_stable {A E F} (P : Services St → Prop) (e : F) (m : Svc A E) :
  stable P m → stable P (or_err e m).
Proof using Type. intros Hm s Hs. specialize (Hm s Hs). unfold or_err. by destruct (m s) as [s' []]. Qed.
Hint Resolve on_authority_core attempt_stable or_err_stable : hoare.

Ltac core := repeat first
  [ apply stable_bind; [|intros] | apply stable_ret | apply stable_lift | apply stable_read
  | apply attempt_stable | apply or_err_stable | apply on_authority_core | case_match ].

(** Records of neither the sessions nor the ledger. *)
Definition side_records (ms : list RecordMutation) : Prop :=
  Forall (λ m, (mutation_key m).1 ≠ ProtocolSession ∧ (mutation_key m).1 ≠ Outbox) ms.
Lemma side_put c k v ms :
  c ≠ ProtocolSession → c ≠ Outbox → side_records ms → side_records (Put c k v :: ms).
Proof using Type. by constructor. Qed.

(** Staging answers with such records, and leaves the rest. *)
Definition stages {E} s0 (m : Svc (list RecordMutation) E) : Prop :=
  triple (same_core s0) m (λ ms s, same_core s0 s ∧ side_records ms) (λ _, same_core s0).

Lemma stages_bind {A E} s0 (m : Svc A E) k :
  stable (same_core s0) m → (∀ a, stages s0 (k a)) → stages s0 (mut_bind m k).
Proof using Type. intros Hm Hk. eapply triple_bind; [apply Hm|apply Hk]. Qed.
Lemma stages_ret {E} s0 ms : side_records ms → stages s0 (mut_ret ms : Svc _ E).
Proof using Type. by intros ? s. Qed.
Lemma stages_then {E} s0 (m : Svc (list RecordMutation) E) c k v :
  c ≠ ProtocolSession → c ≠ Outbox → stages s0 m →
  stages s0 (mut_bind m (λ ms, mut_ret (Put c k v :: ms))).
Proof using Type.
  intros Hc Hc' Hm. eapply triple_bind; [apply Hm|]. intros ms. apply triple_ret.
  intros s [? ?]. split; [done|]. by apply side_put.
Qed.

Lemma stage_preview_stages s0 c t n : stages s0 (stage_preview c t n).
Proof using Type.
  unfold stage_preview. apply stages_bind; [core|]. intros []; [|by apply stages_ret; constructor].
  apply stages_bind; [core|]. intros b. apply stages_ret. by apply side_put; [..|constructor].
Qed.
Lemma stage_plaintext_stages s0 c d p n : stages s0 (stage_plaintext c d p n).
Proof using Type.
  unfold stage_plaintext, on_attachments. destruct (attachment_descriptor_from_plaintext p).
  - apply stages_bind; [core|]. intros b. apply stages_then; [done..|]. apply stage_preview_stages.
  - destruct (decode_message_payload p) as [m|]; [|by apply stages_ret; constructor].
    destruct (_ || _); [|by apply stages_ret; constructor].
    apply stages_bind; [core|]. intros r. apply stages_then; [done..|]. apply stage_preview_stages.
Qed.

(** ** What a delivery records *)

(** The preview in the directory: of the contact of the conversation, if it has one. *)
Definition preview_in (c : string) (text : bytes) (now : N) s s' (v : view) : Prop :=
  match record_message c (message_preview text) now true (au_contacts (sx_authority s)) with
  | (directory, Ok _) =>
    au_contacts (sx_authority s') = directory ∧
    ∃ b, snapshot_bytes directory = Ok b ∧ v Contact CONTACTS_KEY = Some b
  | (_, Err _) => au_contacts (sx_authority s') = au_contacts (sx_authority s)
  end.

(** What the plaintext of an item leaves behind: a descriptor, or a message that is not expired,
    with its preview; anything else leaves nothing. *)
Definition content_in (c d : string) (p : option bytes) (now : N) s s' (v : view) : Prop :=
  match p with
  | None => sx_authority s' = sx_authority s
  | Some text =>
    match attachment_descriptor_from_plaintext text, decode_message_payload text with
    | Some descriptor, _ =>
      as_received (au_attachments (sx_authority s')) !! d = Some descriptor ∧
      (∃ b, json_to_vec descriptor = Some b ∧ v Attachment (received_key d) = Some b) ∧
      preview_in c attachment_text now s s' v
    | None, Some m =>
      if (mp_expires_at m =? 0)%N || (now <? mp_expires_at m)%N then
        (∃ record, encoded_message_record c m "incoming" = Ok record ∧ v Message record.1 = Some record.2) ∧
        preview_in c (as_bytes (mp_text m)) now s s' v
      else sx_authority s' = sx_authority s
    | None, None => sx_authority s' = sx_authority s
    end
  end.
(** The records that may change: the session, the ledger, the directory and the content. *)
Definition delivery_keys (c d : string) (p : option bytes) : list (RecordClass * string) :=
  (ProtocolSession, session_key c) :: (Outbox, LEDGER_KEY) :: (Contact, CONTACTS_KEY)
  :: match p with
     | None => []
     | Some text =>
       match attachment_descriptor_from_plaintext text, decode_message_payload text with
       | Some _, _ => [(Attachment, received_key d)]
       | None, Some m => [(Message, message_record_key c (mp_id m))]
       | None, None => []
       end
     end.

Lemma view_batch_app ms ms' f : view_batch (ms ++ ms') f = view_batch ms' (view_batch ms f).
Proof using Type. revert f. induction ms as [|[]]; intros f; cbn; auto. Qed.

Lemma preview_in_ext c t n s s' v v' :
  v' Contact CONTACTS_KEY = v Contact CONTACTS_KEY → preview_in c t n s s' v → preview_in c t n s s' v'.
Proof using Type. unfold preview_in. by intros ->. Qed.
Lemma content_in_ext c d p n s s' v v' :
  (∀ cl k, cl ≠ ProtocolSession → cl ≠ Outbox → v' cl k = v cl k) →
  content_in c d p n s s' v → content_in c d p n s s' v'.
Proof using Type.
  intros Hv. unfold content_in. destruct p as [text|]; [|done].
  destruct (attachment_descriptor_from_plaintext text).
  - intros (? & (b & ? & E) & Hp). split; [done|]. split; [exists b; by rewrite Hv|].
    eapply preview_in_ext; [|done]. by apply Hv.
  - destruct (decode_message_payload text); [|done]. destruct (_ || _); [|done].
    intros [(r & ? & E) Hp]. split; [exists r; by rewrite Hv|]. eapply preview_in_ext; [|done]. by apply Hv.
Qed.

Lemma stage_preview_ok c t n s s' ms f :
  stage_preview c t n s = (s', Ok ms) →
  preview_in c t n s s' (view_batch ms f) ∧ au_attachments (sx_authority s') = au_attachments (sx_authority s) ∧
  (∀ cl k, cl ≠ Contact → view_batch ms f cl k = f cl k) ∧
  Forall (λ m, mutation_key m = (Contact, CONTACTS_KEY)) ms.
Proof using Type.
  unfold stage_preview, mut_bind, attempt, on_authority, stage_contact_message, preview_in.
  destruct (record_message c (message_preview t) n true (au_contacts (sx_authority s))) as [dir [[]|e]] eqn:E.
  - cbn [set_sx_authority sx_authority set_contacts au_contacts].
    destruct (snapshot_bytes dir) as [b|] eqn:Eb; [|done]. cbn [map_err mut_ret]. intros [= <- <-].
    cbn. split; [split; [done|]; exists b; by rewrite view_update_eq|]. split; [done|].
    split; [|by constructor]. intros cl k Hc. rewrite view_update_ne; [done|]. by intros [= ? _].
  - intros [= <- <-]. cbn. split; [|by split_and!]. unfold record_message in E.
    destruct (find_first _ _) as [[]|]; by simplify_eq.
Qed.

Lemma stage_received_ok c d p n s s' ms f :
  stage_received c d p n s = (s', Ok ms) →
  content_in c d p n s s' (view_batch ms f) ∧ Forall (λ m, mutation_key m ∈ delivery_keys c d p) ms.
Proof using Type.
  unfold stage_received, stage_plaintext, content_in, delivery_keys. destruct p as [text|]; [|by intros [= <- <-]].
  assert (∀ ms' l, Forall (λ m, mutation_key m = (Contact, CONTACTS_KEY)) ms' →
    Forall (λ m, mutation_key m ∈ (ProtocolSession, session_key c) :: (Outbox, LEDGER_KEY) :: (Contact, CONTACTS_KEY) :: l) ms')
    as Hkeys by (intros ms' l Hf; eapply Forall_impl; [exact Hf|]; intros m ->; set_solver).
  destruct (attachment_descriptor_from_plaintext text) as [descriptor|].
  - unfold mut_bind at 1, or_err, on_attachments, on_authority, stage_received_attachment.
    destruct (json_to_vec descriptor) as [b|] eqn:Eb; [|done]. cbn [map_err]. unfold mut_bind.
    destruct (stage_preview _ _ _ _) as [s1 [pre|]] eqn:E1; [|done]. cbn [mut_ret]. intros [= <- <-].
    destruct (stage_preview_ok _ _ _ _ _ _ (view_update Attachment (received_key d) (Some b) f) E1) as (Hp & Ha & Hv & Hk).
    cbn [view_batch]. split; [|constructor; [cbn; set_solver|by apply Hkeys]]. split.
    { rewrite Ha. cbn. by rewrite lookup_insert_eq. }
    split; [|exact Hp]. exists b. split; [done|]. by rewrite Hv, view_update_eq.
  - destruct (decode_message_payload text) as [m|]; [|by intros [= <- <-]].
    destruct (_ || _); [|by intros [= <- <-]]. unfold mut_bind at 1, mut_lift.
    destruct (encoded_message_record c m "incoming") as [r|] eqn:Er; [|done]. cbn [map_err]. unfold mut_bind.
    destruct (stage_preview _ _ _ _) as [s1 [pre|]] eqn:E1; [|done]. cbn [mut_ret]. intros [= <- <-].
    destruct (stage_preview_ok _ _ _ _ _ _ (view_update Message r.1 (Some r.2) f) E1) as (Hp & Ha & Hv & Hk).
    cbn [view_batch]. split; [|constructor; [|by apply Hkeys]].
    + split; [|exact Hp]. exists r. split; [done|]. by rewrite Hv, view_update_eq.
    + unfold encoded_message_record in Er. destruct (ok_or _ _); [|done]. injection Er as <-. cbn. set_solver.
Qed.

(** ** One delivery *)

Definition decrypted (d : string) (l : DeliveryLedger) : Prop :=
  ∃ r, l !! d = Some r ∧ dr_state r = Decrypted.

(** The ledger, or the session of a conversation, is in the store as it is in memory. *)
Definition ledger_saved s : Prop :=
  ∃ b, encoded_bytes (sx_ledger s) = Ok b ∧ store_get (sx_store s) Outbox LEDGER_KEY = Some b.
Definition session_saved (c : string) s : Prop :=
  ∃ b, checkpoint_bytes c (sx_catalog s) = Ok b ∧
       store_get (sx_store s) ProtocolSession (session_key c) = Some b.

(** What receiving does to the ledger, when it succeeds. *)
Lemma receive_ledger d id l l1 b1 l2 b2 :
  register_recipient_received d id l = (l1, Ok b1) → mark_decrypted d l1 = (l2, Ok b2) →
  decrypted d l2 ∧ ∀ d', decrypted d' l → decrypted d' l2.
Proof using Type.
  unfold register_recipient_received, mark_decrypted, with_record, decrypted.
  destruct (is_empty_str d); [done|]. intros H1 H2.
  assert (Hmono : ∀ d', (∃ r, l !! d' = Some r ∧ dr_state r = Decrypted) →
                        ∃ r, l1 !! d' = Some r ∧ dr_state r = Decrypted).
  { intros d' (r & Hr & Hd). destruct (l !! d) as [r0|] eqn:E0; simplify_eq; [eauto|].
    exists r. split; [|done]. rewrite lookup_insert_ne; [done|]. by intros ->; simplify_eq. }
  destruct (l1 !! d) as [r|] eqn:Er; [|done].
  assert (∃ r', dr_state r' = Decrypted ∧ l2 = <[d := r']> l1) as (r' & Hr' & ->).
  { destruct (dr_state r) eqn:Es; simplify_eq; eexists; (split; [|done]); done. }
  split; [exists r'; by rewrite lookup_insert_eq|].
  intros d' (r0 & Hr0 & Hs0)%Hmono. destruct (decide (d' = d)) as [->|Hne].
  - exists r'. by rewrite lookup_insert_eq.
  - exists r0. by rewrite lookup_insert_ne.
Qed.

(** The last two mutations of a batch do not overwrite one another's records. *)
Lemma batch_first_last c b staged e f :
  side_records staged →
  let v := view_batch (Put ProtocolSession c b :: staged ++ [Put Outbox LEDGER_KEY e]) f in
  v ProtocolSession c = Some b ∧ v Outbox LEDGER_KEY = Some e.
Proof using Type.
  intros Hs v. subst v. cbn [view_batch].
  generalize (view_update ProtocolSession c (Some b) f), (view_update_eq ProtocolSession c (Some b) f).
  clear f. intros f Hf. revert f Hf. induction Hs as [|m staged Hm _ IH]; intros f Hf.
  - cbn. rewrite view_update_eq, view_update_ne by done. done.
  - rewrite <-app_comm_cons, view_batch_cons. apply IH. rewrite view_update_ne; [done|].
    intros [= E _]. by destruct Hm as [? _].
Qed.

(** A session that was advanced past a checkpoint that is not in the store. *)
Definition sealed_session (c : string) s : Prop :=
  ∀ ses, mc_sessions (sx_catalog s) !! c = Some ses → ms_poisoned ses = true.
(** The contacts and the ledger are those a restart would read. *)
Definition as_after_restart s : Prop :=
  (∀ d, contacts_restore (sx_store s) = Ok d → au_contacts (sx_authority s) = d) ∧
  (∀ l, DeliveryLedger.restore (sx_store s) = Ok l → sx_ledger s = l).

Lemma roll_back_spec c s :
  sx_store (roll_back c s) = sx_store s ∧ sealed_session c (roll_back c s) ∧
  as_after_restart (roll_back c s).
Proof using Type.
  unfold roll_back, on_attachments, on_authority. cbn [set_sx_catalog sx_store sx_authority].
  destruct (restore_contacts _ _) as [a1 r1] eqn:E1. cbn [fst set_sx_authority sx_store sx_authority].
  destruct (restore_received_attachments _ _) as [t2 r2] eqn:E2. cbn [fst set_sx_authority sx_store sx_authority].
  assert (Hc : ∀ d, contacts_restore (sx_store s) = Ok d → au_contacts a1 = d).
  { unfold restore_contacts in E1. intros d Hd. rewrite Hd in E1. by simplify_eq. }
  assert (Hp : ∀ l, sealed_session c (set_sx_ledger l
    {| sx_authority := set_attachments t2 a1; sx_catalog := poison c (sx_catalog s);
       sx_store := sx_store s; sx_ledger := sx_ledger s |})).
  { intros l ses. cbn. rewrite lookup_alter_eq. destruct (_ !! c); [|done]. by intros [= <-]. }
  change (sx_store (set_sx_catalog (poison c (sx_catalog s)) s)) with (sx_store s).
  destruct (DeliveryLedger.restore (sx_store s)) as [l|e] eqn:E3.
  - split; [done|]. split; [apply Hp|]. split; [exact Hc|]. intros l' Hl'. cbn in Hl'. cbn. congruence.
  - split; [done|]. split; [apply (Hp (sx_ledger s))|]. split; [exact Hc|]. intros l' Hl'. cbn in Hl'. congruence.
Qed.

(** What a batch that failed leaves: the records as they were, or what the mutations before the
    one that was refused made of them. *)
Definition batch_left (ms : list RecordMutation) s s' : Prop :=
  ∃ before after, ms = before ++ after ∧ stopped before after ∧
    ∀ cl k, store_get (sx_store s') cl k = view_batch before (store_get (sx_store s)) cl k.

Lemma batch_left_keys (ks : list (RecordClass * string)) ms s s' :
  Forall (λ m, mutation_key m ∈ ks) ms → batch_left ms s s' →
  (∀ cl k, (cl, k) ∉ ks → store_get (sx_store s') cl k = store_get (sx_store s) cl k) ∧
  ((∀ cl k, store_get (sx_store s') cl k = store_get (sx_store s) cl k)
   ∨ ∃ m, mutation_key m ∈ ks ∧ mutation_ok m = false).
Proof using Type.
  intros Hk (before & after & -> & Hst & Hv). apply Forall_app in Hk as [Hb Ha]. split.
  - intros cl k Hn. rewrite Hv. apply view_batch_untouched. intros m Hm E.
    rewrite Forall_forall in Hb. apply Hn. rewrite <-E. by apply Hb.
  - destruct Hst as [->|(m & rest & -> & Hm)]; [by left|right]. apply Forall_cons in Ha as [? _]. by exists m.
Qed.

Lemma batch_spec_svc {E} (e : E) c ms s s' r :
  store_inv (sx_store s) → apply_batch_or_roll_back e c ms s = (s', r) →
  store_inv (sx_store s') ∧
  match r with
  | Ok _ => sx_catalog s' = sx_catalog s ∧ sx_ledger s' = sx_ledger s ∧ sx_authority s' = sx_authority s ∧
            ∀ cl k, store_get (sx_store s') cl k = view_batch ms (store_get (sx_store s)) cl k
  | Err e' => e' = e ∧ batch_left ms s s' ∧ sealed_session c s' ∧ as_after_restart s'
  end.
Proof using HSL.
  intros Hi. unfold apply_batch_or_roll_back, on_store.
  destruct (store_batch ms (sx_store s)) as [st [[]|e0]] eqn:Eb; intros [= <- <-].
  - split; [by eapply store_batch_inv in Eb|]. cbn. split_and!; [done..|]. by eapply store_batch_ok.
  - match goal with |- context [roll_back c ?x] => destruct (roll_back_spec c x) as (Hs & ? & ?) end.
    rewrite Hs. split; [by eapply store_batch_inv in Eb|]. split_and!; [done| |done|done].
    unfold batch_left. rewrite Hs. by apply store_batch_stop in Eb.
Qed.

(** The outcomes of a delivery. *)
Inductive delivery_outcome (c : string) (env : RelayEnvelope) (d : string) (now : N) s
  : Services St → result bool RelayError → Prop :=
| delivered_now p s' :
    receive_delivery_unpersisted c (re_ciphertext env) (sx_catalog s) = (sx_catalog s', Ok p) →
    session_saved c s' → ledger_saved s' → decrypted d (sx_ledger s') →
    (∀ d', decrypted d' (sx_ledger s) → decrypted d' (sx_ledger s')) →
    content_in c d p now s s' (store_get (sx_store s')) →
    (∀ cl k, (cl, k) ∉ delivery_keys c d p → store_get (sx_store s') cl k = store_get (sx_store s) cl k) →
    delivery_outcome c env d now s s' (Ok true)
| not_for_this_session s' e :
    receive_delivery_unpersisted c (re_ciphertext env) (sx_catalog s) = (sx_catalog s', Err e) →
    sx_store s' = sx_store s → sx_ledger s' = sx_ledger s → sx_authority s' = sx_authority s →
    delivery_outcome c env d now s s' (Ok false)
| gave_up_before_writing s' e : sx_store s' = sx_store s → delivery_outcome c env d now s s' (Err e)
| undone p s' e :
    (receive_delivery_unpersisted c (re_ciphertext env) (sx_catalog s)).2 = Ok p →
    (∀ cl k, (cl, k) ∉ delivery_keys c d p → store_get (sx_store s') cl k = store_get (sx_store s) cl k) →
    (∀ cl k, store_get (sx_store s') cl k = store_get (sx_store s) cl k)
    ∨ (∃ m, mutation_key m ∈ delivery_keys c d p ∧ mutation_ok m = false) →
    sealed_session c s' → as_after_restart s' → delivery_outcome c env d now s s' (Err e).

Lemma commit_delivery_spec c d id b staged s s' r :
  store_inv (sx_store s) → side_records staged → checkpoint_bytes c (sx_catalog s) = Ok b →
  commit_delivery c d id b staged s = (s', r) →
  store_inv (sx_store s') ∧
  match r with
  | Ok ok =>
    ok = true ∧ sx_catalog s' = sx_catalog s ∧ sx_authority s' = sx_authority s ∧
    session_saved c s' ∧ ledger_saved s' ∧ decrypted d (sx_ledger s') ∧
    (∀ d', decrypted d' (sx_ledger s) → decrypted d' (sx_ledger s')) ∧
    ∃ e, ∀ cl k, store_get (sx_store s') cl k
      = view_batch (Put ProtocolSession (session_key c) b :: staged ++ [Put Outbox LEDGER_KEY e])
          (store_get (sx_store s)) cl k
  | Err _ => sx_store s' = sx_store s ∨
    (∃ e, batch_left (Put ProtocolSession (session_key c) b :: staged ++ [Put Outbox LEDGER_KEY e]) s s') ∧
    sealed_session c s' ∧ as_after_restart s'
  end.
Proof using HSL.
  intros Hi Hst Hb. unfold commit_delivery, mut_bind, or_err, on_ledger.
  destruct (register_recipient_received d id (sx_ledger s)) as [l1 [b1|e1]] eqn:E1; cbn [map_err];
    [|intros [= <- <-]; split; [done|by left]].
  cbn [set_sx_ledger sx_ledger].
  destruct (mark_decrypted d l1) as [l2 [b2|e2]] eqn:E2; cbn [map_err];
    [|intros [= <- <-]; split; [done|by left]].
  cbn [set_sx_ledger sx_ledger].
  destruct (encoded_bytes l2) as [e|e] eqn:E3; cbn [map_err];
    [|intros [= <- <-]; split; [done|by left]].
  destruct (apply_batch_or_roll_back _ c _ _) as [s4 [[]|e4]] eqn:E4;
    apply batch_spec_svc in E4 as [Hi4 H4]; try done; intros [= <- <-]; (split; [done|]).
  - destruct H4 as (Hc4 & Hl4 & Ha4 & Hv4). destruct (receive_ledger _ _ _ _ _ _ _ E1 E2) as [Hd Hm].
    cbn in Hc4, Hl4, Ha4. destruct (batch_first_last (session_key c) b staged e (store_get (sx_store s)) Hst) as [V1 V2].
    do 3 (split; [done|]). rewrite Hl4. split_and!; [| |done|done|by exists e].
    + exists b. rewrite Hc4. split; [done|]. by rewrite Hv4.
    + exists e. rewrite Hl4. split; [done|]. by rewrite Hv4.
  - destruct H4 as (-> & ? & ? & ?). right. split; [by exists e|done].
Qed.

(** The batch around the staged records changes only the session and the ledger. *)
Lemma batch_around c b staged e f cl k :
  cl ≠ ProtocolSession → cl ≠ Outbox →
  view_batch (Put ProtocolSession c b :: staged ++ [Put Outbox LEDGER_KEY e]) f cl k
  = view_batch staged (view_update ProtocolSession c (Some b) f) cl k.
Proof using Type.
  intros H1 H2. cbn [view_batch]. rewrite view_batch_app. cbn. apply view_update_ne. by intros [= ? _].
Qed.

Lemma deliver_to_spec c env d id now s s' r :
  store_inv (sx_store s) → deliver_to c env d id now s = (s', r) →
  store_inv (sx_store s') ∧ delivery_outcome c env d now s s' r.
Proof using HSL.
  intros Hi. unfold deliver_to. unfold mut_bind at 1, attempt, on_catalog.
  destruct (receive_delivery_unpersisted c (re_ciphertext env) (sx_catalog s)) as [cat [p|e]] eqn:Er.
  2: { intros [= <- <-]. split; [done|]. by econstructor 2. }
  unfold mut_bind at 1. cbn [set_sx_catalog sx_catalog].
  destruct (checkpoint_bytes c cat) as [b|e] eqn:Eb; cbn [map_err].
  2: { intros [= <- <-]. split; [done|]. by constructor 3. }
  set (s1 := set_sx_catalog cat s). assert (Hs : stages s1 (stage_received c d p now)).
  { destruct p; [apply stage_plaintext_stages|by apply stages_ret; constructor]. }
  specialize (Hs s1 ltac:(done)). unfold mut_bind at 1.
  destruct (stage_received c d p now s1) as [s2 [staged|e]] eqn:E2.
  - destruct Hs as [(Hcat & Hstore & Hled) Hside]. intros E.
    apply commit_delivery_spec in E as [Hi' Hr]; [|by rewrite Hstore|done|by rewrite Hcat].
    split; [done|].
    destruct (stage_received_ok _ _ _ _ _ _ _ (view_update ProtocolSession (session_key c) (Some b) (store_get (sx_store s))) E2)
      as [Hcontent Hkeys].
    destruct r as [ok|e].
    2: { destruct Hr as [Hr|[[e' Hl] [? ?]]]; [constructor 3; etrans; [exact Hr|exact Hstore]|].
      apply (batch_left_keys (delivery_keys c d p)) in Hl as [Hf Ho].
      - rewrite Hstore in Hf, Ho. apply (undone _ _ _ _ _ p); try done. by rewrite Er.
      - apply Forall_cons. split; [cbn; set_solver|]. apply Forall_app. split; [done|]. apply Forall_singleton. cbn. set_solver. }
    destruct Hr as (-> & Hc & Ha & Hss & Hls & Hd & Hm & e & Hv). rewrite Hstore in Hv. rewrite Hled in Hm.
    change (sx_store s1) with (sx_store s) in Hv.
    apply (delivered_now _ _ _ _ _ p); try done; [by rewrite Hc, Hcat| |].
    + eapply (content_in_ext _ _ _ _ _ _ _ (store_get (sx_store s'))) in Hcontent;
        [|intros cl k ? ?; by rewrite Hv, batch_around].
      revert Hcontent. unfold content_in, preview_in. by rewrite Ha.
    + intros cl k Hk. rewrite Hv. apply view_batch_untouched. intros m [->|Hm']%elem_of_cons; [set_solver|].
      apply elem_of_app in Hm' as [Hm'|Hm']; [|set_solver]. rewrite Forall_forall in Hkeys. intros Heq.
      apply Hk. rewrite <-Heq. by apply Hkeys.
  - destruct Hs as (_ & Hstore & _). intros [= <- <-]. split; [by rewrite Hstore|]. by constructor 3.
Qed.


(** ** All items *)

(** What a successful part of the loop keeps. *)
Definition grows s s' : Prop :=
  store_inv (sx_store s') ∧ ∀ d, decrypted d (sx_ledger s) → decrypted d (sx_ledger s').

Lemma grows_trans s1 s2 s3 : grows s1 s2 → grows s2 s3 → grows s1 s3.
Proof using Type. intros [_ H1] [? H2]. split; [done|]. auto. Qed.

Lemma deliver_any_spec ids env d id now : ∀ s s' b,
  store_inv (sx_store s) → deliver_any ids env d id now s = (s', Ok b) →
  grows s s' ∧ (b = true → decrypted d (sx_ledger s')).
Proof using HSL.
  induction ids as [|c ids IH]; intros s s' b Hi; cbn [deliver_any].
  { intros [= <- <-]. by split. }
  unfold mut_bind. destruct (deliver_to c env d id now s) as [s1 [b1|e]] eqn:E1; [|done].
  apply deliver_to_spec in E1 as [Hi1 Ho]; [|done]. destruct b1; inversion Ho; subst.
  - intros [= <- <-]. split; [by split|]. done.
  - intros E. apply IH in E as [[Hi' Hg] Hb]; [|done]. split; [|done]. split; [done|].
    intros d' Hd'. apply Hg. congruence.
Qed.

Lemma process_item_spec ids cap now item s s' n a :
  store_inv (sx_store s) → process_item ids cap now item s = (s', Ok (n, a)) →
  grows s s' ∧ ∃ env d, check_item cap now item = Ok (env, d) ∧ (a = true → decrypted d (sx_ledger s')).
Proof using HSL.
  intros Hi. unfold process_item. unfold mut_bind at 1, mut_lift.
  destruct (check_item cap now item) as [[env d]|e]; [|done]. unfold mut_bind at 1.
  destruct (known_state _ d (sx_ledger s)) eqn:Ek.
  - intros [= <- <- <-]. split; [by split|]. exists env, d. split; [done|]. intros _.
    unfold known_state in Ek. destruct (sx_ledger s !! d) as [r|] eqn:Er; [|done].
    exists r. split; [done|]. cbn in Ek. rewrite orb_false_r in Ek. by apply bool_decide_eq_true in Ek.
  - unfold mut_bind. destruct (deliver_any _ _ _ _ _ s) as [s1 [b|e]] eqn:E1; [|done].
    intros [= <- <- <-]. apply deliver_any_spec in E1 as [? ?]; [|done]. split; [done|]. by exists env, d.
Qed.

Lemma process_each_spec ids cap now items : ∀ s s' n acks,
  store_inv (sx_store s) → process_each ids cap now items s = (s', Ok (n, acks)) →
  grows s s' ∧ Forall (λ id, ∃ item env d, item ∈ items ∧ rit_id item = id ∧
    check_item cap now item = Ok (env, d) ∧ decrypted d (sx_ledger s')) acks.
Proof using HSL.
  induction items as [|item items IH]; intros s s' n acks Hi; cbn [process_each].
  { intros [= <- <- <-]. split; [by split|constructor]. }
  unfold mut_bind. destruct (process_item ids cap now item s) as [s1 [[n1 a1]|e]] eqn:E1; [|done].
  destruct (process_each ids cap now items s1) as [s2 [[n2 acks2]|e]] eqn:E2; [|done].
  intros [= <- <- <-]. apply process_item_spec in E1 as (Hg1 & env & d & Hc & Hd); [|done].
  apply IH in E2 as [Hg2 Hf]; [|apply Hg1]. split; [by eapply grows_trans|]. apply Forall_app. split.
  - destruct a1; [|constructor]. constructor; [|constructor]. exists item, env, d.
    split_and!; [by left|done|done|]. by apply Hg2, Hd.
  - eapply Forall_impl; [exact Hf|]. intros id (i & en & d' & ? & ?). exists i, en, d'. split; [by right|done].
Qed.

(** C30. The identifiers the daemon may acknowledge to the relay are those of items that passed the
    checks and are marked as decrypted in a delivery ledger that is in the store: the relay
    drops nothing a crash of the daemon could lose the record of, and an item that is fetched
    again is not decrypted a second time. *)
Theorem inbox_acknowledged_is_durable cap items now s s' n acks :
  store_inv (sx_store s) → process_inbox_items cap items now s = (s', Ok (n, acks)) →
  ledger_saved s' ∧
  Forall (λ id, ∃ item env d, item ∈ items ∧ rit_id item = id ∧
    check_item cap now item = Ok (env, d) ∧ decrypted d (sx_ledger s') ∧
    ∀ ids', process_item ids' cap now item s' = (s', Ok (false, true))) acks.
Proof using HSL.
  intros Hi. unfold process_inbox_items. unfold mut_bind at 1. unfold mut_bind.
  destruct (process_each _ cap now items s) as [s1 [[n1 a1]|e]] eqn:E1; [|done].
  apply process_each_spec in E1 as [[Hi1 _] Hf]; [|done].
  unfold or_err, persist_ledger, on_store, DeliveryLedger.persist.
  destruct (encoded_bytes (sx_ledger s1)) as [b|e] eqn:Eb; [|done].
  destruct (store_put Outbox LEDGER_KEY b (sx_store s1)) as [st [[]|e]] eqn:Ep; [|done].
  intros [= <- <- <-]. split.
  - exists b. split; [done|]. cbn. by rewrite (store_put_ok _ _ _ _ _ Hi1 Ep), view_update_eq.
  - eapply Forall_impl; [exact Hf|]. intros id (item & env & d & Hin & Hid & Hc & Hd).
    exists item, env, d. split_and!; [done..|]. intros ids'. unfold process_item, mut_bind, mut_lift.
    rewrite Hc. destruct Hd as (r & Hr & Hs). unfold known_state. cbn [set_sx_store sx_ledger].
    rewrite Hr. cbn [existsb]. unfold state_is. by rewrite bool_decide_true.
Qed.

(** One item that fails the checks holds up the whole inbox: whatever the items around it,
    none is acknowledged in that run, also not those that were decrypted before it. *)
Theorem inbox_bad_item_blocks cap now before bad after s reply :
  validate_sync_item cap now bad = Err reply →
  (∃ s' e', process_inbox_items cap (before ++ bad :: after) now s = (s', Err e')) ∧
  ∀ c background, ∃ reply', process_sync_items c background cap (before ++ bad :: after) now s = (s, Err reply').
Proof using Type.
  intros Hv. assert (Hbad : ∃ e, check_item cap now bad = Err e).
  { unfold validate_sync_item in Hv. unfold check_item.
    destruct (strip_prefix _ _); cbn [ok_or result_bind] in *; [|eauto].
    destruct (from_wire _ _) as [env|]; cbn [map_err result_bind] in *; [|eauto].
    destruct (_ || _); [eauto|done]. }
  destruct Hbad as [e Hbad]. split.
  - assert (Hp : ∀ ids t, ∃ t' e', process_each ids cap now (before ++ bad :: after) t = (t', Err e')).
    { intros ids. induction before as [|item before IH]; intros t.
      - cbn [app process_each]. unfold process_item, mut_bind, mut_lift. rewrite Hbad. eauto.
      - cbn [app process_each]. unfold mut_bind.
        destruct (process_item _ _ _ item t) as [t1 [x|e1]]; [|eauto].
        destruct (IH t1) as (t2 & e2 & ->). eauto. }
    unfold process_inbox_items, mut_bind. destruct (Hp (conversation_ids (sx_catalog s)) s) as (t' & e' & ->). eauto.
  - intros c background. unfold process_sync_items, mut_bind, mut_lift.
    assert (∃ x, validate_sync_items cap now (before ++ bad :: after) = Err x) as [x ->]; [|eauto].
    induction before as [|item before [x IH]]; cbn [app validate_sync_items].
    + rewrite Hv. cbn. eauto.
    + destruct (validate_sync_item _ _ item); cbn [result_bind]; [|eauto]. rewrite IH. cbn. eauto.
Qed.

(** ** The request of one conversation *)

(** As [stages], for operations that seal the session when they fail. *)
Definition stages_ok {A E} s0 (f : A → list RecordMutation) (m : Svc A E) : Prop :=
  triple (same_core s0) m (λ a s, same_core s0 s ∧ side_records (f a)) (λ _ _, True).

Lemma stable_core_ok {A E} s0 (m : Svc A E) :
  stable (same_core s0) m → triple (same_core s0) m (λ _, same_core s0) (λ _ _, True).
Proof using Type. intros Hm. by eapply triple_conseq; [apply Hm|..]. Qed.
Lemma or_poison_core {A E} s0 c reply (m : Svc A E) :
  stable (same_core s0) m → triple (same_core s0) (or_poison c reply m) (λ _, same_core s0) (λ _ _, True).
Proof using Type.
  intros Hm s Hs. specialize (Hm s Hs). unfold or_poison. by destruct (m s) as [s' []].
Qed.

Lemma stage_sync_preview_ok s0 c t n bg : stages_ok s0 id (stage_sync_preview c t n bg).
Proof using Type.
  unfold stage_sync_preview. eapply triple_bind; [apply stable_core_ok; core|]. intros [|].
  - intros s Hs. split; [done|]. destruct (snapshot_bytes _); [by apply side_put; [..|constructor]|constructor].
  - apply triple_ret. intros s Hs. split; [done|constructor].
Qed.

Lemma stage_message_ok s0 c m x : stages_ok s0 id (stage_message_record c m x).
Proof using Type.
  unfold stage_message_record. destruct m as [m|]; [destruct (negb x)|];
    try (apply triple_ret; intros s Hs; split; [done|constructor]).
  eapply triple_bind; [apply or_poison_core, stable_lift|]. intros r. apply triple_ret.
  intros s Hs. split; [done|]. by apply side_put; [..|constructor].
Qed.

Lemma stage_sync_plaintext_ok s0 c id d p n bg : stages_ok s0 fst (stage_sync_plaintext c id d p n bg).
Proof using Type.
  unfold stage_sync_plaintext. destruct (attachment_descriptor_from_plaintext p).
  - eapply triple_bind; [apply or_poison_core; unfold on_attachments; core|]. intros b. cbv beta.
    eapply triple_bind; [apply stage_sync_preview_ok|]. intros ms. apply triple_ret.
    intros s [? ?]. split; [done|]. by apply side_put.
  - cbv zeta. generalize (decode_message_payload p) as msg. intros msg.
    generalize (message_expired n msg) as expired. intros expired.
    eapply triple_bind; [apply stage_message_ok|]. intros ms. cbv beta.
    eapply (triple_bind _ _ _ _ _ (λ ms' s, same_core s0 s ∧ side_records ms' ∧ side_records ms)).
    + generalize (match msg with Some m => as_bytes (mp_text m) | None => p end) as text.
      intros text s [Hs Hms]. destruct (negb expired); [|split_and!; [done|constructor|done]].
      pose proof (stage_sync_preview_ok s0 c text n bg s Hs) as H1.
      destruct (stage_sync_preview c text n bg s) as [s' []]; [|done]. by destruct H1.
    + intros ms'. apply triple_ret. intros s (? & ? & ?). split; [done|]. by apply Forall_app.
Qed.

Lemma stage_sync_received_ok s0 c id d p n bg : stages_ok s0 fst (stage_sync_received c id d p n bg).
Proof using Type.
  destruct p; [|apply triple_ret; intros s2 ?; split; [done|constructor]].
  eapply triple_bind; [apply stage_sync_plaintext_ok|]. intros ms. by apply triple_ret.
Qed.

Definition settled_delivery (d : string) (l : DeliveryLedger) : Prop :=
  known_state [RecipientReceived; Decrypted] d l = true.

Lemma decrypted_settled d l : decrypted d l → settled_delivery d l.
Proof using Type.
  intros (r & Hr & Hs). unfold settled_delivery, known_state. rewrite Hr. cbn. unfold state_is.
  rewrite Hs. by rewrite (bool_decide_true (Decrypted = Decrypted)), orb_true_r.
Qed.

(** What receiving does to the ledger, when it succeeds. *)
Lemma receive_ledger_settled d id l l1 b1 l2 b2 d' :
  register_recipient_received d id l = (l1, Ok b1) → mark_decrypted d l1 = (l2, Ok b2) →
  settled_delivery d' l → settled_delivery d' l2.
Proof using Type.
  intros E1 E2 Hd'. destruct (decide (d' = d)) as [->|Hne].
  { exact (decrypted_settled _ _ (proj1 (receive_ledger _ _ _ _ _ _ _ E1 E2))). }
  unfold settled_delivery, known_state in *.
  unfold register_recipient_received in E1. unfold mark_decrypted, with_record in E2.
  destruct (is_empty_str d); [done|].
  assert (l1 !! d' = l !! d') as El1.
  { destruct (l !! d); simplify_eq; [done|]. by rewrite lookup_insert_ne. }
  destruct (l1 !! d) as [r|]; [|done]. assert (l2 !! d' = l1 !! d') as ->; [|by rewrite El1].
  destruct (dr_state r); simplify_eq; by rewrite lookup_insert_ne.
Qed.

(** What a delivery of the request keeps. *)
Definition sync_grows s s' : Prop :=
  store_inv (sx_store s') ∧ ledger_saved s' ∧
  ∀ d, settled_delivery d (sx_ledger s) → settled_delivery d (sx_ledger s').

Lemma process_sync_item_spec c bg now id env s s' m :
  store_inv (sx_store s) → ledger_saved s → process_sync_item c bg now id env s = (s', Ok m) →
  sync_grows s s' ∧ ∃ d, digest env = Ok d ∧ settled_delivery d (sx_ledger s').
Proof using HSL.
  intros Hi Hl. unfold process_sync_item. unfold mut_bind at 1, mut_lift.
  destruct (digest env) as [d|e] eqn:Ed; [|done]. cbn [map_err]. unfold mut_bind at 1.
  destruct (known_state _ d (sx_ledger s)) eqn:Ek.
  { intros [= <- <-]. split; [done|]. by exists d. }
  unfold mut_bind at 1, or_err, on_catalog.
  destruct (receive_delivery_unpersisted c _ _) as [cat [p|e]] eqn:Er; [|done]. cbn [map_err].
  unfold mut_bind at 1, or_poison at 1. cbn [set_sx_catalog sx_catalog].
  destruct (checkpoint_bytes c cat) as [b|e] eqn:Eb; [|done].
  set (s1 := set_sx_catalog cat s).
  pose proof (stage_sync_received_ok s1 c id d p now bg s1 ltac:(done)) as Hs. unfold mut_bind at 1.
  destruct (stage_sync_received c id d p now bg s1) as [s2 [staged|e]]; [|done].
  destruct Hs as [(Hcat & Hstore & Hled) Hside].
  unfold mut_bind, or_poison, on_ledger.
  destruct (register_recipient_received d id (sx_ledger s2)) as [l1 [b1|e1]] eqn:E1; [|done].
  cbn [set_sx_ledger sx_ledger].
  destruct (mark_decrypted d l1) as [l2 [b2|e2]] eqn:E2; [|done]. cbn [set_sx_ledger sx_ledger].
  destruct (encoded_bytes l2) as [e|e] eqn:E3; [|done]. cbn [map_err].
  destruct (apply_batch_or_roll_back _ c _ _) as [s4 [[]|e4]] eqn:E4; [|done]. intros [= <- <-].
  apply batch_spec_svc in E4 as [Hi4 (Hc4 & Hl4 & _ & Hv4)]; [|cbn; by rewrite Hstore]. cbn in Hc4, Hl4.
  destruct (batch_first_last (session_key c) b staged.1 e (store_get (sx_store s2)) Hside) as [_ V2].
  split; [split_and!; [done| |]|exists d; split; [done|]].
  - exists e. rewrite Hl4. split; [done|]. by rewrite Hv4.
  - intros d' Hd'. rewrite Hl4. rewrite Hled in E1. by eapply receive_ledger_settled.
  - rewrite Hl4. exact (decrypted_settled _ _ (proj1 (receive_ledger _ _ _ _ _ _ _ E1 E2))).
Qed.

Lemma process_sync_each_spec c bg now items : ∀ s s' res,
  store_inv (sx_store s) → ledger_saved s → process_sync_each c bg now items s = (s', Ok res) →
  sync_grows s s' ∧ sp_acknowledged_ids res = items.*1 ∧
  Forall (λ p, ∃ d, digest p.2 = Ok d ∧ settled_delivery d (sx_ledger s')) items.
Proof using HSL.
  induction items as [|[id env] items IH]; intros s s' res Hi Hl; cbn [process_sync_each].
  { intros [= <- <-]. split; [done|]. split; [done|constructor]. }
  unfold mut_bind. destruct (process_sync_item c bg now id env s) as [s1 [m|e]] eqn:E1; [|done].
  destruct (process_sync_each c bg now items s1) as [s2 [res2|e]] eqn:E2; [|done]. intros [= <- <-].
  apply process_sync_item_spec in E1 as ((Hi1 & Hl1 & Hg1) & d & Hd & Hd1); [|done..].
  apply IH in E2 as ((Hi2 & Hl2 & Hg2) & Hacks & Hf); [|done..].
  split; [split_and!; [done|done|auto]|]. cbn. split; [by rewrite Hacks|].
  constructor; [|done]. exists d. split; [done|]. by apply Hg2.
Qed.

(** A synchronisation of one conversation that succeeds acknowledges every item it was given,
    and each of them is recorded as received or decrypted in a delivery ledger that is in the
    store, if the ledger was in the store when the synchronisation began. *)
Theorem sync_acknowledged_is_durable c bg cap items now s s' res :
  store_inv (sx_store s) → ledger_saved s →
  process_sync_items c bg cap items now s = (s', Ok res) →
  ledger_saved s' ∧ sp_acknowledged_ids res = map rit_id items ∧
  Forall (λ item, ∃ env d, validate_sync_item cap now item = Ok (rit_id item, env) ∧
    digest env = Ok d ∧ settled_delivery d (sx_ledger s')) items.
Proof using HSL.
  intros Hi Hl. unfold process_sync_items, mut_bind at 1, mut_lift.
  destruct (validate_sync_items cap now items) as [valid|e] eqn:Ev; [|done]. intros E.
  apply process_sync_each_spec in E as ((_ & Hl' & _) & -> & Hf); [|done..]. split; [done|].
  assert (Forall2 (λ item p, validate_sync_item cap now item = Ok p ∧ p.1 = rit_id item) items valid) as H2.
  { clear -Ev. revert valid Ev. induction items as [|item items IH]; intros valid; cbn [validate_sync_items].
    - intros [= <-]. constructor.
    - destruct (validate_sync_item cap now item) as [p|] eqn:Ep; [|done]. cbn [result_bind].
      destruct (validate_sync_items cap now items) as [ps|]; [|done]. intros [= <-].
      constructor; [|by apply IH]. split; [done|]. unfold validate_sync_item in Ep.
      destruct (ok_or _ _); cbn in Ep; [|done]. destruct (map_err _ _); cbn in Ep; [|done].
      destruct (_ || _); [done|]. by simplify_eq. }
  clear Ev Hl Hl' Hi. induction H2 as [|item p items valid [Hp Hid] _ IH]; [split; [done|constructor]|].
  apply Forall_cons in Hf as [(d & Hd & Hk) Hf]. destruct (IH Hf) as [E1 E2].
  split; [cbn; congruence|]. constructor; [|done]. exists p.2, d.
  rewrite Hp, <-Hid. by destruct p.
Qed.
End props.

(** ** Samples *)

Module InboxSample.
Import Reference TableStore.
#[local] Existing Instance MlsSessionSample.types.
#[local] Existing Instance MlsSessionSample.openmls.
#[local] Existing Instance Reference.json.

#[local] Instance credential_eq_dec : EqDecision CredentialWithKey.
Proof. solve_decision. Defined.
#[local] Instance entry_eq_dec : EqDecision SnapshotEntry.
Proof. solve_decision. Defined.
#[local] Instance snapshot_eq_dec : EqDecision SessionSnapshot.
Proof. solve_decision. Defined.

(** A message of Bob's, whose payload is the first of the codec's table. *)
Definition message : MessagePayload :=
  {| mp_id := "m1"; mp_created_at := 1000; mp_expires_at := 0; mp_text := "hello" |}.
Definition envelope : RelayEnvelope :=
  match RelayEnvelope.create "mailbox" MESSAGE_PREFIX 2000 1000 (Some (replicate 249 "p"%char))
          (Some (replicate 16 "i"%char)) with
  | Ok e => e
  | Err _ => sample_envelope 2000
  end.
Definition wire : string := match to_wire envelope with Ok w => w | Err _ => EmptyString end.
Definition item : RelayItem :=
  {| rit_id := hex_bytes (sha256 (as_bytes ("ADENV1." +:+ wire))); rit_envelope := "ADENV1." +:+ wire |}.
(** Not an envelope. *)
Definition garbage : RelayItem := {| rit_id := "x"; rit_envelope := "garbage" |}.
Definition d : string := match RelayEnvelope.digest envelope with Ok d => d | Err _ => EmptyString end.

Definition stored_message : StoredMessage :=
  {| sm_conversation_id := "conversation"; sm_message_id := "m1"; sm_direction := "incoming";
     sm_created_at := 1000; sm_expires_at := 0; sm_text := "hello" |}.
Definition ledger : DeliveryLedger :=
  (mark_decrypted d (register_recipient_received d (rit_id item) ∅).1).1.

#[local] Instance message_codec : JsonCodec MessagePayload := json_table [message].
#[local] Instance stored_codec : JsonCodec StoredMessage := json_table [stored_message].
#[local] Instance ledger_codec : JsonCodec (gmap string DeliveryRecord) := json_table [∅; ledger].
#[local] Instance session_codec : JsonCodec SessionSnapshot :=
  json_table [MlsSessionSample.snapshot 0; MlsSessionSample.snapshot 1].
#[local] Instance descriptor_codec : JsonCodec AttachmentDescriptor :=
  {| json_to_vec _ := None; json_from_slice _ := None |}.
#[local] Instance directory_codec : JsonCodec DirectorySnapshot :=
  {| json_to_vec _ := None; json_from_slice _ := None |}.

Definition s0 : Services Table :=
  {| sx_authority := AuthoritySample.a0; sx_catalog := MlsSessionSample.cat0; sx_store := [];
     sx_ledger := ∅ |}.
Definition fetched := process_inbox_items "mailbox" [item] 1500 s0.

Lemma inv0 : store_inv (sx_store s0).
Proof. apply table_empty_inv. Qed.


Lemma inbox_acknowledged_is_durable_witness :
  fetched.2 = Ok (1, [rit_id item]) ∧ ledger_saved fetched.1.
Proof.
  assert (E : fetched.2 = Ok (1, [rit_id item])) by (vm_compute; reflexivity). split; [exact E|].
  assert (Hrun : process_inbox_items "mailbox" [item] 1500 s0 = (fetched.1, Ok (1, [rit_id item])))
    by (transitivity (fetched.1, fetched.2);
        [unfold fetched; apply surjective_pairing|rewrite E; reflexivity]).
  exact (proj1 (inbox_acknowledged_is_durable "mailbox" [item] 1500 s0 fetched.1 1 [rit_id item] inv0 Hrun)).
Defined.

Lemma inbox_bad_item_blocks_witness :
  ∃ s' e', process_inbox_items "mailbox" [item; garbage] 1500 s0 = (s', Err e').
Proof.
  assert (Hv : validate_sync_item "mailbox" 1500 garbage = Err (json_error 502 "invalid_relay_envelope"))
    by (vm_compute; reflexivity).
  exact (proj1 (inbox_bad_item_blocks "mailbox" 1500 [item] garbage [] s0 _ Hv)).
Defined.

Definition s1 : Services Table := set_sx_store (DeliveryLedger.persist ∅ ([] : Table)).1 s0.
Definition synced := process_sync_items "conversation" true "mailbox" [item] 1500 s1.

Lemma sync_acknowledged_is_durable_witness : ledger_saved synced.1 ∧ sx_ledger synced.1 = ledger.
Proof.
  split; [|vm_compute; reflexivity].
  assert (Hi : store_inv (sx_store s1)).
  { change (NoDup [(Outbox, LEDGER_KEY)]). apply NoDup_singleton. }
  assert (Hl : ledger_saved s1) by (exists []; split; vm_compute; reflexivity).
  assert (E : is_ok synced.2 = true) by (vm_compute; reflexivity).
  revert E. destruct synced.2 as [res|e] eqn:Er; intros E; [clear E|discriminate E].
  assert (Hrun : process_sync_items "conversation" true "mailbox" [item] 1500 s1 = (synced.1, Ok res))
    by (transitivity (synced.1, synced.2);
        [unfold synced; apply surjective_pairing|rewrite Er; reflexivity]).
  exact (proj1 (sync_acknowledged_is_durable "conversation" true "mailbox" [item] 1500 s1 synced.1 res Hi Hl Hrun)).
Defined.
End InboxSample.
