(* ===== verification/Server.v ===== *)
(** * The daemon's requests ([apps/daemon/src/http_server.rs])

    The state the requests share, and the requests that talk to the relay. Such a request is a
    program of sections that run under the locks of the state and of network calls that run
    without them, so that other requests may run in between. *)
From Stdlib Require Import Ascii NArith Lia ZifyBool ZifyN.
From stdpp Require Import base gmap strings list.
From S2P Require Import Prelude Text Collections Interfaces JsonValue Fs StoreFormat Storage RecordStore DeliveryLedger RelayEnvelope Trust Bridge Invite Pairing Contacts Attachment MessageService MlsProvider MlsSession RelayClient Http Authority Inbox.

(** ** Programs *)

(** The mutexes of [AppState]. *)
Inductive Lock := BridgeLock | AuthorityLock | CatalogLock | StoreLock | LedgerLock.
#[export] Instance Lock_eq_dec : EqDecision Lock.
Proof. solve_decision. Defined.

(** A section takes its locks one after the other and holds them to its end; it may end the
    program early with its answer, or [k] goes on after it. A network call never ends the
    program by itself. [Held] is a section that calls the relay while it holds its locks. *)
Inductive Prog (S R : Type) : Type :=
| Done (r : R)
| Locked {A : Type} (locks : list Lock) (section : Mut S A R) (k : A → Prog S R)
| Held {A : Type} (locks : list Lock) (section : Mut (S * list NetEvent) A R) (k : A → Prog S R)
| Network {A : Type} (call : Net A) (k : result A RelayError → Prog S R).
Arguments Done {S R} _.
Arguments Locked {S R A} _ _ _.
Arguments Held {S R A} _ _ _.
Arguments Network {S R A} _ _.

Fixpoint prog_bind {S R Q} (p : Prog S R) (f : R → Prog S Q) : Prog S Q :=
  match p with
  | Done r => f r
  | Locked locks section k =>
    Locked locks (λ s, let '(s, r) := section s in (s, Ok r))
      (λ a, match a with Ok a => prog_bind (k a) f | Err r => f r end)
  | Held locks section k =>
    Held locks (λ s, let '(s, r) := section s in (s, Ok r))
      (λ a, match a with Ok a => prog_bind (k a) f | Err r => f r end)
  | Network call k => Network call (λ a, prog_bind (k a) f)
  end.

(** The program with nothing in between. *)
Fixpoint run_alone {S R} (p : Prog S R) (s : S) (log : list NetEvent) : S * list NetEvent * R :=
  match p with
  | Done r => (s, log, r)
  | Locked _ section k =>
    match section s with
    | (s, Ok a) => run_alone (k a) s log
    | (s, Err r) => (s, log, r)
    end
  | Held _ section k =>
    match section (s, log) with
    | (s, log, Ok a) => run_alone (k a) s log
    | (s, log, Err r) => (s, log, r)
    end
  | Network call k => let '(log, a) := call log in run_alone (k a) s log
  end.

(** ** The state *)

Record IdentityView := { iv_account_id : string; iv_device_id : string; iv_display_name : string }.

(** [AppState]: what the mutexes guard, and the randomness of the process. *)
Record AppState `{MlsTypes} {St : Type} := {
  ap_bridge : LocalBridge;
  ap_identity : option IdentityView;
  ap_authority : option InviteAuthority;
  ap_catalog : MlsSessionCatalog;
  ap_store : St;
  ap_ledger : DeliveryLedger;
  ap_world : World;
}.
Arguments AppState {_} _.

(** The two clocks a request reads. *)
Record Clock := { ck_now : N; ck_mono : N }.

Section server.
Context `{OpenMls, Crypto, UriParser, AuthorityHost, Transport}.
Context {St : Type} `{RecordStore St, RecordScan St}.
Context `{JsonCodec SessionSnapshot, JsonCodec AttachmentDescriptor, JsonCodec WireEnvelope}.
Context `{JsonCodec (gmap string DeliveryRecord), JsonCodec DirectorySnapshot, JsonCodec Value}.
Context `{JsonCodec MessagePayload, JsonCodec StoredMessage, JsonCodec PairingSnapshot}.
Context `{JsonCodec PostResponse, JsonCodec SyncResponse, JsonCodec AckResponse}.

Definition App (A R : Type) : Type := Mut (AppState St) A R.
Definition Handler : Type := Prog (AppState St) bytes.

Definition set_ap_authority (v : option InviteAuthority) (s : AppState St) : AppState St :=
  {| ap_bridge := ap_bridge s; ap_identity := ap_identity s; ap_authority := v;
     ap_catalog := ap_catalog s; ap_store := ap_store s; ap_ledger := ap_ledger s;
     ap_world := ap_world s |}.
Definition set_ap_store (v : St) (s : AppState St) : AppState St :=
  {| ap_bridge := ap_bridge s; ap_identity := ap_identity s; ap_authority := ap_authority s;
     ap_catalog := ap_catalog s; ap_store := v; ap_ledger := ap_ledger s; ap_world := ap_world s |}.
Definition set_ap_catalog (v : MlsSessionCatalog) (s : AppState St) : AppState St :=
  {| ap_bridge := ap_bridge s; ap_identity := ap_identity s; ap_authority := ap_authority s;
     ap_catalog := v; ap_store := ap_store s; ap_ledger := ap_ledger s; ap_world := ap_world s |}.
Definition set_ap_ledger (v : DeliveryLedger) (s : AppState St) : AppState St :=
  {| ap_bridge := ap_bridge s; ap_identity := ap_identity s; ap_authority := ap_authority s;
     ap_catalog := ap_catalog s; ap_store := ap_store s; ap_ledger := v; ap_world := ap_world s |}.
Definition set_ap_world (v : World) (s : AppState St) : AppState St :=
  {| ap_bridge := ap_bridge s; ap_identity := ap_identity s; ap_authority := ap_authority s;
     ap_catalog := ap_catalog s; ap_store := ap_store s; ap_ledger := ap_ledger s; ap_world := v |}.
Definition set_ap_bridge (v : LocalBridge) (s : AppState St) : AppState St :=
  {| ap_bridge := v; ap_identity := ap_identity s; ap_authority := ap_authority s;
     ap_catalog := ap_catalog s; ap_store := ap_store s; ap_ledger := ap_ledger s;
     ap_world := ap_world s |}.

Section lifts.
Context {R : Type}.

Definition asks {A} (f : AppState St → A) : App A R := λ s, (s, Ok (f s)).
Definition or_else {A} (o : option A) (reply : R) : App A R := mut_lift (ok_or o reply).
Definition guard (ok : bool) (reply : R) : App unit R := mut_lift (if ok then Ok tt else Err reply).

(** An operation of one service, whose answer is a value here. *)
Definition app_store {A E} (m : Mut St A E) : App (result A E) R :=
  λ s, let '(st, r) := m (ap_store s) in (set_ap_store st s, Ok r).
Definition app_ledger {A E} (m : Mut DeliveryLedger A E) : App (result A E) R :=
  λ s, let '(l, r) := m (ap_ledger s) in (set_ap_ledger l s, Ok r).
Definition app_catalog {A E} (m : Mut MlsSessionCatalog A E) : App (result A E) R :=
  λ s, let '(c, r) := m (ap_catalog s) in (set_ap_catalog c s, Ok r).
Definition app_catalog_store {A E} (m : Mut (MlsSessionCatalog * St) A E) : App (result A E) R :=
  λ s, let '(c, st, r) := m (ap_catalog s, ap_store s) in (set_ap_catalog c (set_ap_store st s), Ok r).
Definition app_world {A} (f : World → World * A) : App A R :=
  λ s, let '(w, a) := f (ap_world s) in (set_ap_world w s, Ok a).
Definition app_persist_ledger : App (result unit StorageError) R :=
  λ s, app_store (DeliveryLedger.persist (ap_ledger s)) s.

(** The authority, or the answer of a daemon that has none. *)
Definition the_authority (reply : R) : App InviteAuthority R :=
  λ s, (s, ok_or (ap_authority s) reply).
(** An operation of the authority; [None] when there is none. *)
Definition app_authority {A E} (m : Mut InviteAuthority A E) : App (option (result A E)) R :=
  λ s,
    match ap_authority s with
    | None => (s, Ok None)
    | Some a => let '(a, r) := m a in (set_ap_authority (Some a) s, Ok (Some r))
    end.
Definition app_authority_store {A E} (m : Mut (InviteAuthority * St) A E) : App (option (result A E)) R :=
  λ s,
    match ap_authority s with
    | None => (s, Ok None)
    | Some a => let '(a, st, r) := m (a, ap_store s) in
                (set_ap_authority (Some a) (set_ap_store st s), Ok (Some r))
    end.
(** The services together. *)
Definition app_services {A E} (m : Svc A E) : App (option (result A E)) R :=
  λ s,
    match ap_authority s with
    | None => (s, Ok None)
    | Some a =>
      let '(x, r) := m {| sx_authority := a; sx_catalog := ap_catalog s; sx_store := ap_store s;
                          sx_ledger := ap_ledger s |} in
      ({| ap_bridge := ap_bridge s; ap_identity := ap_identity s;
          ap_authority := Some (sx_authority x); ap_catalog := sx_catalog x;
          ap_store := sx_store x; ap_ledger := sx_ledger x; ap_world := ap_world s |}, Ok (Some r))
    end.
End lifts.

Definition text_error (status : N) (code : string) : bytes := response status code None None.
Definition json_reply (status : N) (body : string) : bytes := response status body None json_type.

(** The request, when its session may use the interface. *)
Definition authorized (raw : bytes) (clock : Clock) : App Request bytes :=
  let! request := or_else (parse_request raw) (text_error 400 "invalid_request") in
  let! bridge := asks ap_bridge in
  let! _ := mut_lift (authorize_api bridge request (ck_now clock) (ck_mono clock)) in
  mut_ret request.

Definition relay_pin (a : InviteAuthority) : option TlsCertificatePin := rb_tls_pin (au_relay a).

Definition pairing_ready (authority : option InviteAuthority) (now : N) : bool :=
  match authority with Some a => can_message_at (au_pairing a) now | None => true end.

Definition pairing_unavailable : bytes := text_error 503 "pairing_unavailable".
Definition storage_unavailable : bytes := text_error 503 "storage_unavailable".

(** ** Posting an envelope *)

Definition accepted_body (id digest : string) : string :=
  json_object [("accepted", "true"); ("id", json_str id); ("digest", json_str digest);
               ("state", quote +:+ "relay-accepted" +:+ quote)].

(** The relay took the envelope: the record is accepted if its state is as before. *)
Definition post_accepted (digest : string) (state : DeliveryState) (id : string) : App bytes bytes :=
  let! taken := app_ledger (accept_retry digest state id) in
  match taken with
  | Ok true =>
    let! saved := app_persist_ledger in
    mut_ret (if is_ok saved then json_reply 202 (accepted_body id digest)
             else json_error 409 "delivery_state_changed")
  | _ => mut_ret (json_error 409 "delivery_state_changed")
  end.

(** The relay does not know the inbox any more. *)
Definition post_expired (digest : string) (state : DeliveryState) : App bytes bytes :=
  let! _ := the_authority pairing_unavailable in
  let! _ := app_ledger (mark_failed_if_current digest state) in
  let! _ := app_authority_store invalidate_relay_binding in
  let! _ := app_persist_ledger in
  mut_ret (json_error 409 "relay_capability_expired").

(** Any other failure is tried again later. *)
Definition post_failed (digest : string) (state : DeliveryState) (now : N) (reply : bytes)
  : App bytes bytes :=
  let! _ := app_ledger (schedule_retry_if_current digest state now) in
  let! _ := app_persist_ledger in
  mut_ret reply.

Definition post_finished (digest : string) (state : DeliveryState) (now : N) (retry_reply : bytes)
    (answer : result RelayAccepted RelayError) : Handler :=
  match answer with
  | Ok accepted =>
    Locked [CatalogLock; StoreLock; LedgerLock] (post_accepted digest state (ra_id accepted)) Done
  | Err (Rejected 410) =>
    Locked [AuthorityLock; CatalogLock; StoreLock; LedgerLock] (post_expired digest state) Done
  | Err _ =>
    Locked [CatalogLock; StoreLock; LedgerLock] (post_failed digest state now retry_reply) Done
  end.

Record Outgoing := {
  og_endpoint : RelayEndpoint; og_envelope : RelayEnvelope; og_digest : string;
  og_wire : string; og_destination : string }.

Definition prepare_post (raw : bytes) (clock : Clock) : App Outgoing bytes :=
  let! request := authorized raw clock in
  let! a := the_authority pairing_unavailable in
  let! inbox_url := or_else (json_string (rq_body request) "inbox_url") (json_error 400 "invalid_inbox_url") in
  let! ciphertext := or_else (json_string (rq_body request) "ciphertext" ≫= hex_decode)
                       (json_error 400 "invalid_ciphertext") in
  let! expires_at := or_else (json_u64 (rq_body request) "expires_at") (json_error 400 "invalid_expiry") in
  let! endpoint := mut_lift (map_err (λ _, json_error 422 "unsupported_relay_endpoint")
                     (from_inbox_url_with_pin inbox_url (relay_pin a))) in
  let! created := app_world (create_envelope (ep_capability endpoint) ciphertext expires_at (ck_now clock)) in
  let invalid := json_error 422 "invalid_delivery_envelope" in
  let! envelope := mut_lift (map_err (λ _, invalid) created) in
  let! digest := mut_lift (map_err (λ _, invalid) (digest envelope)) in
  let! wire := mut_lift (map_err (λ _, invalid) (to_wire envelope)) in
  mut_ret {| og_endpoint := endpoint; og_envelope := envelope; og_digest := digest; og_wire := wire;
             og_destination := inbox_url |}.

(** The delivery is queued in the store before the relay hears of it. *)
Definition queue_post (o : Outgoing) : App unit bytes :=
  let! registered := app_ledger (register_queued_with_destination (og_digest o) (Some (og_wire o))
                       (Some (re_expires_at (og_envelope o))) (Some (og_destination o))) in
  let! _ := guard (is_ok registered) (json_error 409 "duplicate_delivery") in
  let! saved := app_persist_ledger in
  if is_ok saved then mut_ret tt
  else
    let! _ := app_ledger (λ l, let '(l, b) := discard_if_state (og_digest o) Queued l in
                               (l, Ok b : result bool EnvelopeError)) in
    mut_err storage_unavailable.

Definition retryable_body (digest : string) : string :=
  json_object [("error", quote +:+ "relay_unavailable" +:+ quote); ("digest", json_str digest);
               ("state", quote +:+ "retryable" +:+ quote)].

(** What is left once the envelope is made. *)
Definition post_prepared (clock : Clock) (o : Outgoing) : Handler :=
  Locked [CatalogLock; StoreLock; LedgerLock] (queue_post o) (λ _,
  Network (post_blocking (og_endpoint o) (og_envelope o))
    (post_finished (og_digest o) Queued (ck_now clock) (json_reply 503 (retryable_body (og_digest o))))).

Definition handle_detached_delivery_post (raw : bytes) (clock : Clock) : Handler :=
  Locked [BridgeLock; AuthorityLock] (prepare_post raw clock) (post_prepared clock).

(** ** Retrying a delivery *)

Definition retry_refusal (r : DeliveryRecord) (now : N) : option bytes :=
  if state_is Failed r then Some (json_error 409 "delivery_retry_exhausted")
  else if negb (state_is Retryable r || state_is Queued r)
  then Some (json_error 409 "delivery_not_retryable")
  else if match dr_next_retry_at r with Some t => (now <? t)%N | None => false end
  then Some (json_error 429 "delivery_retry_backoff")
  else None.

Definition prepare_retry (raw : bytes) (clock : Clock)
  : App (RelayEndpoint * RelayEnvelope * DeliveryRecord) bytes :=
  let! request := authorized raw clock in
  let! a := the_authority pairing_unavailable in
  let! inbox_url := or_else (json_string (rq_body request) "inbox_url") (json_error 400 "invalid_inbox_url") in
  let! digest := or_else (json_string (rq_body request) "digest") (json_error 400 "invalid_delivery_digest") in
  let! endpoint := mut_lift (map_err (λ _, json_error 422 "unsupported_relay_endpoint")
                     (from_inbox_url_with_pin inbox_url (relay_pin a))) in
  let! ledger := asks ap_ledger in
  let! record := or_else (ledger !! digest) (json_error 404 "delivery_not_found") in
  let! _ := mut_lift (match retry_refusal record (ck_now clock) with Some e => Err e | None => Ok tt end) in
  let not_retriable := json_error 409 "delivery_not_retriable" in
  let! wire := or_else (dr_wire record) not_retriable in
  let! envelope := mut_lift (map_err (λ _, not_retriable) (from_wire wire (ck_now clock))) in
  let! _ := guard (seqb (re_mailbox envelope) (ep_capability endpoint))
              (json_error 422 "delivery_endpoint_mismatch") in
  mut_ret (endpoint, envelope, record).

Definition handle_detached_delivery_retry (raw : bytes) (clock : Clock) : Handler :=
  Locked [BridgeLock; AuthorityLock; CatalogLock; StoreLock; LedgerLock] (prepare_retry raw clock) (λ '(endpoint, envelope, record),
  Network (post_blocking endpoint envelope)
    (post_finished (dr_digest record) (dr_state record) (ck_now clock)
       (json_error 503 "relay_unavailable"))).

(** ** Acknowledging *)

Definition prepare_ack (raw : bytes) (clock : Clock) : App (RelayEndpoint * list string) bytes :=
  let! request := authorized raw clock in
  let! inbox_url := or_else (json_string (rq_body request) "inbox_url") (json_error 400 "invalid_inbox_url") in
  let! ids := or_else (json_string_array (rq_body request) "ids") (json_error 400 "invalid_delivery_ids") in
  let! a := the_authority pairing_unavailable in
  let! endpoint := mut_lift (map_err (λ _, json_error 422 "unsupported_relay_endpoint")
                     (from_inbox_url_with_pin inbox_url (relay_pin a))) in
  mut_ret (endpoint, ids).

Definition capability_expired : App bytes bytes :=
  let! _ := the_authority pairing_unavailable in
  let! _ := app_authority_store invalidate_relay_binding in
  mut_ret (json_error 409 "relay_capability_expired").

Definition ack_recorded (ids : list string) (acknowledged : N) : App bytes bytes :=
  let! relay_acknowledged := asks (λ s, acknowledge_relay_ids ids (ap_ledger s)) in
  let! saved := app_persist_ledger in
  mut_ret (if is_ok saved
           then json_reply 200 (json_object
                  [("acknowledged", u64_to_string acknowledged);
                   ("relay_acknowledged", u64_to_string (N.of_nat relay_acknowledged))])
           else storage_unavailable).

Definition handle_detached_delivery_ack (raw : bytes) (clock : Clock) : Handler :=
  Locked [BridgeLock; AuthorityLock] (prepare_ack raw clock) (λ '(endpoint, ids),
  Network (ack_blocking endpoint ids) (λ answer,
  match answer with
  | Ok acknowledged => Locked [CatalogLock; StoreLock; LedgerLock] (ack_recorded ids acknowledged) Done
  | Err (Rejected 409) => Done (json_error 409 "relay_ack_conflict")
  | Err (Rejected 410) => Locked [AuthorityLock; CatalogLock; StoreLock] capability_expired Done
  | Err _ => Done (json_error 503 "relay_unavailable")
  end)).

(** ** Synchronising a conversation *)

Record SyncRequest := {
  sq_inbox_url : string; sq_conversation_id : string; sq_background : bool;
  sq_pin : option TlsCertificatePin }.

Definition prepare_sync (raw : bytes) (clock : Clock) : App SyncRequest bytes :=
  let! request := authorized raw clock in
  let! a := the_authority pairing_unavailable in
  let! inbox_url := or_else (json_string (rq_body request) "inbox_url") (json_error 400 "invalid_inbox_url") in
  let! conversation_id :=
    or_else (json_string (rq_body request) "conversation_id") (json_error 400 "invalid_conversation") in
  let! _ := guard (negb (is_blocked_conversation (au_contacts a) conversation_id))
              (json_error 403 "contact_blocked") in
  mut_ret {| sq_inbox_url := inbox_url; sq_conversation_id := conversation_id;
             sq_background := default false (json_bool (rq_body request) "background");
             sq_pin := relay_pin a |}.

Definition process_fetched (q : SyncRequest) (capability : string) (items : list RelayItem) (now : N)
  : App SyncProcessResult bytes :=
  let! r := app_services (process_sync_items (sq_conversation_id q) (sq_background q) capability items now) in
  match r with
  | None => mut_err pairing_unavailable
  | Some r => mut_lift r
  end.

Definition sync_body (acknowledged : N) (messages : list string) : string :=
  json_object [("acknowledged", u64_to_string acknowledged);
               ("messages", "[" +:+ join 44 messages +:+ "]")].

(** The last step: the relay may drop what was processed. *)
Definition acknowledge_processed (endpoint : RelayEndpoint) (result : SyncProcessResult) : Handler :=
  let finish n := Done (json_reply 200 (sync_body n (sp_messages result))) in
  match sp_acknowledged_ids result with
  | [] => finish 0%N
  | ids =>
    Network (ack_blocking endpoint ids) (λ answer,
    match answer with
    | Ok n => finish n
    | Err (Rejected 409) => Done (json_error 409 "relay_ack_conflict")
    | Err (Rejected 410) =>
      Locked [AuthorityLock; StoreLock]
        (let! _ := app_authority_store invalidate_relay_binding in
         mut_ret (json_error 409 "relay_capability_expired")) Done
    | Err _ => Done (json_error 503 "relay_unavailable")
    end)
  end.

Definition handle_detached_delivery_sync (raw : bytes) (clock : Clock) : Handler :=
  Locked [BridgeLock; AuthorityLock] (prepare_sync raw clock) (λ q,
  match from_inbox_url_with_pin (sq_inbox_url q) (sq_pin q) with
  | Err _ => Done (json_error 422 "unsupported_relay_endpoint")
  | Ok endpoint =>
    Network (sync_blocking endpoint) (λ fetched,
    match fetched with
    | Ok items =>
      Locked [AuthorityLock; CatalogLock; StoreLock; LedgerLock]
        (process_fetched q (ep_capability endpoint) items (ck_now clock))
        (acknowledge_processed endpoint)
    | Err (Rejected 410) => Locked [AuthorityLock; CatalogLock; StoreLock] capability_expired Done
    | Err _ => Done (json_error 503 "relay_unavailable")
    end)
  end).

(** ** Maintenance *)

Definition MAX_AUTOMATIC_RETRIES_PER_TICK : nat := 2.

(** The record is sent again, when it has a destination and a wire that is still valid. *)
Definition retry_call (r : DeliveryRecord) (pin : option TlsCertificatePin) (now : N) : Net RelayAccepted :=
  let! destination := mut_lift (ok_or (dr_destination r) InvalidEndpoint) in
  let! wire := mut_lift (ok_or (dr_wire r) InvalidResponse) in
  let! endpoint := mut_lift (from_inbox_url_with_pin destination pin) in
  let! envelope := mut_lift (map_err (λ _, InvalidResponse) (from_wire wire now)) in
  if negb (seqb (re_mailbox envelope) (ep_capability endpoint)) then mut_err InvalidResponse
  else post_blocking endpoint envelope.

(** Whether the delivery was accepted; without an authority the result is dropped. *)
Definition retry_recorded (r : DeliveryRecord) (now : N) (answer : result RelayAccepted RelayError)
  : App bool bool :=
  let! _ := the_authority false in
  match answer with
  | Ok accepted =>
    let! taken := app_ledger (accept_retry (dr_digest r) (dr_state r) (ra_id accepted)) in
    match taken with
    | Ok true => let! saved := app_persist_ledger in mut_ret (is_ok saved)
    | _ => mut_ret false
    end
  | Err (Rejected 410) =>
    let! _ := app_authority_store invalidate_relay_binding in
    let! _ := app_ledger (mark_failed_if_current (dr_digest r) (dr_state r)) in
    let! _ := app_persist_ledger in
    mut_ret false
  | Err InvalidEndpoint | Err InvalidResponse =>
    let! _ := app_ledger (mark_failed_if_current (dr_digest r) (dr_state r)) in
    let! _ := app_persist_ledger in
    mut_ret false
  | Err _ =>
    let! _ := app_ledger (schedule_retry_if_current (dr_digest r) (dr_state r) now) in
    let! _ := app_persist_ledger in
    mut_ret false
  end.

Fixpoint retry_each (due : list DeliveryRecord) (pin : option TlsCertificatePin) (now : N)
  : Prog (AppState St) nat :=
  match due with
  | [] => Done 0
  | r :: rest =>
    Network (retry_call r pin now) (λ answer,
    prog_bind (Locked [AuthorityLock; CatalogLock; StoreLock; LedgerLock] (retry_recorded r now answer) Done) (λ accepted,
    prog_bind (retry_each rest pin now) (λ n, Done ((if (accepted : bool) then 1 else 0) + n))))
  end.

Definition retry_due_deliveries_detached (now : N) : Prog (AppState St) nat :=
  Locked [AuthorityLock; CatalogLock; StoreLock; LedgerLock]
    (let! a := the_authority 0 in
     let! due := asks (λ s, take MAX_AUTOMATIC_RETRIES_PER_TICK (due_retries now (ap_ledger s))) in
     mut_ret (due, relay_pin a)) (λ '(due, pin),
  retry_each due pin now).

(** [fetch_inbox], without an inbox there is nothing to fetch. *)
Definition fetch_inbox (inbox_url : string) (pin : option TlsCertificatePin)
  : Net (RelayEndpoint * list RelayItem) :=
  let! endpoint := mut_lift (map_err (λ _, InvalidEndpoint) (from_inbox_url_with_pin inbox_url pin)) in
  let! items := sync_blocking endpoint in
  mut_ret (endpoint, items).

(** The messages whose time is over. *)
Definition message_over (now : N) (contents : bytes) : bool :=
  match json_from_slice contents with
  | Some m => negb (sm_expires_at m =? 0)%N && (sm_expires_at m <=? now)%N
  | None => false
  end.
Definition expired_messages (now : N) (st : St) : list string :=
  map fst (filter (λ p, message_over now p.2 = true) (store_prefix st Message "messages/")).
Fixpoint delete_messages (keys : list string) (st : St) : St :=
  match keys with
  | [] => st
  | key :: rest => delete_messages rest (store_delete Message key st).1
  end.

(** The section of a tick that processes the inbox, expires deliveries and messages. *)
Definition tick_section (capability : string) (items : list RelayItem) (now : N)
  : App (nat * list string) nat :=
  let! r := app_services (process_inbox_items capability items now) in
  match r with
  | None => mut_err 0
  | Some r =>
    let done := match r with Ok done => done | Err _ => (0, []) end in
    let! expired := app_ledger (λ l, let '(l, n) := expire_due now l in (l, Ok n : result nat EnvelopeError)) in
    let! _ := λ s, (set_ap_store (delete_messages (expired_messages now (ap_store s)) (ap_store s)) s, Ok tt) in
    let! _ := match expired with
              | Ok (S _) => let! _ := app_persist_ledger in mut_ret tt
              | _ => mut_ret tt
              end in
    mut_ret done
  end.

Definition run_maintenance_tick (now : N) : Prog (AppState St) nat :=
  let retry n := prog_bind (retry_due_deliveries_detached now) (λ _, Done n) in
  Locked [AuthorityLock]
    (let! a := the_authority 0 in mut_ret (ii_inbox_url (au_issuer a), relay_pin a)) (λ '(url, pin),
  match url with
  | None => retry 0
  | Some url =>
    Network (fetch_inbox url pin) (λ fetched,
    match fetched with
    | Err (Rejected 410) =>
      Locked [AuthorityLock; StoreLock] (app_authority_store invalidate_relay_binding) (λ _, retry 0)
    | Err _ => retry 0
    | Ok (endpoint, items) =>
      Locked [AuthorityLock; CatalogLock; StoreLock; LedgerLock]
        (tick_section (ep_capability endpoint) items now) (λ '(processed, ids),
      match ids with
      | [] => retry processed
      | ids => Network (ack_blocking endpoint ids) (λ _, retry processed)
      end)
    end)
  end).
End server.
