(* ===== verification/ServerAttachments.v ===== *)
(** * Attachments over the relay ([apps/daemon/src/http_server.rs])

    The requests that upload, download and send attachments: the blob travels chunk by chunk
    without any lock held, and the descriptor inside an encrypted message of the conversation. *)
From Stdlib Require Import Ascii NArith Lia ZifyBool ZifyN.
From stdpp Require Import base gmap strings list.
From S2P Require Import Prelude Text Collections Interfaces JsonValue Fs StoreFormat Storage RecordStore DeliveryLedger RelayEnvelope Trust Bridge Invite Pairing Contacts Attachment MessageService MlsProvider MlsSession RelayClient Http Authority Inbox Server.

Inductive DetachedAttachmentRoute := UploadChunk | UploadCompleted | DownloadChunk | SendAttachment.

Section attachments.
Context `{OpenMls, Crypto, UriParser, AuthorityHost, Transport}.
Context {St : Type} `{RecordStore St}.
Context `{JsonCodec SessionSnapshot, JsonCodec AttachmentDescriptor, JsonCodec WireEnvelope}.
Context `{JsonCodec (gmap string DeliveryRecord), JsonCodec Value, JsonCodec PostResponse}.
Context `{JsonCodec BlobChunkResponse}.

(** [attachment_relay_pin], the request handed on: the session is checked under one lock, the
    pairing under another. *)
Definition with_relay_pin (raw : bytes) (clock : Clock)
    (k : Request → option TlsCertificatePin → Handler (St := St)) : Handler :=
  Locked [BridgeLock] (authorized raw clock) (λ request,
  Locked [AuthorityLock]
    (let! a := the_authority pairing_unavailable in
     let! _ := guard (pairing_ready (Some a) (ck_now clock)) (json_error 403 "pairing_not_ready") in
     mut_ret (relay_pin a)) (λ pin,
  k request pin)).

(** A field of the request, or the answer when it is missing. *)
Definition field {A} (o : option A) (code : string) (k : A → Handler (St := St)) : Handler :=
  match o with Some a => k a | None => Done (json_error 400 code) end.
Definition endpoint_of (inbox_url : string) (pin : option TlsCertificatePin)
    (k : RelayEndpoint → Handler (St := St)) : Handler :=
  match from_inbox_url_with_pin inbox_url pin with
  | Ok endpoint => k endpoint
  | Err _ => Done (json_error 422 "unsupported_relay_endpoint")
  end.

Definition relay_unavailable : bytes := json_error 503 "relay_unavailable".

Definition handle_detached_attachment_upload_chunk (raw : bytes) (clock : Clock) : Handler :=
  with_relay_pin raw clock (λ request pin,
  field (json_string (rq_body request) "inbox_url") "invalid_inbox_url" (λ inbox_url,
  field (json_string (rq_body request) "blob_id") "invalid_blob_id" (λ blob_id,
  field (json_string (rq_body request) "chunk" ≫= hex_decode) "invalid_blob_chunk" (λ chunk,
  field (json_u64 (rq_body request) "offset") "invalid_blob_offset" (λ offset,
  field (json_u64 (rq_body request) "total") "invalid_blob_total" (λ total,
  endpoint_of inbox_url pin (λ endpoint,
  Network (upload_blob_chunk_blocking endpoint blob_id offset total chunk) (λ answer,
  Done
    match answer with
    | Ok r =>
      json_reply 200 (json_object
        [("complete", json_of_bool (ba_complete r)); ("received", u64_to_string (ba_received r));
         ("total", u64_to_string (ba_total r)); ("expires_at", u64_to_string (ba_expires_at r))])
    | Err (Rejected status) => json_error status "relay_rejected"
    | Err _ => relay_unavailable
    end)))))))).

(** The loop over the chunks of a blob; the first failure ends the request. *)
Fixpoint upload_chunks (endpoint : RelayEndpoint) (blob_id : string) (offset total : N)
    (l : list bytes) (k : Handler (St := St)) : Handler :=
  match l with
  | [] => k
  | chunk :: rest =>
    Network (upload_blob_chunk_blocking endpoint blob_id offset total chunk) (λ answer,
    match answer with
    | Ok _ => upload_chunks endpoint blob_id (offset + CHUNK_SIZE) total rest k
    | Err _ => Done relay_unavailable
    end)
  end.
Definition upload_blob (endpoint : RelayEndpoint) (blob_id : string) (blob : bytes)
    (k : Handler (St := St)) : Handler :=
  upload_chunks endpoint blob_id 0 (blen blob) (chunks (N.to_nat CHUNK_SIZE) blob) k.

Definition completed_attachment (blob_id : string) : App (St := St) EncryptedAttachment bytes :=
  let! a := the_authority pairing_unavailable in
  or_else (as_completed (au_attachments a) !! blob_id) (json_error 404 "attachment_not_found").

(** [take_completed_attachment_if_equal] of the authority, if there is one. *)
Definition take_if_equal (blob_id : string) (package : EncryptedAttachment)
  : App (St := St) (option bool) bytes :=
  let! r := app_authority (E := unit) (λ a,
    let '(t, taken) := take_completed_attachment_if_equal blob_id package (au_attachments a) in
    (set_attachments t a, Ok taken)) in
  mut_ret (match r with Some (Ok b) => Some b | _ => None end).

Definition handle_detached_attachment_upload_completed (raw : bytes) (clock : Clock) : Handler :=
  with_relay_pin raw clock (λ request pin,
  field (json_string (rq_body request) "inbox_url") "invalid_inbox_url" (λ inbox_url,
  field (json_string (rq_body request) "blob_id") "invalid_blob_id" (λ blob_id,
  Locked [AuthorityLock] (completed_attachment blob_id) (λ package,
  endpoint_of inbox_url pin (λ endpoint,
  upload_blob endpoint blob_id (ea_blob package)
  (Locked [AuthorityLock] (take_if_equal blob_id package) (λ taken,
  Done
    match taken with
    | Some true => json_reply 200 (json_object [("uploaded", "true")])
    | Some false => json_error 409 "attachment_state_unavailable"
    | None => pairing_unavailable
    end))))))).

(** The chunk of a received attachment: its descriptor, offset and size. *)
Definition locate_chunk (attachment_id : string) (index : N)
  : App (St := St) (AttachmentDescriptor * N * N) bytes :=
  let! a := the_authority pairing_unavailable in
  let! d := or_else (as_received (au_attachments a) !! attachment_id) (json_error 404 "attachment_not_found") in
  let! chunk := or_else (ad_chunks d !! N.to_nat index) (json_error 416 "attachment_chunk_not_found") in
  let offset := foldr (λ c acc, (cd_ciphertext_size c + acc)%N) 0%N (take (N.to_nat index) (ad_chunks d)) in
  mut_ret (d, offset, cd_ciphertext_size chunk).

Definition json_opt (o : option string) : string :=
  match o with Some v => json_str v | None => "null" end.

Definition handle_detached_attachment_download_chunk (raw : bytes) (clock : Clock) : Handler :=
  with_relay_pin raw clock (λ request pin,
  field (json_string (rq_body request) "attachment_id") "invalid_attachment_id" (λ attachment_id,
  field (json_string (rq_body request) "inbox_url") "invalid_inbox_url" (λ inbox_url,
  field (json_u64 (rq_body request) "index") "invalid_attachment_index" (λ index,
  Locked [AuthorityLock] (locate_chunk attachment_id index) (λ '(d, offset, size),
  endpoint_of inbox_url pin (λ endpoint,
  Network (download_blob_chunk_blocking endpoint (ad_blob_id d) offset size) (λ answer,
  Done
    match answer with
    | Err _ => relay_unavailable
    | Ok ciphertext =>
      match decrypt_blob_chunk d (index mod 2 ^ 32)%N ciphertext with
      | Err _ => json_error 409 "attachment_verification_failed"
      | Ok plaintext =>
        json_reply 200 (json_object
          [("attachment_id", json_str attachment_id); ("index", u64_to_string index);
           ("complete", json_of_bool (index + 1 =? blen (ad_chunks d))%N);
           ("file_name", json_opt (ad_file_name d)); ("media_type", json_opt (ad_media_type d));
           ("plaintext", quote +:+ hex_bytes plaintext +:+ quote)])
      end
    end))))))).

(** ** Sending *)

(** [catalog.poison(conversation_id)] before an early return. *)
Definition or_seal {A} (conversation_id : string) (reply : bytes) (r : result A bytes)
  : App (St := St) A bytes :=
  λ s,
    match r with
    | Ok a => (s, Ok a)
    | Err _ => (set_ap_catalog (poison conversation_id (ap_catalog s)) s, Err reply)
    end.
Definition seal_unless {A E} (conversation_id : string) (reply : bytes)
    (m : App (St := St) (result A E) bytes) : App A bytes :=
  let! r := m in or_seal conversation_id reply (map_err (λ _, reply) r).

(** The batch of the session and the ledger; the ledger is read back when it is refused. *)
Definition commit_outgoing (conversation_id : string) (checkpoint ledger_bytes : bytes)
  : App (St := St) unit bytes :=
  λ s,
    match app_store (R := bytes) (store_batch
            [Put ProtocolSession (session_key conversation_id) checkpoint;
             Put Outbox LEDGER_KEY ledger_bytes]) s with
    | (s, Ok (Ok _)) => (s, Ok tt)
    | (s, _) =>
      let s := set_ap_catalog (poison conversation_id (ap_catalog s)) s in
      (match DeliveryLedger.restore (ap_store s) with
       | Ok restored => set_ap_ledger restored s
       | Err _ => s
       end, Err (text_error 503 "message_storage_unavailable"))
    end.

Definition encrypt_attachment_message (conversation_id inbox_url : string) (endpoint : RelayEndpoint)
    (descriptor : AttachmentDescriptor) (now : N) : App (St := St) (string * RelayEnvelope) bytes :=
  let! sent := app_catalog (send_attachment_unpersisted conversation_id descriptor) in
  let! ciphertext := mut_lift (map_err (λ _, json_error 409 "attachment_session_failed") sent) in
  let! checkpoint := seal_unless conversation_id (text_error 503 "session_storage_unavailable")
                       (asks (λ s, checkpoint_bytes conversation_id (ap_catalog s))) in
  let! expires_at := or_seal conversation_id (json_error 422 "invalid_expiry")
                       (ok_or (u64_checked_add now 3600) []) in
  let invalid := json_error 422 "invalid_delivery_envelope" in
  let! envelope := seal_unless conversation_id invalid
                     (app_world (create_envelope (ep_capability endpoint) ciphertext expires_at now)) in
  let! digest := or_seal conversation_id invalid (map_err (λ _, []) (digest envelope)) in
  let! wire := or_seal conversation_id invalid (map_err (λ _, []) (to_wire envelope)) in
  let! _ := seal_unless conversation_id (json_error 409 "duplicate_delivery")
              (app_ledger (register_encrypted_with_destination digest (Some wire)
                             (Some (re_expires_at envelope)) (Some inbox_url))) in
  let unavailable := text_error 503 "delivery_state_unavailable" in
  let! _ := seal_unless conversation_id unavailable (app_ledger (transition digest Queued)) in
  let! ledger_bytes := seal_unless conversation_id unavailable (asks (λ s, encoded_bytes (ap_ledger s))) in
  let! _ := commit_outgoing conversation_id checkpoint ledger_bytes in
  mut_ret (digest, envelope).

(** Both sections after the relay's answer take the ledger before the store. *)
Definition attachment_not_posted (digest : string) (now : N) : App (St := St) bytes bytes :=
  let! _ := app_ledger (schedule_retry digest now) in
  let! _ := app_persist_ledger in
  mut_ret (json_reply 503 (retryable_body digest)).
Definition attachment_posted (digest id : string) : App (St := St) unit bytes :=
  let! _ := app_ledger (bind_relay_id digest id) in
  let! _ := app_ledger (transition digest DeliveryLedger.RelayAccepted) in
  let! saved := app_persist_ledger in
  guard (is_ok saved) (json_error 503 "storage_unavailable").

(** What is left once the relay has answered. *)
Definition send_answered (digest blob_id : string) (package : EncryptedAttachment) (now : N)
    (answer : result RelayAccepted RelayError) : Handler :=
  match answer with
  | Err _ => Locked [LedgerLock; StoreLock] (attachment_not_posted digest now) Done
  | Ok accepted =>
    Locked [LedgerLock; StoreLock] (attachment_posted digest (ra_id accepted)) (λ _,
    Locked [AuthorityLock] (take_if_equal blob_id package) (λ _,
    Done (json_reply 202 (accepted_body (ra_id accepted) digest))))
  end.

Definition handle_detached_attachment_send (raw : bytes) (clock : Clock) : Handler :=
  with_relay_pin raw clock (λ request pin,
  field (json_string (rq_body request) "conversation_id") "invalid_conversation" (λ conversation_id,
  field (json_string (rq_body request) "inbox_url") "invalid_inbox_url" (λ inbox_url,
  field (json_string (rq_body request) "blob_id") "invalid_blob_id" (λ blob_id,
  Locked [AuthorityLock] (completed_attachment blob_id) (λ package,
  endpoint_of inbox_url pin (λ endpoint,
  upload_blob endpoint blob_id (ea_blob package)
  (Locked [CatalogLock; StoreLock; LedgerLock]
     (encrypt_attachment_message conversation_id inbox_url endpoint (ea_descriptor package) (ck_now clock))
     (λ '(digest, envelope),
   Network (post_blocking endpoint envelope) (send_answered digest blob_id package (ck_now clock)))))))))).

Definition handle_detached_attachment (route : DetachedAttachmentRoute) (raw : bytes) (clock : Clock)
  : Handler :=
  match route with
  | UploadChunk => handle_detached_attachment_upload_chunk raw clock
  | UploadCompleted => handle_detached_attachment_upload_completed raw clock
  | DownloadChunk => handle_detached_attachment_download_chunk raw clock
  | SendAttachment => handle_detached_attachment_send raw clock
  end.
End attachments.
