(* ===== verification/ServerInvites.v ===== *)
(** * Invites and pairing over the relay ([apps/daemon/src/http_server.rs])

    The requests that create, consume and revoke an invite code, that wait for the other side at
    the rendezvous of the relay, and that approve a pairing. *)
From Stdlib Require Import Ascii NArith Lia ZifyBool ZifyN.
From stdpp Require Import base gmap strings list.
From S2P Require Import Prelude Text Collections Interfaces JsonValue Fs StoreFormat Storage RecordStore DeliveryLedger RelayEnvelope Trust Bridge Identity DeviceRegistry Invite Receipt Pairing Contacts Attachment MessageService MlsProvider MlsSession RelayClient Http Authority Inbox Server.

Inductive DetachedAuthorityRoute :=
| CreateInvite | ConsumeInvite | RevokeInvite | AutoSync | CompleteSession | Approve.

(** [position] and [remove]: the first code that is equal. *)
Fixpoint remove_code (code : string) (l : list string) : list string :=
  match l with
  | [] => []
  | c :: t => if seqb c code then t else c :: remove_code code t
  end.

Section invites.
Context `{OpenMls, Crypto, UriParser, UnicodeCase, AuthorityHost, Transport}.
Context {St : Type} `{RecordStore St}.
Context `{JsonCodec SessionSnapshot, JsonCodec AttachmentDescriptor, JsonCodec Value}.
Context `{JsonCodec DirectorySnapshot, JsonCodec PairingSnapshot}.
Context `{JsonCodec InviteCodeResponse, JsonCodec ConsumeInviteResponse}.
Context `{JsonCodec RevokeInviteResponse, JsonCodec PairingResponseRead}.

Definition invite_unavailable : bytes := text_error 503 "invite_unavailable".
Definition relay_down : bytes := json_error 503 "relay_unavailable".
Definition session_unavailable : bytes := text_error 503 "session_unavailable".

Definition the_identity : App (St := St) IdentityView bytes :=
  λ s, (s, ok_or (ap_identity s) (text_error 503 "identity_unavailable")).
Definition credential_of (v : IdentityView) : bytes :=
  mls_device_credential (iv_account_id v) (iv_device_id v).

(** A change of the authority and the store that answers with [reply] when it fails. *)
Definition change_authority {A E} (none : bytes) (reply : E → bytes)
    (m : Mut (InviteAuthority * St) A E) : App (St := St) A bytes :=
  let! r := app_authority_store m in
  match r with
  | None => mut_err none
  | Some r => mut_lift (map_err reply r)
  end.
Definition change_rendezvous (none : bytes) (f : PendingRendezvous → PendingRendezvous)
  : App (St := St) unit bytes :=
  let! a := the_authority none in
  λ s, (set_ap_authority (Some (set_rendezvous (f (au_rendezvous a)) a)) s, Ok tt).
(** A change of the catalog and the store, any error of which has one answer. *)
Definition change_catalog {A} (reply : bytes) (m : CatStore (S := St) A) : App (St := St) A bytes :=
  let! r := app_catalog_store m in mut_lift (map_err (λ _, reply) r).

Definition push_code (code : string) (r : PendingRendezvous) : PendingRendezvous :=
  {| pr_codes := pr_codes r ++ [code]; pr_conversation_id := pr_conversation_id r;
     pr_key_packages := pr_key_packages r |}.
Definition drop_code (code : string) (r : PendingRendezvous) : PendingRendezvous :=
  {| pr_codes := remove_code code (pr_codes r); pr_conversation_id := pr_conversation_id r;
     pr_key_packages := pr_key_packages r |}.
Definition set_pending (conversation_id : option string) (r : PendingRendezvous) : PendingRendezvous :=
  {| pr_codes := pr_codes r; pr_conversation_id := conversation_id;
     pr_key_packages := pr_key_packages r |}.
Definition push_key_package (key_package : bytes) (r : PendingRendezvous) : PendingRendezvous :=
  {| pr_codes := pr_codes r; pr_conversation_id := pr_conversation_id r;
     pr_key_packages := pr_key_packages r ++ [key_package] |}.
Definition clear_key_packages (r : PendingRendezvous) : PendingRendezvous :=
  {| pr_codes := pr_codes r; pr_conversation_id := pr_conversation_id r; pr_key_packages := [] |}.

(** The answers of the pairing. *)
Definition waiting : bytes :=
  json_reply 200 (json_object [("state", json_str "waiting")]).
Definition established : bytes :=
  json_reply 200 (json_object [("state", json_str "established"); ("approved", "true")]).

(** ** Creating *)

(** [InviteAuthority::create], which draws the code once the device and the root allow it. *)
Definition issue_invite (now : N) (conversation_id : string) (a : InviteAuthority)
  : App (St := St) string bytes :=
  let unavailable := text_error 503 "randomness_unavailable" in
  match authorize (ii_device_registry (au_issuer a)) (ii_device_id (au_issuer a)) now,
        ii_root (au_issuer a) with
  | Ok _, Some _ =>
    let! drawn := app_world (secure_random 32) in
    let '(issuer, made) := create now (Some conversation_id) drawn (au_issuer a) in
    let! _ := λ s, (set_ap_authority (Some (set_issuer issuer a)) s, Ok tt) in
    or_else (snd <$> made) unavailable
  | _, _ => mut_err unavailable
  end.

Definition prepare_invite (now : N)
  : App (St := St) (string * string * string * option TlsCertificatePin) bytes :=
  let! a := the_authority invite_unavailable in
  let! _ := guard (bool_decide (is_Some (ii_root (au_issuer a)))) (json_error 403 "root_authority_unavailable") in
  let! _ := change_authority invite_unavailable pairing_error authority_mark_invite_created in
  let! drawn := app_world (secure_random 16) in
  let! conversation := or_else drawn (text_error 503 "randomness_unavailable") in
  let conversation_id := "adconv" +:+ Invite.hex_bytes conversation in
  let! a := the_authority invite_unavailable in
  let! signed_invite := issue_invite now conversation_id a in
  let! inbox_url := or_else (ii_inbox_url (au_issuer a)) relay_down in
  mut_ret (conversation_id, signed_invite, inbox_url, relay_pin a).

Definition handle_detached_create_invite (seed : N) (raw : bytes) (clock : Clock) : Handler (St := St) :=
  Locked [BridgeLock] (let! _ := authorized raw clock in the_identity) (λ identity,
  Locked [AuthorityLock; StoreLock] (prepare_invite (ck_now clock))
    (λ '(conversation_id, signed_invite, inbox_url, pin),
  match from_inbox_url_with_pin inbox_url pin with
  | Err _ => Done relay_down
  | Ok endpoint =>
    Network (create_invite_code_blocking endpoint signed_invite) (λ answer,
    match answer with
    | Err _ => Done relay_down
    | Ok invite_code =>
      Locked [CatalogLock; StoreLock]
        (change_catalog session_unavailable (catalog_create conversation_id (credential_of identity) seed)) (λ _,
      Locked [AuthorityLock]
        (change_rendezvous invite_unavailable
           (set_pending (Some conversation_id) ∘ push_code (ric_code invite_code))) (λ _,
      Done (json_reply 200 (json_object
        [("invite_code", json_str (ric_code invite_code));
         ("expires_at", u64_to_string (ric_expires_at invite_code));
         ("invite_digest", json_str (ric_invite_digest invite_code));
         ("conversation_id", json_str conversation_id)]))))
    end)
  end)).

(** ** Consuming *)

Definition opt_str (o : option string) : Value :=
  match o with Some v => Str v | None => Null end.

(** The package the other side adds to the group. *)
Definition key_package_response (identity : IdentityView) (conversation_id relay_origin : string)
    (inbox_url : option string) (key_package : bytes) : Value :=
  Object [("account_id", Str (iv_account_id identity)); ("conversation_id", Str conversation_id);
          ("device_id", Str (iv_device_id identity)); ("inbox_url", opt_str inbox_url);
          ("key_package", Str (Invite.hex_bytes key_package)); ("kind", Str "key-package");
          ("relay_origin", Str relay_origin)].

Definition staged_body (safety_number : string) (invite : VerifiedInvite) (conversation_id : string)
  : string :=
  json_object
    [("staged", "true"); ("state", json_str "verified"); ("safety_verified", "false");
     ("safety_number", json_str safety_number); ("account_id", json_str (vi_account_id invite));
     ("device_id", json_str (vi_device_id invite));
     ("expires_at", u64_to_string (vi_expires_at invite));
     ("inbox_url", match vi_inbox_url invite with Some v => json_str v | None => "null" end);
     ("conversation_id", json_str conversation_id)].

(** The receipt is checked against the trust of this moment. *)
Definition check_receipt (code : string) (consumed : ConsumedRelayInvite) (invite : VerifiedInvite)
    (public_key : option bytes) (now : N) : App (St := St) unit bytes :=
  let! a := the_authority invite_unavailable in
  guard (verify_relay_receipt code (cri_invite consumed) (cri_receipt consumed) invite public_key
           (rb_trust (au_relay a)) now)
    (json_error 422 "invalid_relay_receipt").

Definition stage_invite (invite : VerifiedInvite) (now : N)
  : App (St := St) (string * IdentityView) bytes :=
  let! conversation_id := or_else (vi_conversation_id invite) (json_error 409 "invite_missing_conversation") in
  let! identity := the_identity in
  let! _ := change_authority invite_unavailable pairing_error (stage_peer invite now) in
  mut_ret (conversation_id, identity).

(** The code waits at the rendezvous from here on. *)
Definition await_approval (code conversation_id : string) (invite : VerifiedInvite)
  : App (St := St) bytes bytes :=
  let! _ := change_rendezvous invite_unavailable (set_pending (Some conversation_id) ∘ push_code code) in
  let! a := the_authority invite_unavailable in
  mut_ret (json_reply 200
    (staged_body (default EmptyString (safety_number (au_pairing a))) invite conversation_id)).

(** Once the relay has handed out the invite. *)
Definition invite_consumed (seed : N) (endpoint : RelayEndpoint) (code : string)
    (public_key : option bytes) (consumed : ConsumedRelayInvite) (invite : VerifiedInvite) (now : N)
  : Handler (St := St) :=
  Locked [AuthorityLock] (check_receipt code consumed invite public_key now) (λ _,
  Locked [AuthorityLock; StoreLock] (stage_invite invite now) (λ '(conversation_id, identity),
  Locked [CatalogLock; StoreLock]
    (change_catalog session_unavailable (prepare conversation_id (credential_of identity) seed)) (λ key_package,
  Locked [AuthorityLock] (the_authority invite_unavailable) (λ a,
  Network (write_pairing_response_blocking endpoint code
             (key_package_response identity conversation_id (ii_relay_origin (au_issuer a))
                (ii_inbox_url (au_issuer a)) key_package)) (λ answer,
  match answer with
  | Err _ => Done (json_error 503 "pairing_rendezvous_unavailable")
  | Ok _ => Locked [AuthorityLock] (await_approval code conversation_id invite) Done
  end))))).

Definition handle_detached_consume_invite (seed : N) (raw : bytes) (clock : Clock) : Handler (St := St) :=
  Locked [BridgeLock]
    (let! request := authorized raw clock in
     let! code := or_else (json_string (rq_body request) "invite_code") (json_error 400 "invalid_invite") in
     mut_ret (request, code)) (λ '(request, code),
  Locked [AuthorityLock] (the_authority invite_unavailable) (λ a,
  let origin := default (ii_relay_origin (au_issuer a)) (json_string (rq_body request) "relay_origin") in
  match for_public_origin_with_pin origin (relay_pin a) with
  | Err _ => Done (json_error 409 "relay_retrust_required")
  | Ok endpoint =>
    Network (consume_invite_code_blocking endpoint code) (λ answer,
    match answer with
    | Err _ => Done (json_error 422 "invalid_invite")
    | Ok consumed =>
      match verify_signed_invite_unbound (cri_invite consumed) (ck_now clock) with
      | None => Done (json_error 422 "invalid_invite")
      | Some invite =>
        invite_consumed seed endpoint code (rb_public_key (au_relay a)) consumed invite (ck_now clock)
      end
    end)
  end)).

(** ** Waiting at the rendezvous *)

(** [value.get(key).and_then(Value::as_str)]. *)
Definition get_str (key : string) (v : Value) : option string := value_get key v ≫= as_str.

(** The request names a code this daemon waits for. *)
Definition known_code (code : string) (a : InviteAuthority) : App (St := St) unit bytes :=
  guard (existsb (λ item, seqb item code) (pr_codes (au_rendezvous a)))
    (json_error 409 "pairing_rendezvous_unknown").
Definition rendezvous_endpoint (a : InviteAuthority) : App (St := St) RelayEndpoint bytes :=
  mut_lift (map_err (λ _, text_error 503 "relay_unavailable")
    (for_public_origin_with_pin (ii_relay_origin (au_issuer a)) (relay_pin a))).

(** The code of an authorized request. *)
Definition request_code (raw : bytes) (clock : Clock) : App (St := St) string bytes :=
  let! request := authorized raw clock in
  or_else (json_string (rq_body request) "invite_code") (json_error 400 "invalid_invite").

(** The peer and its package in the first response of kind [key-package]. *)
Definition read_key_package (pending : option string) (local_account_id : string) (now : N) (v : Value)
  : result (VerifiedInvite * bytes) bytes :=
  let invalid := json_error 422 "invalid_pairing_response" in
  let? conversation_id := ok_or (get_str "conversation_id" v) invalid in
  if negb (bool_decide (pending = Some conversation_id))
  then Err (json_error 422 "pairing_conversation_mismatch")
  else
    let? account_id := ok_or (get_str "account_id" v) invalid in
    let? device_id := ok_or (get_str "device_id" v) invalid in
    let? key_package := ok_or (get_str "key_package" v ≫= hex_decode) invalid in
    let? relay_origin := ok_or (get_str "relay_origin" v) invalid in
    let? inbox_url := ok_or (get_str "inbox_url" v) invalid in
    if negb (is_ok (validate_bound_inbox_url relay_origin inbox_url)) || seqb account_id local_account_id
    then Err invalid
    else Ok ({| vi_account_id := account_id; vi_device_id := device_id;
                vi_expires_at := u64_saturating_add now 600; vi_relay_origin := relay_origin;
                vi_inbox_url := Some inbox_url; vi_conversation_id := Some conversation_id |},
             key_package).

Definition verified_body (safety_number : string) (rest : list (string * string)) : string :=
  json_object ([("state", json_str "verified"); ("safety_verified", "false");
                ("safety_number", json_str safety_number)] ++ rest).

Definition already_verified : App (St := St) bytes bytes :=
  let! a := the_authority pairing_unavailable in
  mut_ret (json_reply 200 (verified_body (default EmptyString (safety_number (au_pairing a))) [])).

Definition peer_arrived (peer : VerifiedInvite) (key_package : bytes) (now : N)
  : App (St := St) bytes bytes :=
  let! _ := change_authority pairing_unavailable pairing_error (stage_peer peer now) in
  let! _ := change_rendezvous pairing_unavailable (push_key_package key_package) in
  let! a := the_authority pairing_unavailable in
  mut_ret (json_reply 200
    (verified_body (default EmptyString (safety_number (au_pairing a)))
       [("account_id", json_str (vi_account_id peer)); ("device_id", json_str (vi_device_id peer));
        ("conversation_id", json_str (default EmptyString (vi_conversation_id peer)));
        ("relay_origin", json_str (vi_relay_origin peer));
        ("inbox_url", json_str (default EmptyString (vi_inbox_url peer)))])).

Definition is_kind (kind : string) (v : Value) : bool := bool_decide (get_str "kind" v = Some kind).

Definition handle_detached_pairing_auto_sync (raw : bytes) (clock : Clock) : Handler (St := St) :=
  Locked [BridgeLock] (request_code raw clock) (λ code,
  Locked [AuthorityLock]
    (let! a := the_authority pairing_unavailable in
     let! _ := known_code code a in
     let! endpoint := rendezvous_endpoint a in
     mut_ret (endpoint, a)) (λ '(endpoint, a),
  if bool_decide (pr_key_packages (au_rendezvous a) ≠ []) then Locked [AuthorityLock] already_verified Done
  else
    Network (read_pairing_response_blocking endpoint code) (λ answer,
    match answer with
    | Err _ => Done waiting
    | Ok responses =>
      match find_first (is_kind "key-package") responses with
      | None => Done waiting
      | Some v =>
        match read_key_package (pr_conversation_id (au_rendezvous a)) (au_account_id a) (ck_now clock) v with
        | Err reply => Done reply
        | Ok (peer, key_package) =>
          Locked [AuthorityLock; StoreLock] (peer_arrived peer key_package (ck_now clock)) Done
        end
      end
    end))).

(** ** Joining *)

Definition welcomes_for (conversation_id : string) (responses : list Value) : list bytes :=
  omap (λ v, get_str "welcome" v ≫= hex_decode)
    (List.filter (λ v, is_kind "welcome" v
                       && bool_decide (get_str "conversation_id" v = Some conversation_id)) responses).

Fixpoint join_each (seed : N) (identity : IdentityView) (conversation_id : string) (l : list bytes)
  : App (St := St) unit bytes :=
  match l with
  | [] => mut_ret tt
  | welcome :: rest =>
    let! _ := change_catalog (json_error 422 "invalid_welcome")
                (catalog_join conversation_id (credential_of identity) seed welcome) in
    join_each seed identity conversation_id rest
  end.

(** An approval that is not possible in this state counts as one that is already there. *)
Definition tolerated (e : PairingError) : bool :=
  match e with Duplicate | InvalidTransition => true | _ => false end.

Definition session_joined (code : string) (now : N) : App (St := St) bytes bytes :=
  let! approved := app_authority_store (approve_pairing now) in
  let! _ := match approved with
            | None => mut_err pairing_unavailable
            | Some (Err e) => guard (tolerated e) (pairing_error e)
            | Some (Ok _) => mut_ret tt
            end in
  let! _ := change_authority pairing_unavailable contact_directory_error (register_approved_contact now) in
  let! _ := change_rendezvous pairing_unavailable (set_pending None ∘ drop_code code) in
  mut_ret (json_reply 200 (json_object [("state", json_str "joined"); ("joined", "true")])).

Definition handle_detached_pairing_complete_session (seed : N) (raw : bytes) (clock : Clock)
  : Handler (St := St) :=
  Locked [BridgeLock] (request_code raw clock) (λ code,
  Locked [AuthorityLock]
    (let! a := the_authority pairing_unavailable in
     let! _ := known_code code a in
     let! conversation_id := or_else (pr_conversation_id (au_rendezvous a))
                               (json_error 409 "pairing_conversation_unknown") in
     let! endpoint := rendezvous_endpoint a in
     mut_ret (endpoint, conversation_id)) (λ '(endpoint, conversation_id),
  Network (read_pairing_response_blocking endpoint code) (λ answer,
  match answer with
  | Err _ => Done waiting
  | Ok responses =>
    match welcomes_for conversation_id responses with
    | [] => Done waiting
    | welcomes =>
      Locked [CatalogLock; StoreLock]
        (let! identity := the_identity in join_each seed identity conversation_id welcomes) (λ _,
      Locked [AuthorityLock; StoreLock] (session_joined code (ck_now clock)) Done)
    end
  end))).

(** ** Approving *)

Record Approval := {
  av_key_packages : list bytes; av_code : string; av_conversation_id : string;
  av_endpoint : RelayEndpoint }.

(** The pairing is approved and the contact registered; without a waiting peer that is all. *)
Definition approve_section (now : N) : App (St := St) Approval bytes :=
  let! _ := change_authority pairing_unavailable pairing_error (approve_pairing now) in
  let! _ := change_authority pairing_unavailable contact_directory_error (register_approved_contact now) in
  let! a := the_authority pairing_unavailable in
  let r := au_rendezvous a in
  let! _ := guard (bool_decide (pr_key_packages r ≠ [])) established in
  let! code := or_else (last (pr_codes r)) established in
  let! conversation_id := or_else (pr_conversation_id r) established in
  let! endpoint := rendezvous_endpoint a in
  mut_ret {| av_key_packages := pr_key_packages r; av_code := code;
             av_conversation_id := conversation_id; av_endpoint := endpoint |}.

Definition welcome_response (conversation_id : string) (welcome : bytes) : Value :=
  Object [("conversation_id", Str conversation_id); ("kind", Str "welcome");
          ("welcome", Str (Invite.hex_bytes welcome))].

Fixpoint write_welcomes (p : Approval) (l : list bytes) (k : Handler (St := St)) : Handler :=
  match l with
  | [] => k
  | welcome :: rest =>
    Network (write_pairing_response_blocking (av_endpoint p) (av_code p)
               (welcome_response (av_conversation_id p) welcome)) (λ answer,
    match answer with
    | Ok _ => write_welcomes p rest k
    | Err _ => Done (json_error 503 "pairing_rendezvous_unavailable")
    end)
  end.

(** The rendezvous is over; a daemon without an authority has nothing to clear. *)
Definition close_rendezvous (code : string) : App (St := St) unit bytes :=
  let! _ := app_authority (E := unit) (λ a,
    (set_rendezvous (drop_code code (clear_key_packages (au_rendezvous a))) a, Ok tt)) in
  mut_ret tt.

Definition handle_detached_pairing_approve (raw : bytes) (clock : Clock) : Handler (St := St) :=
  Locked [BridgeLock] (authorized raw clock) (λ _,
  Locked [AuthorityLock; StoreLock] (approve_section (ck_now clock)) (λ p,
  Locked [CatalogLock; StoreLock]
    (change_catalog session_unavailable (add_members_batch (av_conversation_id p) (av_key_packages p))) (λ welcomes,
  write_welcomes p welcomes
    (Locked [AuthorityLock] (close_rendezvous (av_code p)) (λ _, Done established))))).

(** ** Revoking *)

Definition handle_detached_revoke_invite (raw : bytes) (clock : Clock) : Handler (St := St) :=
  Locked [BridgeLock] (request_code raw clock) (λ code,
  Locked [AuthorityLock]
    (let! a := the_authority invite_unavailable in
     let! inbox_url := or_else (ii_inbox_url (au_issuer a)) relay_down in
     mut_ret (inbox_url, relay_pin a)) (λ '(inbox_url, pin),
  match from_inbox_url_with_pin inbox_url pin with
  | Err _ => Done relay_down
  | Ok endpoint =>
    Network (revoke_invite_code_blocking endpoint code) (λ answer,
    Done
      match answer with
      | Ok _ => json_reply 200 (json_object [("revoked", "true")])
      | Err (RelayClient.Rejected status) => json_error status "relay_rejected"
      | Err _ => relay_down
      end)
  end)).

Definition handle_detached_authority (seed : N) (route : DetachedAuthorityRoute) (raw : bytes)
    (clock : Clock) : Handler (St := St) :=
  match route with
  | CreateInvite => handle_detached_create_invite seed raw clock
  | ConsumeInvite => handle_detached_consume_invite seed raw clock
  | RevokeInvite => handle_detached_revoke_invite raw clock
  | AutoSync => handle_detached_pairing_auto_sync raw clock
  | CompleteSession => handle_detached_pairing_complete_session seed raw clock
  | Approve => handle_detached_pairing_approve raw clock
  end.
End invites.
