(* ===== verification/Routes.v ===== *)
(** * Requests that stay on the machine

    [apps/daemon/src/session_routes.rs], [attachment_routes.rs] and [delivery_routes.rs]: the
    requests a routed handler answers with all locks of the state held. A handler is [None] for
    a path that is not its own. In the daemon the catalog, the store and the ledger of a
    [RouteContext] are always there; the authority and the identity may be missing. *)
From Stdlib Require Import Ascii NArith Lia ZifyBool ZifyN.
From stdpp Require Import base gmap strings list.
From S2P Require Import Prelude Text Collections Interfaces JsonValue Fs StoreFormat Storage RecordStore StorageLaws Recovery DeliveryLedger RelayEnvelope Trust Bridge Invite Pairing Contacts Attachment MessageService MlsProvider MlsSession RelayClient Http Authority Inbox Server.

(** What the routes need of the store beside its records. *)
Class ProfileStore (St : Type) := {
  store_page : St → RecordClass → string → nat → nat → list (string * bytes);
  store_count : St → nat;
  store_export : N → Mut St bytes StorageError;
  store_stage : bytes → Mut St unit StorageError;
  store_lock : St → St;
  store_wipe : Mut St unit StorageError;
}.

#[export] Instance encrypted_profile_store `{Crypto, JsonCodec RecoveryManifest}
  : ProfileStore (EncryptedStore * World) := {|
  store_page := λ s, records_with_prefix_page s.1;
  store_count := λ s, record_count s.1;
  store_export := λ now s,
    let '(w, r) := export_recovery_artifact s.1 now s.2 in ((s.1, w), r);
  store_stage := λ artifact s,
    let '(w, r) := stage_recovery_artifact s.1 artifact s.2 in ((s.1, w), r);
  store_lock := λ s, (Storage.lock s.1, s.2);
  store_wipe := wipe_files;
|}.

(** [(request.method, request.path) == (method, path)]. *)
Definition is_route (r : Request) (method path : string) : bool :=
  seqb (rq_method r) method && seqb (rq_path r) path.
(** One of several paths, with one method. *)
Definition is_one_of (r : Request) (method : string) (paths : list string) : bool :=
  seqb (rq_method r) method && existsb (seqb (rq_path r)) paths.

Definition EXCHANGE_PATH : string := "/local-session/exchange".
Definition staged_route_required : bytes := text_error 503 "staged_route_required".

Section routes.
Context `{OpenMls, Crypto, UriParser, AuthorityHost, Transport}.
Context {St : Type} `{RecordStore St, RecordScan St, ProfileStore St}.
Context `{JsonCodec SessionSnapshot, JsonCodec AttachmentDescriptor}.
Context `{JsonCodec (gmap string DeliveryRecord), JsonCodec Value}.

(** A handler with its answer. *)
Definition Route : Type := App (St := St) bytes bytes.

(** [authorize_api] before anything else. *)
Definition with_session_of (r : Request) (clock : Clock) (k : Route) : Route :=
  let! bridge := asks ap_bridge in
  let! _ := mut_lift (authorize_api bridge r (ck_now clock) (ck_mono clock)) in
  k.

(** A field of the body, or the answer without it. *)
Definition body_str (r : Request) (key code : string) : App (St := St) string bytes :=
  or_else (json_string (rq_body r) key) (json_error 400 code).
Definition body_hex (r : Request) (key code : string) : App (St := St) bytes bytes :=
  or_else (json_string (rq_body r) key ≫= hex_decode) (json_error 400 code).

(** ** Sessions *)

Definition quoted (v : string) : string := quote +:+ v +:+ quote.

(** A session is issued with two draws, the second after the first, once the checks passed. *)
Definition app_issue (m : option bytes → option bytes → Mut LocalBridge SessionCredentials BridgeError)
  : App (St := St) (result SessionCredentials BridgeError) bytes :=
  λ s,
    let dummy := Some (replicate TOKEN_BYTES zero) in
    match m dummy dummy (ap_bridge s) with
    | (b, Err e) => (set_ap_bridge b s, Ok (Err e))
    | (_, Ok _) =>
      let '(w, cookie) := secure_random TOKEN_BYTES (ap_world s) in
      let '(w, csrf) :=
        match cookie with Some _ => secure_random TOKEN_BYTES w | None => (w, None) end in
      let '(b, r) := m cookie csrf (ap_bridge s) in
      (set_ap_bridge b (set_ap_world w s), Ok r)
    end.

Definition session_reply (r : result SessionCredentials BridgeError) : bytes :=
  match r with
  | Ok c =>
    response 200
      (json_object [("csrf_token", quoted (sc_csrf_token c)); ("expires_at", u64_to_string (sc_expires_at c));
                    ("ui_version", quoted (sc_ui_version c))])
      (Some (sc_set_cookie c)) json_type
  | Err e => json_error 403 (error_code e)
  end.

(** The attachments are restored before the token is looked at. *)
Definition restore_before_exchange : App (St := St) unit bytes :=
  λ s,
    match ap_authority s with
    | None => (s, Ok tt)
    | Some a =>
      let '(t, r) := restore_received_attachments (ap_store s) (au_attachments a) in
      (set_ap_authority (Some (set_attachments t a)) s,
       map_err (λ _, json_error 503 "attachment_state_unavailable") r)
    end.

Definition route_exchange (r : Request) (clock : Clock) : Route :=
  let invalid := text_error 400 "invalid_bootstrap" in
  let! token := or_else (json_string (rq_body r) "token") invalid in
  let! ui_version := or_else (json_string (rq_body r) "ui_version") invalid in
  let! _ := restore_before_exchange in
  let! issued := app_issue (exchange (default EmptyString (header r "origin"))
                   (default EmptyString (header r "host")) token ui_version (ck_now clock) (ck_mono clock)) in
  mut_ret (session_reply issued).

Definition route_renew (r : Request) (clock : Clock) : Route :=
  let! cookie := or_else (cookie_value (default EmptyString (header r "cookie")) "ad_session")
                   (text_error 401 "session_invalid") in
  let! issued := app_issue (renew (default EmptyString (header r "origin"))
                   (default EmptyString (header r "host")) cookie
                   (default EmptyString (header r "x-ad-csrf"))
                   (default EmptyString (header r "x-ad-ui-version")) (ck_now clock) (ck_mono clock)) in
  mut_ret (session_reply issued).

Definition opt_json (o : option string) : string :=
  match o with Some v => json_str v | None => "null" end.

Definition status_of_state (s : AppState St) : string :=
  let inbox := ap_authority s ≫= λ a, ii_inbox_url (au_issuer a) in
  let origin := default EmptyString ((λ a, ii_relay_origin (au_issuer a)) <$> ap_authority s) in
  if bool_decide (ap_identity s = None) then "not_initialized"
  else if bool_decide (store_get (ap_store s) Recovery "exported" = None) then "recovery_required"
  else if seqb origin EmptyString || bool_decide (inbox = None) then "relay_unconfigured"
  else "ready".

Definition status_body (s : AppState St) : string :=
  json_object
    [("status", quoted (status_of_state s)); ("high_risk", "false");
     ("private_state", quoted "daemon-owned");
     ("relay_origin", json_str (default EmptyString ((λ a, ii_relay_origin (au_issuer a)) <$> ap_authority s)));
     ("inbox_url", opt_json (ap_authority s ≫= λ a, ii_inbox_url (au_issuer a)));
     ("storage_records", u64_to_string (N.of_nat (store_count (ap_store s))));
     ("storage_record_limit", u64_to_string MAX_RECORDS)].
Definition route_status (r : Request) (clock : Clock) : Route :=
  with_session_of r clock (asks (λ s, json_reply 200 (status_body s))).

Definition recovery_unavailable : bytes := json_error 503 "recovery_export_unavailable".
Definition route_recovery_export (r : Request) (clock : Clock) : Route :=
  with_session_of r clock
    (let! made := app_store (store_export (ck_now clock)) in
     let! artifact := mut_lift (map_err (λ _, recovery_unavailable) made) in
     let! marked := app_store (store_put Recovery "exported" (as_bytes "v1")) in
     let! _ := guard (is_ok marked) recovery_unavailable in
     mut_ret (json_reply 200
       (json_object [("schema_version", "2"); ("artifact_hex", quoted (Invite.hex_bytes artifact))]))).

Definition route_recovery_stage (r : Request) (clock : Clock) : Route :=
  with_session_of r clock
    (let! artifact := body_hex r "artifact_hex" "invalid_recovery_artifact" in
     let! staged := app_store (store_stage artifact) in
     mut_ret (if is_ok staged
              then json_reply 202 (json_object [("staged", "true"); ("restart_required", "true")])
              else json_error 422 "invalid_recovery_artifact")).

(** The changes of the state that end a session. *)
Definition forget_secrets (s : AppState St) : AppState St :=
  let s := set_ap_catalog (catalog_lock (ap_catalog s)) s in
  match ap_authority s with
  | Some a => set_ap_authority (Some (set_attachments (clear_attachment_state (au_attachments a)) a)) s
  | None => s
  end.
Definition end_session (s : AppState St) : AppState St :=
  set_ap_bridge (invalidate_session (ap_bridge s)) s.

Definition route_lock (r : Request) (clock : Clock) : Route :=
  with_session_of r clock
    (λ s,
      let s := forget_secrets s in
      let s := set_ap_store (store_lock (ap_store s)) s in
      (end_session s, Ok (json_reply 200 (json_object [("status", quoted "locked")])))).

Definition route_wipe (r : Request) (clock : Clock) : Route :=
  with_session_of r clock
    (λ s,
      let s := forget_secrets s in
      let s := set_ap_ledger (DeliveryLedger.wipe (ap_ledger s)) s in
      match store_wipe (ap_store s) with
      | (st, Err _) => (set_ap_store st s, Err (json_error 503 "wipe_incomplete"))
      | (st, Ok _) =>
        (end_session (set_ap_store st s),
         Ok (json_reply 200 (json_object [("wiped", "true"); ("remote_data", quoted "not_deleted");
                                          ("browser_cache", quoted "not_deleted")])))
      end).

Definition handle_session_route (r : Request) (clock : Clock) : option Route :=
  if is_route r "POST" EXCHANGE_PATH then Some (route_exchange r clock)
  else if is_route r "POST" "/local-session/renew" then Some (route_renew r clock)
  else if is_route r "GET" "/local-api/status" then Some (route_status r clock)
  else if is_route r "POST" "/local-api/recovery/export" then Some (route_recovery_export r clock)
  else if is_route r "POST" "/local-api/recovery/stage" then Some (route_recovery_stage r clock)
  else if is_route r "POST" "/local-api/session/lock" then Some (route_lock r clock)
  else if is_route r "POST" "/local-api/session/wipe" then Some (route_wipe r clock)
  else None.

(** ** Attachments *)

(** An operation on the attachments of the authority, which may draw keys. *)
Definition on_authority_attachments {A E} (m : Mut (AttachmentState * World) A E)
  : App (St := St) (result A E) bytes :=
  λ s,
    match ap_authority s with
    | None => (s, Err pairing_unavailable)
    | Some a =>
      let '(t, w, r) := m (au_attachments a, ap_world s) in
      (set_ap_authority (Some (set_attachments t a)) (set_ap_world w s), Ok r)
    end.
Definition without_draws {A E} (m : Mut AttachmentState A E) : Mut (AttachmentState * World) A E :=
  λ '(t, w), let '(t, r) := m t in (t, w, r).

(** The session and the authority, then the blob a request is about. *)
Definition with_blob (r : Request) (clock : Clock) (code : string) (k : string → Route) : Route :=
  with_session_of r clock
    (let! _ := the_authority pairing_unavailable in
     let! blob_id := body_str r "blob_id" code in
     k blob_id).

Definition route_attachment_start (r : Request) (clock : Clock) : Route :=
  with_blob r clock "invalid_blob_id" (λ blob_id,
    let! total := or_else (json_u64 (rq_body r) "total") (json_error 400 "invalid_attachment_size") in
    let! started := on_authority_attachments
                      (attachment_start blob_id total (json_string (rq_body r) "file_name")
                         (json_string (rq_body r) "media_type") (ck_now clock)) in
    mut_ret (if is_ok started then json_reply 201 (json_object [("started", "true")])
             else json_error 400 "invalid_attachment")).

(** [u32::try_from]. *)
Definition as_u32 (n : N) : option N := if (n <? 2 ^ 32)%N then Some n else None.

Definition route_attachment_append (r : Request) (clock : Clock) : Route :=
  with_blob r clock "invalid_blob_id" (λ blob_id,
    let! index := or_else (json_u64 (rq_body r) "index" ≫= as_u32) (json_error 400 "invalid_attachment_index") in
    let! plaintext := body_hex r "plaintext" "invalid_attachment_chunk" in
    let! appended := on_authority_attachments (attachment_append blob_id index plaintext) in
    mut_ret (if is_ok appended then json_reply 202 (json_object [("accepted", "true")])
             else json_error 409 "invalid_attachment_chunk")).

Definition route_attachment_finish (r : Request) (clock : Clock) : Route :=
  with_blob r clock "invalid_blob_id" (λ blob_id,
    let! finished := on_authority_attachments (without_draws (attachment_finish blob_id (ck_now clock))) in
    mut_ret (if is_ok finished then json_reply 200 (json_object [("finished", "true")])
             else json_error 409 "attachment_not_complete")).

Definition route_attachment_cancel (r : Request) (clock : Clock) : Route :=
  with_blob r clock "invalid_attachment_id" (λ blob_id s,
    match ap_authority s with
    | None => (s, Err pairing_unavailable)
    | Some a =>
      let '(t, st, cancelled) := cancel_attachment blob_id (au_attachments a) (ap_store s) in
      (set_ap_authority (Some (set_attachments t a)) (set_ap_store st s),
       Ok (json_reply 200 (json_object [("cancelled", json_of_bool cancelled)])))
    end).

Definition handle_attachment_route (r : Request) (clock : Clock) : option Route :=
  if is_one_of r "POST" ["/local-api/attachment/upload-chunk"; "/local-api/attachment/upload-completed";
                         "/local-api/attachment/download-chunk"; "/local-api/attachment/send"]
  then Some (mut_ret staged_route_required)
  else if is_route r "POST" "/local-api/attachment/start" then Some (route_attachment_start r clock)
  else if is_route r "POST" "/local-api/attachment/append" then Some (route_attachment_append r clock)
  else if is_route r "POST" "/local-api/attachment/finish" then Some (route_attachment_finish r clock)
  else if is_route r "POST" "/local-api/attachment/cancel" then Some (route_attachment_cancel r clock)
  else None.

(** ** Deliveries *)

Definition delivery_body (record : DeliveryRecord) : string :=
  json_object
    [("digest", json_str (dr_digest record)); ("state", quoted (delivery_state_name (dr_state record)));
     ("attempts", u64_to_string (dr_attempts record));
     ("next_retry_at", match dr_next_retry_at record with Some t => u64_to_string t | None => "null" end);
     ("relay_id", opt_json (dr_relay_id record))].

Definition route_delivery_status (r : Request) (clock : Clock) : Route :=
  with_session_of r clock
    (let! digest := body_str r "digest" "invalid_delivery_digest" in
     let! ledger := asks ap_ledger in
     let! record := or_else (ledger !! digest) (json_error 404 "delivery_not_found") in
     mut_ret (json_reply 200 (delivery_body record))).

Definition route_delivery_cancel (r : Request) (clock : Clock) : Route :=
  with_session_of r clock
    (let! digest := body_str r "digest" "invalid_delivery_digest" in
     let! tried := app_ledger (DeliveryLedger.cancel digest) in
     let! cancelled := mut_lift (map_err (λ _, json_error 404 "delivery_not_found") tried) in
     let! _ := if (cancelled : bool)
               then let! saved := app_persist_ledger in guard (is_ok saved) storage_unavailable
               else mut_ret tt in
     mut_ret (json_reply 200 (json_object [("cancelled", json_of_bool cancelled)]))).

Definition handle_delivery_route (r : Request) (clock : Clock) : option Route :=
  if negb (seqb (rq_method r) "POST") || negb (starts_with "/local-api/delivery/" (rq_path r)) then None
  else if is_one_of r "POST" ["/local-api/delivery/post"; "/local-api/delivery/retry";
                              "/local-api/delivery/sync"; "/local-api/delivery/ack"]
  then Some (mut_ret staged_route_required)
  else if is_route r "POST" "/local-api/delivery/status" then Some (route_delivery_status r clock)
  else if is_route r "POST" "/local-api/delivery/cancel" then Some (route_delivery_cancel r clock)
  else Some (mut_ret (text_error 404 "not_found")).
End routes.
