(* ===== verification/RoutesMls.v ===== *)
(** * Requests on the encrypted sessions ([apps/daemon/src/mls_routes.rs])

    The routed requests that create and join sessions, change their members, and encrypt and
    decrypt with them; and [deliver_device_change_commits] of [maintenance.rs], which posts the
    commits of a removed device while the locks are held. *)
From Stdlib Require Import Ascii NArith Lia ZifyBool ZifyN.
From stdpp Require Import base gmap strings list.
From S2P Require Import Prelude Text Collections Interfaces JsonValue ProtocolGate Fs StoreFormat Storage RecordStore DeliveryLedger RelayEnvelope Trust Bridge Invite Pairing Contacts Attachment MessageService MlsProvider MlsSession RelayClient Http Authority Inbox Server Routes.

Definition MAX_MESSAGE_TTL_SECONDS : N := 7 * 24 * 60 * 60.

Definition catalog_error (e : SessionCatalogError) : bytes :=
  match e with
  | InvalidConversation => json_error 400 "invalid_conversation"
  | DuplicateConversation => json_error 409 "conversation_exists"
  | UnknownConversation => json_error 404 "conversation_not_found"
  | CatalogSession _ => json_error 422 "session_operation_failed"
  end.

Definition require_protocol (identity : IdentityView) (now : N) : result unit string :=
  let? _ := map_err (λ _, "protocol_unavailable")
              (admit_peer (iv_account_id identity) (iv_device_id identity) DAEMON_PROTOCOL) in
  let? _ := map_err (λ _, "protocol_version_unsupported") (negotiate DAEMON_PROTOCOL_VERSION) in
  map_err (λ _, "clock_skew") (validate_clock now now).

(** The requests look at this answer and go on whatever it is. *)
Definition require_peer_binding (authority : option InviteAuthority) (conversation_id : string) (now : N)
  : result unit string :=
  match authority with
  | None => Ok tt
  | Some a =>
    let? peer := ok_or (sn_peer (snapshot (au_pairing a))) "peer_unavailable" in
    let? _ := map_err (λ _, "peer_protocol_unavailable")
                (admit_peer (vi_account_id peer) (vi_device_id peer) DAEMON_PROTOCOL) in
    if (vi_expires_at peer <=? now)%N then Err "peer_expired"
    else if match vi_conversation_id peer with
            | Some bound => negb (seqb bound conversation_id)
            | None => false
            end
    then Err "conversation_binding_changed"
    else Ok tt
  end.

Section mls.
Context `{OpenMls, Crypto, UriParser, AuthorityHost, Transport}.
Context {St : Type} `{RecordStore St}.
Context `{JsonCodec SessionSnapshot, JsonCodec AttachmentDescriptor, JsonCodec WireEnvelope}.
Context `{JsonCodec (gmap string DeliveryRecord), JsonCodec Value}.
Context `{JsonCodec MessagePayload, JsonCodec StoredMessage, JsonCodec PostResponse}.

(** ** Guards *)

Definition paired (clock : Clock) : App (St := St) unit bytes :=
  λ s, guard (pairing_ready (ap_authority s) (ck_now clock)) (json_error 403 "pairing_not_ready") s.
Definition identity_of : App (St := St) IdentityView bytes :=
  λ s, (s, ok_or (ap_identity s) (text_error 503 "identity_unavailable")).
Definition protocol_of (clock : Clock) : App (St := St) IdentityView bytes :=
  let! identity := identity_of in
  let! _ := mut_lift (map_err (json_error 503) (require_protocol identity (ck_now clock))) in
  mut_ret identity.
Definition conversation_of (r : Request) : App (St := St) string bytes :=
  body_str r "conversation_id" "invalid_conversation".
Definition not_blocked (conversation_id : string) : App (St := St) unit bytes :=
  λ s,
    guard (match ap_authority s with
           | Some a => negb (is_blocked_conversation (au_contacts a) conversation_id)
           | None => true
           end) (json_error 403 "contact_blocked") s.
Definition credential (identity : IdentityView) : bytes :=
  mls_device_credential (iv_account_id identity) (iv_device_id identity).

(** An operation of the catalog; its error is answered by [catalog_error]. *)
Definition in_catalog {A} (m : CatStore (S := St) A) : App (St := St) A bytes :=
  let! r := app_catalog_store m in mut_lift (map_err catalog_error r).
Definition in_catalog_only {A} (m : Mut MlsSessionCatalog A SessionCatalogError) : App (St := St) A bytes :=
  let! r := app_catalog m in mut_lift (map_err catalog_error r).

(** The answer is given after the session is sealed, when the step before it failed. *)
Definition seal_on_error {A E} (conversation_id : string) (reply : bytes) (r : result A E)
  : App (St := St) A bytes :=
  λ s,
    match r with
    | Ok a => (s, Ok a)
    | Err _ => (set_ap_catalog (poison conversation_id (ap_catalog s)) s, Err reply)
    end.
(** [store.apply_batch] of the checkpoint and more. *)
Definition checkpoint_with (conversation_id : string) (more : list RecordMutation) (reply : bytes)
  : App (St := St) unit bytes :=
  let! made := asks (λ s, checkpoint_bytes conversation_id (ap_catalog s)) in
  let! checkpoint := seal_on_error conversation_id (text_error 503 "session_storage_unavailable") made in
  let! saved := app_store (store_batch (Put ProtocolSession (session_key conversation_id) checkpoint :: more)) in
  seal_on_error conversation_id reply saved.

(** ** Sessions and members *)

Definition route_session_create (seed : N) (r : Request) (clock : Clock) : Route :=
  with_session_of r clock
    (let! _ := paired clock in
     let! identity := protocol_of clock in
     let! conversation_id := conversation_of r in
     let! _ := in_catalog (catalog_create conversation_id (credential identity) seed) in
     mut_ret (json_reply 201 (json_object [("created", "true")]))).

Definition route_session_prepare (seed : N) (r : Request) (clock : Clock) : Route :=
  with_session_of r clock
    (let! _ := paired clock in
     let! conversation_id := conversation_of r in
     let! identity := protocol_of clock in
     let! key_package := in_catalog (prepare conversation_id (credential identity) seed) in
     mut_ret (json_reply 200 (json_object [("key_package", quoted (Invite.hex_bytes key_package))]))).

(** The pairing is not asked. *)
Definition route_session_join (seed : N) (r : Request) (clock : Clock) : Route :=
  with_session_of r clock
    (let! conversation_id := conversation_of r in
     let! welcome := body_hex r "welcome" "invalid_welcome" in
     let! identity := protocol_of clock in
     let! _ := in_catalog (catalog_join conversation_id (credential identity) seed welcome) in
     mut_ret (json_reply 200 (json_object [("joined", "true")]))).

(** The packages of the list that are hexadecimal, or the single one. *)
Definition requested_packages (r : Request) : list bytes :=
  let listed :=
    match json_string_array (rq_body r) "key_packages" with
    | Some l => omap hex_decode l
    | None => []
    end in
  match listed with
  | [] => match json_string (rq_body r) "key_package" ≫= hex_decode with Some v => [v] | None => [] end
  | _ => listed
  end.

Definition route_add_member (r : Request) (clock : Clock) : Route :=
  with_session_of r clock
    (let! _ := paired clock in
     let! _ := protocol_of clock in
     let! conversation_id := conversation_of r in
     let! _ := guard (bool_decide (requested_packages r ≠ [])) (json_error 400 "invalid_key_package") in
     let! welcomes := in_catalog (add_members_batch conversation_id (requested_packages r)) in
     mut_ret (json_reply 200 (json_object
       [("welcomes", "[" +:+ join 44 (map (λ w, quoted (Invite.hex_bytes w)) welcomes) +:+ "]")]))).

Definition route_remove_member (r : Request) (clock : Clock) : Route :=
  with_session_of r clock
    (let! _ := paired clock in
     let! _ := protocol_of clock in
     let! conversation_id := conversation_of r in
     let! device_credential := body_hex r "device_credential" "invalid_device_credential" in
     let! commit := in_catalog (remove_group_member conversation_id device_credential) in
     mut_ret (json_reply 200 (json_object
       match commit with
       | Some commit => [("commit", quoted (Invite.hex_bytes commit))]
       | None => [("removed", "false")]
       end))).

(** ** Messages *)

Definition message_expiry_ok (expires_at now : N) : bool :=
  (expires_at =? 0)%N
  || ((now <? expires_at)%N && (expires_at <=? u64_saturating_add now MAX_MESSAGE_TTL_SECONDS)%N).

Definition route_send (r : Request) (clock : Clock) : Route :=
  with_session_of r clock
    (let! _ := paired clock in
     let! _ := protocol_of clock in
     let! conversation_id := conversation_of r in
     let! _ := not_blocked conversation_id in
     let! text := body_str r "plaintext" "invalid_message" in
     let expires_at := default 0%N (json_u64 (rq_body r) "expires_at") in
     let! _ := guard (message_expiry_ok expires_at (ck_now clock)) (json_error 422 "invalid_message_expiry") in
     let! encoded := app_world (encode_message_payload text (ck_now clock) expires_at) in
     let! plaintext := or_else encoded (text_error 503 "randomness_unavailable") in
     let! ciphertext := in_catalog_only (send_unpersisted conversation_id plaintext) in
     let! message := or_else (decode_message_payload plaintext) (text_error 503 "message_encoding_failed") in
     let unavailable := text_error 503 "message_storage_unavailable" in
     let! record := seal_on_error conversation_id unavailable
                      (encoded_message_record conversation_id message "outgoing") in
     let! _ := checkpoint_with conversation_id [Put Message record.1 record.2] unavailable in
     mut_ret (json_reply 200 (json_object [("ciphertext", quoted (Invite.hex_bytes ciphertext))]))).

(** The text and what the answer says about it. *)
Definition received_fields (plaintext : bytes) (now : N) : list (string * string) :=
  match decode_message_payload plaintext with
  | Some m =>
    [("plaintext", quoted (Invite.hex_bytes (as_bytes (mp_text m)))); ("message_id", json_str (mp_id m));
     ("created_at", u64_to_string (mp_created_at m)); ("expires_at", u64_to_string (mp_expires_at m));
     ("expired", json_of_bool (negb (mp_expires_at m =? 0)%N && (mp_expires_at m <=? now)%N))]
  | None => [("plaintext", quoted (Invite.hex_bytes plaintext))]
  end.

(** The pairing is not asked. *)
Definition route_receive (r : Request) (clock : Clock) : Route :=
  with_session_of r clock
    (let! conversation_id := conversation_of r in
     let! _ := not_blocked conversation_id in
     let! ciphertext := body_hex r "ciphertext" "invalid_ciphertext" in
     let! received := in_catalog_only (receive_delivery_unpersisted conversation_id ciphertext) in
     let! plaintext := or_else received (json_error 409 "session_operation_failed") in
     let! _ := checkpoint_with conversation_id [] (text_error 503 "session_storage_unavailable") in
     mut_ret (json_reply 200 (json_object (received_fields plaintext (ck_now clock))))).

Definition route_send_attachment (r : Request) (clock : Clock) : Route :=
  with_session_of r clock
    (let! _ := paired clock in
     let! conversation_id := conversation_of r in
     let! _ := not_blocked conversation_id in
     let! encoded := body_str r "descriptor" "invalid_attachment_descriptor" in
     let! descriptor := or_else (json_from_slice (as_bytes encoded)) (json_error 400 "invalid_attachment_descriptor") in
     let! ciphertext := in_catalog_only (send_attachment_unpersisted conversation_id descriptor) in
     let! _ := checkpoint_with conversation_id [] (text_error 503 "session_storage_unavailable") in
     mut_ret (json_reply 200 (json_object
       [("ciphertext", quoted (Invite.hex_bytes ciphertext)); ("blob_id", json_str (ad_blob_id descriptor))]))).

Definition route_receive_attachment (r : Request) (clock : Clock) : Route :=
  with_session_of r clock
    (let! _ := paired clock in
     let! conversation_id := conversation_of r in
     let! _ := not_blocked conversation_id in
     let! ciphertext := body_hex r "ciphertext" "invalid_ciphertext" in
     let! descriptor := in_catalog_only (receive_attachment_unpersisted conversation_id ciphertext) in
     let! _ := checkpoint_with conversation_id [] (text_error 503 "session_storage_unavailable") in
     let! payload := or_else (json_to_vec descriptor) (text_error 503 "descriptor_unavailable") in
     mut_ret (json_reply 200 (json_object [("descriptor", of_bytes payload)]))).

(** ** Removing a device *)

(** A section that calls the relay with the locks held. *)
Definition HeldApp (A E : Type) : Type := Mut (AppState St * list NetEvent) A E.
Definition held {A E} (m : App (St := St) A E) : HeldApp A E :=
  λ '(s, log), let '(s, r) := m s in (s, log, r).
Definition held_net {A} (call : Net A) : HeldApp A RelayError :=
  λ '(s, log), let '(log, r) := call log in (s, log, r).

(** The envelope of a commit, registered in the ledger with its destination. *)
Definition register_commit (a : InviteAuthority) (conversation_id : string) (commit : bytes) (now : N)
  : App (St := St) (RelayEndpoint * RelayEnvelope * string) RelayError :=
  let! contact := or_else (for_conversation (au_contacts a) conversation_id) InvalidEndpoint in
  let! inbox_url := or_else (ct_inbox_url contact) InvalidEndpoint in
  let! endpoint := mut_lift (from_inbox_url_with_pin inbox_url (relay_pin a)) in
  let! created := app_world (create_envelope (ep_capability endpoint) commit
                    (u64_saturating_add now (10 * 60)) now) in
  let! envelope := mut_lift (map_err (λ _, InvalidResponse) created) in
  let! digest := mut_lift (map_err (λ _, InvalidResponse) (digest envelope)) in
  let! wire := mut_lift (map_err (λ _, InvalidResponse) (to_wire envelope)) in
  let! registered := app_ledger (register_encrypted_with_destination digest (Some wire)
                       (Some (re_expires_at envelope)) (Some inbox_url)) in
  let! _ := mut_lift (map_err (λ _, InvalidResponse) registered) in
  mut_ret (endpoint, envelope, digest).

(** A commit the relay does not take is tried again later, and the ledger written. *)
Definition commit_postponed (digest : string) (now : N) : App (St := St) unit RelayError :=
  let! _ := app_ledger (schedule_retry digest now) in
  let! _ := app_persist_ledger in
  mut_ret tt.
Definition commit_accepted (digest id : string) : App (St := St) unit RelayError :=
  let invalid {A} (r : result A EnvelopeError) := mut_lift (map_err (λ _, InvalidResponse) r) in
  let! bound := app_ledger (bind_relay_id digest id) in
  let! _ := invalid bound in
  let! queued := app_ledger (transition digest Queued) in
  let! _ := invalid queued in
  let! accepted := app_ledger (transition digest DeliveryLedger.RelayAccepted) in
  invalid accepted.

Definition deliver_commit (a : InviteAuthority) (conversation_id : string) (commit : bytes) (now : N)
  : HeldApp string RelayError :=
  let! x := held (register_commit a conversation_id commit now) in
  let '(endpoint, envelope, digest) := x in
  λ s,
    match held_net (post_blocking endpoint envelope) s with
    | (s, Err e) => ((held (commit_postponed digest now) s).1, Err e)
    | (s, Ok accepted) =>
      let '(s, r) := held (commit_accepted digest (ra_id accepted)) s in
      (s, let? _ := r in Ok digest)
    end.

(** The loop over the commits: the first that fails ends it. *)
Fixpoint deliver_each (a : InviteAuthority) (commits : list DeviceRemovalCommit) (now : N)
  : HeldApp (list string) RelayError :=
  match commits with
  | [] => mut_ret []
  | (conversation_id, commit, _) :: rest =>
    let! digest := deliver_commit a conversation_id commit now in
    let! digests := deliver_each a rest now in
    mut_ret (digest :: digests)
  end.

Definition deliver_device_change_commits (a : InviteAuthority) (commits : list DeviceRemovalCommit) (now : N)
  : HeldApp (list string) RelayError :=
  let! digests := deliver_each a commits now in
  let! saved := held app_persist_ledger in
  let! _ := mut_lift (map_err (λ _, InvalidResponse) saved) in
  mut_ret digests.

(** The commits that remove a device from every session; all sessions are sealed on failure. *)
Definition seal_all {A} (reply : bytes) : App (St := St) A bytes :=
  λ s, (set_ap_catalog (poison_all (ap_catalog s)) s, Err reply).
Definition checkpoint_puts (commits : list DeviceRemovalCommit) : list RecordMutation :=
  map (λ '(conversation_id, _, checkpoint),
    Put ProtocolSession (session_key conversation_id) checkpoint) commits.

Definition removed_device (account_id device_id : string) : App (St := St) (list DeviceRemovalCommit) bytes :=
  let! removed := app_catalog (remove_device_unpersisted (mls_device_credential account_id device_id)) in
  match removed with
  | Err e => seal_all (catalog_error e)
  | Ok commits =>
    let! saved := app_store (store_batch (checkpoint_puts commits)) in
    if is_ok saved then mut_ret commits
    else seal_all storage_unavailable
  end.

Definition commit_body (c : DeviceRemovalCommit) : string :=
  let '(conversation_id, commit, _) := c in
  json_object [("conversation_id", json_str conversation_id); ("commit", quoted (Invite.hex_bytes commit))].

(** The authority and the device a request removes. *)
Definition device_to_remove (r : Request) : App (St := St) (InviteAuthority * string) bytes :=
  let! a := the_authority (text_error 503 "device_unavailable") in
  let! _ := guard (bool_decide (is_Some (ii_root (au_issuer a)))) (json_error 403 "root_authority_unavailable") in
  let! account_id := body_str r "account_id" "account_id_required" in
  let! device_id := body_str r "device_id" "device_id_required" in
  let! _ := guard (seqb account_id (au_account_id a)) (json_error 422 "device_account_mismatch") in
  mut_ret (a, device_id).

Definition delivery_pending : bytes := json_error 503 "device_change_delivery_pending".

Definition route_remove_device (r : Request) (clock : Clock) : HeldApp bytes bytes :=
  let! bridge := held (asks ap_bridge) in
  let! _ := mut_lift (authorize_api bridge r (ck_now clock) (ck_mono clock)) in
  let! x := held (device_to_remove r) in
  let '(a, device_id) := x in
  let! commits := held (removed_device (au_account_id a) device_id) in
  λ s,
    let '(s, delivered) := deliver_device_change_commits a commits (ck_now clock) s in
    (s, let? digests := map_err (λ _, delivery_pending) delivered in
        Ok (json_reply 200 (json_object
          [("removed", "true"); ("commits", "[" +:+ join 44 (map commit_body commits) +:+ "]");
           ("delivered", u64_to_string (N.of_nat (length digests)))]))).

Definition handle_mls_route (seed : N) (r : Request) (clock : Clock) : option (HeldApp bytes bytes) :=
  if is_route r "POST" "/local-api/session/remove-device" then Some (route_remove_device r clock)
  else held <$>
    (if is_route r "POST" "/local-api/session/create" then Some (route_session_create seed r clock)
     else if is_route r "POST" "/local-api/session/prepare" then Some (route_session_prepare seed r clock)
     else if is_route r "POST" "/local-api/session/join" then Some (route_session_join seed r clock)
     else if is_route r "POST" "/local-api/session/add-member" then Some (route_add_member r clock)
     else if is_route r "POST" "/local-api/session/remove-member" then Some (route_remove_member r clock)
     else if is_route r "POST" "/local-api/session/send" then Some (route_send r clock)
     else if is_route r "POST" "/local-api/session/receive" then Some (route_receive r clock)
     else if is_route r "POST" "/local-api/session/send-attachment" then Some (route_send_attachment r clock)
     else if is_route r "POST" "/local-api/session/receive-attachment" then Some (route_receive_attachment r clock)
     else None).
End mls.
