(* ===== verification/RoutesAuthority.v ===== *)
(** * Requests on the account ([apps/daemon/src/authority_routes.rs])

    The routed requests on relay trust, the identity, devices, invites, pairing, contacts and
    stored messages. The two requests on attestations have code that the guard of
    [handle_authority_route] never lets run; they are not modelled. *)
From Stdlib Require Import Ascii NArith Lia ZifyBool ZifyN.
From stdpp Require Import base gmap strings list.
From S2P Require Import Prelude Text TextScan Collections Interfaces JsonValue Fs StoreFormat Storage RecordStore DeliveryLedger RelayEnvelope Trust Bridge Identity DeviceRegistry Invite Receipt Pairing Contacts Attachment DeviceLink DeviceAuthority MessageService MlsProvider MlsSession RelayClient Http Authority Inbox Server Routes RoutesMls.

(** [str::replace(" }", "}")]. *)
Fixpoint close_braces (b : bytes) : bytes :=
  match b with
  | [] => []
  | x :: t =>
    match t with
    | y :: _ =>
      if (byte_n x =? 32)%N && (byte_n y =? 125)%N then close_braces t else x :: close_braces t
    | [] => [x]
    end
  end.

Section authority.
Context `{OpenMls, Crypto, UriParser, UnicodeCase, AuthorityHost, Transport}.
Context {St : Type} `{RecordStore St, ProfileStore St}.
Context `{JsonCodec SessionSnapshot, JsonCodec AttachmentDescriptor, JsonCodec WireEnvelope}.
Context `{JsonCodec (gmap string DeliveryRecord), JsonCodec Value, JsonCodec PostResponse}.
Context `{JsonCodec RegistryWire, JsonCodec RequestWire, JsonCodec ApprovalWire}.
Context `{JsonCodec PairingSnapshot, JsonCodec DirectorySnapshot, JsonCodec StoredMessage}.
Context `{JsonCodec (list ContactRecord), JsonCodec (list string)}.

(** A change of the authority and the store, with the answers without one and on failure. *)
Definition on_account {A E} (none : bytes) (reply : E → bytes) (m : Mut (InviteAuthority * St) A E)
  : App (St := St) A bytes :=
  let! r := app_authority_store m in
  match r with
  | None => mut_err none
  | Some r => mut_lift (map_err reply r)
  end.

(** ** Relay trust *)

Definition trust_unavailable : bytes := json_error 503 "relay_trust_unavailable".

Definition route_trust (r : Request) (clock : Clock) : Route (St := St) :=
  with_session_of r clock
    (let! a := the_authority trust_unavailable in
     mut_ret (json_reply 200 (json_object
       [("relay_origin", json_str (ii_relay_origin (au_issuer a)));
        ("tls_pin", opt_json (as_text <$> relay_pin a)); ("retrust_required", "false")]))).

Definition set_tls_pin (pin : TlsCertificatePin) (a : InviteAuthority) : InviteAuthority :=
  {| au_issuer := au_issuer a; au_account_id := au_account_id a;
     au_relay := {| rb_public_key := rb_public_key (au_relay a); rb_tls_pin := Some pin;
                    rb_trust := rb_trust (au_relay a) |};
     au_rendezvous := au_rendezvous a; au_staged_peer := au_staged_peer a;
     au_pairing := au_pairing a; au_contacts := au_contacts a;
     au_attachments := au_attachments a; au_attestations := au_attestations a |}.

(** A pin that differs from the present one needs [retrust]. *)
Definition pin_allowed (present : option TlsCertificatePin) (pin : TlsCertificatePin) (retrust : bool) : bool :=
  match present with
  | Some previous => bool_decide (previous = pin) || retrust
  | None => true
  end.

Definition route_set_trust (r : Request) (clock : Clock) : Route (St := St) :=
  with_session_of r clock
    (let! a := the_authority trust_unavailable in
     let! value := body_str r "tls_pin" "tls_pin_required" in
     let! _ := guard (starts_with "https://" (ii_relay_origin (au_issuer a)))
                 (json_error 422 "tls_pin_requires_https") in
     let! pin := mut_lift (map_err (λ _, json_error 422 "invalid_tls_pin") (Trust.parse value)) in
     let retrust := default false (json_bool (rq_body r) "retrust") in
     let! _ := guard (pin_allowed (relay_pin a) pin retrust) (json_error 409 "relay_retrust_required") in
     let! saved := app_store (store_put Account (relay_tls_pin_record_key (ii_relay_origin (au_issuer a)))
                     (as_bytes (as_text pin))) in
     let! _ := guard (is_ok saved) (json_error 503 "storage_unavailable") in
     let! _ := λ s, (set_ap_authority (Some (set_tls_pin pin a)) s, Ok tt) in
     mut_ret (json_reply 200 (json_object
       [("saved", "true"); ("tls_pin", json_str (as_text pin)); ("retrusted", json_of_bool retrust)]))).

(** ** Identity and devices *)

Definition route_identity (r : Request) (clock : Clock) : Route (St := St) :=
  with_session_of r clock
    (let! identity := identity_of in
     mut_ret (json_reply 200 (json_object
       [("account_id", json_str (iv_account_id identity)); ("device_id", json_str (iv_device_id identity));
        ("display_name", json_str (iv_display_name identity)); ("private_state", quoted "daemon-owned")]))).

Definition num (n : N) : Value := Num (PosInt n).
Definition device_value (record : DeviceRecord) : Value :=
  let c := dv_certificate record in
  Object
    [("device_id", Str (dc_device_id c)); ("expires_at", num (dc_expires_at c));
     ("issued_at", num (dc_issued_at c)); ("public_key", Str (Invite.hex_bytes (dc_device_public_key c)));
     ("revoked_at", match dv_revoked_at record with Some t => num t | None => Null end);
     ("state", Str (if bool_decide (is_Some (dv_revoked_at record)) || dc_revoked c
                    then "revoked" else "active"))].
Definition event_value (e : DeviceChangeEvent) : Value :=
  Object
    [("at", num (ev_at e)); ("device_id", Str (ev_device_id e));
     ("kind", Str match ev_kind e with Registered => "registered" | Revoked => "revoked" end)].

Definition device_unavailable : bytes := json_error 503 "device_unavailable".

Definition route_devices (r : Request) (clock : Clock) : Route (St := St) :=
  with_session_of r clock
    (let! a := the_authority device_unavailable in
     let g := ii_device_registry (au_issuer a) in
     mut_ret (json_reply 200 (of_bytes (default [] (json_to_vec (Object
       [("devices", Array (map device_value (btree_values (dg_devices g))));
        ("events", Array (map event_value (dg_events g)))])))))).

(** The answers of a failed action, with what differs between the two requests. *)
Definition revoke_error (e : DeviceActionError) : bytes :=
  match e with
  | CurrentDevice => json_error 409 "current_device_revoke_forbidden"
  | ActionRegistry UnknownDevice => json_error 404 "device_not_found"
  | ActionRegistry DeviceNotActive => json_error 409 "device_already_revoked"
  | ActionStorage => json_error 503 "storage_unavailable"
  | ActionRegistry _ | ActionLink _ => json_error 422 "device_registry_invalid"
  | RootUnavailable => json_error 403 "root_authority_unavailable"
  end.
Definition approve_error (e : DeviceActionError) : bytes :=
  match e with
  | ActionLink LinkExpired => json_error 410 "device_link_expired"
  | ActionLink InvalidCode => json_error 422 "invalid_device_link_code"
  | ActionRegistry DeviceRegistry.DuplicateDevice => json_error 409 "device_already_registered"
  | ActionStorage => json_error 503 "storage_unavailable"
  | ActionLink _ | ActionRegistry _ => json_error 422 "invalid_device_link_request"
  | CurrentDevice => json_error 409 "current_device_revoke_forbidden"
  | RootUnavailable => json_error 403 "root_authority_unavailable"
  end.

Definition on_issuer {A E} (m : Mut InviteIssuer A E) : Mut InviteAuthority A E :=
  λ a, let '(i, r) := m (au_issuer a) in (set_issuer i a, r).
Definition on_issuer_store {A E} (m : Mut (InviteIssuer * St) A E) : Mut (InviteAuthority * St) A E :=
  λ '(a, st), let '(i, st, r) := m (au_issuer a, st) in (set_issuer i a, st, r).

(** The registry of before, as far as it can be decoded, and every session sealed. *)
Definition undo_revocation {A} (previous : bytes) (reply : bytes) : App (St := St) A bytes :=
  let! _ := app_authority (on_issuer (restore_device_registry previous)) in
  seal_all reply.

(** The registry and the checkpoints of the sessions are one batch. *)
Definition revoke_everywhere (device_id : string) (now : N)
  : App (St := St) (InviteAuthority * list DeviceRemovalCommit) bytes :=
  let! revoked := app_authority (on_issuer (revoke_device_unpersisted device_id now)) in
  let! encoded := match revoked with
                  | None => mut_err device_unavailable
                  | Some r => mut_lift (map_err revoke_error r)
                  end in
  let '(previous, registry) := encoded in
  let! a := the_authority device_unavailable in
  let! removed := app_catalog (remove_device_unpersisted (mls_device_credential (au_account_id a) device_id)) in
  match removed with
  | Err e => undo_revocation previous (catalog_error e)
  | Ok commits =>
    let! saved := app_store (store_batch (Put Device "registry" registry :: checkpoint_puts commits)) in
    if is_ok saved then mut_ret (a, commits) else undo_revocation previous storage_unavailable
  end.

Definition route_revoke (r : Request) (clock : Clock) : HeldApp (St := St) bytes bytes :=
  let! bridge := held (asks ap_bridge) in
  let! _ := mut_lift (authorize_api bridge r (ck_now clock) (ck_mono clock)) in
  let! device_id := held (body_str r "device_id" "device_id_required") in
  let! x := held (revoke_everywhere device_id (ck_now clock)) in
  let '(a, commits) := x in
  λ s,
    let '(s, delivered) := deliver_device_change_commits a commits (ck_now clock) s in
    (s, let? digests := map_err (λ _, delivery_pending) delivered in
        Ok (json_reply 200 (json_object
          [("revoked", "true"); ("device_id", json_str device_id);
           ("sessions_removed", u64_to_string (N.of_nat (length commits)));
           ("delivered", u64_to_string (N.of_nat (length digests)))]))).

(** The key of the pending device is dropped with the answer. *)
Definition route_link_request (r : Request) (clock : Clock) : Route (St := St) :=
  with_session_of r clock
    (let device_id := "device-link-" +:+ u64_to_string (ck_now clock) in
     let! made := app_world (link_create device_id (replicate 32 zero) (ck_now clock)) in
     match made with
     | Err _ => mut_ret (json_error 503 "link_request_failed")
     | Ok (pending, code) =>
       let encoded := match request_encode (pk_request pending) with Ok v => v | Err _ => EmptyString end in
       mut_ret (json_reply 200 (json_object [("request", json_str encoded); ("code", json_str code)]))
     end).

Definition route_link_approve (r : Request) (clock : Clock) : Route (St := St) :=
  with_session_of r clock
    (let! link_request := body_str r "link_request" "link_request_required" in
     let! code := body_str r "code" "link_code_required" in
     let! parsed := mut_lift (map_err (λ _, json_error 422 "invalid_device_link_request")
                      (request_parse link_request)) in
     let! approval := on_account device_unavailable approve_error
                        (on_issuer_store (approve_device_link parsed code (ck_now clock))) in
     mut_ret (json_reply 200 (json_object
       [("approved", "true"); ("device_id", json_str (lr_device_id parsed)); ("approval", json_str approval)]))).

(** ** Invites and pairing *)

Definition route_invite_verify (r : Request) (clock : Clock) : Route (St := St) :=
  with_session_of r clock
    (let! code := body_str r "invite_code" "invalid_invite" in
     let! signed_invite := body_str r "signed_invite" "invalid_invite" in
     let! invite := or_else (verify_signed_invite code signed_invite (ck_now clock)) (json_error 422 "invalid_invite") in
     mut_ret (json_reply 200 (json_object
       [("account_id", json_str (vi_account_id invite)); ("device_id", json_str (vi_device_id invite));
        ("expires_at", u64_to_string (vi_expires_at invite));
        ("relay_origin", json_str (vi_relay_origin invite)); ("verified", "true")]))).

Definition staged_fields (safety_number : string) (invite : VerifiedInvite) : list (string * string) :=
  [("staged", "true"); ("state", quoted "verified"); ("safety_verified", "false");
   ("safety_number", json_str safety_number); ("account_id", json_str (vi_account_id invite));
   ("device_id", json_str (vi_device_id invite)); ("expires_at", u64_to_string (vi_expires_at invite));
   ("inbox_url", opt_json (vi_inbox_url invite))].

Definition invites_unavailable : bytes := text_error 503 "invite_unavailable".

Definition route_invite_stage (r : Request) (clock : Clock) : Route (St := St) :=
  with_session_of r clock
    (let! a := the_authority invites_unavailable in
     let! code := body_str r "invite_code" "invalid_invite" in
     let! signed_invite := body_str r "signed_invite" "invalid_invite" in
     let! receipt := body_str r "relay_receipt" "relay_receipt_required" in
     let! invite := or_else (verify_signed_invite_unbound signed_invite (ck_now clock)) (json_error 422 "invalid_invite") in
     let! _ := guard (verify_relay_receipt code signed_invite receipt invite (rb_public_key (au_relay a))
                        (rb_trust (au_relay a)) (ck_now clock)) (json_error 422 "invalid_relay_receipt") in
     let! _ := on_account invites_unavailable pairing_error (stage_peer invite (ck_now clock)) in
     let! a := the_authority invites_unavailable in
     mut_ret (json_reply 200
       (json_object (staged_fields (default EmptyString (safety_number (au_pairing a))) invite)))).

Definition peer_part (peer : option VerifiedInvite) : string :=
  match peer with
  | None => EmptyString
  | Some peer =>
    "," +:+ json_field "peer" (json_object
      [("account_id", json_str (vi_account_id peer)); ("device_id", json_str (vi_device_id peer));
       ("expires_at", u64_to_string (vi_expires_at peer)); ("relay_origin", json_str (vi_relay_origin peer));
       ("inbox_url", opt_json (vi_inbox_url peer))])
  end.
Definition safety_part (safety_number : option string) : string :=
  match safety_number with
  | Some v => "," +:+ json_field "safety_number" (json_str v)
  | None => EmptyString
  end.
Definition pairing_body (p : PairingSession) : string :=
  let n := snapshot p in
  of_bytes (close_braces (as_bytes
    ("{" +:+ json_field "state" (quoted (pairing_state_str (sn_state n))) +:+ ","
     +:+ json_field "safety_verified" (json_of_bool (sn_safety_verified n))
     +:+ peer_part (sn_peer n) +:+ safety_part (safety_number p) +:+ " }"))).

Definition route_pairing_status (r : Request) (clock : Clock) : Route (St := St) :=
  with_session_of r clock
    (let! a := the_authority pairing_unavailable in
     mut_ret (json_reply 200 (pairing_body (au_pairing a)))).

(** A change of the pairing, after the session and the authority were found. *)
Definition pairing_change (m : Mut (InviteAuthority * St) unit PairingError)
    (body : list (string * string)) : Route (St := St) :=
  let! _ := on_account pairing_unavailable pairing_error m in
  mut_ret (json_reply 200 (json_object body)).

Definition route_verify_safety (r : Request) (clock : Clock) : Route (St := St) :=
  with_session_of r clock
    (let! _ := the_authority pairing_unavailable in
     let! value := body_str r "safety_number" "safety_number_required" in
     pairing_change (authority_confirm_safety value) [("safety_verified", "true")]).
Definition route_unverify_safety (r : Request) (clock : Clock) : Route (St := St) :=
  with_session_of r clock
    (pairing_change authority_unverify_safety [("safety_verified", "false"); ("messaging_blocked", "true")]).
Definition route_reject (r : Request) (clock : Clock) : Route (St := St) :=
  with_session_of r clock
    (pairing_change reject_pairing [("state", quoted "rejected"); ("rejected", "true")]).

(** ** Contacts *)

Definition contacts_unavailable : bytes := text_error 503 "contacts_unavailable".

Definition route_contacts (r : Request) (clock : Clock) : Route (St := St) :=
  with_session_of r clock
    (let! a := the_authority contacts_unavailable in
     let! payload := or_else (json_to_vec (contacts_list (au_contacts a))) contacts_unavailable in
     mut_ret (json_reply 200 (json_object [("contacts", of_bytes payload)]))).

(** The session, the authority, then the account a request is about. *)
Definition with_contact_of (r : Request) (clock : Clock) (k : string → Route (St := St)) : Route :=
  with_session_of r clock
    (let! _ := the_authority contacts_unavailable in
     let! account_id := body_str r "account_id" "account_id_required" in
     k account_id).
Definition contact_change {A} (m : Mut (InviteAuthority * St) A ContactDirectoryError)
  : App (St := St) A bytes := on_account contacts_unavailable contact_directory_error m.

Definition route_alias (r : Request) (clock : Clock) : Route (St := St) :=
  with_contact_of r clock (λ account_id,
    let! alias := body_str r "alias" "alias_required" in
    let! _ := contact_change (set_contact_alias account_id alias) in
    mut_ret (json_reply 200 (json_object [("updated", "true")]))).
Definition route_block (blocked : bool) (r : Request) (clock : Clock) : Route (St := St) :=
  with_contact_of r clock (λ account_id,
    let! _ := contact_change (set_contact_blocked account_id blocked) in
    mut_ret (json_reply 200 (json_object [("blocked", json_of_bool blocked)]))).
Definition route_bind_conversation (r : Request) (clock : Clock) : Route (St := St) :=
  with_contact_of r clock (λ account_id,
    let! conversation_id := body_str r "conversation_id" "conversation_id_required" in
    let! _ := contact_change (bind_contact_conversation account_id conversation_id) in
    mut_ret (json_reply 200 (json_object [("bound", "true")]))).
Definition route_contact_read (r : Request) (clock : Clock) : Route (St := St) :=
  with_contact_of r clock (λ account_id,
    let! _ := contact_change (mark_contact_read account_id) in
    mut_ret (json_reply 200 (json_object [("read", "true")]))).

(** The contact goes first, then its session. *)
Definition route_contact_delete (r : Request) (clock : Clock) : Route (St := St) :=
  with_contact_of r clock (λ account_id,
    let! removed := contact_change (remove_contact account_id) in
    let! _ := match ct_conversation_id removed with
              | None => mut_ret tt
              | Some conversation_id =>
                let! gone := app_catalog_store (catalog_remove conversation_id) in
                match gone with
                | Ok _ | Err UnknownConversation => mut_ret tt
                | Err e => mut_err (catalog_error e)
                end
              end in
    mut_ret (json_reply 200 (json_object [("deleted", "true")]))).

(** ** Conversations and messages *)

Definition route_conversations (r : Request) (clock : Clock) : Route (St := St) :=
  with_session_of r clock
    (let! ids := asks (λ s, conversation_ids (ap_catalog s)) in
     let payload := match json_to_vec ids with Some b => of_bytes b | None => "[]" end in
     mut_ret (json_reply 200 (json_object [("conversations", payload)]))).

Definition message_body (m : StoredMessage) : string :=
  json_object
    [("message_id", json_str (sm_message_id m)); ("direction", json_str (sm_direction m));
     ("created_at", u64_to_string (sm_created_at m)); ("expires_at", u64_to_string (sm_expires_at m));
     ("plaintext", quoted (Invite.hex_bytes (as_bytes (sm_text m))))].

(** The loop over a page: expired messages of the conversation are deleted on the way. *)
Fixpoint list_page (conversation_id : string) (now : N) (page : list (string * bytes))
  : App (St := St) (list string) bytes :=
  match page with
  | [] => mut_ret []
  | (key, contents) :: rest =>
    let! m := or_else (json_from_slice contents) (text_error 503 "message_storage_corrupt") in
    if negb (seqb (sm_conversation_id m) conversation_id) then list_page conversation_id now rest
    else if negb (sm_expires_at m =? 0)%N && (sm_expires_at m <=? now)%N then
      let! _ := app_store (store_delete Message key) in
      list_page conversation_id now rest
    else
      let! messages := list_page conversation_id now rest in
      mut_ret (message_body m :: messages)
  end.

Definition page_limit (r : Request) : N := N.min 200 (N.max 1 (default 200 (json_u64 (rq_body r) "limit")))%N.

Definition route_messages (r : Request) (clock : Clock) : Route (St := St) :=
  with_session_of r clock
    (let! conversation_id := body_str r "conversation_id" "invalid_conversation" in
     let limit := page_limit r in
     let offset := default 0%N (json_u64 (rq_body r) "offset") in
     let! page := asks (λ s, store_page (ap_store s) Message "messages/" (N.to_nat offset)
                                (S (N.to_nat limit))) in
     let truncated := bool_decide (N.to_nat limit < length page) in
     let! messages := list_page conversation_id (ck_now clock) (take (N.to_nat limit) page) in
     mut_ret (json_reply 200 (json_object
       [("messages", "[" +:+ join 44 messages +:+ "]");
        ("next_offset", if truncated then u64_to_string (offset + limit) else "null")]))).

(** ** Dispatch *)

Definition dispatch_authority_route (r : Request) (clock : Clock) : HeldApp (St := St) bytes bytes :=
  if is_route r "POST" "/local-api/devices/revoke" then route_revoke r clock
  else held
    (if is_route r "GET" "/local-api/relay/trust" then route_trust r clock
     else if is_route r "POST" "/local-api/relay/trust" then route_set_trust r clock
     else if is_route r "GET" "/local-api/identity" then route_identity r clock
     else if is_route r "GET" "/local-api/devices" then route_devices r clock
     else if is_route r "POST" "/local-api/devices/link-request" then route_link_request r clock
     else if is_route r "POST" "/local-api/devices/link/approve" then route_link_approve r clock
     else if is_route r "POST" "/local-api/invites/verify" then route_invite_verify r clock
     else if is_route r "POST" "/local-api/invites/stage" then route_invite_stage r clock
     else if is_route r "GET" "/local-api/pairing/status" then route_pairing_status r clock
     else if is_route r "POST" "/local-api/pairing/verify-safety" then route_verify_safety r clock
     else if is_route r "POST" "/local-api/pairing/unverify-safety" then route_unverify_safety r clock
     else if is_route r "GET" "/local-api/contacts" then route_contacts r clock
     else if is_route r "POST" "/local-api/contacts/alias" then route_alias r clock
     else if is_route r "POST" "/local-api/contacts/block" then route_block true r clock
     else if is_route r "POST" "/local-api/contacts/unblock" then route_block false r clock
     else if is_route r "POST" "/local-api/contacts/delete" then route_contact_delete r clock
     else if is_route r "POST" "/local-api/contacts/bind-conversation" then route_bind_conversation r clock
     else if is_route r "POST" "/local-api/contacts/read" then route_contact_read r clock
     else if is_route r "GET" "/local-api/conversations" then route_conversations r clock
     else if is_route r "POST" "/local-api/messages/list" then route_messages r clock
     else if is_route r "POST" "/local-api/pairing/reject" then route_reject r clock
     else mut_ret (text_error 404 "not_found")).

(** The paths this dispatcher takes. *)
Definition authority_path (path : string) : bool :=
  seqb path "/local-api/identity" || seqb path "/local-api/conversations"
  || seqb path "/local-api/messages/list" || starts_with "/local-api/relay/trust" path
  || starts_with "/local-api/devices" path || starts_with "/local-api/invites" path
  || starts_with "/local-api/pairing" path || starts_with "/local-api/contacts" path.

Definition handle_authority_route (r : Request) (clock : Clock) : option (HeldApp (St := St) bytes bytes) :=
  if is_one_of r "POST" ["/local-api/invites"; "/local-api/invites/consume"; "/local-api/invites/revoke";
                         "/local-api/pairing/auto-sync"; "/local-api/pairing/complete-session";
                         "/local-api/pairing/approve"]
  then Some (mut_ret staged_route_required)
  else if negb (authority_path (rq_path r)) then None
  else Some (dispatch_authority_route r clock).
End authority.
