(* ===== verification/Dispatch.v ===== *)
(** * From a request to its handler

    [handle_request_with_route_context] of [apps/daemon/src/bridge_http.rs] and the router of
    [http_server.rs]: the request that arrives over HTTP becomes the program that answers it. *)
From Stdlib Require Import Ascii NArith Lia ZifyBool ZifyN.
From stdpp Require Import base gmap strings list.
From S2P Require Import Prelude Text TextScan Collections Interfaces JsonValue Fs StoreFormat Storage RecordStore DeliveryLedger RelayEnvelope Trust Bridge Identity DeviceRegistry Invite Receipt Pairing Contacts Attachment DeviceLink DeviceAuthority MessageService MlsProvider MlsSession RelayClient Http Authority Inbox Server ServerAttachments ServerInvites Routes RoutesMls RoutesAuthority.

Inductive DetachedDeliveryRoute := PostDelivery | RetryDelivery | AckDelivery | SyncDelivery.

(** The first of the paths that is the path of a POST request. *)
Definition post_route {A} (routes : list (string * A)) (raw : bytes) : option A :=
  r ← parse_request raw;
  if seqb (rq_method r) "POST" then snd <$> find_first (λ p, seqb (rq_path r) p.1) routes else None.

Definition detached_delivery_route : bytes → option DetachedDeliveryRoute :=
  post_route
    [("/local-api/delivery/post", PostDelivery); ("/local-api/delivery/retry", RetryDelivery);
     ("/local-api/delivery/ack", AckDelivery); ("/local-api/delivery/sync", SyncDelivery)].
Definition detached_attachment_route : bytes → option DetachedAttachmentRoute :=
  post_route
    [("/local-api/attachment/upload-chunk", UploadChunk);
     ("/local-api/attachment/upload-completed", UploadCompleted);
     ("/local-api/attachment/download-chunk", DownloadChunk);
     ("/local-api/attachment/send", SendAttachment)].
Definition detached_authority_route : bytes → option DetachedAuthorityRoute :=
  post_route
    [("/local-api/invites", CreateInvite); ("/local-api/invites/consume", ConsumeInvite);
     ("/local-api/invites/revoke", RevokeInvite); ("/local-api/pairing/auto-sync", AutoSync);
     ("/local-api/pairing/complete-session", CompleteSession); ("/local-api/pairing/approve", Approve)].

Definition BOOTSTRAP_UI_PATH : string := "/__ad_ui__/current".

(** The user interface: the page itself and its files. *)
Definition ui_page (r : Request) : bool :=
  seqb (rq_method r) "GET"
  && existsb (seqb (rq_path r)) ["/"; "/index.html"; BOOTSTRAP_UI_PATH].
Definition ui_asset (r : Request) : bool :=
  seqb (rq_method r) "GET"
  && (starts_with "/assets/" (rq_path r) || seqb (rq_path r) "/manifest.webmanifest").
Definition ui_reply (fs : StaticFiles) (ui_root : option string) (r : Request) : bytes :=
  let missing := text_error 404 "ui_not_found" in
  if ui_page r then default missing (static_file fs ui_root "index.html")
  else if ui_asset r then default missing (static_file fs ui_root (trim_start_matches 47 (rq_path r)))
  else text_error 404 "not_found".

Section dispatch.
Context `{OpenMls, Crypto, UriParser, UnicodeCase, AuthorityHost, Transport, HttpTypes}.
Context {St : Type} `{RecordStore St, RecordScan St, ProfileStore St}.
Context `{JsonCodec SessionSnapshot, JsonCodec AttachmentDescriptor, JsonCodec WireEnvelope}.
Context `{JsonCodec (gmap string DeliveryRecord), JsonCodec Value}.
Context `{JsonCodec MessagePayload, JsonCodec StoredMessage}.
Context `{JsonCodec PairingSnapshot, JsonCodec DirectorySnapshot}.
Context `{JsonCodec RegistryWire, JsonCodec RequestWire, JsonCodec ApprovalWire}.
Context `{JsonCodec (list ContactRecord), JsonCodec (list string)}.
Context `{JsonCodec PostResponse, JsonCodec SyncResponse, JsonCodec AckResponse}.
Context `{JsonCodec BlobChunkResponse, JsonCodec InviteCodeResponse, JsonCodec ConsumeInviteResponse}.
Context `{JsonCodec RevokeInviteResponse, JsonCodec PairingResponseRead}.
Context (fs : StaticFiles) (ui_root : option string).

(** Old attachments go with every routed request. *)
Definition purge (now : N) (s : AppState St) : AppState St :=
  match ap_authority s with
  | None => s
  | Some a => set_ap_authority (Some (set_attachments (purge_attachment_state now (au_attachments a)) a)) s
  end.

(** The first of the route modules that takes the request; otherwise the user interface. *)
Definition routed (seed : N) (r : Request) (clock : Clock) : HeldApp (St := St) bytes bytes :=
  match held <$> handle_session_route r clock, handle_mls_route seed r clock,
        held <$> handle_attachment_route r clock, held <$> handle_delivery_route r clock,
        handle_authority_route r clock with
  | Some m, _, _, _, _ | None, Some m, _, _, _ | None, None, Some m, _, _
  | None, None, None, Some m, _ | None, None, None, None, Some m => m
  | None, None, None, None, None => mut_ret (ui_reply fs ui_root r)
  end.

Definition handle_request_with_route_context (seed : N) (raw : bytes) (clock : Clock)
  : HeldApp (St := St) bytes bytes :=
  match parse_request raw with
  | None => mut_ret (text_error 400 "invalid_request")
  | Some r => λ '(s, log), routed seed r clock (purge (ck_now clock) s, log)
  end.

Definition handle_detached_delivery (route : DetachedDeliveryRoute) (raw : bytes) (clock : Clock)
  : Handler (St := St) :=
  match route with
  | PostDelivery => handle_detached_delivery_post raw clock
  | RetryDelivery => handle_detached_delivery_retry raw clock
  | AckDelivery => handle_detached_delivery_ack raw clock
  | SyncDelivery => handle_detached_delivery_sync raw clock
  end.

(** The locks of a routed request, in the order they are taken. *)
Definition ALL_LOCKS : list Lock := [BridgeLock; AuthorityLock; CatalogLock; StoreLock; LedgerLock].

(** The program of a request. *)
Definition serve (seed : N) (raw : bytes) (clock : Clock) : Handler (St := St) :=
  match detached_delivery_route raw, detached_attachment_route raw, detached_authority_route raw with
  | Some route, _, _ => handle_detached_delivery route raw clock
  | None, Some route, _ => handle_detached_attachment route raw clock
  | None, None, Some route => handle_detached_authority seed route raw clock
  | None, None, None => Held ALL_LOCKS (handle_request_with_route_context seed raw clock) Done
  end.

(** What [to_bytes] makes of the body within ten seconds. *)
Inductive BodyRead := ReadBody (b : bytes) | BodyTooLarge | BodyTimeout.
Inductive Admission :=
| Refused (r : AxumResponse)
| Events
| Accepted (p : Prog (AppState St) AxumResponse).

(** [axum_handler]: the flag of the shutdown, the path of the request, its body and whether one
    of the blocking slots is free. *)
Definition axum_handler (shutting_down : bool) (path : string) (parts : Parts) (body : BodyRead)
    (slot_free : bool) (seed : N) (clock : Clock) : Admission :=
  if shutting_down then Refused (axum_response (text_error 503 "daemon_shutting_down"))
  else if seqb path "/local-api/events" then Events
  else
    match body with
    | BodyTooLarge => Refused (axum_response (text_error 413 "request_too_large"))
    | BodyTimeout => Refused (axum_response (text_error 408 "request_timeout"))
    | ReadBody body =>
      match axum_request_bytes parts body with
      | None => Refused (axum_response (text_error 400 "invalid_request"))
      | Some raw =>
        if negb slot_free then Refused (axum_response (text_error 503 "daemon_busy"))
        else Accepted (prog_bind (serve seed raw clock) (λ reply, Done (axum_response reply)))
      end
    end.
End dispatch.
