(* ===== verification/ServerSample.v ===== *)
(** * A daemon to try the theorems on

    Concrete parameters of the server: the reference cryptography, a table as the store, a small
    group library, a relay that answers every call with the same text, and a state with a live
    session. The witnesses of the theorems about requests evaluate on it. *)
From Stdlib Require Import Ascii NArith Lia.
From stdpp Require Import base gmap strings list.
From S2P Require Import Prelude Text TextScan Collections Interfaces JsonValue Fs StoreFormat Storage RecordStore TableStore DeliveryLedger RelayEnvelope Trust Bridge Identity DeviceRegistry Invite Pairing Contacts Attachment AttachmentProps MlsProvider MlsSession MlsSessionProps RelayClient RelayClientProps Http HttpProps Authority AuthorityProps Server Routes.

Module ServerSample.
Import Reference TableStore.
#[export] Existing Instance MlsSessionSample.types.
#[export] Existing Instance MlsSessionSample.openmls.
#[export] Existing Instance RelayClientSample.host.
#[export] Existing Instance HttpSample.http_types.

(** A codec that refuses everything, for the types a sample does not use. *)
#[export] Instance silent {A} : JsonCodec A | 1000 := {| json_to_vec _ := None; json_from_slice _ := None |}.
#[export] Instance value_codec : JsonCodec Value | 10 :=
  {| json_to_vec _ := Some (as_bytes "{}"); json_from_slice _ := None |}.

#[export] Instance table_profile : ProfileStore Table := {|
  store_page t c p offset limit := take limit (drop offset (store_prefix t c p));
  store_count := length;
  store_export _ t := (t, Ok (as_bytes "artifact"));
  store_stage _ t := (t, Ok tt);
  store_lock _ := [];
  store_wipe _ := ([], Ok tt);
|}.

(** The relay accepts connections and answers [200 OK]. *)
#[export] Instance transport : Transport := {
  net_connect _ _ := IoOk tt; net_set_timeout _ := true; net_handshake _ _ _ := true;
  net_write _ _ _ := IoOk tt; net_read _ _ := IoOk RelayClientSample.raw;
  tls_verifier_builds := true; tls_versions_ok := true;
  server_name_ok _ := true; client_connection_ok _ _ := true;
}.

Definition identity : IdentityView :=
  {| iv_account_id := "alice"; iv_device_id := "device-1"; iv_display_name := "Alice" |}.
Definition world : World :=
  {| w_files := ∅; w_faults := []; w_entropy := replicate 8 (replicate 32 (n_byte 5)); w_pid := 1 |}.
Definition state : AppState Table :=
  {| ap_bridge := BridgeSample.exchanged.1; ap_identity := Some identity;
     ap_authority := Some AuthoritySample.a0; ap_catalog := MlsSessionSample.cat0; ap_store := [];
     ap_ledger := ∅; ap_world := world |}.
Definition clock : Clock := {| ck_now := 500; ck_mono := 1000000007 |}.

(** The text of a request, with the session of the sample or without. *)
Definition request_text (method path cookie body : string) : bytes :=
  as_bytes (method +:+ " " +:+ path +:+ " HTTP/1.1" +:+ crlf
    +:+ "Origin: http://127.0.0.1:4173" +:+ crlf +:+ "Host: 127.0.0.1:4173" +:+ crlf
    +:+ "Cookie: ad_session=" +:+ cookie +:+ crlf
    +:+ "X-AD-CSRF: " +:+ sc_csrf_token BridgeSample.credentials +:+ crlf
    +:+ "X-AD-UI-Version: 1.0.0" +:+ crlf +:+ crlf +:+ body).
Definition live (method path body : string) : bytes :=
  request_text method path (sc_cookie BridgeSample.credentials) body.
Definition stranger (method path body : string) : bytes := request_text method path "stolen" body.

Definition files : StaticFiles :=
  {| sf_canonicalize _ := None; sf_is_file _ := false; sf_read _ := None |}.
End ServerSample.
