(* ===== verification/Locks.v ===== *)
(** * Requests that run side by side

    The programs of [Server.v] under a scheduler that takes one step of one of them at a time:
    a section takes its locks one after the other, waits for those that others hold, and gives
    them all back when it ends. Programs whose sections take the locks in one order cannot wait
    for each other for ever. *)
From Stdlib Require Import Ascii NArith Lia Sorted.
From stdpp Require Import base gmap strings list relations.
From S2P Require Import Prelude RelayClient Server.

(** The order in which the daemon takes its locks. *)
Definition rank (l : Lock) : nat :=
  match l with
  | BridgeLock => 0 | AuthorityLock => 1 | CatalogLock => 2 | StoreLock => 3 | LedgerLock => 4
  end.
Definition before (l m : Lock) : Prop := rank l < rank m.
Definition in_order (locks : list Lock) : Prop := StronglySorted before locks.

Section scheduler.
Context {S R : Type}.

Definition locks_of (p : Prog S R) : list Lock :=
  match p with Locked locks _ _ | Held locks _ _ => locks | Done _ | Network _ _ => [] end.

(** A program with the locks it holds and those it still waits for. *)
Record Thread := { th_prog : Prog S R; th_held : list Lock; th_todo : list Lock }.
Definition start (p : Prog S R) : Thread := {| th_prog := p; th_held := []; th_todo := locks_of p |}.
Definition finished (t : Thread) : Prop := ∃ r, th_prog t = Done r.

(** The next section or network call of a program, with its effect. *)
Definition advance (p : Prog S R) (x : S * list NetEvent) : option (Prog S R * (S * list NetEvent)) :=
  match p with
  | Done _ => None
  | Locked _ section k =>
    let '(s, r) := section x.1 in
    Some (match r with Ok a => k a | Err e => Done e end, (s, x.2))
  | Held _ section k =>
    let '(x, r) := section x in Some (match r with Ok a => k a | Err e => Done e end, x)
  | Network call k => let '(log, r) := call x.2 in Some (k r, (x.1, log))
  end.

Definition Config : Type := (S * list NetEvent) * list Thread.

(** A lock is free when no thread holds it. *)
Definition free (l : Lock) (ts : list Thread) : Prop := ∀ t, t ∈ ts → l ∉ th_held t.

Inductive step : Config → Config → Prop :=
| step_acquire x before t l rest after :
  th_todo t = l :: rest → free l (before ++ t :: after) →
  step (x, before ++ t :: after)
    (x, before ++ {| th_prog := th_prog t; th_held := th_held t ++ [l]; th_todo := rest |} :: after)
| step_advance x x' before t p after :
  th_todo t = [] → advance (th_prog t) x = Some (p, x') →
  step (x, before ++ t :: after) (x', before ++ start p :: after).

(** Every section of the program takes its locks in order. *)
Fixpoint ordered (p : Prog S R) : Prop :=
  match p with
  | Done _ => True
  | Locked locks _ k | Held locks _ k => in_order locks ∧ ∀ a, ordered (k a)
  | Network _ k => ∀ a, ordered (k a)
  end.

Lemma ordered_locks p : ordered p → in_order (locks_of p).
Proof. destruct p; cbn; [constructor|naive_solver..|constructor]. Qed.

Lemma advance_none p x : advance p x = None ↔ ∃ r, p = Done r.
Proof.
  destruct p; cbn; repeat case_match; split; intros; simplify_eq; first [by eexists|naive_solver].
Qed.
Lemma advance_ordered p x p' x' : advance p x = Some (p', x') → ordered p → ordered p'.
Proof. destruct p; cbn; intros E Ho; [done|..]; repeat case_match; simplify_eq; naive_solver. Qed.

(** ** Waiting *)

(** The locks of a thread are those of its section, in the order of the section. *)
Record thread_ok (t : Thread) : Prop := {
  tk_ordered : ordered (th_prog t);
  tk_locks : th_held t ++ th_todo t = locks_of (th_prog t);
}.
Definition config_ok (c : Config) : Prop := Forall thread_ok c.2.

Lemma start_ok p : ordered p → thread_ok (start p).
Proof. by split. Qed.

Lemma step_ok c c' : step c c' → config_ok c → config_ok c'.
Proof.
  unfold config_ok. destruct 1 as [x b t l rest a Ht _|x x' b t p a Ht Ha]; cbn;
    rewrite !Forall_app, !Forall_cons; intros (Hb & [Ho Hl] & Ha'); split_and!; try done.
  - split; [done|cbn]. by rewrite <-Hl, Ht, <-(assoc_L (++)).
  - apply start_ok. by eapply advance_ordered.
Qed.
Lemma steps_ok c c' : rtc step c c' → config_ok c → config_ok c'.
Proof. induction 1; eauto using step_ok. Qed.

Lemma sorted_apart l m xs ys : in_order (xs ++ m :: ys) → l ∈ xs → rank l < rank m.
Proof.
  intros Hs Hl. induction xs as [|z xs IH]; [by apply elem_of_nil in Hl|].
  apply StronglySorted_inv in Hs as [Hs Hz]. apply elem_of_cons in Hl as [->|Hl]; [|auto].
  rewrite List.Forall_forall in Hz. apply Hz, in_or_app. by right; left.
Qed.
Lemma held_before t l m rest : thread_ok t → th_todo t = m :: rest → l ∈ th_held t → rank l < rank m.
Proof.
  intros [Ho Hl] Hm Hh. apply ordered_locks in Ho. rewrite <-Hl, Hm in Ho.
  by eapply sorted_apart.
Qed.

(** The thread whose next lock comes last. *)
Definition next_rank (t : Thread) : nat := match th_todo t with l :: _ => rank l | [] => 0 end.
Lemma last_waiting (ts : list Thread) :
  ts ≠ [] → ∃ t, t ∈ ts ∧ ∀ u, u ∈ ts → next_rank u ≤ next_rank t.
Proof.
  induction ts as [|t ts IH]; [done|intros _]. destruct ts as [|t' ts].
  { exists t. split; [set_solver|]. intros u Hu. by apply list_elem_of_singleton in Hu as ->. }
  destruct IH as (m & Hm & Hmax); [done|]. destruct (decide (next_rank m ≤ next_rank t)).
  - exists t. split; [set_solver|]. intros u [->|Hu]%elem_of_cons; [done|]. specialize (Hmax u Hu). lia.
  - exists m. split; [set_solver|]. intros u [->|Hu]%elem_of_cons; [lia|auto].
Qed.

#[local] Instance finished_dec t : Decision (finished t).
Proof. destruct t as [[]]; first [by left; eexists|right; by intros [? ?]]. Defined.

(** A thread that is not finished and does not wait can go on. *)
Lemma ready_steps x ts t : t ∈ ts → ¬ finished t → th_todo t = [] → ∃ c', step (x, ts) c'.
Proof.
  intros (b & a & ->)%list_elem_of_split Hf Ht.
  destruct (advance (th_prog t) x) as [[p' x']|] eqn:E; [|by apply advance_none in E].
  eexists. by eapply step_advance.
Qed.

Lemma idle_ready t : thread_ok t → finished t → th_held t = [].
Proof. intros [_ Hl] [r Hr]. rewrite Hr in Hl. by apply app_eq_nil in Hl as [? _]. Qed.

(** Threads that all wait: the one whose lock comes last can take it. *)
Lemma waiting_steps x ts t0 :
  Forall thread_ok ts → t0 ∈ ts → (∀ t, t ∈ ts → th_todo t = [] → finished t) → th_todo t0 ≠ [] →
  ∃ c', step (x, ts) c'.
Proof.
  intros Hok Ht0 Hidle Hw0. rewrite Forall_forall in Hok.
  set (ws := filter (λ t, th_todo t ≠ []) ts).
  destruct (last_waiting ws) as (t & Ht & Hmax).
  { apply (elem_of_not_nil t0), list_elem_of_filter. done. }
  apply list_elem_of_filter in Ht as [Hw Ht]. destruct (th_todo t) as [|l rest] eqn:El; [done|].
  apply list_elem_of_split in Ht as Hs. destruct Hs as (b & a & Hs).
  assert (free l ts) as Hfree.
  { intros u Hu Hh. destruct (th_todo u) as [|m rest'] eqn:Em.
    { rewrite (idle_ready u) in Hh; [by apply elem_of_nil in Hh|by apply Hok|by apply Hidle]. }
    assert (next_rank u ≤ next_rank t) as Hle.
    { apply Hmax, list_elem_of_filter. split; [congruence|done]. }
    unfold next_rank in Hle. rewrite El, Em in Hle.
    pose proof (held_before u l m rest' (Hok u Hu) Em Hh). lia. }
  rewrite Hs in Hfree |- *. eexists. by eapply step_acquire.
Qed.

(** Somebody can go on, or all have answered. *)
Lemma progress c : config_ok c → Forall finished c.2 ∨ ∃ c', step c c'.
Proof.
  destruct c as [x ts]. unfold config_ok. intros Hok. cbn in *.
  destruct (decide (Exists (λ t, ¬ finished t ∧ th_todo t = []) ts)) as [He|Hn].
  { apply Exists_exists in He as (t & Ht & Hf & Hd). right. by eapply ready_steps. }
  destruct (decide (Exists (λ t, th_todo t ≠ []) ts)) as [He|Hw].
  { apply Exists_exists in He as (t & Ht & Hd). right. apply (waiting_steps _ _ t); [done..| |done].
    intros u Hu Hd'. destruct (finished_dec u); [done|]. destruct Hn. apply Exists_exists. eauto. }
  left. apply Forall_forall. intros t Ht. destruct (finished_dec t); [done|]. destruct Hn.
  apply Exists_exists. exists t. split_and!; [done..|].
  destruct (th_todo t) eqn:E; [done|]. destruct Hw. apply Exists_exists. exists t. by rewrite E.
Qed.

(** ** Termination *)

(** One step of one thread of a list, in any state. *)
Definition thread_step (t' t : Thread) : Prop :=
  (∃ l rest, th_todo t = l :: rest ∧
     t' = {| th_prog := th_prog t; th_held := th_held t ++ [l]; th_todo := rest |}) ∨
  (th_todo t = [] ∧ ∃ p x x', advance (th_prog t) x = Some (p, x') ∧ t' = start p).
Inductive list_step : list Thread → list Thread → Prop :=
| list_step_head t t' ts : thread_step t' t → list_step (t' :: ts) (t :: ts)
| list_step_tail t ts ts' : list_step ts' ts → list_step (t :: ts') (t :: ts).

Lemma thread_acc_locks p :
  (∀ p' x x', advance p x = Some (p', x') → Acc thread_step (start p')) →
  ∀ todo held, Acc thread_step {| th_prog := p; th_held := held; th_todo := todo |}.
Proof.
  intros Hp. induction todo as [|l todo IH]; intros held; constructor; intros t'.
  - intros [(l & rest & ? & _)|(_ & p' & x & x' & E & ->)]; [done|]. by eapply Hp.
  - intros [(l' & rest & Heq & ->)|(? & _)]; [|done]. cbn in Heq. simplify_eq. apply IH.
Qed.
Lemma done_acc r : Acc thread_step (start (Done r)).
Proof. constructor. intros t' [(?&?&?&_)|(_ & ? & ? & ? & ? & _)]; done. Qed.
(** A program is a tree of finite paths. *)
Lemma prog_acc p : Acc thread_step (start p).
Proof.
  induction p as [r|A locks section k IH|A locks section k IH|A call k IH];
    [apply done_acc|apply thread_acc_locks; cbn; intros p' x x' E..].
  - destruct (section x.1) as [s [a|e]]; injection E as <- <-; [apply IH|apply done_acc].
  - destruct (section x) as [s [a|e]]; injection E as <- <-; [apply IH|apply done_acc].
  - destruct (call x.2) as [log r]; injection E as <- <-. apply IH.
Qed.
Lemma thread_acc t : Acc thread_step t.
Proof. destruct t as [p held todo]. apply thread_acc_locks. intros. apply prog_acc. Qed.

Lemma list_acc ts : Acc list_step ts.
Proof.
  induction ts as [|t ts IHts]; [constructor; inversion 1|].
  revert ts IHts. induction (thread_acc t) as [t _ IHt]. intros ts IHts.
  induction IHts as [ts Hts IH]. constructor. intros y Hy. inversion Hy; subst.
  - apply IHt; [done|by constructor].
  - by apply IH.
Qed.

Lemma step_list c c' : step c c' → list_step c'.2 c.2.
Proof.
  destruct 1 as [x b t l rest a Ht Hf|x x' b t p a Ht E]; cbn.
  - clear Hf. induction b; cbn; constructor; [|done]. left. eauto.
  - induction b; cbn; constructor; [|done]. right. eauto 10.
Qed.

(** No execution goes on for ever. *)
Lemma executions_end c : Acc (flip step) c.
Proof.
  destruct c as [x ts]. revert x. induction (list_acc ts) as [ts _ IH]. intros x. constructor.
  intros [x' ts'] Hs. apply IH. by apply step_list in Hs.
Qed.
End scheduler.
Arguments Thread : clear implicits.
Arguments Config : clear implicits.
