(* ===== verification/LocksProps.v ===== *)
(** * No request waits for ever

    The programs of the daemon take their locks in one order, but for the end of sending an
    attachment. Side by side they all come to an answer; sending an attachment can deadlock with
    posting a delivery. *)
From Stdlib Require Import Ascii NArith Lia Sorted.
From stdpp Require Import base gmap strings list relations.
From S2P Require Import Prelude Text TextScan Collections Interfaces JsonValue Fs StoreFormat Storage RecordStore TableStore DeliveryLedger RelayEnvelope Trust Bridge Identity DeviceRegistry Invite Receipt Pairing Contacts Attachment DeviceLink DeviceAuthority MessageService MlsProvider MlsSession RelayClient Http Authority Inbox Server ServerAttachments ServerInvites Routes RoutesMls RoutesAuthority Dispatch ServerSample Locks.

Create HintDb locks.

Lemma ordered_bind {S R Q} (p : Prog S R) (f : R → Prog S Q) :
  ordered p → (∀ r, ordered (f r)) → ordered (prog_bind p f).
Proof.
  intros Hp Hf. induction p as [r|A locks section k IH|A locks section k IH|A call k IH];
    cbn in *; [done|destruct Hp as [? Hk]; split; [done|]..|]; intros a; try destruct a; auto.
Qed.

Ltac sorted_locks := unfold in_order, before; repeat first [constructor|cbn; lia].
#[export] Hint Extern 1 (in_order _) => sorted_locks : locks.

Lemma ordered_one {S R A} locks (section : Mut S A R) k :
  in_order locks → (∀ a, ordered (k a)) → ordered (Locked locks section k).
Proof. by split. Qed.
Lemma ordered_net {S R A} (call : Net A) (k : result A RelayError → Prog S R) :
  (∀ a, ordered (k a)) → ordered (Network call k).
Proof. done. Qed.
Lemma ordered_end {S R} (r : R) : ordered (S := S) (Done r).
Proof. done. Qed.

(** One step through a program: a section, a call, an answer or a case. *)
Ltac ordered_step :=
  lazymatch goal with
  | |- ordered (Done _) => apply ordered_end
  | |- ordered (Locked _ _ _) => apply ordered_one; [sorted_locks|intros ?]
  | |- ordered (Network _ _) => apply ordered_net; intros ?
  | |- ordered (prog_bind _ _) => apply ordered_bind; [|intros ?]
  | |- ordered (match ?x with _ => _ end) => destruct x
  | |- ordered _ => progress cbn beta iota
  end.
Ltac ordered_all := repeat first [solve [auto with locks]|ordered_step].

Section programs.
Context `{OpenMls, Crypto, UriParser, UnicodeCase, AuthorityHost, Transport, HttpTypes}.
Context {St : Type} `{RecordStore St, RecordScan St, ProfileStore St}.
Context `{JsonCodec SessionSnapshot, JsonCodec AttachmentDescriptor, JsonCodec WireEnvelope}.
Context `{JsonCodec (gmap string DeliveryRecord), JsonCodec Value}.
Context `{JsonCodec MessagePayload, JsonCodec StoredMessage}.
Context `{JsonCodec PairingSnapshot, JsonCodec DirectorySnapshot}.
Context `{JsonCodec RegistryWire, JsonCodec RequestWire, JsonCodec ApprovalWire}.
Context `{JsonCodec (list ContactRecord), JsonCodec (list string)}.
Context `{JsonCodec PostResponse, JsonCodec SyncResponse, JsonCodec AckResponse}.
Context `{JsonCodec BlobChunkResponse, JsonCodec InviteCodeResponse, JsonCodec ConsumeInviteResponse}.
Context `{JsonCodec RevokeInviteResponse, JsonCodec PairingResponseRead}.
Context (fs : StaticFiles) (ui_root : option string).

(** ** Deliveries *)

Lemma post_finished_ordered d st now reply answer : ordered (post_finished (St := St) d st now reply answer).
Proof. unfold post_finished. ordered_all. Qed.
Hint Resolve post_finished_ordered : locks.

Lemma delivery_ordered route raw clock : ordered (handle_detached_delivery (St := St) route raw clock).
Proof.
  destruct route; unfold handle_detached_delivery, handle_detached_delivery_post, post_prepared,
    handle_detached_delivery_retry, handle_detached_delivery_ack, handle_detached_delivery_sync,
    acknowledge_processed; ordered_all.
Qed.

Lemma retry_each_ordered due pin now : ordered (retry_each (St := St) due pin now).
Proof. induction due; cbn -[prog_bind ordered]; ordered_all. Qed.
Hint Resolve retry_each_ordered : locks.
Lemma retry_due_ordered now : ordered (retry_due_deliveries_detached (St := St) now).
Proof. unfold retry_due_deliveries_detached. ordered_all. Qed.
Hint Resolve retry_due_ordered : locks.
Lemma tick_ordered now : ordered (run_maintenance_tick (St := St) now).
Proof. unfold run_maintenance_tick. ordered_all. Qed.

(** ** Attachments *)

Lemma with_relay_pin_ordered raw clock k :
  (∀ r pin, ordered (k r pin)) → ordered (with_relay_pin (St := St) raw clock k).
Proof. intros Hk. unfold with_relay_pin. ordered_all. Qed.
Lemma field_ordered {A} (o : option A) code k : (∀ a, ordered (k a)) → ordered (ServerAttachments.field (St := St) o code k).
Proof. intros Hk. unfold ServerAttachments.field. ordered_all. Qed.
Lemma endpoint_ordered url pin k : (∀ e, ordered (k e)) → ordered (endpoint_of (St := St) url pin k).
Proof. intros Hk. unfold endpoint_of. ordered_all. Qed.
Lemma upload_ordered e id off n l k : ordered k → ordered (upload_chunks (St := St) e id off n l k).
Proof. intros Hk. revert off. induction l as [|c l IH]; intros off; cbn; [done|]. intros []; [apply IH|done]. Qed.

Lemma attachment_ordered route raw clock :
  route ≠ SendAttachment → ordered (handle_detached_attachment (St := St) route raw clock).
Proof.
  intros Hr. destruct route; [..|done];
    unfold handle_detached_attachment, handle_detached_attachment_upload_chunk, handle_detached_attachment_upload_completed,
      handle_detached_attachment_download_chunk, upload_blob;
    apply with_relay_pin_ordered; intros r pin;
    repeat first [apply field_ordered; intros ?|apply endpoint_ordered; intros ?
                 |apply upload_ordered|ordered_step].
Qed.

(** ** Invites and pairing *)

Lemma write_welcomes_ordered p l k : ordered k → ordered (write_welcomes (St := St) p l k).
Proof. intros Hk. induction l as [|w l IH]; cbn; [done|]. by intros []. Qed.

Lemma authority_ordered seed route raw clock :
  ordered (handle_detached_authority (St := St) seed route raw clock).
Proof.
  destruct route; unfold handle_detached_authority, handle_detached_create_invite, handle_detached_consume_invite,
    invite_consumed, handle_detached_revoke_invite, handle_detached_pairing_auto_sync,
    handle_detached_pairing_complete_session, handle_detached_pairing_approve;
    repeat first [apply write_welcomes_ordered|ordered_step].
Qed.

(** A request that is not the sending of an attachment. *)
Definition no_send (raw : bytes) : Prop := detached_attachment_route raw ≠ Some SendAttachment.

Lemma serve_ordered seed raw clock : no_send raw → ordered (serve (St := St) fs ui_root seed raw clock).
Proof.
  intros Hn. unfold serve. destruct (detached_delivery_route raw); [apply delivery_ordered|].
  destruct (detached_attachment_route raw) as [route|] eqn:E;
    [apply attachment_ordered; unfold no_send in Hn; congruence|].
  destruct (detached_authority_route raw); [apply authority_ordered|]. split; [sorted_locks|done].
Qed.

(** ** Side by side *)

(** The work of a daemon: requests, each with its seed and clock, and maintenance ticks. *)
Inductive Job := RequestJob (seed : N) (raw : bytes) (clock : Clock) | TickJob (now : N).
Definition job_ok (j : Job) : Prop := match j with RequestJob _ raw _ => no_send raw | TickJob _ => True end.
Definition job_prog (j : Job) : Handler (St := St) :=
  match j with
  | RequestJob seed raw clock => serve fs ui_root seed raw clock
  | TickJob now => prog_bind (run_maintenance_tick now) (λ _, Done [])
  end.

Lemma job_ordered j : job_ok j → ordered (job_prog j).
Proof.
  destruct j as [seed raw clock|now]; [apply serve_ordered|intros _].
  apply ordered_bind; [apply tick_ordered|done].
Qed.

(** C6. Any number of requests and maintenance ticks, run side by side in any order and with any
    answers of the relay, come to an end: no execution goes on for ever, and one that cannot
    go on has answered every request. This holds as long as no request sends an attachment. *)
Theorem server_requests_complete jobs x :
  Forall job_ok jobs →
  Acc (flip step) (x, map (start ∘ job_prog) jobs) ∧
  ∀ c, rtc step (x, map (start ∘ job_prog) jobs) c → (∀ c', ¬ step c c') → Forall finished c.2.
Proof using Type.
  intros Hj. split; [apply executions_end|]. intros c Hrun Hstuck.
  assert (config_ok c) as Hc.
  { eapply steps_ok; [exact Hrun|]. unfold config_ok. cbn. apply Forall_map.
    eapply Forall_impl; [exact Hj|]. intros j Hok. by apply start_ok, job_ordered. }
  destruct (progress c Hc) as [|[c' ?]]; [done|]. by destruct (Hstuck c').
Qed.

(** Two threads that each wait for a lock the other holds. *)
Lemma crossed_stuck {S R} x (t u : Thread S R) l m rest rest' :
  th_todo t = l :: rest → th_todo u = m :: rest' → l ∈ th_held u → m ∈ th_held t →
  ∀ c', ¬ step (x, [t; u]) c'.
Proof.
  intros Ht Hu Hl Hm c' Hs. remember (x, [t; u]) as c eqn:E.
  destruct Hs as [x0 b v k r a Hv Hf|x0 x1 b v p a Hv _]; injection E as -> E.
  - assert (v ∈ [t; u]) as Hin by (rewrite <-E; set_solver).
    rewrite E in Hf. apply list_elem_of_In in Hin as [<-|[<-|[]]].
    + rewrite Ht in Hv. injection Hv as -> ->. apply (Hf u); [set_solver|done].
    + rewrite Hu in Hv. injection Hv as -> ->. apply (Hf t); [set_solver|done].
  - assert (v ∈ [t; u]) as Hin by (rewrite <-E; set_solver).
    apply list_elem_of_In in Hin as [<-|[<-|[]]]; congruence.
Qed.

Lemma acquire_first {S R} x (t : Thread S R) u l rest :
  th_todo t = l :: rest → l ∉ th_held t → l ∉ th_held u →
  step (x, [t; u]) (x, [{| th_prog := th_prog t; th_held := th_held t ++ [l]; th_todo := rest |}; u]).
Proof.
  intros Ht Hh Hu. apply (step_acquire x [] t l rest [u]); [done|].
  intros v Hv. apply list_elem_of_In in Hv as [<-|[<-|[]]]; done.
Qed.
Lemma acquire_second {S R} x (t : Thread S R) u l rest :
  th_todo u = l :: rest → l ∉ th_held t → l ∉ th_held u →
  step (x, [t; u]) (x, [t; {| th_prog := th_prog u; th_held := th_held u ++ [l]; th_todo := rest |}]).
Proof.
  intros Ht Hh Hu. apply (step_acquire x [t] u l rest []); [done|].
  intros v Hv. apply list_elem_of_In in Hv as [<-|[<-|[]]]; done.
Qed.

(** C34. Sending an attachment can block the daemon: when it records the answer of the relay while
    another request queues a delivery, the first holds the ledger and waits for the store, and
    the other holds the store and waits for the ledger. Neither goes on, in any state. *)
Theorem server_attachment_send_deadlocks x digest blob_id package now answer clock o :
  ∃ c : Config (AppState St) bytes,
    rtc step (x, [start (send_answered digest blob_id package now answer);
                  start (post_prepared clock o)]) c ∧
    (∀ c', ¬ step c c') ∧ Forall (λ t, ¬ finished t) c.2.
Proof using Type.
  set (p := send_answered digest blob_id package now answer). set (q := post_prepared clock o).
  assert (locks_of p = [LedgerLock; StoreLock]) as Hp by (subst p; by destruct answer).
  assert (∀ r, p ≠ Done r) as Hnp by (subst p; by destruct answer).
  exists (x, [{| th_prog := p; th_held := [LedgerLock]; th_todo := [StoreLock] |};
              {| th_prog := q; th_held := [CatalogLock; StoreLock]; th_todo := [LedgerLock] |}]).
  split_and!.
  - eapply rtc_l; [apply (acquire_first _ _ _ LedgerLock [StoreLock]); cbn; [done|set_solver..]|].
    eapply rtc_l; [apply (acquire_second _ _ _ CatalogLock [StoreLock; LedgerLock]); cbn; [done|set_solver..]|].
    eapply rtc_l; [apply (acquire_second _ _ _ StoreLock [LedgerLock]); cbn; [done|set_solver..]|].
    apply rtc_refl.
  - eapply crossed_stuck; cbn; [done..|set_solver|set_solver].
  - repeat constructor; intros [r Hr]; cbn in Hr; [by apply (Hnp r)|done].
Qed.
End programs.

(** ** Witness *)

Module LocksSample.
Import Reference TableStore ServerSample.
Definition jobs : list Job := [RequestJob 0 (live "GET" "/local-api/status" EmptyString) clock; TickJob 500].

Lemma server_requests_complete_witness :
  Forall job_ok jobs ∧
  Acc (flip step) ((state, []), map (start ∘ job_prog files None) jobs).
Proof.
  assert (Forall job_ok jobs) as Hj.
  { repeat constructor. intros E. vm_compute in E. discriminate E. }
  split; [exact Hj|]. exact (proj1 (server_requests_complete files None jobs (state, []) Hj)).
Defined.
End LocksSample.
