(* ===== verification/ServerProps.v ===== *)
(** * What the requests of the daemon guarantee

    Requests without a session do nothing; a delivery is on disk before the relay hears of it;
    and what goes wrong in the handlers that talk to the relay. *)
From Stdlib Require Import Ascii NArith Lia ZifyBool ZifyN.
From stdpp Require Import base gmap strings list relations.
From S2P Require Import Prelude Text TextScan Collections Interfaces JsonValue Fs StoreFormat Storage RecordStore TableStore DeliveryLedger LedgerProps RelayEnvelope Trust Bridge Identity DeviceRegistry Invite Receipt Pairing Contacts Attachment DeviceLink DeviceAuthority MessageService MlsProvider MlsSession RelayClient RelayClientProps Http Authority AuthorityProps Inbox Server ServerAttachments ServerInvites Routes RoutesMls RoutesAuthority Dispatch ServerSample Locks.

(** A failed step ends the sequence. *)
Lemma mut_bind_err {S A B E} (m : Mut S A E) (k : A → Mut S B E) s s' e :
  m s = (s', Err e) → mut_bind m k s = (s', Err e).
Proof. intros E1. unfold mut_bind. by rewrite E1. Qed.
Lemma mut_bind_ok {S A B E} (m : Mut S A E) (k : A → Mut S B E) s s' a :
  m s = (s', Ok a) → mut_bind m k s = k a s'.
Proof. intros E1. unfold mut_bind. by rewrite E1. Qed.

Section props.
Context `{OpenMls, Crypto, UriParser, UnicodeCase, AuthorityHost, Transport, HttpTypes}.
Context {St : Type} `{RecordStore St, RecordScan St, ProfileStore St}.
Context `{JsonCodec SessionSnapshot, JsonCodec AttachmentDescriptor, JsonCodec WireEnvelope}.
Context `{JsonCodec (gmap string DeliveryRecord), JsonCodec Value}.
Context `{JsonCodec MessagePayload, JsonCodec StoredMessage}.
Context `{JsonCodec PairingSnapshot, JsonCodec DirectorySnapshot}.
Context `{JsonCodec RegistryWire, JsonCodec RequestWire, JsonCodec ApprovalWire}.
Context `{JsonCodec (list ContactRecord), JsonCodec (list string)}.
Context `{JsonCodec PostResponse, JsonCodec SyncResponse, JsonCodec AckResponse}.
Context `{JsonCodec BlobChunkResponse, JsonCodec InviteCodeResponse, JsonCodec ConsumeInviteResponse}.
Context `{JsonCodec RevokeInviteResponse, JsonCodec PairingResponseRead}.
Context (fs : StaticFiles) (ui_root : option string).
Implicit Types s : AppState St.

(** ** Requests without a session *)

Section refused.
Context (raw : bytes) (r : Request) (clock : Clock) (reply : bytes).
Hypothesis Hraw : parse_request raw = Some r.

(** The bridge refuses the request. *)
Definition refuses s : Prop := authorize_api (ap_bridge s) r (ck_now clock) (ck_mono clock) = Err reply.

Lemma authorized_refused s : refuses s → authorized raw clock s = (s, Err reply).
Proof using Hraw.
  intros Hr. unfold authorized, or_else. rewrite Hraw. cbn. unfold mut_bind. cbn. by rewrite Hr.
Qed.
Lemma session_refused s k : refuses s → with_session_of r clock k s = (s, Err reply).
Proof using Type. intros Hr. unfold with_session_of, mut_bind. cbn. by rewrite Hr. Qed.

Ltac refused :=
  repeat first [apply authorized_refused|apply session_refused|apply mut_bind_err]; try done.

(** A program whose first section asks for the session ends there. *)
Lemma detached_refused {A} locks (section : App (St := St) A bytes) k s log :
  section s = (s, Err reply) → run_alone (Locked locks section k) s log = (s, log, reply).
Proof using Type. intros E. cbn. by rewrite E. Qed.

Lemma delivery_refused route s log :
  refuses s → run_alone (handle_detached_delivery route raw clock) s log = (s, log, reply).
Proof using Hraw.
  intros Hr. destruct route; apply detached_refused;
    unfold prepare_post, prepare_retry, prepare_ack, prepare_sync; refused.
Qed.
Lemma attachment_refused route s log :
  refuses s → run_alone (handle_detached_attachment route raw clock) s log = (s, log, reply).
Proof using Hraw. intros Hr. destruct route; apply detached_refused; refused. Qed.
Lemma authority_refused seed route s log :
  refuses s → run_alone (handle_detached_authority seed route raw clock) s log = (s, log, reply).
Proof using Hraw.
  intros Hr. destruct route; apply detached_refused; unfold request_code; refused.
Qed.

(** The two requests that make a session. *)
Definition makes_session : bool := is_one_of r "POST" [EXCHANGE_PATH; "/local-session/renew"].

Lemma is_one_of_cons method path paths :
  is_one_of r method (path :: paths) = is_route r method path || is_one_of r method paths.
Proof using Type. unfold is_one_of, is_route. cbn. by rewrite andb_orb_distrib_r. Qed.

(** A routed handler of this request leaves the state and the network alone. *)
Definition inert (m : HeldApp (St := St) bytes bytes) s : Prop := ∀ log, (m (s, log)).1 = (s, log).
Lemma held_refused (m : Route (St := St)) s : (m s).1 = s → inert (held m) s.
Proof using Type. intros Hm log. cbn. destruct (m s). cbn in *. by subst. Qed.
Lemma session_inert s k : refuses s → inert (held (with_session_of r clock k)) s.
Proof using Type. intros Hr. apply held_refused. by rewrite session_refused. Qed.
Lemma ret_inert s b : inert (mut_ret b) s.
Proof using Type. done. Qed.
Lemma held_ret_inert s b : inert (held (mut_ret b)) s.
Proof using Type. done. Qed.
Lemma removal_inert s : refuses s → inert (route_remove_device r clock) s.
Proof using Type. intros Hr log. unfold route_remove_device, mut_bind. cbn. by rewrite Hr. Qed.
Lemma revoke_inert s : refuses s → inert (route_revoke r clock) s.
Proof using Type. intros Hr log. unfold route_revoke, mut_bind. cbn. by rewrite Hr. Qed.

Ltac inert_route :=
  first [apply session_inert|apply ret_inert|apply held_ret_inert|apply removal_inert|apply revoke_inert]; done.

Lemma session_route_inert m s :
  makes_session = false → refuses s → handle_session_route r clock = Some m → inert (held m) s.
Proof using Type.
  unfold makes_session. rewrite !is_one_of_cons, !orb_false_iff. intros (He & Hn & _) Hr.
  unfold handle_session_route. rewrite He, Hn. repeat case_match; intros; simplify_eq; inert_route.
Qed.
Lemma mls_route_inert seed m s : refuses s → handle_mls_route seed r clock = Some m → inert m s.
Proof using Type.
  intros Hr. unfold handle_mls_route. repeat case_match; cbn; intros; simplify_eq; inert_route.
Qed.
Lemma attachment_route_inert m s : refuses s → handle_attachment_route r clock = Some m → inert (held m) s.
Proof using Type.
  intros Hr. unfold handle_attachment_route. repeat case_match; cbn; intros; simplify_eq; inert_route.
Qed.
Lemma delivery_route_inert m s : refuses s → handle_delivery_route r clock = Some m → inert (held m) s.
Proof using Type.
  intros Hr. unfold handle_delivery_route. repeat case_match; cbn; intros; simplify_eq; inert_route.
Qed.
Lemma authority_route_inert m s : refuses s → handle_authority_route r clock = Some m → inert m s.
Proof using Type.
  intros Hr. unfold handle_authority_route, dispatch_authority_route.
  repeat case_match; intros; simplify_eq; inert_route.
Qed.

Lemma routed_inert seed s : makes_session = false → refuses s → inert (routed fs ui_root seed r clock) s.
Proof using Type.
  intros Hm Hr. unfold routed.
  destruct (handle_session_route r clock) eqn:E1; cbn; [by eapply session_route_inert|].
  destruct (handle_mls_route seed r clock) eqn:E2; cbn; [by eapply mls_route_inert|].
  destruct (handle_attachment_route r clock) eqn:E3; cbn; [by eapply attachment_route_inert|].
  destruct (handle_delivery_route r clock) eqn:E4; cbn; [by eapply delivery_route_inert|].
  destruct (handle_authority_route r clock) eqn:E5; cbn; [by eapply authority_route_inert|done].
Qed.
End refused.

Lemma purge_bridge now s : ap_bridge (purge now s) = ap_bridge s.
Proof. unfold purge. by destruct (ap_authority s). Qed.

(** C5. A request the bridge does not authorise, other than the two that make a session (the
    exchange of the bootstrap token and the renewal, which carry their own proof and do change
    the bridge), changes nothing and calls nobody: its program ends with the state as it was, or
    without the attachments that are too old, which every routed request drops, and the network
    untouched. *)
Theorem server_unauthorised_is_inert seed raw r clock s log reply :
  parse_request raw = Some r →
  authorize_api (ap_bridge s) r (ck_now clock) (ck_mono clock) = Err reply →
  makes_session r = false →
  ∃ s' answer, run_alone (serve fs ui_root seed raw clock) s log = (s', log, answer) ∧
    (s' = s ∨ s' = purge (ck_now clock) s).
Proof using Type.
  intros Hraw Hr Hm. unfold serve.
  destruct (detached_delivery_route raw) as [route|].
  { exists s, reply. split; [by eapply delivery_refused|by left]. }
  destruct (detached_attachment_route raw) as [route|].
  { exists s, reply. split; [by eapply attachment_refused|by left]. }
  destruct (detached_authority_route raw) as [route|].
  { exists s, reply. split; [by eapply authority_refused|by left]. }
  cbn [run_alone]. unfold handle_request_with_route_context. rewrite Hraw.
  assert (Hi : inert (routed fs ui_root seed r clock) (purge (ck_now clock) s)).
  { eapply routed_inert; [done|]. unfold refuses. by rewrite purge_bridge. }
  specialize (Hi log). destruct (routed _ _ _ _ _ _) as [x [a|e]]; cbn in Hi; subst x;
    eexists _, _; (split; [done|by right]).
Qed.

(** ** Posting a delivery *)

Section posting.
Context `{!JsonRoundTrip DeliveryLedger, !RecordStoreLaws St}.

(** The ledger of the state is the one in the store. *)
Definition ledger_on_disk s : Prop :=
  ∃ b, store_get (ap_store s) Outbox LEDGER_KEY = Some b ∧ json_from_slice b = Some (ap_ledger s).

Lemma persist_ledger_spec {R} s s' saved :
  store_inv (ap_store s) → app_persist_ledger (R := R) s = (s', Ok saved) →
  ap_ledger s' = ap_ledger s ∧ ap_authority s' = ap_authority s ∧ (saved = Ok tt → ledger_on_disk s').
Proof using Type*.
  intros Hs. unfold app_persist_ledger, app_store, DeliveryLedger.persist, encoded_bytes.
  destruct (json_to_vec (ap_ledger s)) as [b|] eqn:Hb; cbn [ok_or].
  - destruct (store_put Outbox LEDGER_KEY b (ap_store s)) as [st r] eqn:Ep. intros [= <- <-].
    split_and!; [done..|intros ->]. exists b. cbn. split; [|by apply json_roundtrip].
    by rewrite (store_put_ok _ _ _ _ _ Hs Ep), view_update_eq.
  - by intros [= <- <-].
Qed.

(** The record of a delivery that was just queued. *)
Definition queued_record (o : Outgoing) : DeliveryRecord :=
  {| dr_digest := og_digest o; dr_state := Queued; dr_attempts := 0; dr_next_retry_at := None;
     dr_relay_id := None; dr_wire := Some (og_wire o);
     dr_expires_at := Some (re_expires_at (og_envelope o)); dr_destination := Some (og_destination o) |}.

Lemma queue_post_spec o s s' r :
  store_inv (ap_store s) → queue_post o s = (s', r) →
  match r with
  | Ok _ => ap_ledger s' = <[og_digest o := queued_record o]> (ap_ledger s) ∧ ledger_on_disk s'
  | Err _ => ap_ledger s' = ap_ledger s
  end.
Proof using Type*.
  intros Hs. unfold queue_post, register_queued_with_destination, DeliveryLedger.register, mut_bind, app_ledger, guard.
  destruct (is_empty_str (og_digest o) || bool_decide (is_Some (ap_ledger s !! og_digest o))) eqn:Hd;
    [by intros [= <- <-]|].
  apply orb_false_iff in Hd as [_ Hd]. apply bool_decide_eq_false in Hd.
  cbn -[app_persist_ledger]. set (s1 := set_ap_ledger _ s).
  destruct (app_persist_ledger s1) as [s2 [saved|]] eqn:Ep; [|by unfold app_persist_ledger, app_store in Ep; destruct (DeliveryLedger.persist _ _)].
  apply (persist_ledger_spec (R := bytes)) in Ep as (El & _ & Hdisk); [|done].
  destruct saved as [[]|e]; cbn.
  { intros [= <- <-]. split; [by rewrite El|auto]. }
  unfold discard_if_state. rewrite El. cbn. rewrite lookup_insert_eq. cbn. intros [= <- <-]. cbn.
  rewrite delete_insert_id; [done|]. by apply eq_None_not_Some.
Qed.

(** C7. When the request to post a delivery contacts the relay, the delivery is already queued: the
    ledger in memory has its record with the wire and the destination, and the ledger on disk
    is that ledger. A request that ends before it contacts the relay leaves the ledger as it
    was. *)
Theorem server_post_is_queued_first clock o x p x' :
  store_inv (ap_store x.1) → advance (post_prepared clock o) x = Some (p, x') →
  x'.2 = x.2 ∧
  match p with
  | Network _ _ =>
    ap_ledger x'.1 = <[og_digest o := queued_record o]> (ap_ledger x.1) ∧ ledger_on_disk x'.1
  | _ => ap_ledger x'.1 = ap_ledger x.1
  end.
Proof using Type*.
  intros Hs. cbn. destruct (queue_post o x.1) as [s1 r] eqn:E. apply queue_post_spec in E; [|done].
  intros [= <- <-]. split; [done|]. by destruct r.
Qed.

(** ** The answer of the relay *)

(** The ledger after the answer: only the record of this delivery may differ, and only if it was
    still queued, or cancelled meanwhile. *)
Definition settles (d : string) (l l' : DeliveryLedger) : Prop :=
  (∀ d', d' ≠ d → l' !! d' = l !! d') ∧
  (∀ r, l !! d = Some r → dr_state r ≠ Queued → dr_state r ≠ Cancelled → l' = l).

Lemma settles_refl d l : settles d l l.
Proof using Type. done. Qed.
Lemma with_record_settles {A} d (f : DeliveryRecord → DeliveryRecord * result A EnvelopeError) l :
  (∀ r, l !! d = Some r → dr_state r ≠ Queued → dr_state r ≠ Cancelled → (f r).1 = r) →
  settles d l (with_record d f l).1.
Proof using Type.
  intros Hf. unfold with_record. destruct (l !! d) as [r|] eqn:E; [|done].
  destruct (f r) as [r' res] eqn:Er. cbn. split.
  - intros d' Hd. by rewrite lookup_insert_ne.
  - intros r0 Hr Hq Hc. rewrite E in Hr. injection Hr as ->.
    specialize (Hf r0 eq_refl Hq Hc). rewrite Er in Hf. cbn in Hf. subst r'.
    by apply insert_id.
Qed.
Lemma not_queued r : dr_state r ≠ Queued → state_is Queued r = false.
Proof using Type. intros. by apply bool_decide_eq_false. Qed.

Lemma accept_settles d id l : settles d l (accept_retry d Queued id l).1.
Proof using Type.
  apply with_record_settles. intros r _ Hq Hc. rewrite (not_queued _ Hq). cbn.
  unfold state_is. by rewrite bool_decide_eq_false_2.
Qed.
Lemma if_current_settles {A} d (m : Mut DeliveryLedger A EnvelopeError) (b : A) l :
  (∀ d', d' ≠ d → (m l).1 !! d' = l !! d') →
  settles d l (match l !! d with
               | None => (l, Err InvalidWire)
               | Some r => if negb (state_is Queued r) then (l, Ok b) else m l
               end).1.
Proof using Type.
  intros Hm. destruct (l !! d) as [r|] eqn:E; [|done].
  destruct (state_is Queued r) eqn:Eq; cbn; [|done]. split; [done|].
  intros r0 Hr Hq. rewrite E in Hr. injection Hr as ->. by rewrite (not_queued _ Hq) in Eq.
Qed.
Lemma with_record_other {A} d (f : DeliveryRecord → DeliveryRecord * result A EnvelopeError) l d' :
  d' ≠ d → (with_record d f l).1 !! d' = l !! d'.
Proof using Type.
  intros Hd. unfold with_record. destruct (l !! d); [|done]. destruct (f _). cbn.
  by rewrite lookup_insert_ne.
Qed.

(** Sections that change the ledger by one operation and write it. *)
Lemma ledger_of_persisted {R} s : ap_ledger (app_persist_ledger (R := R) s).1 = ap_ledger s.
Proof using Type. unfold app_persist_ledger, app_store. by destruct (DeliveryLedger.persist _ _). Qed.

Lemma post_accepted_spec d id s s' out :
  store_inv (ap_store s) → post_accepted d Queued id s = (s', Ok out) →
  settles d (ap_ledger s) (ap_ledger s') ∧
  (out ≠ json_error 409 "delivery_state_changed" →
   ∃ r, ap_ledger s' !! d = Some r ∧ dr_state r = DeliveryLedger.RelayAccepted ∧
     dr_relay_id r = Some id ∧ ledger_on_disk s').
Proof using Type*.
  intros Hs. unfold post_accepted, mut_bind, app_ledger.
  pose proof (accept_settles d id (ap_ledger s)) as Ha.
  destruct (accept_retry d Queued id (ap_ledger s)) as [l [[]|e]] eqn:El; cbn in Ha |- *.
  - set (s1 := set_ap_ledger l s). destruct (app_persist_ledger s1) as [s2 [saved|]] eqn:Ep;
      [|by unfold app_persist_ledger, app_store in Ep; destruct (DeliveryLedger.persist _ _)].
    apply (persist_ledger_spec (R := bytes)) in Ep as (E2 & _ & Hdisk); [|done].
    intros [= <- <-]. rewrite E2. split; [done|]. intros Hn. destruct saved as [[]|]; [|done].
    unfold accept_retry, with_record in El. destruct (ap_ledger s !! d) as [r|]; [|done].
    destruct (_ && _); [done|]. injection El as <-. eexists. cbn. rewrite lookup_insert_eq. eauto 10.
  - by intros [= <- <-].
  - by intros [= <- <-].
Qed.

Lemma ledger_of_authority {A E R} (m : Mut (InviteAuthority * St) A E) s :
  ap_ledger (app_authority_store (R := R) m s).1 = ap_ledger s.
Proof using Type.
  unfold app_authority_store. destruct (ap_authority s); [|done]. by destruct (m _) as [[] ?].
Qed.
Lemma post_expired_settles d s : settles d (ap_ledger s) (ap_ledger (post_expired d Queued s).1).
Proof using Type.
  unfold post_expired, mut_bind, the_authority. destruct (ap_authority s); cbn; [|done].
  pose proof (if_current_settles d (mark_failed d) false (ap_ledger s) (λ d', with_record_other d _ _ d')) as Hm.
  fold (mark_failed_if_current d Queued (ap_ledger s)) in Hm. unfold app_ledger.
  destruct (mark_failed_if_current d Queued (ap_ledger s)) as [l r] eqn:E. cbn in Hm |- *.
  pose proof (ledger_of_authority (R := bytes) invalidate_relay_binding (set_ap_ledger l s)) as Ha.
  destruct (app_authority_store _ _) as [s1 [x|]]; cbn in Ha |- *; [|by rewrite Ha].
  pose proof (ledger_of_persisted (R := bytes) s1) as Hp.
  destruct (app_persist_ledger s1) as [s2 []]; cbn in Hp |- *; by rewrite Hp, Ha.
Qed.
Lemma post_failed_settles d now reply s : settles d (ap_ledger s) (ap_ledger (post_failed d Queued now reply s).1).
Proof using Type.
  unfold post_failed, mut_bind, app_ledger.
  pose proof (if_current_settles d (schedule_retry d now) false (ap_ledger s) (λ d', with_record_other d _ _ d')) as Hm.
  fold (schedule_retry_if_current d Queued now (ap_ledger s)) in Hm.
  destruct (schedule_retry_if_current d Queued now (ap_ledger s)) as [l r] eqn:E. cbn in Hm |- *.
  pose proof (ledger_of_persisted (R := bytes) (set_ap_ledger l s)) as Hp.
  destruct (app_persist_ledger _) as [s2 []]; cbn in Hp |- *; by rewrite Hp.
Qed.

(** C8. Whatever the relay answers to a posted delivery, and whatever other requests did
    meanwhile: no other delivery changes; a delivery that is no longer queued, nor cancelled,
    does not change either; and a request that reports an accepted delivery has recorded it,
    with the identifier of the relay, in memory and on disk. *)
Theorem server_post_outcome d now retry_reply answer s log s' log' out :
  store_inv (ap_store s) →
  run_alone (post_finished d Queued now retry_reply answer) s log = (s', log', out) →
  log' = log ∧ settles d (ap_ledger s) (ap_ledger s') ∧
  (∀ id, answer = Ok {| ra_id := id |} → out ≠ json_error 409 "delivery_state_changed" →
   ∃ r, ap_ledger s' !! d = Some r ∧ dr_state r = DeliveryLedger.RelayAccepted ∧
     dr_relay_id r = Some id ∧ ledger_on_disk s').
Proof using Type*.
  intros Hs. destruct answer as [[id]|e].
  { cbn. destruct (post_accepted d Queued id s) as [s1 [reply|reply]] eqn:E.
    - apply post_accepted_spec in E as [Hl Ho]; [|done]. intros [= <- <- <-].
      split_and!; [done..|]. intros id' [= ->]. exact Ho.
    - exfalso. unfold post_accepted, mut_bind, app_ledger in E.
      destruct (accept_retry d Queued id (ap_ledger s)) as [l [[]|]]; cbn in E; [|done..].
      unfold app_persist_ledger, app_store in E. by destruct (DeliveryLedger.persist _ _). }
  assert (∀ locks (m : App (St := St) bytes bytes), settles d (ap_ledger s) (ap_ledger (m s).1) →
    run_alone (Locked locks m Done) s log = (s', log', out) →
    log' = log ∧ settles d (ap_ledger s) (ap_ledger s')) as Hone.
  { intros locks m Hm. cbn. destruct (m s) as [s1 []]; by intros [= <- <- <-]. }
  intros Hrun. cut (log' = log ∧ settles d (ap_ledger s) (ap_ledger s')); [naive_solver|].
  unfold post_finished in Hrun.
  repeat case_match; first [eapply Hone, Hrun; apply post_expired_settles
                           |eapply Hone, Hrun; apply post_failed_settles].
Qed.
End posting.
End props.

(** ** Witnesses *)

Module ServerPropsSample.
Import Reference TableStore ServerSample.
Definition revoke : bytes := stranger "POST" "/local-api/devices/revoke" EmptyString.
Definition revoke_request : Request := default (Build_Request EmptyString EmptyString [] []) (parse_request revoke).

Lemma server_unauthorised_is_inert_witness :
  ∃ s' answer, run_alone (serve files None 0 revoke clock) state [] = (s', [], answer) ∧
    (s' = state ∨ s' = purge 500 state).
Proof.
  apply (server_unauthorised_is_inert files None 0 revoke revoke_request clock state []
           (json_error 403 "session_invalid")); vm_compute; reflexivity.
Defined.

(** A delivery with an envelope, and the ledgers it goes through. *)
Definition outgoing : Outgoing :=
  {| og_endpoint := RelayClientSample.endpoint; og_envelope := sample_envelope 2000; og_digest := "d";
     og_wire := "w"; og_destination := RelayClientSample.url |}.
Definition queued : DeliveryLedger := <["d" := queued_record outgoing]> ∅.
Definition accepted : DeliveryLedger := (accept_retry "d" Queued "relay-1" queued).1.

Section posting.
#[local] Instance ledger_codec : JsonCodec (gmap string DeliveryRecord) := json_table [queued; accepted].
#[local] Instance ledger_laws : JsonRoundTrip (gmap string DeliveryRecord) := json_table_laws [queued; accepted].

Definition posted : Prog (AppState Table) bytes * (AppState Table * list NetEvent) :=
  default (Done [], (state, [])) (advance (post_prepared clock outgoing) (state, [])).

Lemma server_post_is_queued_first_witness : ledger_on_disk posted.2.1.
Proof.
  assert (advance (post_prepared clock outgoing) (state, []) = Some (posted.1, posted.2)) as E by reflexivity.
  destruct (server_post_is_queued_first clock outgoing (state, []) posted.1 posted.2 table_empty_inv E) as [_ Hp].
  exact (proj2 Hp).
Defined.

Definition waiting : AppState Table := set_ap_ledger queued state.
Definition finished :=
  run_alone (post_finished "d" Queued 500 [] (Ok {| ra_id := "relay-1" |})) waiting [].

Lemma server_post_outcome_witness :
  ∃ r, ap_ledger finished.1.1 !! "d" = Some r ∧ dr_state r = DeliveryLedger.RelayAccepted ∧
    dr_relay_id r = Some "relay-1" ∧ ledger_on_disk finished.1.1.
Proof.
  assert (run_alone (post_finished "d" Queued 500 [] (Ok {| ra_id := "relay-1" |})) waiting []
          = (finished.1.1, finished.1.2, finished.2)) as E.
  { unfold finished. by destruct (run_alone _ _ _) as [[]]. }
  refine (proj2 (proj2 (server_post_outcome "d" 500 [] _ waiting [] _ _ _ table_empty_inv E)) "relay-1" eq_refl _).
  intros Hn. apply (f_equal (λ b, nth 9 b zero)) in Hn. vm_compute in Hn. discriminate Hn.
Defined.
End posting.
End ServerPropsSample.
