(* ===== verification/RouteProps.v ===== *)
(** * The requests of the daemon at their edges

    What the handlers do at the edges of what they mean to do: a session is joined and its
    contact registered without an approval, attachments are accepted that no relay takes, two
    requests are never served; and the renewal of a session that is over, which the bridge
    allows on purpose. *)
From Stdlib Require Import Ascii NArith Lia ZifyBool ZifyN.
From stdpp Require Import base gmap strings list relations.
From S2P Require Import Prelude Text TextScan Collections Interfaces JsonValue ProtocolGate Fs StoreFormat Storage RecordStore TableStore DeliveryLedger RelayEnvelope Trust Bridge Identity DeviceRegistry Invite Receipt Pairing Contacts Attachment AttachmentProps DeviceLink DeviceAuthority MessageService MlsProvider MlsSession MlsSessionProps RelayClient RelayClientProps Http Authority AuthorityProps Inbox Server ServerAttachments ServerInvites Routes RoutesMls RoutesAuthority Dispatch ServerSample.

(** ** Uploads *)

Lemma shaped_bound l : shaped l → (blen (plain l) ≤ blen l * CHUNK_SIZE)%N.
Proof.
  induction l as [|p l IH]; intros Hs; [done|].
  apply shaped_cons in Hs as (Hp & _ & Hs). rewrite plain_cons, blen_app, blen_cons. specialize (IH Hs). lia.
Qed.

Section uploads.
Context `{HC : Crypto} {HL : CryptoLaws} {St : Type} `{RecordStore St}.

(** An attachment the daemon has accepted and encrypted can be uploaded only if it is at least
    8 KiB smaller than the limit the daemon announces: the blob is longer than the attachment
    by 16 bytes a chunk, and the client of the relay refuses every chunk of a blob above the
    same limit before it contacts the relay. *)
Theorem attachment_upload_limit s id e blob_id offset chunk x :
  rtc (attachment_step (St := St)) no_attachments s → as_completed s !! id = Some e →
  upload_check blob_id offset (blen (ea_blob e)) chunk = Ok x →
  (ad_original_size (ea_descriptor e) + 8 * 1024 ≤ MAX_ATTACHMENT_BYTES)%N.
Proof using HL.
  intros Hr He Hu. apply attachments_reachable_inv in Hr.
  destruct (av_completed _ Hr id e He) as (l & Hd & Hb). cbn in Hd, Hb.
  pose proof (shaped_bound l (ds_shaped _ _ Hd)) as Hc.
  pose proof (cipher_blen _ _ _ _ (ds_sealed _ _ Hd)) as Hlen. rewrite Hb in Hu.
  assert (blen (cipher l) ≤ MAX_BLOB_BYTES)%N as Hle.
  { unfold upload_check in Hu. destruct (blob_path blob_id); cbn [result_bind] in Hu; [|done].
    repeat case_match; simplify_eq; lia. }
  rewrite (ds_size _ _ Hd). unfold MAX_BLOB_BYTES, MAX_ATTACHMENT_BYTES, CHUNK_SIZE in *. lia.
Qed.
End uploads.

(** ** Sessions of the browser *)

(** A session that is over is renewed: whatever time has passed since it was issued, a request
    with its cookie and its CSRF token is answered with fresh credentials, though the same
    session is refused everywhere else once its time is over. *)
Theorem bridge_expired_session_is_renewed `{Crypto} b ss origin host cookie csrf now mono c d :
  lb_session b = Some ss → check_origin_host b origin host = Ok tt →
  ss_cookie_hash ss = hash_token cookie → ss_csrf_hash ss = hash_token csrf →
  length c = TOKEN_BYTES → length d = TOKEN_BYTES →
  ttl_is_expired (ss_ttl ss) now (elapsed_secs (ss_started ss) mono) = true →
  (∀ method token, Bridge.authorize b {| br_origin := origin; br_host := host; br_method := method;
       br_cookie := cookie; br_csrf_token := token; br_ui_version := bc_ui_version (lb_config b) |}
       now mono = Err SessionInvalid) ∧
  ∃ credentials,
    (renew origin host cookie csrf (bc_ui_version (lb_config b)) now mono (Some c) (Some d) b).2
    = Ok credentials ∧ sc_cookie credentials = Bridge.hex_bytes c.
Proof.
  intros Hs Ho Hc Hk Lc Ld Ht. split.
  - intros method token. unfold Bridge.authorize. cbn. rewrite Ho. cbn.
    unfold seqb. rewrite bool_decide_eq_true_2 by done. cbn. rewrite Hs. cbn. by rewrite Ht.
  - unfold renew. rewrite Ho. unfold seqb. rewrite bool_decide_eq_true_2 by done. cbn [negb]. rewrite Hs.
    rewrite Hc, Hk, !constant_time_equal_refl. cbn [negb orb].
    unfold issue_session, mut_bind, random_token. cbn [mut_lift].
    rewrite Lc, Ld. cbn. eauto.
Qed.

Section requests.
Context `{OpenMls, Crypto, UriParser, UnicodeCase, AuthorityHost, Transport, HttpTypes}.
Context {St : Type} `{RecordStore St, RecordScan St, ProfileStore St}.
Context `{JsonCodec SessionSnapshot, JsonCodec AttachmentDescriptor, JsonCodec WireEnvelope}.
Context `{JsonCodec (gmap string DeliveryRecord), JsonCodec Value}.
Context `{JsonCodec MessagePayload, JsonCodec StoredMessage}.
Context `{JsonCodec PairingSnapshot, JsonCodec DirectorySnapshot}.
Context `{JsonCodec RegistryWire, JsonCodec RequestWire, JsonCodec ApprovalWire}.
Context `{JsonCodec (list ContactRecord), JsonCodec (list string)}.
Context `{JsonCodec PostResponse, JsonCodec SyncResponse, JsonCodec AckResponse}.
Context `{JsonCodec BlobChunkResponse, JsonCodec InviteCodeResponse, JsonCodec ConsumeInviteResponse}.
Context `{JsonCodec RevokeInviteResponse, JsonCodec PairingResponseRead}.
Context (fs : StaticFiles) (ui_root : option string).
Implicit Types s : AppState St.

(** ** Joining without an approval *)

Definition joined_reply : bytes := json_reply 200 (json_object [("state", json_str "joined"); ("joined", "true")]).

(** A session is completed although the pairing was not approved: with a peer whose safety
    number nobody has compared, the approval fails, the request goes on, registers the peer as
    a contact and answers that the session is joined. The pairing still refuses messages. *)
Theorem pairing_completes_without_approval code now s a peer d st :
  ap_authority s = Some a → ps_peer (au_pairing a) = Some peer → (now < vi_expires_at peer)%N →
  ps_state (au_pairing a) = Pairing.Verified → ps_safety_verified (au_pairing a) = false →
  upsert_and_bind peer now (au_contacts a) = (d, Ok tt) →
  contacts_persist d (ap_store s) = (st, Ok tt) →
  ∃ s' a', session_joined code now s = (s', Ok joined_reply) ∧ ap_authority s' = Some a' ∧
    au_contacts a' = d ∧ au_pairing a' = au_pairing a ∧ can_message (au_pairing a') = false.
Proof using Type.
  intros Ha Hp Hx Hst Hsv Hu Hd.
  assert (approve_again now (au_pairing a) = (au_pairing a, Err InvalidTransition)) as Happ.
  { unfold approve_again, approve. rewrite Hp, Hst, Hsv. replace (vi_expires_at peer <=? now)%N with false by lia.
    done. }
  unfold session_joined, change_authority, change_rendezvous, the_authority, app_authority_store, mut_bind.
  rewrite Ha. unfold approve_pairing, with_pairing. rewrite Happ. cbn.
  unfold register_approved_contact, snapshot. cbn. rewrite Hp. unfold with_contacts. cbn. rewrite Hu, Hd. cbn.
  eexists _, _. split_and!; [done..|]. cbn. unfold can_message. by rewrite Hst.
Qed.

(** ** Requests nobody serves *)

Lemma route_elsewhere r method path : seqb (rq_path r) path = false → is_route r method path = false.
Proof using Type. intros E. unfold is_route. by rewrite E, andb_false_r. Qed.

(** The requests that create and list attestations are never served, although there is code for
    them: the guard before that code does not name their paths, so each is answered with
    [not_found], whatever its method, session and body, and nothing but old attachments changes. *)
Theorem attestation_requests_are_not_served seed raw r clock s log :
  parse_request raw = Some r →
  rq_path r ∈ ["/local-api/attestations/create"; "/local-api/attestations/list"] →
  run_alone (serve fs ui_root seed raw clock) s log
  = (purge (ck_now clock) s, log, text_error 404 "not_found").
Proof using Type.
  intros Hraw Hin. unfold serve.
  assert (∀ A (routes : list (string * A)), Forall (λ p, seqb (rq_path r) p.1 = false) routes →
    post_route routes raw = None) as Hnone.
  { intros A routes Hall. unfold post_route. rewrite Hraw. cbn. destruct (seqb (rq_method r) "POST"); [|done].
    induction Hall as [|p routes Hp _ IH]; [done|]. cbn. by rewrite Hp. }
  unfold detached_delivery_route, detached_attachment_route, detached_authority_route.
  assert (rq_path r = "/local-api/attestations/create" ∨ rq_path r = "/local-api/attestations/list") as Hp by set_solver.
  clear Hin. rewrite !Hnone by (destruct Hp as [->| ->]; repeat constructor).
  cbn [run_alone]. unfold handle_request_with_route_context. rewrite Hraw.
  unfold routed, handle_session_route, handle_mls_route, handle_attachment_route, handle_delivery_route,
    handle_authority_route, is_one_of, ui_reply, ui_page, ui_asset.
  repeat (rewrite route_elsewhere by (destruct Hp as [->| ->]; reflexivity)).
  destruct Hp as [-> | ->]; cbn -[seqb]; rewrite ?andb_false_r; cbn -[seqb];
    repeat (destruct (seqb (rq_method r) _); cbn -[seqb]); reflexivity.
Qed.
End requests.

(** ** Witnesses *)

Module RouteSample.
Import Reference TableStore ServerSample.

Lemma attachment_upload_limit_witness :
  ∃ e x, as_completed AuthoritySample.s3 !! AttachmentSample.blob_id = Some e ∧
    upload_check AttachmentSample.blob_id 0 (blen (ea_blob e)) (ea_blob e) = Ok x ∧
    (ad_original_size (ea_descriptor e) + 8 * 1024 ≤ MAX_ATTACHMENT_BYTES)%N.
Proof.
  destruct (as_completed AuthoritySample.s3 !! AttachmentSample.blob_id) as [e|] eqn:He;
    [|vm_compute in He; discriminate He].
  destruct (upload_check AttachmentSample.blob_id 0 (blen (ea_blob e)) (ea_blob e)) as [x|] eqn:Hu;
    [|vm_compute in He; injection He as <-; vm_compute in Hu; discriminate Hu].
  exists e, x. split; [reflexivity|]. split; [exact Hu|].
  exact (attachment_upload_limit (St := Table) _ _ _ _ _ _ _ AuthoritySample.reached_s3 He Hu).
Defined.

Lemma bridge_expired_session_is_renewed_witness :
  ∃ credentials,
    (renew "http://127.0.0.1:4173" "127.0.0.1:4173" (sc_cookie BridgeSample.credentials)
       (sc_csrf_token BridgeSample.credentials) "1.0.0" 100000 7
       (BridgeSample.draw "e") (BridgeSample.draw "f") BridgeSample.exchanged.1).2 = Ok credentials ∧
    sc_cookie credentials = Bridge.hex_bytes (replicate 32 "e"%char).
Proof.
  destruct (lb_session BridgeSample.exchanged.1) as [ss|] eqn:Hs; [|vm_compute in Hs; discriminate Hs].
  refine (proj2 (bridge_expired_session_is_renewed BridgeSample.exchanged.1 ss "http://127.0.0.1:4173"
    "127.0.0.1:4173" (sc_cookie BridgeSample.credentials) (sc_csrf_token BridgeSample.credentials) 100000 7
    (replicate 32 "e"%char) (replicate 32 "f"%char) Hs _ _ _ _ _ _));
    vm_compute in Hs; injection Hs as <-; vm_compute; reflexivity.
Defined.

Section joining.
#[local] Existing Instance AuthoritySample.directory_codec.
(** Bob is staged, but nobody has compared the safety number. *)
Definition staged : InviteAuthority :=
  set_au_pairing (verify_peer AuthoritySample.bob 10 (au_pairing AuthoritySample.a0)).1 AuthoritySample.a0.
Definition waiting_state : AppState Table := set_ap_authority (Some staged) state.
Definition directory : ContactDirectory := (upsert_and_bind AuthoritySample.bob 12 (au_contacts staged)).1.

Lemma pairing_completes_without_approval_witness :
  ∃ s' a', session_joined "code" 12 waiting_state = (s', Ok joined_reply) ∧ ap_authority s' = Some a' ∧
    au_contacts a' = directory ∧ au_pairing a' = au_pairing staged ∧ can_message (au_pairing a') = false.
Proof.
  apply (pairing_completes_without_approval "code" 12 waiting_state staged AuthoritySample.bob directory
           (contacts_persist directory ([] : Table)).1); vm_compute; reflexivity.
Defined.
End joining.

Definition list_attestations : bytes := live "GET" "/local-api/attestations/list" EmptyString.

Lemma attestation_requests_are_not_served_witness :
  run_alone (serve files None 0 list_attestations clock) state []
  = (purge 500 state, [], text_error 404 "not_found").
Proof.
  assert (parse_request list_attestations = Some (default (Build_Request EmptyString EmptyString [] [])
    (parse_request list_attestations))) as Hp by (vm_compute; reflexivity).
  apply (attestation_requests_are_not_served files None 0 list_attestations _ clock state [] Hp).
  vm_compute. right. left.
Defined.
End RouteSample.
