(* ===== verification/Cli.v ===== *)
(** * Profiles on disk ([apps/daemon/src/cli.rs])

    What the commands share: the paths of a profile, the files around its store, the record its
    identity is kept in, opening the store, and the recovery that was staged for the next start.
    The calls of a command go through the world of [Fs.v] and may fail one by one. *)
From Stdlib Require Import Ascii NArith Lia ZifyBool ZifyN.
From stdpp Require Import base gmap strings list.
From S2P Require Import Prelude Text TextScan Collections Interfaces Paths Fs StoreFormat Storage RecordStore StorageLaws StorageProps Recovery Trust Identity DeviceRegistry Http.

Inductive CliError :=
| Usage (message : string) | CliIo | CliStorage (e : StorageError) | NotInitialized
| AlreadyInitialized | UnsafeSecretArgument | InvalidRecovery.

(** ** Arguments *)

Fixpoint argument_after (args : list string) (name : string) : option (option string) :=
  match args with
  | [] => None
  | a :: rest => if seqb a name then Some (head rest) else argument_after rest name
  end.
Definition option_ (args : list string) (name : string) : result (option string) CliError :=
  match argument_after args name with
  | None => Ok None
  | Some None => Err (Usage (name +:+ " requires a value"))
  | Some (Some v) => Ok (Some v)
  end.
Definition required (args : list string) (name message : string) : result string CliError :=
  let? o := option_ args name in ok_or o (Usage message).
Definition data_dir (args : list string) : result string CliError :=
  let? o := option_ args "--data-dir" in Ok (default ".another-dimension-daemon" o).
Definition flag (args : list string) (name : string) : bool := existsb (λ a, seqb a name) args.

(** The commands that read a passphrase from the standard input. *)
Definition needs_passphrase (args : list string) : bool :=
  let first (c : string) := match args with a :: _ => seqb a c | [] => false end in
  let second (c : string) := match args with _ :: b :: _ => seqb b c | _ => false end in
  if first "keychain" then true
  else if first "setup" then false
  else if flag args "--keychain"
          && (first "serve" || first "wipe" || first "device" || (first "identity" && second "show"))
  then false
  else first "serve" || (first "identity" && second "show") || first "device"
       || (first "recovery" && second "rotate") || first "wipe".

(** ** Paths *)

Definition STORE_FILE : string := "store.adstore".
Definition REVISION_FILE : string := "store.adstore.revision".
Definition PROFILE_ID_FILE : string := "profile.id".
Definition PROFILE_KEYCHAIN_FILE : string := "profile.keychain".
Definition store_path (dir : string) : string := path_join dir STORE_FILE.
Definition revision_path (dir : string) : string := path_join dir REVISION_FILE.
Definition profile_id_path (dir : string) : string := path_join dir PROFILE_ID_FILE.
Definition profile_keychain_path (dir : string) : string := path_join dir PROFILE_KEYCHAIN_FILE.
(** A file beside the store that carries the number of the process. *)
Definition pid_path (dir stem : string) (w : World) : string :=
  path_join dir (stem +:+ u64_to_string (w_pid w)).

(** ** Calls *)

Definition cli_call (call : World → World * bool) : Mut World unit CliError :=
  λ w, let '(w, done) := call w in (w, if done then Ok tt else Err CliIo).
Definition cli_storage {A} (m : Mut World A StorageError) : Mut World A CliError :=
  λ w, let '(w, r) := m w in (w, map_err CliStorage r).
Definition cli_remove (path : string) : Mut World unit CliError :=
  λ w, let '(w, r) := fs_remove path w in (w, match r with RemoveOk => Ok tt | _ => Err CliIo end).
Definition cli_read (path : string) : Mut World bytes CliError :=
  λ w, let '(w, r) := fs_read path w in (w, match r with ReadOk b => Ok b | _ => Err CliIo end).
(** [fs::read_to_string]. *)
Definition cli_read_text (path : string) : Mut World string CliError :=
  λ w, let '(w, r) := cli_read path w in (w, let? b := r in ok_or (from_utf8 b) CliIo).
(** [let _ = ...]: the outcome is dropped. *)
Definition attempt {A} (m : Mut World A CliError) : Mut World unit CliError :=
  λ w, ((m w).1, Ok tt).
(** [if let Err(error) = m { cleanup; return Err(error) }]. *)
Definition on_error (m cleanup : Mut World unit CliError) : Mut World unit CliError :=
  λ w, match m w with (w, Ok _) => (w, Ok tt) | (w, Err e) => ((cleanup w).1, Err e) end.

(** [Path::is_file], [Path::exists] and [symlink_metadata(..).is_ok()]: a call that fails answers
    no. *)
Definition fs_is_file (path : string) : Mut World bool CliError :=
  λ w, let '(f, w) := next_fault w in
    (w, Ok match f, resolve 40 (w_files w) path with NoFault, Some (RegularFile _) => true | _, _ => false end).
Definition fs_exists (path : string) : Mut World bool CliError :=
  λ w, let '(f, w) := next_fault w in
    (w, Ok match f, resolve_path 40 (w_files w) path with
           | NoFault, Some target => bool_decide (is_Some (w_files w !! target))
           | _, _ => false
           end).
Definition fs_entry_exists (path : string) : Mut World bool CliError :=
  λ w, let '(f, w) := next_fault w in
    (w, Ok match f with NoFault => bool_decide (is_Some (w_files w !! path)) | _ => false end).

(** The metadata of the directory, then its permissions. *)
Definition set_private_dir (path : string) : Mut World unit CliError :=
  let! _ := cli_call fs_call in
  λ w,
    match w_files w !! path with
    | Some (RegularFile _) | Some (Symlink _) =>
      (w, Err (Usage ("data directory must be a real private directory: " +:+ path)))
    | _ => cli_call fs_call w
    end.

Definition cli_temporary (path : string) (pid : N) : string :=
  with_extension path ("tmp-" +:+ u64_to_string pid).
Definition cli_atomic_write (path : string) (contents : bytes) : Mut World unit CliError :=
  λ w,
    let temporary := cli_temporary path (w_pid w) in
    on_error
      (let! _ := cli_call (fs_write temporary contents) in
       let! _ := cli_call fs_call in
       cli_call (fs_rename temporary path))
      (attempt (cli_remove temporary)) w.

(** ** The identity record *)

Definition IDENTITY_RECORD_MAGIC : bytes := as_bytes "ADIDENTITY1" ++ [n_byte 0; n_byte 0].
Definition LINKED_IDENTITY_RECORD_MAGIC : bytes := as_bytes "ADIDENTITY2" ++ [n_byte 0; n_byte 0].

Definition cli_read_blob (b : bytes) (offset : N) : option (bytes * N) :=
  end_length ← u64_checked_add offset 8;
  if (blen b <? end_length)%N then None
  else
    let length := be_value (range b offset end_length) in
    end_ ← u64_checked_add end_length length;
    if (blen b <? end_)%N then None else Some (range b end_length end_, end_).

(** [parse_hex_key]: each byte is read as a character of its own. *)
Definition parse_hex_key (value : string) : option bytes :=
  if negb (slen value =? 64)%N then None else decode_pairs (as_bytes value).

Record IdentitySummary := {
  is_root_seed : option bytes;
  is_device_seed : bytes;
  is_account_public_key : bytes;
  is_account_id : string;
  is_device_id : string;
  is_display_name : string;
}.

(** Four blobs after the magic, and nothing after them. *)
Definition four_blobs (b : bytes) : option (bytes * bytes * bytes * bytes) :=
  let start := blen IDENTITY_RECORD_MAGIC in
  '(first, offset) ← cli_read_blob b start;
  '(second, offset) ← cli_read_blob b offset;
  '(third, offset) ← cli_read_blob b offset;
  '(fourth, end_) ← cli_read_blob b offset;
  if negb (end_ =? blen b)%N || negb (blen first =? 32)%N || negb (blen second =? 32)%N then None
  else Some (first, second, third, fourth).

Section identity_record.
Context `{Crypto}.

Definition encode_identity (root : AccountRootKey) (device : DeviceIdentity) (profile : ProfileIdentity) : bytes :=
  append_blob
    (append_blob (append_blob (append_blob IDENTITY_RECORD_MAGIC (root_seed root)) (di_seed device))
       (as_bytes (dc_device_id (di_certificate device))))
    (as_bytes (pi_display_name profile)).

Definition encode_linked_identity (account_public_key device_seed : bytes) (device_id display_name : string) : bytes :=
  append_blob
    (append_blob (append_blob (append_blob LINKED_IDENTITY_RECORD_MAGIC account_public_key) device_seed)
       (as_bytes device_id))
    (as_bytes display_name).

Definition decode_identity_summary (b : bytes) : option IdentitySummary :=
  if starts_with_b IDENTITY_RECORD_MAGIC b then
    '(root, device_seed, device_id, display_name) ← four_blobs b;
    device_id ← from_utf8 device_id;
    display_name ← from_utf8 display_name;
    Some {| is_root_seed := Some root; is_device_seed := device_seed;
            is_account_public_key := root_public_key (from_seed root);
            is_account_id := root_account_id (from_seed root);
            is_device_id := device_id; is_display_name := display_name |}
  else if negb (starts_with_b LINKED_IDENTITY_RECORD_MAGIC b) then None
  else
    '(account_public_key, device_seed, device_id, display_name) ← four_blobs b;
    device_id ← from_utf8 device_id;
    display_name ← from_utf8 display_name;
    Some {| is_root_seed := None; is_device_seed := device_seed;
            is_account_public_key := account_public_key;
            is_account_id := account_id_from_public account_public_key;
            is_device_id := device_id; is_display_name := display_name |}.
End identity_record.

(** ** The store of a profile *)

Section profile.
Context `{Crypto, JsonCodec RegistryWire, JsonCodec RecoveryManifest}.

Definition open_store (dir passphrase : string) : Mut World EncryptedStore CliError :=
  let! present := fs_is_file (store_path dir) in
  if negb present then mut_err NotInitialized
  else
    let! _ := set_private_dir dir in
    cli_storage (open (store_path dir) passphrase).

Definition registry_error (e : DeviceRegistryError) : CliError :=
  CliStorage (match e with IdentityErr _ => AuthenticationFailed | _ => CorruptStore end).

Definition decode_registry (s : EncryptedStore) : result DeviceRegistry CliError :=
  let? b := ok_or (get s Device "registry") (CliStorage CorruptStore) in
  map_err registry_error (DeviceRegistry.decode b).

(** ** A staged recovery *)

(** The checks of the candidate store before it replaces the live one. *)
Definition validate_candidate (s : EncryptedStore) (now : N) : result unit CliError :=
  let? record := ok_or (get s AccountRoot "identity") InvalidRecovery in
  let? summary := ok_or (decode_identity_summary record) InvalidRecovery in
  let? registry := decode_registry s in
  map_err registry_error (authorize registry (is_device_id summary) now).

(** The candidate is written beside the live store, opened and checked, and removed again. *)
Definition check_candidate (dir passphrase : string) (now : N) (store revision : bytes)
  : Mut World unit CliError :=
  λ w,
    let check_path := pid_path dir "store.adstore.recovery-check-" w in
    let check_revision := marker_path check_path in
    (let! _ := cli_atomic_write check_path store in
     let! _ := cli_atomic_write check_revision revision in
     let! validation :=
       λ w,
         match open check_path passphrase w with
         | (w, Ok candidate) => (w, Ok (validate_candidate candidate now))
         | (w, Err e) =>
           let cleanup := let! _ := attempt (cli_remove check_path) in attempt (cli_remove check_revision) in
           ((cleanup w).1, Err (CliStorage e))
         end in
     let! _ := cli_remove check_path in
     let! _ := cli_remove check_revision in
     mut_lift validation) w.

(** The live files are moved aside: whether each was there. *)
Definition move_aside (live_store live_revision old_store old_revision : string)
  : Mut World (bool * bool) CliError :=
  let! taken := fs_exists old_store in
  let! also := if taken then mut_ret true else fs_exists old_revision in
  if also then mut_err InvalidRecovery
  else
    let! moved_store := fs_exists live_store in
    let! _ := if moved_store then cli_call (fs_rename live_store old_store) else mut_ret tt in
    let! moved_revision := fs_exists live_revision in
    let! _ :=
      on_error
        (if moved_revision then cli_call (fs_rename live_revision old_revision) else mut_ret tt)
        (if moved_store then attempt (cli_call (fs_rename old_store live_store)) else mut_ret tt) in
    mut_ret (moved_store, moved_revision).

(** [if moved && old.exists() { let _ = fs::rename(old, live); }]. *)
Definition move_back (moved : bool) (old live : string) : Mut World unit CliError :=
  if moved
  then let! there := fs_exists old in
       if there then attempt (cli_call (fs_rename old live)) else mut_ret tt
  else mut_ret tt.

Definition install (dir : string) (store revision : bytes) : Mut World unit CliError :=
  λ w,
    let live_store := store_path dir in
    let live_revision := revision_path dir in
    let old_store := pid_path dir "store.adstore.before-recovery-" w in
    let old_revision := pid_path dir "store.adstore.revision.before-recovery-" w in
    (let! moved := move_aside live_store live_revision old_store old_revision in
     let! _ :=
       on_error
         (let! _ := cli_atomic_write live_store store in cli_atomic_write live_revision revision)
         (let! _ := attempt (cli_remove live_store) in
          let! _ := attempt (cli_remove live_revision) in
          let! _ := move_back moved.1 old_store live_store in
          move_back moved.2 old_revision live_revision) in
     let! _ := attempt (cli_remove old_store) in
     attempt (cli_remove old_revision)) w.

Definition apply_pending_recovery (dir passphrase : string) (now : N) : Mut World unit CliError :=
  let pending := recovery_pending_path (store_path dir) in
  let! staged := fs_is_file pending in
  if negb staged then mut_ret tt
  else
    let! artifact := cli_read pending in
    let! candidate := mut_lift (map_err (λ _, InvalidRecovery) (parse_recovery_artifact artifact)) in
    let! _ := check_candidate dir passphrase now candidate.1 candidate.2 in
    let! _ := install dir candidate.1 candidate.2 in
    cli_remove pending.
End profile.
