(* ===== verification/CliProfile.v ===== *)
(** * The commands on a profile ([apps/daemon/src/cli_profile.rs], [apps/daemon/src/cli.rs])

    Creating a profile from the terminal and from the browser, showing it, enrolling it in the
    key chain of the platform, wiping it, and the commands on its devices. The state of a
    command is the world of the files and the key store of the platform. *)
From Stdlib Require Import Ascii NArith Lia ZifyBool ZifyN.
From stdpp Require Import base gmap strings list.
From S2P Require Import Prelude Text TextScan Collections Interfaces Paths Fs StoreFormat Storage RecordStore StorageLaws StorageProps Recovery Trust OsKeys Model Identity DeviceRegistry DeviceLink Http Cli.

(** A line of the answer of a command. *)
Definition nl : string := of_bytes [n_byte 10].
Definition V1 : bytes := as_bytes ("v1" +:+ nl).

(** [PendingLinkArtifact], as JSON. *)
Record PendingLinkArtifact := {
  pl_schema_version : N;
  pl_request : string;
  pl_private_seed : string;
  pl_approval : option string;
}.

Section commands.
Context {K : Type} `{Keyring K, Crypto, JsonCodec RegistryWire}.

Definition on_world {A} (m : Mut World A CliError) : Mut (World * K) A CliError :=
  λ '(w, k), let '(w, r) := m w in ((w, k), r).
(** A call of the key store; what it answers is looked at by the caller. *)
Definition on_keys {A} (m : Mut K A StorageError) : Mut (World * K) (result A StorageError) CliError :=
  λ '(w, k), let '(k, r) := m k in ((w, k), Ok r).

Definition draw (n : nat) : Mut World (option bytes) CliError :=
  λ w, let '(w, o) := secure_random n w in (w, Ok o).
Definition generate_passphrase : Mut World string CliError :=
  let! o := draw 32 in mut_lift (let? b := ok_or o CliIo in Ok (of_bytes (hex_b b))).

(** An operation of the store as a step of a command. *)
Definition on_store {A} (m : Mut (EncryptedStore * World) A StorageError) (s : EncryptedStore)
  : Mut World EncryptedStore CliError :=
  λ w, let '((s, w), r) := m (s, w) in (w, let? _ := map_err CliStorage r in Ok s).

(** ** Creating a profile *)

(** The keys of a new profile: the account, its first device and its name. *)
Definition new_identity (display_name : string)
  : Mut World (AccountRootKey * DeviceIdentity * ProfileIdentity) CliError :=
  let! seed := draw 32 in
  let! root := mut_lift (map_err (λ _, CliIo) (generate seed)) in
  let! device_seed := draw 32 in
  let! device :=
    mut_lift (map_err (λ _, CliIo)
      (issue_device root "device-1" (replicate 32 Ascii.zero) 0 (u64_max - 1) device_seed)) in
  let! profile :=
    mut_lift (map_err (λ _, Usage "display name is invalid") (profile_from_account root display_name None)) in
  mut_ret (root, device, profile).

(** The store of a new profile with its two records. *)
Definition create_store (dir passphrase : string)
    (id : AccountRootKey * DeviceIdentity * ProfileIdentity) : Mut World unit CliError :=
  let '(root, device, profile) := id in
  let! store := cli_storage (initialize (store_path dir) passphrase) in
  let! registry :=
    mut_lift (let '(g, r) := register (di_certificate device) 0 (registry_new root) in
              let? _ := map_err registry_error r in Ok g) in
  let! store := on_store (put AccountRoot "identity" (encode_identity root device profile)) store in
  let! encoded := mut_lift (map_err registry_error (DeviceRegistry.encode registry)) in
  let! _ := on_store (put Device "registry" encoded) store in
  mut_ret tt.

Definition enroll (dir profile_id passphrase : string) : Mut (World * K) string CliError :=
  let! saved := on_keys (save_profile_passphrase profile_id passphrase) in
  match saved with
  | Ok _ =>
    let! _ := on_world (cli_atomic_write (profile_keychain_path dir) V1) in
    mut_ret ("keychain: configured" +:+ nl)
  | Err OsKeyStoreUnavailable =>
    mut_ret ("keychain: unavailable; use the generated passphrase on stdin" +:+ nl)
  | Err _ => mut_ret ("keychain: could not save; use the generated passphrase on stdin" +:+ nl)
  end.

(** The files of a profile, and its secret in the key store, are removed as far as possible. *)
Definition undo_profile (dir profile_id : string) : Mut (World * K) unit CliError :=
  let! _ := on_world (attempt (cli_remove (store_path dir))) in
  let! _ := on_world (attempt (cli_remove (revision_path dir))) in
  let! _ := on_keys (delete_profile_passphrase profile_id) in
  let! _ := on_world (attempt (cli_remove (profile_id_path dir))) in
  on_world (attempt (cli_remove (profile_keychain_path dir))).

Definition write_passphrase (dir profile_id passphrase : string) (output : option string)
  : Mut (World * K) string CliError :=
  match output with
  | None => mut_ret ("passphrase: " +:+ passphrase +:+ nl)
  | Some path =>
    λ h,
      match on_world (cli_atomic_write path (as_bytes (passphrase +:+ nl))) h with
      | (h, Ok _) => (h, Ok ("passphrase file: " +:+ path +:+ nl))
      | (h, Err e) => ((undo_profile dir profile_id h).1, Err e)
      end
  end.

Definition output_taken (output : option string) : Mut World bool CliError :=
  match output with Some path => fs_exists path | None => mut_ret false end.

Definition init (args : list string) : Mut (World * K) string CliError :=
  let! dir := mut_lift (data_dir args) in
  let! display_name := mut_lift (required args "--display-name" "init requires --display-name") in
  let! output := mut_lift (option_ args "--passphrase-output") in
  let! initialized := on_world (fs_exists (store_path dir)) in
  if (initialized : bool) then mut_err AlreadyInitialized
  else
    let! taken := on_world (output_taken output) in
    if (taken : bool) then mut_err (Usage "--passphrase-output already exists; refusing overwrite")
    else
      let! _ := on_world (cli_call (fs_create_dir_all dir)) in
      let! _ := on_world (set_private_dir dir) in
      let! passphrase := on_world generate_passphrase in
      let! id := on_world (new_identity display_name) in
      let '(root, device, profile) := id in
      let profile_id := pi_account_id profile in
      let! _ := on_world (create_store dir passphrase id) in
      let! _ := on_world (cli_atomic_write (profile_id_path dir) (as_bytes (profile_id +:+ nl))) in
      let! keychain_notice := enroll dir profile_id passphrase in
      let! passphrase_notice := write_passphrase dir profile_id passphrase output in
      mut_ret ("profile initialized" +:+ nl +:+ "account_id: " +:+ profile_id +:+ nl
               +:+ "device_id: " +:+ dc_device_id (di_certificate device) +:+ nl
               +:+ keychain_notice +:+ passphrase_notice
               +:+ "private key: encrypted in local daemon store").

(** ** Wiping *)

Definition wipe (args : list string) (passphrase : string) : Mut (World * K) string CliError :=
  let! dir := mut_lift (data_dir args) in
  let! _ := on_world (open_store dir passphrase) in
  let! profile_id := λ h, let '(h, r) := on_world (cli_read_text (profile_id_path dir)) h in
                          (h, Ok (trim <$> result_ok r)) in
  let! enrolled :=
    match profile_id with
    | Some _ => on_world (fs_is_file (profile_keychain_path dir))
    | None => mut_ret false
    end in
  let! _ :=
    match profile_id, (enrolled : bool) with
    | Some id, true => let! r := on_keys (delete_profile_passphrase id) in mut_lift (map_err CliStorage r)
    | _, _ => mut_ret tt
    end in
  let! store_there := on_world (fs_is_file (store_path dir)) in
  let! both := if (store_there : bool) then on_world (fs_is_file (revision_path dir)) else mut_ret false in
  if negb both then mut_err NotInitialized
  else
    let! _ := on_world (cli_remove (store_path dir)) in
    let! _ := on_world (cli_remove (revision_path dir)) in
    let! _ := on_world (attempt (cli_remove (profile_id_path dir))) in
    let! _ := on_world (attempt (cli_remove (profile_keychain_path dir))) in
    mut_ret ("local daemon store deleted: " +:+ dir +:+ nl
             +:+ "relay-side blobs, exported backups, OS/SSD remnants, and browser caches are not deleted").

(** The value of the first line that starts with a label. *)
Definition line_value (label output : string) : option string :=
  head (omap (strip_prefix label) (lines output)).

Definition SETUP_REFUSED : string :=
  "macOS Keychain에 프로필 비밀을 저장하지 못해 계정을 만들지 않았습니다".
Definition init_from_setup (dir display_name : string) : Mut (World * K) string CliError :=
  let args := ["init"; "--display-name"; display_name; "--data-dir"; dir] in
  let! output := init args in
  if contains "keychain: configured" output then mut_ret output
  else
    match line_value "passphrase: " output with
    | Some passphrase => λ h, ((wipe args passphrase h).1, Err (Usage SETUP_REFUSED))
    | None => mut_err (Usage SETUP_REFUSED)
    end.

(** ** Showing and enrolling *)

Definition show_identity (dir passphrase : string) (bad : CliError)
  : Mut World IdentitySummary CliError :=
  let! store := open_store dir passphrase in
  let! record := mut_lift (ok_or (get store AccountRoot "identity") NotInitialized) in
  mut_lift (ok_or (decode_identity_summary record) bad).

Definition identity_show (args : list string) (passphrase : string) : Mut World string CliError :=
  if negb (bool_decide (args !! 1 = Some "show")) then mut_err (Usage "use identity show")
  else
    let! dir := mut_lift (data_dir args) in
    let! summary := show_identity dir passphrase (CliStorage CorruptStore) in
    mut_ret ("account_id: " +:+ is_account_id summary +:+ nl +:+ "device_id: " +:+ is_device_id summary +:+ nl
             +:+ "display_name: " +:+ is_display_name summary +:+ nl +:+ "relay: none configured").

Definition keychain_command (args : list string) (passphrase : option string)
  : Mut (World * K) string CliError :=
  if negb (bool_decide (args !! 1 = Some "enroll"))
  then mut_err (Usage "use keychain enroll --data-dir PATH; provide the profile passphrase on stdin")
  else
    let! passphrase :=
      mut_lift (ok_or passphrase (Usage "keychain enroll requires the profile passphrase from stdin")) in
    let! dir := mut_lift (data_dir args) in
    let! summary := on_world (show_identity dir passphrase InvalidRecovery) in
    let! _ := on_world (cli_atomic_write (profile_id_path dir) (as_bytes (is_account_id summary +:+ nl))) in
    let! saved := on_keys (save_profile_passphrase (is_account_id summary) passphrase) in
    let! _ := mut_lift (map_err CliStorage saved) in
    let! _ := on_world (cli_atomic_write (profile_keychain_path dir) V1) in
    mut_ret "keychain: configured; future commands may use --keychain".

Definition resolve_passphrase (args : list string) (supplied : option string)
  : Mut (World * K) string CliError :=
  match supplied with
  | Some passphrase => mut_ret passphrase
  | None =>
    if negb (flag args "--keychain")
    then mut_err (Usage "profile passphrase is required on stdin, or use --keychain on macOS")
    else
      let! dir := mut_lift (data_dir args) in
      let! profile_id := λ h, let '(h, r) := on_world (cli_read_text (profile_id_path dir)) h in
        (h, map_err (λ _, Usage "profile.id is missing; unlock once with stdin first") r) in
      λ '(w, k), ((w, k), map_err CliStorage (load_profile_passphrase (trim profile_id) k))
  end.

(** ** Devices *)

Definition device_state_debug (s : DeviceState) : string :=
  match s with DeviceProvisioning => "Provisioning" | DeviceActive => "Active" | DeviceRevoked => "Revoked" end.
Definition device_text (r : DeviceRecord) : string :=
  "device_id: " +:+ dc_device_id (dv_certificate r) +:+ nl +:+ "state: " +:+ device_state_debug (dv_state r) +:+ nl
  +:+ "expires_at: " +:+ u64_to_string (dc_expires_at (dv_certificate r)).

Definition cli_revoke (args : list string) (store : EncryptedStore) (registry : DeviceRegistry) (now : N)
  : Mut World string CliError :=
  let! device_id := mut_lift (required args "--id" "device revoke requires --id DEVICE_ID") in
  let! record := mut_lift (ok_or (get store AccountRoot "identity") NotInitialized) in
  let! summary := mut_lift (ok_or (decode_identity_summary record) (CliStorage CorruptStore)) in
  let! seed :=
    mut_lift (ok_or (is_root_seed summary) (Usage "device revoke requires the account root device")) in
  let '(registry, revoked) := revoke (from_seed seed) device_id now registry in
  let! _ := mut_lift (map_err registry_error revoked) in
  let! encoded := mut_lift (map_err registry_error (DeviceRegistry.encode registry)) in
  let! _ := on_store (put Device "registry" encoded) store in
  mut_ret ("device revoked: " +:+ device_id).

Context `{JsonCodec RequestWire, JsonCodec ApprovalWire, JsonCodec PendingLinkArtifact}.

Definition device_link_request (args : list string) (passphrase : string) (now : N)
  : Mut World string CliError :=
  let! output := mut_lift (required args "--output" "device link-request requires --output PATH") in
  let! taken := fs_exists output in
  let! either := if (taken : bool) then mut_ret true else fs_exists (with_extension output "revision") in
  if (either : bool)
  then mut_err (Usage "device link-request refuses to overwrite an existing artifact")
  else
    let! device_id := mut_lift (required args "--id" "device link-request requires --id DEVICE_ID") in
    let! pending := λ w, let '(w, r) := link_create device_id (replicate 32 Ascii.zero) now w in
                         (w, map_err (λ _, CliIo) r) in
    let! request := mut_lift (map_err (λ _, InvalidRecovery) (request_encode (pk_request pending.1))) in
    let artifact := {| pl_schema_version := 1; pl_request := request;
                       pl_private_seed := of_bytes (hex_b (pk_seed pending.1)); pl_approval := None |} in
    let! store := cli_storage (initialize output passphrase) in
    let! b := mut_lift (ok_or (json_to_vec artifact) (CliStorage CorruptStore)) in
    let! _ := on_store (put Device "pending-link" b) store in
    mut_ret ("device link request created" +:+ nl +:+ "request: " +:+ request +:+ nl +:+ "code: " +:+ pending.2 +:+ nl
             +:+ "private key: encrypted in the pending artifact" +:+ nl
             +:+ "next: paste the request and code into an approved existing device").

(** The pending key, the request and the approval that belongs to it. *)
Definition pending_approval (input approval passphrase : string) (now : N)
  : Mut World (bytes * DeviceLinkRequest * DeviceLinkApproval) CliError :=
  let! store := cli_storage (open input passphrase) in
  mut_lift (
    let? b := ok_or (get store Device "pending-link") InvalidRecovery in
    let? artifact := ok_or (json_from_slice b) InvalidRecovery in
    if negb (pl_schema_version artifact =? 1)%N || bool_decide (is_Some (pl_approval artifact))
    then Err InvalidRecovery
    else
      let? request := map_err (λ _, InvalidRecovery) (request_parse (pl_request artifact)) in
      let? parsed := map_err (λ _, InvalidRecovery) (approval_parse approval) in
      let? _ := map_err (λ _, InvalidRecovery) (verify_for parsed request now) in
      let? seed := ok_or (parse_hex_key (pl_private_seed artifact)) InvalidRecovery in
      if negb (beqb (ed_public seed) (lr_device_public_key request)) then Err InvalidRecovery
      else Ok (seed, request, parsed)).

Definition device_link_complete (args : list string) (passphrase : string) (now : N)
  : Mut World string CliError :=
  let! input := mut_lift (required args "--input" "device link-complete requires --input PATH") in
  let! dir := mut_lift (data_dir args) in
  let! approval := mut_lift (required args "--approval" "device link-complete requires --approval VALUE") in
  let! taken := fs_exists (store_path dir) in
  if (taken : bool) then mut_err (Usage "device link-complete refuses to overwrite an existing profile")
  else
    let! linked := pending_approval input approval passphrase now in
    let '(seed, request, parsed) := linked in
    let certificate := la_certificate parsed in
    let! _ := cli_call (fs_create_dir_all dir) in
    let! _ := set_private_dir dir in
    let! activated := cli_storage (initialize (store_path dir) passphrase) in
    let! name := mut_lift (option_ args "--display-name") in
    let display_name := default ("linked-" +:+ lr_device_id request) name in
    let! registry :=
      mut_lift (let '(g, r) := register certificate now (new_for_public_key (dc_account_public_key certificate)) in
                let? _ := map_err registry_error r in Ok g) in
    let! encoded := mut_lift (map_err registry_error (DeviceRegistry.encode registry)) in
    let! _ :=
      on_store
        (apply_batch [Put AccountRoot "identity"
                        (encode_linked_identity (dc_account_public_key certificate) seed (lr_device_id request) display_name);
                      Put Device "registry" encoded]) activated in
    mut_ret ("device link approval verified" +:+ nl +:+ "profile activated: " +:+ dir +:+ nl
             +:+ "device_id: " +:+ lr_device_id request +:+ nl
             +:+ "account_id: " +:+ account_id_from_public (dc_account_public_key certificate) +:+ nl
             +:+ "root private key: not present" +:+ nl +:+ "next: run serve with --data-dir " +:+ dir).

Definition device_command (args : list string) (passphrase : string) (now : N) : Mut World string CliError :=
  let verb := args !! 1 in
  if bool_decide (verb = Some "link-request") then device_link_request args passphrase now
  else if bool_decide (verb = Some "link-complete") then device_link_complete args passphrase now
  else
    let! dir := mut_lift (data_dir args) in
    let! store := open_store dir passphrase in
    let! registry := mut_lift (decode_registry store) in
    if bool_decide (verb = Some "list")
    then mut_ret (join 10 (map device_text (btree_values (dg_devices registry))))
    else if bool_decide (verb = Some "revoke") then cli_revoke args store registry now
    else mut_err (Usage "use device list or device revoke --id DEVICE_ID").

(** ** The certificate pin of the relay *)

Definition resolve_relay_tls_pin (origin : string) (supplied : option TlsCertificatePin) (retrust : bool)
  : Mut (EncryptedStore * World) (option TlsCertificatePin) CliError :=
  λ '(s, w),
    let key := relay_tls_pin_record_key origin in
    if retrust && negb (bool_decide (is_Some supplied))
    then ((s, w), Err (Usage "--relay-tls-retrust requires --relay-tls-pin"))
    else if bool_decide (is_Some supplied) && negb (starts_with "https://" origin)
    then ((s, w), Err (Usage "--relay-tls-pin requires an HTTPS relay origin"))
    else if is_empty_str origin then ((s, w), Ok supplied)
    else
      let stored : option TlsCertificatePin :=
        b ← get s Account key; v ← from_utf8 b; result_ok (parse v) in
      match supplied with
      | None => ((s, w), Ok stored)
      | Some pin =>
        if match stored with Some previous => negb (beqb previous pin) && negb retrust | None => false end
        then ((s, w), Err (Usage "relay TLS pin changed; pass --relay-tls-retrust with the new pin"))
        else if retrust || negb (bool_decide (stored = Some pin))
        then
          let '(sw, r) := put Account key (as_bytes (as_text pin)) (s, w) in
          (sw, let? _ := map_err CliStorage r in Ok (Some pin))
        else ((s, w), Ok (Some pin))
      end.
End commands.
