(* ===== verification/CliRecovery.v ===== *)
(** * The recovery commands ([apps/daemon/src/cli_recovery.rs])

    Exporting the encrypted store and its marker to a file, inspecting such a file, importing it
    into an empty profile, and rewrapping the database under a new passphrase. *)
From Stdlib Require Import Ascii NArith Lia ZifyBool ZifyN.
From stdpp Require Import base gmap strings list.
From S2P Require Import Prelude Text TextScan Collections Interfaces Paths Fs StoreFormat Storage RecordStore StorageLaws StorageProps Recovery OsKeys Identity DeviceRegistry Http Cli CliProfile.

Section commands.
Context {K : Type} `{Keyring K, Crypto, JsonCodec RegistryWire, JsonCodec RecoveryManifest}.

Definition export (dir output : string) (now : N) : Mut World string CliError :=
  let! store_there := fs_is_file (store_path dir) in
  let! both := if (store_there : bool) then fs_is_file (revision_path dir) else mut_ret false in
  let! ready := if (both : bool) then (let! taken := fs_exists output in mut_ret (negb taken)) else mut_ret false in
  if negb ready then mut_err InvalidRecovery
  else
    let! store := cli_read (store_path dir) in
    let! revision := cli_read (revision_path dir) in
    let! manifest := mut_lift (ok_or (json_to_vec (recovery_manifest now store revision)) InvalidRecovery) in
    let! _ := cli_atomic_write output
                (append_blob (append_blob (append_blob RECOVERY_MAGIC manifest) store) revision) in
    mut_ret ("encrypted recovery exported to " +:+ output +:+ nl +:+ "keep it offline and separate from the device").

(** The manifest at the head of an artifact, and the offset after it. *)
Definition read_manifest (b : bytes) : result (RecoveryManifest * N) CliError :=
  if negb (starts_with_b RECOVERY_MAGIC b) then Err InvalidRecovery
  else
    let? m := ok_or (cli_read_blob b (blen RECOVERY_MAGIC)) InvalidRecovery in
    let? manifest := ok_or (json_from_slice m.1) InvalidRecovery in
    if negb (rm_schema_version manifest =? 2)%N then Err InvalidRecovery else Ok (manifest, m.2).

(** The store file and the marker an artifact holds. *)
Definition import_parts (b : bytes) : result (bytes * bytes) CliError :=
  let? m := read_manifest b in
  let manifest := m.1 in
  let? st := ok_or (cli_read_blob b m.2) InvalidRecovery in
  let? rev := ok_or (cli_read_blob b st.2) InvalidRecovery in
  let store := st.1 in
  let revision := rev.1 in
  if negb (rev.2 =? blen b)%N
     || negb (blen store =? rm_store_bytes manifest)%N
     || negb (blen revision =? rm_revision_bytes manifest)%N
     || negb (seqb (recovery_hex (sha256 store)) (rm_store_sha256 manifest))
     || negb (seqb (recovery_hex (sha256 revision)) (rm_revision_sha256 manifest))
     || (blen store <? 32)%N || (blen revision =? 0)%N
  then Err InvalidRecovery
  else Ok (store, revision).

(** The two files are written beside the profile and moved into place one after the other. *)
Definition place_files (dir : string) (store revision : bytes) : Mut World unit CliError :=
  λ w,
    let active_store := store_path dir in
    let active_revision := revision_path dir in
    let temporary_store := pid_path dir "store.adstore.import-" w in
    let temporary_revision := pid_path dir "store.adstore.revision.import-" w in
    let both := let! _ := attempt (cli_remove temporary_store) in attempt (cli_remove temporary_revision) in
    (let! _ := both in
     let! _ := on_error (cli_atomic_write temporary_store store) (attempt (cli_remove temporary_store)) in
     let! _ := on_error (cli_atomic_write temporary_revision revision) both in
     let! _ := on_error (cli_call (fs_rename temporary_store active_store)) both in
     on_error (cli_call (fs_rename temporary_revision active_revision))
       (let! _ := attempt (cli_remove active_store) in attempt (cli_remove temporary_revision))) w.

Definition import (dir input : string) : Mut World string CliError :=
  let! store_there := fs_entry_exists (store_path dir) in
  let! either := if (store_there : bool) then mut_ret true else fs_entry_exists (revision_path dir) in
  if (either : bool) then mut_err AlreadyInitialized
  else
    let! b := cli_read input in
    let! parts := mut_lift (import_parts b) in
    let! _ := cli_call (fs_create_dir_all dir) in
    let! _ := set_private_dir dir in
    let! _ := place_files dir parts.1 parts.2 in
    mut_ret ("encrypted recovery imported to " +:+ dir +:+ nl +:+ "unlock with the original passphrase").

Definition inspect (input : string) : Mut World string CliError :=
  let! b := cli_read input in
  let! m := mut_lift (read_manifest b) in
  let manifest := m.1 in
  mut_ret ("backup schema: " +:+ u64_to_string (rm_schema_version manifest) +:+ nl
           +:+ "created_at: " +:+ u64_to_string (rm_created_at manifest) +:+ nl
           +:+ "store bytes: " +:+ u64_to_string (rm_store_bytes manifest) +:+ nl
           +:+ "revision bytes: " +:+ u64_to_string (rm_revision_bytes manifest) +:+ nl
           +:+ "contents: encrypted daemon store").

(** ** Rotation *)

Definition remove_output (output : option string) : Mut World unit CliError :=
  match output with Some path => attempt (cli_remove path) | None => mut_ret tt end.

(** The rewrapped store takes the place of the active one; a step that fails puts the old files
    back as far as it can. *)
Definition swap_stores (dir temporary : string) (output : option string) : Mut World unit CliError :=
  λ w,
    let temporary_revision := marker_path temporary in
    let active := store_path dir in
    let active_revision := revision_path dir in
    let old_store := pid_path dir "store.adstore.old-" w in
    let old_revision := pid_path dir "store.adstore.revision.old-" w in
    let move from to := attempt (cli_call (fs_rename from to)) in
    let drop_temporaries := let! _ := attempt (cli_remove temporary) in attempt (cli_remove temporary_revision) in
    (let! _ :=
       on_error (cli_call (fs_rename active old_store))
         (let! _ := drop_temporaries in remove_output output) in
     let! _ :=
       on_error (cli_call (fs_rename active_revision old_revision))
         (let! _ := move old_store active in
          let! _ := drop_temporaries in
          remove_output output) in
     let! _ :=
       on_error (cli_call (fs_rename temporary active))
         (let! _ := move old_store active in
          let! _ := move old_revision active_revision in
          attempt (cli_remove temporary_revision)) in
     let! _ :=
       on_error (cli_call (fs_rename temporary_revision active_revision))
         (let! _ := attempt (cli_remove active) in
          let! _ := move old_store active in
          let! _ := move old_revision active_revision in
          remove_output output) in
     let! _ := attempt (cli_remove old_store) in
     attempt (cli_remove old_revision)) w.

(** The key store learns the new passphrase, if the profile is known. *)
Definition update_keychain (dir passphrase : string) : Mut (World * K) string CliError :=
  λ h,
    let '(h, r) := on_world (cli_read_text (profile_id_path dir)) h in
    match r with
    | Err _ => (h, Ok "keychain not updated")
    | Ok profile_id =>
      (let! saved := on_keys (save_profile_passphrase (trim profile_id) passphrase) in
       match saved with
       | Ok _ =>
         let! _ := on_world (attempt (cli_atomic_write (profile_keychain_path dir) V1)) in
         mut_ret "keychain updated"
       | Err _ => mut_ret "keychain not updated"
       end) h
    end.

(** Everything of the rotation but the key store: the new passphrase. *)
Definition rewrap (dir old_passphrase : string) (output : option string) : Mut World string CliError :=
  let! store := open_store dir old_passphrase in
  let! passphrase := generate_passphrase in
  let! _ := match output with
            | Some path => cli_atomic_write path (as_bytes (passphrase +:+ nl))
            | None => mut_ret tt
            end in
  λ w,
    let temporary := pid_path dir "store.adstore.rotate-" w in
    (let! _ := attempt (cli_remove temporary) in
     let! _ := attempt (cli_remove (marker_path temporary)) in
     let! _ := on_error (cli_storage (rekey_to store temporary passphrase)) (remove_output output) in
     let! _ := swap_stores dir temporary output in
     mut_ret passphrase) w.

Definition rotate (dir credentials : string) (output : option string) : Mut (World * K) string CliError :=
  let old_passphrase := trim credentials in
  if is_empty_str old_passphrase || negb (length (lines credentials) =? 1)%nat
  then mut_err (Usage "recovery rotate stdin must contain exactly one old passphrase; the replacement is generated")
  else
    let! taken := on_world (output_taken output) in
    if (taken : bool) then mut_err (Usage "--passphrase-output already exists; refusing overwrite")
    else
      let! passphrase := on_world (rewrap dir old_passphrase output) in
      let! keychain_notice := update_keychain dir passphrase in
      mut_ret ("database key rewrapped; existing records were preserved" +:+ nl
               +:+ match output with
                   | Some path => "passphrase file: " +:+ path
                   | None => "passphrase: " +:+ passphrase
                   end
               +:+ nl +:+ keychain_notice).

Definition recovery_command (args : list string) (passphrase : option string) (now : N)
  : Mut (World * K) string CliError :=
  let verb := args !! 1 in
  if bool_decide (verb = Some "export") then
    let! dir := mut_lift (data_dir args) in
    let! output := mut_lift (required args "--output" "recovery export requires --output") in
    on_world (export dir output now)
  else if bool_decide (verb = Some "import") then
    let! dir := mut_lift (data_dir args) in
    let! input := mut_lift (required args "--input" "recovery import requires --input") in
    on_world (import dir input)
  else if bool_decide (verb = Some "inspect") then
    let! input := mut_lift (required args "--input" "recovery inspect requires --input") in
    on_world (inspect input)
  else if bool_decide (verb = Some "rotate") then
    let! dir := mut_lift (data_dir args) in
    let! output := mut_lift (option_ args "--passphrase-output") in
    let! credentials :=
      mut_lift (ok_or passphrase (Usage "recovery rotate requires the old passphrase on stdin")) in
    rotate dir credentials output
  else mut_err (Usage "use recovery export --output PATH, recovery inspect --input PATH, recovery rotate, or recovery import --input PATH").
End commands.
