(* ===== verification/CliLaws.v ===== *)
(** * What the calls of a command do to the files

    A tree without symbolic links stays one. On such a tree a write of the command line that
    succeeds has put its contents in place, up to temporary files; and a store whose sealed file
    and marker lie at a path opens there with its passphrase. *)
From Stdlib Require Import Ascii NArith Lia ZifyBool ZifyN.
From stdpp Require Import base gmap strings list.
From S2P Require Import Prelude Text TextScan Collections Interfaces Paths Fs StoreFormat Storage RecordStore StorageLaws StorageProps Hoare Recovery Trust OsKeys Identity DeviceRegistry Http Cli CliProfile CliRecovery.

(** ** Trees without links *)

Definition no_links (files : gmap string Node) : Prop := ∀ p target, files !! p ≠ Some (Symlink target).
Definition linkless (w : World) : Prop := no_links (w_files w).

Lemma no_links_insert p b files : no_links files → no_links (<[p := RegularFile b]> files).
Proof. intros Hn q t. rewrite lookup_insert_Some. intros [[_ [=]]|[_ Hq]]. by apply Hn in Hq. Qed.
Lemma no_links_delete p files : no_links files → no_links (delete p files).
Proof. intros Hn q t. rewrite lookup_delete_Some. intros [_ Hq]. by apply Hn in Hq. Qed.
Lemma no_links_move from to node files :
  no_links files → files !! from = Some node → no_links (<[to := node]> (delete from files)).
Proof.
  intros Hn Hf q t. rewrite lookup_insert_Some, lookup_delete_Some. intros [[<- ->]|[_ [_ Hq]]]; [by apply Hn in Hf|by apply Hn in Hq].
Qed.
Lemma no_links_path files p : no_links files → resolve_path 40 files p = Some p.
Proof. intros Hn. by apply resolve_path_plain. Qed.
#[export] Hint Resolve no_links_insert no_links_delete no_links_move : rust.

(** The calls keep a tree free of links. *)
Definition call_ok_links {A} (call : World → World * A) : Prop := ∀ w, linkless w → linkless (call w).1.

Lemma next_fault_linkless w : linkless w → linkless (next_fault w).2.
Proof. unfold linkless. by rewrite next_fault_files. Qed.
Ltac fault_step :=
  match goal with
  | H : linkless ?w |- _ =>
    pose proof (next_fault_linkless w H); pose proof (next_fault_files w);
    destruct (next_fault w) as [[] ?]; cbn [fst snd] in *
  end.
Ltac linkless_call := intros w Hw; fault_step; repeat case_match; cbn [fst]; try done; unfold linkless in *; cbn [set_files w_files]; eauto with rust.

Lemma fs_call_links : call_ok_links fs_call.
Proof. unfold fs_call. linkless_call. Qed.
Lemma fs_read_links p : call_ok_links (fs_read p).
Proof. unfold fs_read. linkless_call. Qed.
Lemma fs_remove_links p : call_ok_links (fs_remove p).
Proof. unfold fs_remove. linkless_call. Qed.
Lemma fs_write_links p b : call_ok_links (fs_write p b).
Proof. unfold fs_write. linkless_call. Qed.
Lemma fs_rename_links p q : call_ok_links (fs_rename p q).
Proof. unfold fs_rename. linkless_call. Qed.
Lemma fs_create_new_links p : call_ok_links (fs_create_new p).
Proof. unfold fs_create_new. linkless_call. Qed.
Lemma fs_write_at_links p o b : call_ok_links (fs_write_at p o b).
Proof. unfold fs_write_at. linkless_call. Qed.
Lemma fs_create_dir_all_links p : call_ok_links (fs_create_dir_all p).
Proof. intros w Hw. unfold linkless. by rewrite fs_create_dir_all_files. Qed.
Lemma fs_open_dir_links p : call_ok_links (fs_open_dir p).
Proof. intros w Hw. unfold linkless. by rewrite fs_open_dir_files. Qed.
Lemma secure_random_links n : call_ok_links (secure_random n).
Proof. intros w Hw. unfold linkless. by rewrite secure_random_files. Qed.
#[export] Hint Resolve fs_call_links fs_read_links fs_remove_links fs_write_links fs_rename_links fs_create_new_links
  fs_write_at_links fs_create_dir_all_links fs_open_dir_links secure_random_links : hoare.

(** Steps made of such calls. *)
Lemma stable_call {A B E} (call : World → World * A) (f : A → result B E) :
  call_ok_links call → stable linkless (λ w, let '(w, a) := call w in (w, f a)).
Proof. intros Hc w Hw. specialize (Hc w Hw). destruct (call w) as [w' a]. cbn in *. by destruct (f a). Qed.
Lemma stable_world {A B E F} (m : Mut World A E) (f : result A E → result B F) :
  stable linkless m → stable linkless (λ w, let '(w, r) := m w in (w, f r)).
Proof.
  intros Hm w Hw. specialize (Hm w Hw). destruct (m w) as [w' [a|e]]; cbn;
    [destruct (f (Ok a))|destruct (f (Err e))]; done.
Qed.
Lemma stable_attempt {A} (m : Mut World A CliError) : stable linkless m → stable linkless (attempt m).
Proof. intros Hm w Hw. unfold attempt. by apply stable_fst. Qed.
Lemma stable_on_error m n : stable linkless m → stable linkless n → stable linkless (on_error m n).
Proof.
  intros Hm Hn w Hw. unfold on_error. specialize (Hm w Hw). destruct (m w) as [w' []]; [done|].
  by apply stable_fst.
Qed.
#[export] Hint Resolve stable_call stable_world stable_attempt stable_on_error : hoare.

Lemma io_links call : call_ok_links call → stable linkless (io call).
Proof. intros. unfold io. by apply (stable_call call (λ b, if (b : bool) then Ok tt else Err Io)). Qed.
Lemma cli_call_links call : call_ok_links call → stable linkless (cli_call call).
Proof. intros. unfold cli_call. by apply (stable_call call (λ b, if (b : bool) then Ok tt else Err CliIo)). Qed.
#[export] Hint Resolve io_links cli_call_links : hoare.

(** ** The operations of the store *)

Lemma fs_fault_links {A} (f : World → result A CliError) :
  stable linkless (λ w, let '(_, w) := next_fault w in (w, f w)).
Proof.
  intros w Hw. apply next_fault_linkless in Hw. destruct (next_fault w) as [? w']. cbn in *. by destruct (f w').
Qed.

Lemma atomic_write_links p b : stable linkless (atomic_write p b).
Proof.
  unfold atomic_write. apply stable_bind; [destruct (path_parent p); eauto with hoare|]. intros _ w Hw.
  pose proof (secure_random_links 8 w Hw) as H1. destruct (secure_random 8 w) as [w1 [suffix|]]; [|done].
  assert (stable linkless (write_and_rename p (temporary_path p (w_pid w1) suffix) b)) as Hs.
  { unfold write_and_rename. destruct (path_parent p); eauto 20 with hoare. }
  specialize (Hs w1 H1). destruct (write_and_rename _ _ _ w1) as [w2 [|e]]; [done|].
  cbn. by apply fs_remove_links.
Qed.
Lemma read_file_links p : stable linkless (read_file p).
Proof. unfold read_file. apply (stable_call (fs_read p)). auto with hoare. Qed.
Lemma read_optional_links p : stable linkless (read_optional p).
Proof. unfold read_optional. apply (stable_call (fs_read p)). auto with hoare. Qed.
Lemma remove_optional_links p : stable linkless (remove_optional p).
Proof. unfold remove_optional. apply (stable_call (fs_remove p)). auto with hoare. Qed.
Lemma read_marker_links p : stable linkless (read_marker p).
Proof. unfold read_marker. apply (stable_call (fs_read p)). auto with hoare. Qed.
Lemma ensure_private_links p : stable linkless (ensure_private_file p).
Proof.
  intros w Hw. unfold ensure_private_file. pose proof (next_fault_linkless w Hw) as H1.
  destruct (next_fault w) as [[] w1]; cbn in H1; [|done..]. destruct (w_files w1 !! p) as [[]|]; try done.
  pose proof (next_fault_linkless w1 H1) as H2. by destruct (next_fault w1) as [[] w2].
Qed.
Lemma random_links n : stable linkless (random_io n).
Proof. unfold random_io. apply (stable_call (secure_random n)). auto with hoare. Qed.
#[export] Hint Resolve atomic_write_links read_file_links read_optional_links remove_optional_links
  read_marker_links ensure_private_links random_links : hoare.

Section store.
Context `{Crypto}.

Lemma seal_links s n : stable linkless (seal s n).
Proof.
  intros w Hw. destruct (seal s n w) as [w' r] eqn:E. apply seal_files in E.
  unfold linkless. destruct r; by rewrite E.
Qed.
Lemma open_links path passphrase : stable linkless (open path passphrase).
Proof.
  unfold open, open_with_key, write_marker. repeat (apply stable_bind; [eauto with hoare|intros]).
  apply stable_if; [eauto with hoare|]. repeat (apply stable_bind; [eauto with hoare|intros]).
  apply stable_if; eauto with hoare.
Qed.
Lemma initialize_links path passphrase : stable linkless (initialize path passphrase).
Proof.
  unfold initialize, initialize_with_key. repeat (apply stable_bind; [eauto with hoare|intros]).
  apply stable_if; [eauto with hoare|]. intros w Hw.
  set (store := {| s_path := path |}).
  assert (stable linkless (persist store)) as Hp.
  { unfold persist, write_marker. repeat (apply stable_bind; [eauto using seal_links with hoare|intros]).
    intros w1 H1. pose proof (atomic_write_links (s_marker_path store) (as_bytes (u64_to_string (s_revision store))) w1 H1) as H2.
    destruct (atomic_write _ _ w1) as [w2 []]; [done|]. by apply fs_remove_links, fs_remove_links. }
  specialize (Hp w Hw). destruct (persist store w) as [w1 []]; [done|]. by apply fs_remove_links, fs_remove_links.
Qed.

(** The same with the store in memory beside the files. *)
Definition linkless_store (sw : EncryptedStore * World) : Prop := linkless sw.2.
Lemma lift_links {A} (m : Mut World A StorageError) : stable linkless m → stable linkless_store (lift_w m).
Proof. intros Hm [s w] Hw. specialize (Hm w Hw). cbn. destruct (m w) as [w' []]; done. Qed.
Lemma rollback_links s previous marker e : stable linkless (rollback s previous marker e).
Proof.
  intros w Hw. unfold rollback. pose proof (stable_fst _ _ _ (atomic_write_links (s_path s) previous) Hw) as H1.
  destruct (atomic_write (s_path s) previous w) as [w1 r1]. cbn in H1.
  assert (linkless (match marker with
                    | Some m => atomic_write (s_marker_path s) m w1
                    | None => remove_optional (s_marker_path s) w1
                    end).1) as H2 by (destruct marker; apply stable_fst; auto with hoare).
  destruct (match marker with Some _ => _ | None => _ end) as [w2 r2]. by destruct (_ || _).
Qed.
Lemma commit_links : stable linkless_store commit.
Proof.
  intros [s w] Hw. unfold commit. destruct (s_locked s); [done|]. destruct (MAX_RECORDS <? _)%N; [done|].
  destruct (u64_checked_add _ _) as [next|]; [|done].
  apply (stable_bind linkless_store); [by apply lift_links, seal_links| |done]. intros contents.
  repeat (apply stable_bind; [apply lift_links; eauto with hoare|intros]).
  intros [s1 w1] H1. pose proof (atomic_write_links (s_marker_path s1) (as_bytes (u64_to_string next)) w1 H1) as H2.
  unfold write_marker. destruct (atomic_write _ _ w1) as [w2 []]; [done|]. by apply lift_links; [apply rollback_links|].
Qed.
Lemma batch_links ms : stable linkless_store (apply_batch ms).
Proof.
  intros [s w] Hw. unfold apply_batch. destruct (s_locked s); [done|].
  destruct (apply_mutations ms (s_records s)) as [records []]; [|done].
  pose proof (commit_links (set_records records s, w) Hw) as H1. destruct (commit _) as [[s1 w1] []]; done.
Qed.
Lemma put_links c k v : stable linkless_store (put c k v).
Proof.
  intros [s w] Hw. unfold put. destruct (s_locked s); [done|]. destruct (validate_record_key k); [|done].
  destruct (MAX_VALUE_BYTES <? _)%N; [done|].
  pose proof (commit_links (set_records (<[(c, k):=v]> (s_records s)) s, w) Hw) as H1.
  destruct (commit _) as [[s1 w1] []]; done.
Qed.
Lemma rekey_links s path passphrase : stable linkless (rekey_to s path passphrase).
Proof.
  unfold rekey_to. apply stable_if; [eauto with hoare|]. apply stable_bind; [apply initialize_links|].
  intros t w Hw. pose proof (batch_links (map (λ p, Put p.1.1 p.1.2 p.2) (btree_iter (s_records s))) (t, w) Hw) as H1.
  destruct (apply_batch _ _) as [[t' w'] []]; done.
Qed.
End store.
#[export] Hint Resolve open_links initialize_links rekey_links : hoare.

(** ** Names in a directory *)

(** A name that is one component, and the path of a file with that name. *)
Definition component (name : string) : Prop := n_byte 47 ∉ as_bytes name ∧ name ≠ EmptyString ∧ name ≠ ".".

Lemma not_absolute name : component name → starts_with "/" name = false.
Proof.
  intros (H47 & _). destruct name as [|c name]; [done|]. unfold starts_with, starts_with_b. cbn.
  case_decide as E; [|done]. exfalso. apply H47. cbn. rewrite <-E. by left.
Qed.
(** Names go behind the same prefix. *)
Lemma path_join_prefix dir : ∃ pre, (pre = EmptyString ∨ ∃ r, pre = r +:+ "/") ∧
  ∀ name, component name → path_join dir name = pre +:+ name.
Proof.
  destruct (decide (dir = EmptyString)) as [->|Hd].
  { exists EmptyString. split; [by left|]. intros name Hn. unfold path_join. by rewrite not_absolute. }
  assert (is_empty_str dir = false) as He by (by destruct dir).
  destruct (last (as_bytes dir)) as [c|] eqn:El; [|by apply last_None in El; destruct dir].
  destruct (decide (c = n_byte 47)) as [->|Hc].
  - exists dir. split.
    + right. apply last_Some in El as [l El]. exists (of_bytes l). apply as_bytes_inj.
      by rewrite as_bytes_app, as_of_bytes.
    + intros name Hn. unfold path_join. rewrite not_absolute, He, El by done. by rewrite decide_True.
  - exists (dir +:+ "/"). split; [by right; exists dir|]. intros name Hn.
    unfold path_join. rewrite not_absolute, He, El, decide_False by done.
    apply as_bytes_inj. by rewrite !as_bytes_app, <-app_assoc.
Qed.
Lemma path_join_inj dir a b : component a → component b → path_join dir a = path_join dir b → a = b.
Proof.
  destruct (path_join_prefix dir) as (pre & _ & E). intros Ha Hb. rewrite !E by done. intros Hab.
  apply as_bytes_inj. apply (f_equal as_bytes) in Hab. rewrite !as_bytes_app in Hab. by simplify_list_eq.
Qed.
Lemma path_join_parts dir name : component name → ∃ before, path_parts (path_join dir name) = name :: before.
Proof.
  intros Hn. destruct (path_join_prefix dir) as (pre & Hpre & E). rewrite E by done.
  destruct Hn as (H47 & H0 & H1). destruct Hpre as [->|[r ->]].
  - exists []. change (EmptyString +:+ name) with name.
    rewrite <-(path_parts_join name []) by done. f_equal. unfold join. cbn. by rewrite of_as_bytes.
  - exists (rev (split 47 r)). rewrite <-(path_parts_join name (rev (split 47 r))); try done;
      [|apply List.Forall_rev, split_parts].
    f_equal. cbn [rev]. rewrite rev_involutive, join_snoc, join_split by apply split_nonempty.
    apply as_bytes_inj. by rewrite !as_bytes_app, <-app_assoc.
Qed.
Lemma path_join_marker dir name :
  component name → component (name +:+ ".revision") →
  marker_path (path_join dir name) = path_join dir (name +:+ ".revision").
Proof.
  destruct (path_join_prefix dir) as (pre & _ & E). intros Ha Hb. rewrite !E by done.
  apply as_bytes_inj. unfold marker_path. by rewrite !as_bytes_app, <-app_assoc.
Qed.

(** A name whose extension is not that of a temporary file. *)
Definition lasting_name (stem ext : string) : Prop :=
  component (stem +:+ "." +:+ ext) ∧ n_byte 46 ∉ as_bytes ext ∧ starts_with "tmp-" ext = false ∧
  (1 < slen stem + slen ext)%N.
Lemma path_join_lasting dir stem ext :
  lasting_name stem ext → lasting (path_join dir (stem +:+ "." +:+ ext)) = true.
Proof.
  intros (Hc & H46 & Ht & Hl). destruct (path_join_parts dir _ Hc) as [before E].
  unfold lasting, plain_path, is_temporary. rewrite E, rsplit_once_ext, Ht by done.
  rewrite andb_true_r. apply negb_true_iff, orb_false_iff.
  unfold slen in Hl. split; apply bool_decide_eq_false; intros Hd; apply (f_equal (λ s, length (as_bytes s))) in Hd;
    rewrite !as_bytes_app, !length_app, !length_as_bytes in Hd; cbn in Hd; lia.
Qed.

Lemma digits_clean c n : is_ascii_digit (n_byte c) = false → n_byte c ∉ as_bytes (u64_to_string n).
Proof. intros Hc. eapply forallb_not_elem; [apply u64_digits|done]. Qed.
Lemma component_app a b :
  n_byte 47 ∉ as_bytes a → n_byte 47 ∉ as_bytes b → (1 < slen a)%N → component (a +:+ b).
Proof.
  intros Ha Hb Hl. split; [by apply not_elem_of_string_app|]. unfold slen in Hl.
  split; intros E; apply (f_equal (λ s, length (as_bytes s))) in E;
    rewrite as_bytes_app, length_app, !length_as_bytes in E; cbn in E; lia.
Qed.
Ltac not_in := refine (bool_decide_unpack _ _); vm_compute; exact I.
Lemma pid_component a n : n_byte 47 ∉ as_bytes a → (1 < slen a)%N → component (a +:+ u64_to_string n).
Proof. intros. apply component_app; [done|by apply digits_clean|done]. Qed.
Lemma pid_lasting dir stem word n :
  n_byte 47 ∉ as_bytes stem → n_byte 47 ∉ as_bytes word → n_byte 46 ∉ as_bytes word →
  (∀ rest, starts_with "tmp-" (word +:+ rest) = false) → (1 < slen stem)%N →
  lasting (path_join dir (stem +:+ "." +:+ word +:+ u64_to_string n)) = true.
Proof.
  intros H1 H2 H3 H4 H5. apply path_join_lasting. split_and!; [| |done|unfold slen in *; lia].
  - apply component_app; [done| |done]. apply not_elem_of_string_app; [not_in|].
    apply not_elem_of_string_app; [done|by apply digits_clean].
  - apply not_elem_of_string_app; [done|by apply digits_clean].
Qed.

Lemma store_component : component STORE_FILE.
Proof. split; [not_in|done]. Qed.
Lemma revision_component : component REVISION_FILE.
Proof. split; [not_in|done]. Qed.
Lemma store_path_marker dir : marker_path (store_path dir) = revision_path dir.
Proof. apply (path_join_marker dir STORE_FILE); [apply store_component|apply revision_component]. Qed.
Lemma store_path_lasting dir : lasting (store_path dir) = true.
Proof. apply (path_join_lasting dir "store" "adstore"). split_and!; [apply store_component|not_in|done|done]. Qed.
Lemma revision_path_lasting dir : lasting (revision_path dir) = true.
Proof. rewrite <-store_path_marker. apply lasting_suffix. Qed.
#[export] Hint Resolve store_path_lasting revision_path_lasting : rust.

(** ** The calls of a command *)

Lemma cli_remove_links p : stable linkless (cli_remove p).
Proof. apply (stable_call (fs_remove p)). auto with hoare. Qed.
Lemma cli_read_links p : stable linkless (cli_read p).
Proof. apply (stable_call (fs_read p)). auto with hoare. Qed.
Lemma cli_read_text_links p : stable linkless (cli_read_text p).
Proof. apply (stable_world (cli_read p)), cli_read_links. Qed.
Lemma cli_storage_links {A} (m : Mut World A StorageError) : stable linkless m → stable linkless (cli_storage m).
Proof. intros. unfold cli_storage. by apply (stable_world m). Qed.
Lemma set_private_dir_links p : stable linkless (set_private_dir p).
Proof.
  unfold set_private_dir. apply stable_bind; [auto with hoare|]. intros _ w Hw.
  pose proof (cli_call_links fs_call ltac:(auto with hoare) w Hw) as Hc.
  by destruct (w_files w !! p) as [[]|].
Qed.
Lemma cli_atomic_write_links p b : stable linkless (cli_atomic_write p b).
Proof.
  intros w Hw. unfold cli_atomic_write. apply stable_on_error; [| |done]; [|eauto using cli_remove_links with hoare].
  repeat (apply stable_bind; [eauto with hoare|intros]). eauto with hoare.
Qed.
Lemma is_file_links p : stable linkless (fs_is_file p).
Proof.
  intros w Hw. unfold fs_is_file. pose proof (next_fault_linkless w Hw) as H1. by destruct (next_fault w).
Qed.
Lemma exists_links p : stable linkless (fs_exists p).
Proof.
  intros w Hw. unfold fs_exists. pose proof (next_fault_linkless w Hw) as H1. by destruct (next_fault w).
Qed.
Lemma draw_links n : stable linkless (draw n).
Proof. apply (stable_call (secure_random n) Ok). auto with hoare. Qed.
#[export] Hint Resolve cli_remove_links cli_read_links cli_read_text_links cli_storage_links set_private_dir_links
  cli_atomic_write_links is_file_links exists_links draw_links : hoare.

(** A write that succeeded has put its contents in place, up to temporary files. *)
Lemma cli_temporary_is p pid : plain_path p = true → is_temporary (cli_temporary p pid) = true.
Proof. intros. unfold cli_temporary. apply temporary_extension; [done|by apply digits_clean..]. Qed.
Lemma cli_write_ok p b w w' :
  linkless w → lasting p = true → cli_atomic_write p b w = (w', Ok tt) →
  w_files w' ≡ₜ <[p := RegularFile b]> (w_files w).
Proof.
  intros Hw [Hp _]%lasting_inv. unfold cli_atomic_write, on_error, mut_bind, cli_call.
  pose proof (cli_temporary_is p (w_pid w) Hp) as Ht. set (t := cli_temporary p (w_pid w)) in *.
  destruct (fs_write t b w) as [w1 []] eqn:E1; [|done].
  apply fs_write_ok in E1; [|exact (Hw t)].
  pose proof (fs_call_files w1) as F2. destruct (fs_call w1) as [w2 []]; [|done]. cbn in F2.
  destruct (fs_rename t p w2) as [w3 []] eqn:E3; [|done]. intros [= <-].
  apply fs_rename_ok in E3 as (node & Hn & ->). rewrite F2, E1 in *.
  rewrite lookup_insert_eq in Hn. injection Hn as <-.
  rewrite same_files_delete_temporary by done. by rewrite (same_files_insert_temporary t).
Qed.

(** ** A store at a path *)

Section stored.
Context `{HC : Crypto} {HL : CryptoLaws}.

Definition stored_at (path : string) (s : EncryptedStore) (files : gmap string Node) : Prop :=
  ∃ w0 w1 contents, seal s (s_revision s) w0 = (w1, Ok contents) ∧
    files !! path = Some (RegularFile contents) ∧
    files !! marker_path path = Some (RegularFile (as_bytes (u64_to_string (s_revision s)))).
(** The passphrase a store was made with. *)
Definition unlocks (passphrase : string) (s : EncryptedStore) : Prop :=
  validate_passphrase passphrase = Ok tt ∧ derive_key passphrase (s_salt s) = Ok (s_key s).

Lemma stored_at_same path s files files' :
  lasting path = true → files' ≡ₜ files → stored_at path s files → stored_at path s files'.
Proof using Type.
  intros [_ Hp]%lasting_inv E (w0 & w1 & c & Hs & H1 & H2). exists w0, w1, c.
  pose proof (lasting_inv _ (lasting_suffix path : lasting (marker_path path) = true)) as [_ Hm].
  by rewrite (E _ Hp), (E _ Hm).
Qed.

Lemma open_stored path passphrase s w :
  lasting path = true → store_wf s → s_locked s = false → stored_at path s (w_files w) →
  unlocks passphrase s → w_faults w = [] → open path passphrase w = (w, Ok (moved_to path s)).
Proof using HL.
  intros Hp Hwf Hl (w0 & w1 & c & Hs & Hc & Hm) [Hv Hk] Hf. pose proof (wf_revision s Hwf) as Hr.
  assert (store_wf (moved_to path s)) as Hwf' by (by destruct Hwf).
  destruct (open_sealed_file (moved_to path s) (s_revision s) w0 w1 c w Hwf' Hl Hr Hs Hf Hm)
    as (parsed & Hparse & Hsalt & Ho).
  unfold open, mut_bind, mut_lift. rewrite Hv, (ensure_private_file_ok _ _ _ Hf Hc). unfold read_file.
  rewrite (fs_read_ok _ _ _ Hf Hc), Hparse, Hsalt. cbn [moved_to s_salt]. rewrite Hk. exact Ho.
Qed.

Lemma commit_stored s w s' w' :
  store_wf s → commit (s, w) = ((s', w'), Ok tt) →
  s' = set_revision (s_revision s + 1) s ∧ store_wf s' ∧ stored_at (s_path s) s' (w_files w').
Proof using Type.
  intros Hwf Hc. pose proof (commit_ok_store _ _ _ Hc) as E. cbn in E.
  apply commit_spec in Hc; [|by auto with rust].
  inversion Hc as [next contents w1 ? Hl Hsz Hnext Hseal Hw' Hs' Hr| |]; subst.
  assert (Hle : (next ≤ u64_max)%N) by (unfold u64_checked_add in Hnext; case_match eqn:E'; simplify_eq; by apply N.leb_le).
  destruct (store_wf_paths s Hwf) as [Hne [_ Hp]%lasting_inv [_ Hm]%lasting_inv].
  split; [done|]. split; [by apply store_wf_revision|]. exists w, w1, contents. split; [done|].
  rewrite <-(wf_marker s Hwf), (Hw' _ Hp), (Hw' _ Hm), lookup_insert_eq.
  by rewrite lookup_insert_ne, lookup_insert_eq.
Qed.

Lemma initialize_stored path passphrase w w' s :
  lasting path = true → initialize path passphrase w = (w', Ok s) →
  s_path s = path ∧ s_records s = ∅ ∧ s_locked s = false ∧ store_wf s ∧ unlocks passphrase s ∧
  stored_at path s (w_files w').
Proof using Type.
  intros Hp. unfold initialize, mut_bind, mut_lift, random_io.
  destruct (validate_passphrase passphrase) as [[]|] eqn:Hv; [|done].
  destruct (secure_random SALT_BYTES w) as [w1 [salt|]] eqn:Hsalt; [|done].
  apply secure_random_length in Hsalt. cbn [ok_or].
  destruct (derive_key passphrase salt) as [key|] eqn:Hkey; [|done]. intros Hi.
  destruct (initialized_on_disk _ _ _ _ _ _ Hp Hsalt Hi) as (-> & Hwf & w2 & w3 & c & Hs & H1 & H2).
  split_and!; try done. by exists w2, w3, c.
Qed.

(** The records of a batch that puts the records of a map. *)
Lemma records_batch_puts (l : list (RecordClass * string * bytes)) (r : Records) :
  records_batch (map (λ p, Put p.1.1 p.1.2 p.2) l) r = list_to_map (rev l) ∪ r.
Proof using Type.
  revert r. induction l as [|[[c k] v] l IH]; intros r; cbn [map records_batch rev].
  - cbn [list_to_map foldr]. by rewrite map_empty_union.
  - rewrite IH, list_to_map_app, <-(assoc_L (∪)). f_equal. cbn [list_to_map foldr].
    rewrite <-insert_union_l. by rewrite map_empty_union.
Qed.
Lemma records_batch_copy (r : Records) :
  records_batch (map (λ p, Put p.1.1 p.1.2 p.2) (btree_iter r)) ∅ = r.
Proof using Type.
  rewrite records_batch_puts, map_union_empty.
  rewrite (list_to_map_proper (rev (btree_iter r)) (btree_iter r)); [apply btree_iter_to_map| |].
  - rewrite (fmap_Permutation fst _ (btree_iter r)); [apply NoDup_btree_keys|]. symmetry. apply Permutation_rev.
  - symmetry. apply Permutation_rev.
Qed.

(** A store that was opened has keys that are text. *)
Lemma decode_entries_utf8 (n : nat) (b rest : bytes) (r r' : Records) :
  (∀ k v, r !! k = Some v → utf8_valid (as_bytes k.2) = true) →
  decode_entries n b r = Ok (r', rest) → ∀ k v, r' !! k = Some v → utf8_valid (as_bytes k.2) = true.
Proof using Type.
  revert b r. induction n as [|n IH]; intros b r Hr; cbn [decode_entries]; [by intros [= <- <-]|].
  destruct (length b <? 7)%nat; [done|]. destruct (from_byte _) as [c|]; [|done]. cbn [result_bind].
  destruct (_ || _); [done|]. destruct (from_utf8 _) as [key|] eqn:Ek; [|done]. cbn [ok_or result_bind].
  destruct (validate_record_key key); [|done]. cbn [result_bind].
  destruct (r !! (c, key)); [done|]. apply IH. intros k v. rewrite lookup_insert_Some.
  intros [[<- _]|[_ Hk]]; [|by eapply Hr]. unfold from_utf8 in Ek. cbn.
  destruct (utf8_valid _) eqn:Hv; [|done]. injection Ek as <-. by rewrite as_of_bytes.
Qed.
Lemma open_utf8 path passphrase w w' s :
  open path passphrase w = (w', Ok s) →
  s_locked s = false ∧ ∀ k v, s_records s !! k = Some v → utf8_valid (as_bytes k.2) = true.
Proof using Type.
  unfold open, open_with_key, mut_bind, mut_lift.
  destruct (validate_passphrase passphrase); [|done].
  destruct (ensure_private_file path w) as [w1 []]; [|done].
  destruct (read_file path w1) as [w2 [c|]]; [|done]. destruct (parse_file c) as [parsed|]; [|done].
  destruct (derive_key _ _) as [key|]; [|done]. destruct (aes_new key) as [key'|]; [|done].
  destruct (ok_or _ _) as [pt|]; [|done]. destruct (decode_records pt) as [records|] eqn:Ed; [|done].
  assert (∀ k v, records !! k = Some v → utf8_valid (as_bytes k.2) = true) as Hu.
  { unfold decode_records in Ed. destruct (_ || _); [done|]. destruct (MAX_RECORDS <? _)%N; [done|].
    destruct (decode_entries _ _ _) as [[r rest]|] eqn:Ee; [|done]. cbn in Ed. destruct rest; [|done].
    injection Ed as <-. eapply decode_entries_utf8; [|exact Ee]. intros k v. by rewrite lookup_empty. }
  destruct (ensure_private_file _ w2) as [w3 []]; [|done].
  destruct (read_marker _ w3) as [w4 [m|]]; [|done]. destruct (match m with Some _ => _ | None => _ end); [done|].
  cbn [s_marker_path]. destruct (read_marker _ w4) as [w5 [m'|]]; [|done].
  destruct (match m' with Some _ => _ | None => _ end); [|by intros [= <- <-]].
  destruct (write_marker _ _ w5) as [w6 []]; [|done]. by intros [= <- <-].
Qed.

Lemma rekey_stored s path passphrase w w' :
  lasting path = true → (∀ k v, s_records s !! k = Some v → utf8_valid (as_bytes k.2) = true) →
  rekey_to s path passphrase w = (w', Ok tt) →
  ∃ t, stored_at path t (w_files w') ∧ store_wf t ∧ s_locked t = false ∧ unlocks passphrase t ∧
    s_records t = s_records s.
Proof using Type.
  intros Hp Hu. unfold rekey_to, mut_bind. destruct (s_locked s); [done|].
  destruct (initialize path passphrase w) as [w1 [t|]] eqn:Ei; [|done].
  apply initialize_stored in Ei as (<- & Hr & Hl & Hwf & Hun & _); [|done].
  destruct (apply_batch _ (t, w1)) as [[t' w2] [[]|]] eqn:Eb; [|done]. intros [= <-].
  apply batch_spec in Eb as (_ & _ & Hc & Ht). cbn in Ht. rewrite Hr, records_batch_copy in *.
  apply commit_stored in Hc as (_ & Hwf' & Hs); [|by apply store_wf_records]. subst t'.
  by exists (set_revision (s_revision t + 1) (set_records (s_records s) t)).
Qed.
End stored.

(** ** Moving the files of a store *)

Lemma attempt_remove p q w : q ≠ p → w_files (attempt (cli_remove p) w).1 !! q = w_files w !! q.
Proof.
  intros Hq. unfold attempt, cli_remove, fs_remove. pose proof (next_fault_files w) as Hf.
  destruct (next_fault w) as [[] w1]; cbn in Hf; rewrite <-Hf;
    destruct (w_files w1 !! p) as [[]|]; cbn; rewrite ?lookup_delete_ne by done; done.
Qed.
Lemma on_error_ok m cleanup w w' : on_error m cleanup w = (w', Ok tt) → m w = (w', Ok tt).
Proof. unfold on_error. by destruct (m w) as [w1 [[]|]]. Qed.
Lemma cli_rename_ok from to w w' :
  cli_call (fs_rename from to) w = (w', Ok tt) →
  ∃ node, w_files w !! from = Some node ∧ w_files w' = <[to := node]> (delete from (w_files w)).
Proof.
  unfold cli_call. destruct (fs_rename from to w) as [w1 []] eqn:E; [|done]. intros [= <-].
  by apply fs_rename_ok in E.
Qed.

(** A write of a command touches its target and temporary files only. *)
Lemma cli_write_frame p b w q :
  linkless w → plain_path p = true → is_temporary q = false → q ≠ p →
  w_files (cli_atomic_write p b w).1 !! q = w_files w !! q.
Proof.
  intros Hw Hp Hq Hqp. unfold cli_atomic_write, on_error, mut_bind, cli_call.
  pose proof (cli_temporary_is p (w_pid w) Hp) as Ht. set (t := cli_temporary p (w_pid w)) in *.
  assert (q ≠ t) as Hqt by congruence.
  assert (w_files (fs_write t b w).1 !! q = w_files w !! q) as F1.
  { unfold fs_write. pose proof (next_fault_files w) as Hf. destruct (next_fault w) as [f w1]. cbn in Hf.
    rewrite Hf, no_links_path by done.
    destruct f; destruct (w_files w !! t) as [[]|]; cbn; rewrite ?lookup_insert_ne by done; by rewrite ?Hf. }
  destruct (fs_write t b w) as [w1 []]; cbn in F1; [|rewrite <-F1; by apply (attempt_remove t)].
  pose proof (fs_call_files w1) as F2. destruct (fs_call w1) as [w2 []]; cbn in F2;
    [|rewrite <-F1, <-F2; by apply (attempt_remove t)].
  assert (w_files (fs_rename t p w2).1 !! q = w_files w2 !! q) as F3.
  { unfold fs_rename. pose proof (next_fault_files w2) as Hf. destruct (next_fault w2) as [f w3]. cbn in Hf.
    rewrite Hf. destruct (w_files w2 !! t) as [node|]; [|by cbn; rewrite Hf].
    destruct (w_files w2 !! p) as [[]|]; destruct f; cbn;
      rewrite ?lookup_insert_ne, ?lookup_delete_ne by done; by rewrite ?Hf. }
  rewrite <-F1, <-F2, <-F3. destruct (fs_rename t p w2) as [w3 []]; [done|]. by apply (attempt_remove t).
Qed.

(** ** A machine without failures *)

(** No call fails, and every file is a regular one. *)
Definition healthy (w : World) : Prop :=
  w_faults w = [] ∧ ∀ p node, w_files w !! p = Some node → ∃ b, node = RegularFile b.

Lemma healthy_linkless w : healthy w → linkless w.
Proof. intros [_ Hw] p t E. by apply Hw in E as [b ?]. Qed.
Lemma healthy_insert p b w : healthy w → healthy (set_files (<[p := RegularFile b]> (w_files w)) w).
Proof.
  intros [Hf Hw]. split; [done|]. cbn. intros q node. rewrite lookup_insert_Some.
  intros [[_ <-]|[_ ?]]; [by exists b|by eapply Hw].
Qed.
Lemma healthy_delete p w : healthy w → healthy (set_files (delete p (w_files w)) w).
Proof.
  intros [Hf Hw]. split; [done|]. cbn. intros q node. rewrite lookup_delete_Some. intros [_ ?]. by eapply Hw.
Qed.
Lemma healthy_fault w : healthy w → next_fault w = (NoFault, w).
Proof. intros [Hf _]. unfold next_fault. by rewrite Hf. Qed.

Lemma healthy_attempt_remove p w : healthy w → healthy (attempt (cli_remove p) w).1.
Proof.
  intros Hw. unfold attempt, cli_remove, fs_remove. rewrite healthy_fault by done.
  destruct (w_files w !! p) as [[]|] eqn:E; cbn; auto using healthy_delete.
Qed.
Lemma healthy_rename from to b w :
  healthy w → w_files w !! from = Some (RegularFile b) →
  ∃ w', cli_call (fs_rename from to) w = (w', Ok tt) ∧ healthy w'.
Proof.
  intros Hw Hb. unfold cli_call, fs_rename. rewrite healthy_fault, Hb by done.
  assert (healthy (set_files (<[to := RegularFile b]> (delete from (w_files w))) w)) as H'.
  { exact (healthy_insert to b (set_files (delete from (w_files w)) w) (healthy_delete from w Hw)). }
  destruct (w_files w !! to) as [node|] eqn:E; [|by eauto].
  destruct Hw as [_ Hw]. apply Hw in E as [x ->]. eauto.
Qed.
Lemma healthy_write p b w :
  healthy w → ∃ w', cli_atomic_write p b w = (w', Ok tt) ∧ healthy w'.
Proof.
  intros Hw. unfold cli_atomic_write. set (t := cli_temporary p (w_pid w)).
  set (w1 := set_files (<[t := RegularFile b]> (w_files w)) w).
  assert (healthy w1) as H1 by (by apply healthy_insert).
  assert (fs_write t b w = (w1, true)) as E1.
  { unfold fs_write. rewrite healthy_fault, no_links_path by (done || by apply healthy_linkless).
    destruct (w_files w !! t) as [node|] eqn:E; [|done]. destruct Hw as [_ Hw]. by apply Hw in E as [x ->]. }
  destruct (healthy_rename t p b w1 H1) as (w2 & E2 & H2); [cbn; apply lookup_insert_eq|].
  exists w2. split; [|done]. unfold on_error, mut_bind. unfold cli_call at 1. rewrite E1.
  unfold cli_call at 1, fs_call. rewrite healthy_fault by done. by rewrite E2.
Qed.

Lemma cli_read_ok p b w w' x :
  w_files w !! p = Some (RegularFile b) → cli_read p w = (w', Ok x) → x = b ∧ w_files w' = w_files w.
Proof.
  intros Hp. unfold cli_read. pose proof (fs_read_files p w) as F. unfold fs_read in *.
  destruct (next_fault w) as [f w1] eqn:E. pose proof (next_fault_files w) as Hf. rewrite E in Hf. cbn in Hf.
  destruct f; try done. rewrite Hf, (resolve_regular _ _ _ b Hp). cbn. intros [= <- <-]. by rewrite Hf.
Qed.
Lemma is_file_step p w : ∃ w' b, fs_is_file p w = (w', Ok b) ∧ w_files w' = w_files w.
Proof. unfold fs_is_file. pose proof (next_fault_files w). destruct (next_fault w). eauto. Qed.
Lemma exists_step p w : ∃ w' b, fs_exists p w = (w', Ok b) ∧ w_files w' = w_files w.
Proof. unfold fs_exists. pose proof (next_fault_files w). destruct (next_fault w). eauto. Qed.
Lemma entry_step p w : ∃ w' b, fs_entry_exists p w = (w', Ok b) ∧ w_files w' = w_files w.
Proof. unfold fs_entry_exists. pose proof (next_fault_files w). destruct (next_fault w). eauto. Qed.
