(* ===== verification/CliProps.v ===== *)
(** * What the commands keep

    A rotation keeps every record under the new passphrase; an export that is imported elsewhere
    opens to the same records; a new profile opens with the passphrase that was announced. *)
From Stdlib Require Import Ascii NArith Lia ZifyBool ZifyN.
From stdpp Require Import base gmap strings list.
From S2P Require Import Prelude Text TextScan Collections Interfaces Paths Fs StoreFormat Storage RecordStore StorageLaws StorageProps Hoare Recovery Trust OsKeys Model Identity DeviceRegistry DeviceLink Http Cli CliProfile CliRecovery CliLaws.

(** ** Names of one directory *)

Lemma marker_component a n :
  n_byte 47 ∉ as_bytes a → (1 < slen a)%N → component (a +:+ u64_to_string n +:+ ".revision").
Proof.
  intros. apply component_app; [done| |done]. apply not_elem_of_string_app; [by apply digits_clean|not_in].
Qed.
Lemma pid_marker dir stem w :
  n_byte 47 ∉ as_bytes stem → (1 < slen stem)%N →
  marker_path (pid_path dir stem w) = path_join dir (stem +:+ u64_to_string (w_pid w) +:+ ".revision").
Proof.
  intros H1 H2. unfold pid_path. destruct (path_join_prefix dir) as (pre & _ & E).
  rewrite (E _ (pid_component stem (w_pid w) H1 H2)), (E _ (marker_component stem (w_pid w) H1 H2)).
  apply as_bytes_inj. unfold marker_path. by rewrite !as_bytes_app, <-!app_assoc.
Qed.
Ltac a_component :=
  first [apply store_component | apply revision_component | apply pid_component; [not_in|done]
        | apply marker_component; [not_in|done] | split; [not_in|done]].
(** Two names of a directory that differ. *)
Ltac names_ne :=
  let E := fresh in
  rewrite ?pid_marker by (first [not_in|done]);
  intros E; apply path_join_inj in E; [discriminate E|a_component|a_component].

(** A lookup through updates of other files. *)
Ltac look_past H := repeat first [rewrite lookup_insert_ne in H by done | rewrite lookup_delete_ne in H by done].

Section rotation.
Context {K : Type} `{Keyring K} `{HC : Crypto} {HL : CryptoLaws}.

Lemma rotate_path_lasting dir w : lasting (pid_path dir "store.adstore.rotate-" w) = true.
Proof. by apply (pid_lasting dir "store.adstore" "rotate-"); [not_in..| |]. Qed.

Lemma rotation_names dir v w :
  let tmp := pid_path dir "store.adstore.rotate-" v in
  NoDup [store_path dir; revision_path dir; tmp; marker_path tmp; pid_path dir "store.adstore.old-" w;
         pid_path dir "store.adstore.revision.old-" w].
Proof.
  cbv zeta. repeat (apply NoDup_cons; split; [|]); [..|apply NoDup_nil_2];
    repeat (apply not_elem_of_cons; split); try apply not_elem_of_nil.
  all: try apply marker_path_ne.
  all: names_ne.
Qed.

Lemma swap_stores_ok dir output t v w w' :
  stored_at (pid_path dir "store.adstore.rotate-" v) t (w_files w) →
  swap_stores dir (pid_path dir "store.adstore.rotate-" v) output w = (w', Ok tt) →
  stored_at (store_path dir) t (w_files w').
Proof.
  intros (w0 & w1 & c & Hs & Hc & Hm). pose proof (rotation_names dir v w) as Hn. cbv zeta in Hn.
  unfold swap_stores. cbv zeta.
  set (tmp := pid_path dir "store.adstore.rotate-" v) in *.
  set (old := pid_path dir "store.adstore.old-" w) in *.
  set (old_rev := pid_path dir "store.adstore.revision.old-" w) in *.
  rewrite !NoDup_cons, !not_elem_of_cons in Hn. destruct_and!.
  unfold mut_bind at 1. destruct (on_error _ _ w) as [w2 [[]|]] eqn:E2; [|done].
  apply on_error_ok, cli_rename_ok in E2 as (n2 & _ & F2).
  unfold mut_bind at 1. destruct (on_error _ _ w2) as [w3 [[]|]] eqn:E3; [|done].
  apply on_error_ok, cli_rename_ok in E3 as (n3 & _ & F3).
  unfold mut_bind at 1. destruct (on_error _ _ w3) as [w4 [[]|]] eqn:E4; [|done].
  apply on_error_ok, cli_rename_ok in E4 as (n4 & L4 & F4).
  unfold mut_bind at 1. destruct (on_error _ _ w4) as [w5 [[]|]] eqn:E5; [|done].
  apply on_error_ok, cli_rename_ok in E5 as (n5 & L5 & F5).
  unfold mut_bind. destruct (attempt (cli_remove old) w5) as [w6 r6] eqn:E6.
  assert (r6 = Ok tt) as -> by (by injection E6). intros E7.
  assert (∀ q, q ≠ old → q ≠ old_rev → w_files w' !! q = w_files w5 !! q) as Hq.
  { intros q Hq1 Hq2. pose proof (attempt_remove old q w5 Hq1) as A1. pose proof (attempt_remove old_rev q w6 Hq2) as A2.
    rewrite E6 in A1. rewrite E7 in A2. cbn in A1, A2. congruence. }
  assert (n4 = RegularFile c) as ->.
  { rewrite F3, F2 in L4. look_past L4. congruence. }
  assert (n5 = RegularFile (as_bytes (u64_to_string (s_revision t)))) as ->.
  { rewrite F4, F3, F2 in L5. look_past L5. congruence. }
  exists w0, w1, c. split; [done|]. rewrite store_path_marker, !Hq, F5 by done.
  rewrite lookup_insert_eq, lookup_insert_ne, lookup_delete_ne, F4, lookup_insert_eq by done. done.
Qed.

Lemma open_store_links dir passphrase : stable linkless (open_store dir passphrase).
Proof.
  unfold open_store. apply stable_bind; [auto with hoare|]. intros there. apply stable_if; [apply stable_lift|].
  apply stable_bind; auto with hoare.
Qed.
Lemma open_store_ok dir passphrase w w' s :
  open_store dir passphrase w = (w', Ok s) →
  ∃ w0, w_files w0 = w_files w ∧ open (store_path dir) passphrase w0 = (w', Ok s).
Proof.
  unfold open_store, set_private_dir, mut_bind, fs_is_file, cli_call.
  pose proof (next_fault_files w) as F1. destruct (next_fault w) as [f w1]. cbn in F1.
  destruct (negb _); [done|]. pose proof (fs_call_files w1) as F2. destruct (fs_call w1) as [w2 []]; [|done].
  pose proof (fs_call_files w2) as F3. cbn in F2, F3.
  destruct (w_files w2 !! dir) as [[]|]; try done.
  all: destruct (fs_call w2) as [w3 []]; [|done]; cbn in F3; unfold cli_storage;
    destruct (open _ _ w3) as [w4 []] eqn:E; [|done]; intros [= <- <-]; exists w3; by rewrite F3, F2, F1.
Qed.
Lemma swap_links dir tmp output : stable linkless (swap_stores dir tmp output).
Proof.
  intros w Hw. unfold swap_stores. assert (stable linkless (remove_output output)) as Ho
    by (destruct output; cbn; auto with hoare).
  match goal with |- match ?m w with _ => _ end => cut (stable linkless m); [intros Hm; exact (Hm w Hw)|] end.
  repeat (apply stable_bind; [|intros]); repeat apply stable_on_error;
    repeat (apply stable_bind; [|intros]); auto with hoare.
Qed.
Lemma rewrap_links dir passphrase output : stable linkless (rewrap dir passphrase output).
Proof.
  assert (stable linkless (remove_output output)) as Ho by (destruct output; cbn; auto with hoare).
  unfold rewrap. apply stable_bind; [apply open_store_links|intros s].
  apply stable_bind; [unfold generate_passphrase; eauto with hoare|intros new].
  apply stable_bind; [destruct output; auto with hoare|intros _ w Hw].
  match goal with |- match ?m w with _ => _ end => cut (stable linkless m); [intros Hm; exact (Hm w Hw)|] end.
  repeat (apply stable_bind; [|intros]); auto using swap_links with hoare.
Qed.

(** The store that a passphrase opens in some files. *)
Definition opens_to (dir passphrase : string) (files : gmap string Node) (s : EncryptedStore) : Prop :=
  ∃ w0 w1, w_files w0 = files ∧ open (store_path dir) passphrase w0 = (w1, Ok s).

Lemma rewrap_ok dir old output w w' passphrase :
  rewrap dir old output w = (w', Ok passphrase) →
  ∃ s t, opens_to dir old (w_files w) s ∧ stored_at (store_path dir) t (w_files w') ∧ store_wf t ∧
    s_locked t = false ∧ unlocks passphrase t ∧ s_records t = s_records s.
Proof.
  unfold rewrap. unfold mut_bind at 1. destruct (open_store dir old w) as [w1 [s|]] eqn:E1; [|done].
  apply open_store_ok in E1 as (w0 & F0 & Ho). destruct (open_utf8 _ _ _ _ _ Ho) as [_ Hu].
  unfold mut_bind at 1. destruct (generate_passphrase w1) as [w2 [new|]]; [|done].
  unfold mut_bind at 1. destruct (match output with Some _ => _ | None => _ end) as [w3 [[]|]]; [|done].
  set (tmp := pid_path dir "store.adstore.rotate-" w3). unfold mut_bind at 1.
  destruct (attempt (cli_remove tmp) w3) as [w4 r4] eqn:E4. assert (r4 = Ok tt) as -> by (by injection E4).
  unfold mut_bind at 1. destruct (attempt (cli_remove (marker_path tmp)) w4) as [w5 r5] eqn:E5.
  assert (r5 = Ok tt) as -> by (by injection E5).
  unfold mut_bind at 1. destruct (on_error _ _ w5) as [w6 [[]|]] eqn:E6; [|done]. apply on_error_ok in E6.
  unfold cli_storage in E6. destruct (rekey_to s tmp new w5) as [w7 [[]|]] eqn:E7; [|done]. injection E6 as <-.
  unfold mut_bind. destruct (swap_stores dir tmp output w7) as [w8 [[]|]] eqn:E8; [|done]. intros [= <- <-].
  apply rekey_stored in E7 as (t & Ht & Hwf & Hl & Hun & Hr); [|apply rotate_path_lasting|done].
  exists s, t. split; [by exists w0, w1|]. split_and!; try done. by apply (swap_stores_ok dir output t w3 w7).
Qed.

(** Writing another file leaves the store alone. *)
Lemma write_keeps_store dir p b t w :
  linkless w → plain_path p = true → store_path dir ≠ p → revision_path dir ≠ p →
  stored_at (store_path dir) t (w_files w) →
  stored_at (store_path dir) t (w_files (cli_atomic_write p b w).1).
Proof.
  intros Hw Hp N1 N2 (w0 & w1 & c & Hs & Hc & Hm). exists w0, w1, c. split; [done|].
  pose proof (lasting_inv _ (store_path_lasting dir)) as [_ T1].
  pose proof (lasting_inv _ (revision_path_lasting dir)) as [_ T2]. rewrite store_path_marker in *.
  split; by rewrite cli_write_frame.
Qed.
Lemma keychain_path_plain dir : plain_path (profile_keychain_path dir) = true.
Proof.
  apply lasting_inv, (path_join_lasting dir "profile" "keychain"). split_and!; [|not_in|done|done].
  split; [not_in|done].
Qed.
Lemma profile_path_plain dir : plain_path (profile_id_path dir) = true.
Proof.
  apply lasting_inv, (path_join_lasting dir "profile" "id"). split_and!; [|not_in|done|done].
  split; [not_in|done].
Qed.

(** A rotation that succeeds keeps every record: the store opens with the new passphrase, which
    the command announces or has written to the file it was given, to the records the old
    passphrase opened. *)
Theorem cli_rotate_preserves dir credentials output w k w' k' text :
  linkless w → rotate dir credentials output (w, k) = ((w', k'), Ok text) →
  ∃ s passphrase notice, opens_to dir (trim credentials) (w_files w) s ∧
    text = "database key rewrapped; existing records were preserved" +:+ nl
           +:+ match output with
               | Some path => "passphrase file: " +:+ path
               | None => "passphrase: " +:+ passphrase
               end +:+ nl +:+ notice ∧
    ∀ v, w_files v = w_files w' → w_faults v = [] →
      ∃ s', open (store_path dir) passphrase v = (v, Ok s') ∧ s_records s' = s_records s.
Proof.
  intros Hw. unfold rotate. destruct (_ || _); [done|]. unfold mut_bind at 1.
  assert (∃ w1 b, on_world (output_taken output) (w, k) = ((w1, k), Ok b) ∧ w_files w1 = w_files w) as (w1 & b & -> & F1).
  { destruct output as [path|]; [|by exists w, false]. unfold on_world, output_taken, fs_exists.
    pose proof (next_fault_files w). destruct (next_fault w) as [f w1]. eauto. }
  destruct b; [done|]. unfold mut_bind at 1, on_world at 1.
  assert (linkless w1) as H1 by (unfold linkless; by rewrite F1).
  pose proof (rewrap_links dir (trim credentials) output w1 H1) as H2.
  destruct (rewrap dir (trim credentials) output w1) as [w2 [passphrase|]] eqn:Er; [|done].
  apply rewrap_ok in Er as (s & t & Hs & Ht & Hwf & Hl & Hun & Hrec). rewrite F1 in Hs.
  unfold mut_bind. destruct (update_keychain dir passphrase (w2, k)) as [[w3 k3] [notice|]] eqn:Eu; [|done].
  intros [= -> -> <-]. exists s, passphrase, notice. split; [done|]. split; [done|]. intros v Hv Hf.
  exists (moved_to (store_path dir) t). split; [|done]. apply open_stored; auto with rust. rewrite Hv.
  revert Eu. unfold update_keychain, on_world, cli_read_text, cli_read.
  pose proof (fs_read_files (profile_id_path dir) w2) as F3. destruct (fs_read (profile_id_path dir) w2) as [w4 r4].
  cbn in F3. assert (stored_at (store_path dir) t (w_files w4)) as Ht4 by (by rewrite F3).
  destruct (let? b := match r4 with ReadOk b => Ok b | _ => Err CliIo end in ok_or (from_utf8 b) CliIo) as [id|];
    [|by intros [= <- <- <-]].
  unfold mut_bind, on_keys. destruct (save_profile_passphrase _ _ k) as [k5 [[]|]]; [|by intros [= <- <- <-]].
  intros [= <- <- <-]. apply write_keeps_store; [|apply keychain_path_plain|names_ne|names_ne|done]. unfold linkless. by rewrite F3.
Qed.
End rotation.

(** ** Export and import *)

Section transfer.
Context `{HC : Crypto} {HL : CryptoLaws} `{HJ : JsonCodec RecoveryManifest} {HR : JsonRoundTrip RecoveryManifest}.

Lemma import_names dir w :
  NoDup [store_path dir; revision_path dir; pid_path dir "store.adstore.import-" w;
         pid_path dir "store.adstore.revision.import-" w].
Proof.
  repeat (apply NoDup_cons; split; [|]); [..|apply NoDup_nil_2];
    repeat (apply not_elem_of_cons; split); try apply not_elem_of_nil; names_ne.
Qed.
Lemma import_path_lasting dir w :
  lasting (pid_path dir "store.adstore.import-" w) = true ∧
  lasting (pid_path dir "store.adstore.revision.import-" w) = true.
Proof.
  split; [by apply (pid_lasting dir "store.adstore" "import-"); [not_in..| |]
         |by apply (pid_lasting dir "store.adstore.revision" "import-"); [not_in..| |]].
Qed.

Lemma place_files_ok dir store revision w w' :
  linkless w → place_files dir store revision w = (w', Ok tt) →
  w_files w' !! store_path dir = Some (RegularFile store) ∧
  w_files w' !! revision_path dir = Some (RegularFile revision).
Proof.
  intros Hw. pose proof (import_names dir w) as Hn. destruct (import_path_lasting dir w) as [L1 L2].
  unfold place_files. cbv zeta. set (ts := pid_path dir "store.adstore.import-" w) in *.
  set (tr := pid_path dir "store.adstore.revision.import-" w) in *.
  rewrite !NoDup_cons, !not_elem_of_cons in Hn. destruct_and!.
  assert (stable linkless (let! _ := attempt (cli_remove ts) in attempt (cli_remove tr))) as Hb
    by (apply stable_bind; auto with hoare).
  pose proof (stable_fst _ _ w Hb Hw) as K1. unfold mut_bind at 1.
  destruct ((let! _ := attempt (cli_remove ts) in attempt (cli_remove tr)) w) as [w1 [[]|]]; [|done]. cbn in K1.
  unfold mut_bind at 1. destruct (on_error _ _ w1) as [w2 [[]|]] eqn:E2; [|done]. apply on_error_ok in E2.
  pose proof (cli_atomic_write_links ts store w1 K1) as K2. rewrite E2 in K2. cbn in K2.
  apply cli_write_ok in E2; [|done..].
  unfold mut_bind at 1. destruct (on_error _ _ w2) as [w3 [[]|]] eqn:E3; [|done]. apply on_error_ok in E3.
  apply cli_write_ok in E3; [|done..]. rewrite E2 in E3.
  apply lasting_inv in L1 as [_ T1], L2 as [_ T2]. pose proof (E3 _ T1) as S3. pose proof (E3 _ T2) as R3.
  rewrite lookup_insert_eq in R3. rewrite lookup_insert_ne, lookup_insert_eq in S3 by done.
  unfold mut_bind at 1. destruct (on_error _ _ w3) as [w4 [[]|]] eqn:E4; [|done].
  apply on_error_ok, cli_rename_ok in E4 as (n4 & N4 & F4). intros E5.
  apply on_error_ok, cli_rename_ok in E5 as (n5 & N5 & F5).
  rewrite F5, F4, lookup_insert_eq. rewrite lookup_insert_ne, lookup_delete_ne, lookup_insert_eq by done.
  rewrite F4 in N5. look_past N5. split; congruence.
Qed.

Lemma on_error_done m cleanup w w' : m w = (w', Ok tt) → on_error m cleanup w = (w', Ok tt).
Proof. intros E. unfold on_error. by rewrite E. Qed.
Lemma place_files_healthy dir store revision w :
  healthy w → ∃ w', place_files dir store revision w = (w', Ok tt).
Proof.
  intros Hw. pose proof (import_names dir w) as Hn. destruct (import_path_lasting dir w) as [L1 L2].
  unfold place_files. cbv zeta. set (ts := pid_path dir "store.adstore.import-" w) in *.
  set (tr := pid_path dir "store.adstore.revision.import-" w) in *.
  rewrite !NoDup_cons, !not_elem_of_cons in Hn. destruct_and!.
  pose proof (lasting_inv _ L1) as [_ T1]. pose proof (lasting_inv _ L2) as [_ T2].
  set (w1 := (attempt (cli_remove tr) (attempt (cli_remove ts) w).1).1).
  assert (healthy w1) as K1 by (by do 2 apply healthy_attempt_remove).
  destruct (healthy_write ts store w1 K1) as (w2 & E2 & K2).
  destruct (healthy_write tr revision w2 K2) as (w3 & E3 & K3).
  pose proof (cli_write_ok _ _ _ _ (healthy_linkless _ K1) L1 E2) as F2.
  pose proof (cli_write_ok _ _ _ _ (healthy_linkless _ K2) L2 E3) as F3. rewrite F2 in F3.
  pose proof (F3 _ T1) as S3. pose proof (F3 _ T2) as R3. rewrite lookup_insert_eq in R3.
  rewrite lookup_insert_ne, lookup_insert_eq in S3 by done.
  destruct (healthy_rename ts (store_path dir) store w3 K3 S3) as (w4 & E4 & K4).
  destruct (cli_rename_ok _ _ _ _ E4) as (n4 & _ & F4).
  destruct (healthy_rename tr (revision_path dir) revision w4 K4) as (w5 & E5 & _).
  { rewrite F4, lookup_insert_ne, lookup_delete_ne by done. done. }
  exists w5. unfold mut_bind at 1.
  change ((let! _ := attempt (cli_remove ts) in attempt (cli_remove tr)) w) with (w1, Ok tt : result unit CliError).
  unfold mut_bind at 1. erewrite on_error_done by exact E2. unfold mut_bind at 1.
  erewrite on_error_done by exact E3. unfold mut_bind at 1. erewrite on_error_done by exact E4.
  by apply on_error_done.
Qed.

Lemma cli_blob_ok b o x : read_blob b o = Ok x → cli_read_blob b o = Some x.
Proof.
  unfold read_blob, cli_read_blob. destruct (u64_checked_add o 8) as [e|]; [|done]. cbn.
  destruct (blen b <? e)%N; [done|]. destruct (u64_checked_add e _) as [e'|]; [|done]. cbn.
  destruct (blen b <? e')%N; [done|]. by intros [= <-].
Qed.

Lemma sealed_length s n w w' c : store_wf s → seal s n w = (w', Ok c) → (32 ≤ blen c)%N.
Proof.
  intros Hwf (pt & nonce & ct & _ & Hnl & _ & Hct & ->)%seal_ok. apply aes_tag_length in Hct.
  unfold encode_file, blen. rewrite !length_app, (wf_salt s Hwf), Hnl, length_be_bytes.
  unfold SALT_BYTES, NONCE_BYTES. cbn [length]. lia.
Qed.

(** An artifact of a sealed store is taken apart again. *)
Lemma import_artifact manifest t store revision :
  json_to_vec (recovery_manifest t store revision) = Some manifest →
  (32 ≤ blen store)%N → blen revision ≠ 0%N → (blen (artifact manifest store revision) ≤ u64_max)%N →
  import_parts (artifact manifest store revision) = Ok (store, revision).
Proof.
  intros Hj Hs Hr Hb. destruct (artifact_blobs manifest store revision Hb) as (Hm & B1 & B2 & B3).
  apply cli_blob_ok in B1, B2, B3. unfold import_parts, read_manifest. rewrite Hm, B1. cbn [negb ok_or result_bind fst snd].
  rewrite (json_roundtrip _ _ Hj). cbn [ok_or result_bind recovery_manifest rm_schema_version].
  change (2 =? 2)%N with true. cbn [negb result_bind fst snd]. rewrite B2. cbn [ok_or result_bind fst snd].
  rewrite B3. cbn [ok_or result_bind fst snd rm_store_bytes rm_revision_bytes rm_store_sha256 rm_revision_sha256].
  rewrite !N.eqb_refl, !seqb_refl. replace (blen store <? 32)%N with false by lia.
  by replace (blen revision =? 0)%N with false by lia.
Qed.

Lemma export_ok s dir output now w w' text :
  stored_at (store_path dir) s (w_files w) → linkless w → lasting output = true →
  export dir output now w = (w', Ok text) →
  ∃ w0 w1 c manifest, seal s (s_revision s) w0 = (w1, Ok c) ∧
    json_to_vec (recovery_manifest now c (as_bytes (u64_to_string (s_revision s)))) = Some manifest ∧
    w_files w' !! output = Some (RegularFile (artifact manifest c (as_bytes (u64_to_string (s_revision s))))).
Proof.
  intros (w0 & w1 & c & Hs & Hc & Hm) Hw Ho. rewrite store_path_marker in Hm. unfold export.
  unfold mut_bind at 1. destruct (is_file_step (store_path dir) w) as (v1 & b1 & -> & F1).
  unfold mut_bind at 1. destruct b1; [|done]. destruct (is_file_step (revision_path dir) v1) as (v2 & b2 & -> & F2).
  unfold mut_bind at 1. destruct b2; [|done]. unfold mut_bind at 1.
  destruct (exists_step output v2) as (v3 & b3 & -> & F3). cbn [mut_ret]. destruct b3; [done|]. cbn [negb].
  assert (w_files v3 = w_files w) as F by congruence. rewrite <-F in Hc, Hm.
  unfold mut_bind at 1. destruct (cli_read (store_path dir) v3) as [v4 [x|]] eqn:E4; [|done].
  apply (cli_read_ok _ c) in E4 as [-> F4]; [|done]. rewrite <-F4 in Hm.
  unfold mut_bind at 1. destruct (cli_read (revision_path dir) v4) as [v5 [y|]] eqn:E5; [|done].
  eapply cli_read_ok in E5 as [-> F5]; [|exact Hm].
  unfold mut_bind at 1, mut_lift. destruct (json_to_vec _) as [manifest|] eqn:Ej; [|done]. cbn [ok_or].
  unfold mut_bind. destruct (cli_atomic_write output _ v5) as [v6 [[]|]] eqn:E6; [|done]. intros [= <- <-].
  apply cli_write_ok in E6; [|unfold linkless; by rewrite F5, F4, F|done].
  apply lasting_inv in Ho as [_ Ho]. exists w0, w1, c, manifest. split_and!; [done..|].
  rewrite (E6 _ Ho). apply lookup_insert_eq.
Qed.

#[local] Arguments place_files : simpl never.

(** What a profile exports another machine imports: an artifact of a store, once it is imported
    into a directory, opens there with the passphrase of the store to the same records at the
    same revision. On a machine where no call fails, importing into an empty directory succeeds. *)
Theorem cli_export_import s passphrase dir output now w w' text b :
  store_wf s → s_locked s = false → unlocks passphrase s → stored_at (store_path dir) s (w_files w) →
  linkless w → lasting output = true → export dir output now w = (w', Ok text) →
  w_files w' !! output = Some (RegularFile b) → (blen b ≤ u64_max)%N →
  ∀ dir2 input v, w_files v !! input = Some (RegularFile b) →
  (∀ v' text2, linkless v → import dir2 input v = (v', Ok text2) →
    ∀ u, w_files u = w_files v' → w_faults u = [] →
      open (store_path dir2) passphrase u = (u, Ok (moved_to (store_path dir2) s))) ∧
  (healthy v → w_files v !! dir2 = None →
   w_files v !! store_path dir2 = None → w_files v !! revision_path dir2 = None →
   ∃ v' text2, import dir2 input v = (v', Ok text2)).
Proof.
  intros Hwf Hl Hun Hst Hw Ho He Hb Hmax. pose proof (wf_revision s Hwf) as Hrev.
  destruct (export_ok _ _ _ _ _ _ _ Hst Hw Ho He) as (w0 & w1 & c & m & Hs & Hj & Hb').
  rewrite Hb in Hb'. injection Hb' as ->.
  assert (import_parts (artifact m c (as_bytes (u64_to_string (s_revision s))))
          = Ok (c, as_bytes (u64_to_string (s_revision s)))) as Hp.
  { eapply import_artifact; [exact Hj|by eapply sealed_length|by apply u64_to_string_nonempty|done]. }
  intros dir2 input v Hin. split.
  - intros v' text2 Hv. unfold import, mut_bind at 1.
    destruct (entry_step (store_path dir2) v) as (v1 & b1 & -> & F1). unfold mut_bind at 1. destruct b1; [done|].
    destruct (entry_step (revision_path dir2) v1) as (v2 & b2 & -> & F2). destruct b2; [done|].
    rewrite <-F1, <-F2 in Hin. unfold mut_bind at 1. destruct (cli_read input v2) as [v3 [x|]] eqn:E3; [|done].
    eapply cli_read_ok in E3 as [-> F3]; [|exact Hin]. unfold mut_bind at 1, mut_lift. rewrite Hp.
    unfold mut_bind at 1, cli_call. pose proof (fs_create_dir_all_files dir2 v3) as F4.
    destruct (fs_create_dir_all dir2 v3) as [v4 []]; [|done]. cbn in F4.
    assert (linkless v4) as Hv4 by (unfold linkless; by rewrite F4, F3, F2, F1).
    pose proof (set_private_dir_links dir2 v4 Hv4) as H5. unfold mut_bind at 1.
    destruct (set_private_dir dir2 v4) as [v5 [[]|]]; [|done]. unfold mut_bind.
    destruct (place_files _ _ _ v5) as [v6 [[]|]] eqn:E6; [|done]. intros [= <- <-] u Hu Hf.
    apply place_files_ok in E6 as [P1 P2]; [|done]. apply open_stored; auto with rust.
    exists w0, w1, c. rewrite store_path_marker, Hu. done.
  - intros Hv Hd H1 H2. pose proof (healthy_fault v Hv) as Hf. destruct (place_files_healthy dir2 c
      (as_bytes (u64_to_string (s_revision s))) v Hv) as (v' & E).
    assert (fs_read input v = (v, ReadOk (artifact m c (as_bytes (u64_to_string (s_revision s)))))) as Hr.
    { apply fs_read_ok; [by apply Hv|done]. }
    assert (cli_call fs_call v = (v, Ok tt)) as Hc by (unfold cli_call, fs_call; by rewrite Hf).
    assert (cli_call (fs_create_dir_all dir2) v = (v, Ok tt)) as Hm.
    { unfold cli_call, fs_create_dir_all, fs_call. destruct (is_empty_str dir2); [done|]. rewrite Hf.
      unfold resolve. by rewrite Hd. }
    unfold import, fs_entry_exists, cli_read, mut_lift, set_private_dir, mut_bind. rewrite Hf, H1. cbn.
    rewrite Hf, H2. cbn. rewrite Hr, Hp, Hm, Hc, Hd, Hc. cbn [fst snd]. rewrite E. eauto.
Qed.
End transfer.
