(* ===== verification/CliIdentity.v ===== *)
(** * The identity of a profile

    The record an identity is kept in decodes to it; a new profile opens with the passphrase it
    was announced with and holds an identity whose device its registry authorises; a display name
    from the browser is read as an option of the command line. *)
From Stdlib Require Import Ascii NArith Lia ZifyBool ZifyN.
From stdpp Require Import base gmap strings list.
From S2P Require Import Prelude Text TextScan Collections Interfaces Paths Fs StoreFormat Storage RecordStore StorageLaws StorageProps Hoare Recovery Trust OsKeys Model Identity DeviceRegistry DeviceLink Http Cli CliProfile CliRecovery CliLaws CliProps.

Section record.
Context `{HC : Crypto}.

(** A blob in the middle of a record. *)
Definition blob (v : bytes) : bytes := be_bytes 8 (blen v) ++ v.
Lemma blen_blob v : blen (blob v) = (8 + blen v)%N.
Proof. unfold blob. rewrite blen_app. unfold blen at 1. by rewrite length_be_bytes. Qed.
Lemma cli_blob_at pre v post :
  (blen (pre ++ blob v ++ post) ≤ u64_max)%N →
  cli_read_blob (pre ++ blob v ++ post) (blen pre) = Some (v, blen (pre ++ blob v)).
Proof.
  unfold blob at 1 2. intros Hb. rewrite <-!app_assoc in *. rewrite (cli_blob_ok _ _ _ (read_blob_middle pre v post Hb)).
  rewrite blen_app, blen_blob. do 2 f_equal. lia.
Qed.
Lemma four_blobs_of magic a b c d :
  blen magic = blen IDENTITY_RECORD_MAGIC → blen a = 32%N → blen b = 32%N →
  let r := append_blob (append_blob (append_blob (append_blob magic a) b) c) d in
  (blen r ≤ u64_max)%N → four_blobs r = Some (a, b, c, d).
Proof.
  intros Hm Ha Hb r Hr.
  assert (r = magic ++ blob a ++ blob b ++ blob c ++ blob d) as E.
  { unfold r, append_blob, blob. by rewrite <-!app_assoc. }
  assert (∀ pre v post, r = pre ++ blob v ++ post → cli_read_blob r (blen pre) = Some (v, blen (pre ++ blob v))) as Hat.
  { intros pre v post E'. rewrite E' in Hr |- *. by apply cli_blob_at. }
  unfold four_blobs. rewrite <-Hm, (Hat magic a _ E). cbn [mbind option_bind].
  rewrite (Hat (magic ++ blob a) b (blob c ++ blob d)) by (by rewrite <-app_assoc). cbn [mbind option_bind].
  rewrite (Hat ((magic ++ blob a) ++ blob b) c (blob d)) by (by rewrite <-!app_assoc). cbn [mbind option_bind].
  rewrite (Hat (((magic ++ blob a) ++ blob b) ++ blob c) d []) by (by rewrite app_nil_r, <-!app_assoc).
  cbn [mbind option_bind]. rewrite Ha, Hb, E, <-!app_assoc, N.eqb_refl. done.
Qed.

Lemma blen_32 (b : bytes) : length b = 32 → blen b = 32%N.
Proof. unfold blen. by intros ->. Qed.
Lemma identity_record_decodes root device profile :
  length (root_seed root) = 32 → length (di_seed device) = 32 →
  utf8_valid (as_bytes (dc_device_id (di_certificate device))) = true →
  utf8_valid (as_bytes (pi_display_name profile)) = true →
  (blen (encode_identity root device profile) ≤ u64_max)%N →
  decode_identity_summary (encode_identity root device profile)
  = Some {| is_root_seed := Some (root_seed root); is_device_seed := di_seed device;
            is_account_public_key := root_public_key root; is_account_id := root_account_id root;
            is_device_id := dc_device_id (di_certificate device); is_display_name := pi_display_name profile |}.
Proof.
  intros L1 L2 U1 U2 B. unfold decode_identity_summary.
  assert (starts_with_b IDENTITY_RECORD_MAGIC (encode_identity root device profile) = true) as ->.
  { unfold encode_identity, append_blob. rewrite <-!app_assoc. unfold starts_with_b. by rewrite strip_prefix_b_app. }
  unfold encode_identity in *. rewrite four_blobs_of by auto using blen_32.
  cbn [mbind option_bind]. unfold from_utf8. rewrite U1, U2. cbn [mbind option_bind].
  rewrite !of_as_bytes. by destruct root.
Qed.
Lemma linked_record_decodes account seed device_id name :
  length account = 32 → length seed = 32 →
  utf8_valid (as_bytes device_id) = true → utf8_valid (as_bytes name) = true →
  (blen (encode_linked_identity account seed device_id name) ≤ u64_max)%N →
  decode_identity_summary (encode_linked_identity account seed device_id name)
  = Some {| is_root_seed := None; is_device_seed := seed; is_account_public_key := account;
            is_account_id := account_id_from_public account; is_device_id := device_id; is_display_name := name |}.
Proof.
  intros L1 L2 U1 U2 B. unfold decode_identity_summary.
  assert (starts_with_b IDENTITY_RECORD_MAGIC (encode_linked_identity account seed device_id name) = false) as ->.
  { unfold encode_linked_identity, append_blob. by rewrite <-!app_assoc. }
  assert (starts_with_b LINKED_IDENTITY_RECORD_MAGIC (encode_linked_identity account seed device_id name) = true) as ->.
  { unfold encode_linked_identity, append_blob. rewrite <-!app_assoc. unfold starts_with_b. by rewrite strip_prefix_b_app. }
  cbn [negb]. unfold encode_linked_identity in *. rewrite four_blobs_of by auto using blen_32.
  cbn [mbind option_bind]. unfold from_utf8. rewrite U1, U2. cbn [mbind option_bind]. by rewrite !of_as_bytes.
Qed.
End record.

(** ** A new profile *)

Section new_profile.
Context {K : Type} `{Keyring K} `{HC : Crypto} {HL : CryptoLaws}.
Context `{HJ : JsonCodec RegistryWire} {HR : JsonRoundTrip RegistryWire}.

Definition first_certificate (root : AccountRootKey) (device_seed : bytes) : DeviceCertificate :=
  certificate_signed root "device-1" (ed_public device_seed) (replicate 32 Ascii.zero) 0 (u64_max - 1).

Lemma new_identity_ok name w w' root device profile :
  new_identity name w = (w', Ok (root, device, profile)) →
  w_files w' = w_files w ∧ length (root_seed root) = 32 ∧ length (di_seed device) = 32 ∧
  di_certificate device = first_certificate root (di_seed device) ∧
  pi_account_id profile = root_account_id root ∧ pi_display_name profile = name ∧ (slen name ≤ MAX_DISPLAY_NAME_BYTES)%N.
Proof.
  unfold new_identity, draw, mut_bind, mut_lift. pose proof (secure_random_files 32 w) as F1.
  destruct (secure_random 32 w) as [w1 o1]. cbn in F1. unfold generate, draw_key.
  destruct o1 as [seed|]; [|done]. destruct (length seed =? IDENTITY_KEY_BYTES)%nat eqn:L1; [|done]. cbn.
  pose proof (secure_random_files 32 w1) as F2. destruct (secure_random 32 w1) as [w2 o2]. cbn in F2.
  unfold issue_device. change (validate_device_id "device-1") with (Ok "device-1" : result string IdentityError). cbn.
  unfold draw_key. destruct o2 as [dseed|]; [|done]. destruct (length dseed =? IDENTITY_KEY_BYTES)%nat eqn:L2; [|done]. cbn.
  unfold profile_from_account. destruct (is_empty_str name || _ || _) eqn:En; [done|]. cbn.
  intros [= <- <- <- <-]. cbn. apply Nat.eqb_eq in L1, L2. bool_props. rewrite F2, F1. split_and!; try done. lia.
Qed.

Lemma first_registered root device_seed :
  ∃ g, register (first_certificate root device_seed) 0 (registry_new root) = (g, Ok tt) ∧ registry_inv g ∧
    dg_account_public_key g = root_public_key root ∧
    ∀ now, (now < u64_max - 1)%N → authorize g "device-1" now = Ok tt.
Proof.
  set (c := first_certificate root device_seed).
  assert (verify_signature c = Ok tt) as Hsig by (by apply certificate_signed_signature).
  assert (∀ now, (now < u64_max - 1)%N → certificate_verify c now = Ok tt) as Hv.
  { intros now Hn. rewrite certificate_verify_window by done. cbn [c first_certificate certificate_signed dc_issued_at dc_expires_at].
    replace (now <? 0)%N with false by lia. by replace (u64_max - 1 <=? now)%N with false by lia. }
  destruct (register c 0 (registry_new root)) as [g r] eqn:E. pose proof E as E'.
  unfold register in E. change (dc_account_public_key c) with (root_public_key root) in E.
  change (dg_account_public_key (registry_new root)) with (root_public_key root) in E.
  rewrite beqb_refl, Hv in E by done. cbn [negb] in E.
  change (dg_devices (registry_new root) !! dc_device_id c) with (None : option DeviceRecord) in E.
  injection E as Eg <-. exists g. split; [done|]. split.
  - change g with (g, Ok tt : result unit DeviceRegistryError).1. rewrite <-E'. apply registry_register_inv.
    + unfold sizes_ok. cbn. unfold root_public_key. rewrite !ed_public_length, ed_sign_length. done.
    + split; cbn; [apply ed_public_length|apply map_Forall_empty|lia|constructor].
  - rewrite <-Eg. split; [done|]. intros now Hn. unfold authorize. cbn [set_devices dg_devices].
    change "device-1" with (dc_device_id c). rewrite lookup_insert_eq.
    cbn [dv_state dv_certificate]. rewrite bool_decide_true by done. cbn [negb]. by rewrite Hv.
Qed.

Lemma create_store_links dir passphrase id : stable linkless (create_store dir passphrase id).
Proof.
  assert (∀ c k v s, stable linkless (on_store (put c k v) s)) as Hput.
  { intros c k v s w Hw. pose proof (put_links c k v (s, w) Hw) as Hp. unfold on_store.
    destruct (put c k v (s, w)) as [[s1 w1] []]; done. }
  unfold create_store. destruct id as [[root device] profile].
  repeat (apply stable_bind; [auto with hoare|intros]). apply stable_ret.
Qed.

Lemma on_store_put c k v s w w' s' :
  store_wf s → utf8_valid (as_bytes k) = true → on_store (put c k v) s w = (w', Ok s') →
  s_locked s' = false ∧ store_wf s' ∧ s_path s' = s_path s ∧ s_salt s' = s_salt s ∧ s_key s' = s_key s ∧
  s_records s' = <[(c, k) := v]> (s_records s) ∧ stored_at (s_path s) s' (w_files w').
Proof.
  intros Hwf Hk. unfold on_store. destruct (put c k v (s, w)) as [[t v'] [[]|]] eqn:E; [|done]. intros [= <- <-].
  pose proof (store_put_wf _ _ _ _ _ _ _ Hwf Hk E) as Hwf'. apply put_spec in E as (Hl & Hc & Ht). cbn in Ht, Hwf'.
  apply commit_stored in Hc as (_ & _ & Hs); [|subst t; destruct Hwf, Hwf'; by split]. by subst t.
Qed.

Lemma create_store_ok dir passphrase root device profile w w' :
  di_certificate device = first_certificate root (di_seed device) →
  create_store dir passphrase (root, device, profile) w = (w', Ok tt) →
  ∃ s registry encoded, stored_at (store_path dir) s (w_files w') ∧ store_wf s ∧ s_locked s = false ∧
    unlocks passphrase s ∧ get s AccountRoot "identity" = Some (encode_identity root device profile) ∧
    get s Device "registry" = Some encoded ∧ DeviceRegistry.encode registry = Ok encoded ∧ registry_inv registry ∧
    dg_account_public_key registry = root_public_key root ∧
    ∀ now, (now < u64_max - 1)%N → authorize registry "device-1" now = Ok tt.
Proof.
  intros Hc. unfold create_store. destruct (first_registered root (di_seed device)) as (g & Hg & Hinv & Ha & Hau).
  unfold mut_bind at 1, cli_storage at 1. destruct (initialize _ passphrase w) as [w1 [s0|]] eqn:E1; [|done].
  apply initialize_stored in E1 as (P0 & R0 & L0 & Wf0 & [V0 K0] & _); [|apply store_path_lasting]. cbn [map_err].
  unfold mut_bind at 1, mut_lift at 1. rewrite Hc, Hg. cbn [map_err result_bind].
  unfold mut_bind at 1. destruct (on_store _ s0 w1) as [w2 [s1|]] eqn:E2; [|done].
  apply on_store_put in E2 as (L1 & Wf1 & P1 & S1 & K1 & R1 & _); [|done|done].
  unfold mut_bind at 1, mut_lift at 1. destruct (DeviceRegistry.encode g) as [encoded|] eqn:Ee; [|done]. cbn [map_err].
  unfold mut_bind. destruct (on_store _ s1 w2) as [w3 [s2|]] eqn:E3; [|done]. intros [= <-].
  apply on_store_put in E3 as (L2 & Wf2 & P2 & S2 & K2 & R2 & St2); [|done|done].
  exists s2, g, encoded. rewrite P1, P0 in St2. split_and!; try done.
  - unfold unlocks. by rewrite S2, S1, K2, K1.
  - unfold get. rewrite L2, R2, R1, lookup_insert_ne by done. apply lookup_insert_eq.
  - unfold get. rewrite L2, R2. apply lookup_insert_eq.
Qed.

(** The size of a record of a new identity. *)
Lemma identity_record_size root device profile :
  length (root_seed root) = 32 → length (di_seed device) = 32 → dc_device_id (di_certificate device) = "device-1" →
  (slen (pi_display_name profile) ≤ MAX_DISPLAY_NAME_BYTES)%N →
  (blen (encode_identity root device profile) ≤ u64_max)%N.
Proof.
  intros L1 L2 Hid Hn. unfold encode_identity, append_blob, blen. rewrite Hid, !length_app, !length_be_bytes, L1, L2.
  rewrite !length_as_bytes. change (length IDENTITY_RECORD_MAGIC) with 13%nat. change (String.length "device-1") with 8%nat.
  unfold slen, MAX_DISPLAY_NAME_BYTES, u64_max in *. lia.
Qed.

Lemma enroll_keeps_store dir profile_id passphrase t w k w' k' notice :
  linkless w → stored_at (store_path dir) t (w_files w) →
  enroll dir profile_id passphrase (w, k) = ((w', k'), Ok notice) →
  stored_at (store_path dir) t (w_files w').
Proof.
  intros Hw Ht. unfold enroll, mut_bind at 1, on_keys.
  destruct (save_profile_passphrase profile_id passphrase k) as [k1 [[]|e]].
  - unfold mut_bind, on_world. pose proof (write_keeps_store dir (profile_keychain_path dir) V1 t w Hw
      (keychain_path_plain dir) ltac:(names_ne) ltac:(names_ne) Ht) as Hs.
    destruct (cli_atomic_write _ _ w) as [w1 [[]|]]; [|done]. by intros [= <- <- <-].
  - destruct e; by intros [= <- <- <-].
Qed.

(** The store [init] leaves on disk. *)
Lemma init_stored args dir name w k w' k' text :
  linkless w → data_dir args = Ok dir → option_ args "--display-name" = Ok (Some name) →
  option_ args "--passphrase-output" = Ok None → init args (w, k) = ((w', k'), Ok text) →
  ∃ passphrase notice root device profile s registry encoded,
    text = notice +:+ ("passphrase: " +:+ passphrase +:+ nl) +:+ "private key: encrypted in local daemon store" ∧
    stored_at (store_path dir) s (w_files w') ∧ store_wf s ∧ s_locked s = false ∧ unlocks passphrase s ∧
    length (root_seed root) = 32 ∧ length (di_seed device) = 32 ∧
    di_certificate device = first_certificate root (di_seed device) ∧
    pi_display_name profile = name ∧ (slen name ≤ MAX_DISPLAY_NAME_BYTES)%N ∧
    get s AccountRoot "identity" = Some (encode_identity root device profile) ∧
    get s Device "registry" = Some encoded ∧ DeviceRegistry.encode registry = Ok encoded ∧ registry_inv registry ∧
    dg_account_public_key registry = root_public_key root ∧
    ∀ now, (now < u64_max - 1)%N → authorize registry "device-1" now = Ok tt.
Proof.
  intros Hw Hd Hn Ho. unfold init, mut_lift. rewrite Hd. unfold mut_bind at 1. unfold required.
  rewrite Hn. cbn [result_bind ok_or]. unfold mut_bind at 1. rewrite Ho. unfold mut_bind at 1.
  unfold mut_bind at 1, on_world at 1. destruct (exists_step (store_path dir) w) as (w1 & b1 & -> & F1).
  destruct b1; [done|]. unfold mut_bind at 1, on_world at 1, output_taken, mut_ret at 1.
  unfold mut_bind at 1, on_world at 1, cli_call at 1.
  pose proof (fs_create_dir_all_files dir w1) as F2. destruct (fs_create_dir_all dir w1) as [w2 []]; [|done]. cbn in F2.
  assert (linkless w2) as H2 by (unfold linkless; by rewrite F2, F1).
  unfold mut_bind at 1, on_world at 1. pose proof (set_private_dir_links dir w2 H2) as H3.
  destruct (set_private_dir dir w2) as [w3 [[]|]]; [|done].
  unfold mut_bind at 1, on_world at 1. assert (stable linkless generate_passphrase) as Hg
    by (unfold generate_passphrase; eauto with hoare).
  specialize (Hg w3 H3). destruct (generate_passphrase w3) as [w4 [passphrase|]]; [|done].
  unfold mut_bind at 1, on_world at 1. destruct (new_identity name w4) as [w5 [[[root device] profile]|]] eqn:E5; [|done].
  apply new_identity_ok in E5 as (F5 & L1 & L2 & Hc & Hacc & Hname & Hlen).
  assert (linkless w5) as H5 by (unfold linkless; by rewrite F5).
  unfold mut_bind at 1, on_world at 1. pose proof (create_store_links dir passphrase (root, device, profile) w5 H5) as H6.
  destruct (create_store dir passphrase _ w5) as [w6 [[]|]] eqn:E6; [|done].
  apply create_store_ok in E6 as (s & g & encoded & St & Wf & Hl & Hun & Gi & Gr & Enc & Ginv & Ga & Gauth); [|done].
  unfold mut_bind at 1, on_world at 1.
  pose proof (write_keeps_store dir (profile_id_path dir) (as_bytes (pi_account_id profile +:+ nl)) s w6 H6
    (profile_path_plain dir) ltac:(names_ne) ltac:(names_ne) St) as St7.
  pose proof (cli_atomic_write_links (profile_id_path dir) (as_bytes (pi_account_id profile +:+ nl)) w6 H6) as H7.
  destruct (cli_atomic_write _ _ w6) as [w7 [[]|]]; [|done]. cbn [fst] in St7.
  unfold mut_bind at 1. destruct (enroll dir _ passphrase (w7, k)) as [[w8 k8] [notice|]] eqn:E8; [|done].
  apply (enroll_keeps_store _ _ _ s) in E8; [|done|done].
  unfold write_passphrase, mut_bind, mut_ret. intros [= <- <- <-].
  exists passphrase, ("profile initialized" +:+ nl +:+ "account_id: " +:+ pi_account_id profile +:+ nl
    +:+ "device_id: " +:+ dc_device_id (di_certificate device) +:+ nl +:+ notice), root, device, profile, s, g, encoded.
  split; [|done]. apply as_bytes_inj. by rewrite !as_bytes_app, <-!app_assoc.
Qed.

(** A profile that [init] made opens with the passphrase it printed. Its identity record has the
    display name that was asked for, and its registry belongs to the account of the record and
    authorises its device at any time but the last second. *)
Theorem cli_init_opens args dir name w k w' k' text :
  linkless w → data_dir args = Ok dir → option_ args "--display-name" = Ok (Some name) →
  option_ args "--passphrase-output" = Ok None → utf8_valid (as_bytes name) = true →
  init args (w, k) = ((w', k'), Ok text) →
  ∃ passphrase notice, text = notice +:+ ("passphrase: " +:+ passphrase +:+ nl) +:+ "private key: encrypted in local daemon store" ∧
  ∀ v, w_files v = w_files w' → w_faults v = [] →
    ∃ s record summary registry, open (store_path dir) passphrase v = (v, Ok s) ∧
      get s AccountRoot "identity" = Some record ∧ decode_identity_summary record = Some summary ∧
      is_display_name summary = name ∧ decode_registry s = Ok registry ∧
      dg_account_public_key registry = is_account_public_key summary ∧
      ∀ now, (now < u64_max - 1)%N → authorize registry (is_device_id summary) now = Ok tt.
Proof.
  intros Hw Hd Hn Ho Hu Hi.
  destruct (init_stored _ _ _ _ _ _ _ _ Hw Hd Hn Ho Hi) as (passphrase & notice & root & device & profile & s & g & encoded
    & Ht & St & Wf & Hl & Hun & L1 & L2 & Hc & Hname & Hlen & Gi & Gr & Enc & Ginv & Ga & Gauth).
  exists passphrase, notice. split; [done|]. intros v Hv Hf.
  assert (dc_device_id (di_certificate device) = "device-1") as Hid by (by rewrite Hc).
  exists (moved_to (store_path dir) s). do 2 eexists. exists g. rewrite <-Hv in St. split_and!.
  - by apply open_stored; [apply store_path_lasting|..].
  - exact Gi.
  - apply identity_record_decodes; [done|done|by rewrite Hid|by rewrite Hname|].
    apply identity_record_size; [done..|by rewrite Hname].
  - done.
  - unfold decode_registry. change (get (moved_to (store_path dir) s) Device "registry") with (get s Device "registry").
    rewrite Gr. cbn [ok_or result_bind]. by rewrite (registry_roundtrip g encoded Ginv Enc).
  - done.
  - cbn [is_device_id]. by rewrite Hid.
Qed.

(** A display name from the browser is an argument among the others: the name [--data-dir] is read
    as the option, and the profile is made in a directory of that name, wherever the daemon was
    told to keep it. *)
Theorem setup_name_is_read_as_option dir dir' (h : World * K) :
  dir ≠ "--passphrase-output" → dir' ≠ "--passphrase-output" →
  init_from_setup dir "--data-dir" h = init_from_setup dir' "--data-dir" h.
Proof.
  intros Hd Hd'.
  assert (∀ d, d ≠ "--passphrase-output" →
    option_ ["init"; "--display-name"; "--data-dir"; "--data-dir"; d] "--passphrase-output" = Ok None) as Hn.
  { intros d H'. unfold option_. cbn. unfold seqb. by rewrite ?bool_decide_eq_false_2. }
  unfold init_from_setup, init, wipe.
  change (data_dir ["init"; "--display-name"; "--data-dir"; "--data-dir"; dir])
    with (data_dir ["init"; "--display-name"; "--data-dir"; "--data-dir"; dir']).
  change (required ["init"; "--display-name"; "--data-dir"; "--data-dir"; dir] "--display-name")
    with (required ["init"; "--display-name"; "--data-dir"; "--data-dir"; dir'] "--display-name").
  by rewrite !Hn.
Qed.
End new_profile.
