(* ===== verification/CliPending.v ===== *)
(** * A staged recovery at the next start

    The live store of a profile is touched only after the staged one was opened with the
    passphrase and its identity was found valid; and a recovery that was applied has put the
    staged store in place. *)
From Stdlib Require Import Ascii NArith Lia ZifyBool ZifyN.
From stdpp Require Import base gmap strings list.
From S2P Require Import Prelude Text TextScan Collections Interfaces Paths Fs StoreFormat Storage RecordStore StorageLaws StorageProps Hoare Recovery Trust OsKeys Model Identity DeviceRegistry DeviceLink Http Cli CliProfile CliRecovery CliLaws CliProps.

Section pending.
Context `{HC : Crypto} `{HJ : JsonCodec RegistryWire} `{HM : JsonCodec RecoveryManifest}.

(** ** Opening the same contents elsewhere *)

Lemma open_elsewhere p q passphrase c m parsed w w' s v :
  w_files w !! p = Some (RegularFile c) → open p passphrase w = (w', Ok s) →
  w_faults v = [] → w_files v !! q = Some (RegularFile c) →
  w_files v !! marker_path q = Some (RegularFile m) → parse_file c = Ok parsed → marker_value m = Some (pf_revision parsed) →
  open q passphrase v = (v, Ok (moved_to q s)).
Proof.
  intros Hc Ho Hf Hq Hm Hparse Hv. revert Ho. unfold open, mut_bind, mut_lift.
  destruct (validate_passphrase passphrase) as [[]|]; [|done].
  pose proof (ensure_private_cases p w) as H1. destruct (ensure_private_file p w) as [w1 [b1|]]; [|done].
  destruct H1 as [F1 _]. pose proof (read_file_cases p w1) as H2.
  destruct (read_file p w1) as [w2 [x|]]; [|done]. destruct H2 as [F2 H2].
  destruct H2 as [(y & [= ->] & Hy)|?]; [|done]. rewrite F1, (resolve_regular _ _ _ c Hc) in Hy. injection Hy as ->.
  rewrite (ensure_private_file_ok _ _ _ Hf Hq). unfold read_file at 1. rewrite (fs_read_ok _ _ _ Hf Hq).
  rewrite Hparse. destruct (derive_key passphrase _) as [key|]; [|done].
  unfold open_with_key, mut_bind, mut_lift. destruct (aes_new key) as [key'|]; [|done].
  destruct (ok_or (aes_decrypt _ _ _ _) _) as [pt|]; [|done]. destruct (decode_records pt) as [records|]; [|done].
  destruct (ensure_private_file (marker_path p) w2) as [w3 [b3|]]; [|done].
  destruct (read_marker (marker_path p) w3) as [w4 [m4|]]; [|done].
  destruct (match m4 with Some _ => _ | None => _ end); [done|]. cbn [s_marker_path].
  destruct (read_marker (marker_path p) w4) as [w5 [m5|]]; [|done]. intros Hs.
  assert (s = {| s_path := p; s_marker_path := marker_path p; s_key := key'; s_salt := pf_salt parsed;
                 s_revision := pf_revision parsed; s_records := records; s_locked := false |}) as ->.
  { destruct (match m5 with Some _ => _ | None => _ end); [|by injection Hs].
    destruct (write_marker _ _ w5) as [w6 [[]|]]; [|done]. by injection Hs. }
  rewrite (ensure_private_file_ok _ _ _ Hf Hm). unfold read_marker. rewrite (fs_read_ok _ _ _ Hf Hm).
  unfold marker_value in Hv. destruct (from_utf8 m) as [text|] eqn:Et; [|done]. cbn in Hv. rewrite Hv. cbn [ok_or result_bind].
  rewrite N.ltb_irrefl. rewrite (fs_read_ok _ _ _ Hf Hm), Et, Hv. cbn [ok_or result_bind s_revision].
  rewrite N.ltb_irrefl. done.
Qed.

Lemma parsed_marker artifact store revision :
  parse_recovery_artifact artifact = Ok (store, revision) →
  ∃ parsed, parse_file store = Ok parsed ∧ marker_value revision = Some (pf_revision parsed).
Proof.
  unfold parse_recovery_artifact. destruct (_ || _); [done|]. destruct (read_blob artifact _) as [m|]; [|done].
  cbn [result_bind]. destruct (ok_or _ _) as [manifest|]; [|done]. cbn [result_bind].
  destruct (read_blob artifact m.2) as [st|]; [|done]. cbn [result_bind].
  destruct (read_blob artifact st.2) as [rev|]; [|done]. cbn [result_bind]. destruct (_ || _); [done|].
  destruct (parse_file st.1) as [parsed|] eqn:Ep; [|done]. cbn [result_bind].
  destruct (from_utf8 rev.1) as [text|] eqn:Eu; [|done]. cbn [ok_or result_bind].
  destruct (parse_u64 (trim text)) as [n|] eqn:En; [|done]. cbn [ok_or result_bind].
  destruct (_ =? n)%N eqn:Ee; [|done]. intros [= <- <-]. exists parsed. split; [done|].
  unfold marker_value. rewrite Eu. cbn. rewrite En. apply N.eqb_eq in Ee. by rewrite Ee.
Qed.

(** ** What the check of a candidate leaves alone *)

(** Some files are as in [files]. *)
Definition same_at (Q : string → Prop) (files : gmap string Node) (w : World) : Prop :=
  linkless w ∧ ∀ q, Q q → w_files w !! q = files !! q.

Lemma same_at_files Q files w w' : w_files w' = w_files w → same_at Q files w → same_at Q files w'.
Proof. unfold same_at, linkless. by intros ->. Qed.
Lemma same_write Q files p b :
  plain_path p = true → (∀ q, Q q → q ≠ p ∧ is_temporary q = false) → stable (same_at Q files) (cli_atomic_write p b).
Proof.
  intros Hp Hq w [Hw Hf]. pose proof (cli_atomic_write_links p b w Hw) as Hl.
  assert (∀ q, Q q → w_files (cli_atomic_write p b w).1 !! q = files !! q) as Hs.
  { intros q Hqq. destruct (Hq q Hqq). rewrite cli_write_frame by done. by apply Hf. }
  destruct (cli_atomic_write p b w) as [w' []]; by split.
Qed.
Lemma same_remove Q files p : (∀ q, Q q → q ≠ p) → stable (same_at Q files) (cli_remove p).
Proof.
  intros Hq w [Hw Hf]. pose proof (cli_remove_links p w Hw) as Hl.
  assert (∀ q, Q q → w_files (cli_remove p w).1 !! q = files !! q) as Hs.
  { intros q Hqq. pose proof (attempt_remove p q w (Hq q Hqq)) as E. unfold attempt in E. cbn [fst] in E.
    rewrite E. by apply Hf. }
  destruct (cli_remove p w) as [w' []]; by split.
Qed.
Lemma same_attempt Q files {A} (m : Mut World A CliError) :
  stable (same_at Q files) m → stable (same_at Q files) (attempt m).
Proof. intros Hm w Hw. unfold attempt. by apply (stable_fst _ m). Qed.
Lemma same_open Q files p passphrase :
  (∀ q, Q q → q ≠ marker_path p ∧ is_temporary q = false) → stable (same_at Q files) (open p passphrase).
Proof.
  intros Hq. assert (∀ x, stable (same_at Q files) (ensure_private_file x)) as H1.
  { intros x w Hw. pose proof (ensure_private_cases x w) as E. destruct (ensure_private_file x w) as [w' []];
      destruct E as [E _]; by apply (same_at_files _ _ w). }
  assert (∀ x, stable (same_at Q files) (read_marker x)) as H2.
  { intros x w Hw. pose proof (read_marker_cases x w) as E. destruct (read_marker x w) as [w' []];
      destruct E as [E _]; by apply (same_at_files _ _ w). }
  assert (∀ x, stable (same_at Q files) (read_file x)) as H3.
  { intros x w Hw. pose proof (read_file_cases x w) as E. destruct (read_file x w) as [w' []];
      destruct E as [E _]; by apply (same_at_files _ _ w). }
  assert (∀ b, stable (same_at Q files) (atomic_write (marker_path p) b)) as H4.
  { intros b w [Hw Hf]. pose proof (atomic_write_links (marker_path p) b w Hw) as Hl.
    pose proof (atomic_write_cases (marker_path p) b w (lasting_suffix p)) as E.
    assert (∀ q, Q q → w_files (atomic_write (marker_path p) b w).1 !! q = files !! q) as Hs.
    { intros q Hqq. destruct (Hq q Hqq) as [N T]. destruct (atomic_write (marker_path p) b w) as [w' r]. cbn.
      destruct E as [[_ E]|[_ E]]; rewrite (E q T); [|rewrite lookup_insert_ne by done]; by apply Hf. }
    destruct (atomic_write _ b w) as [w' []]; by split. }
  unfold open, open_with_key, write_marker.
  repeat first [apply H1 | apply H2 | apply H3 | apply H4 | apply stable_lift | apply stable_ret | apply stable_if | apply stable_bind; [|intros]].
Qed.

(** The paths of a profile and those of the check. *)
Definition live (dir q : string) : Prop := q = store_path dir ∨ q = revision_path dir.
Lemma live_not_check dir w q :
  live dir q → let p := pid_path dir "store.adstore.recovery-check-" w in
  q ≠ p ∧ q ≠ marker_path p ∧ is_temporary q = false.
Proof.
  intros Hq p. split_and!.
  - unfold p. destruct Hq as [->| ->]; names_ne.
  - unfold p. rewrite pid_marker by (first [not_in|done]). destruct Hq as [->| ->]; names_ne.
  - destruct Hq as [->| ->]; apply lasting_inv; auto with rust.
Qed.
Lemma check_path_lasting dir w : lasting (pid_path dir "store.adstore.recovery-check-" w) = true.
Proof. by apply (pid_lasting dir "store.adstore" "recovery-check-"); [not_in..| |]. Qed.

Lemma check_keeps_live dir passphrase now store revision files :
  stable (same_at (live dir) files) (check_candidate dir passphrase now store revision).
Proof.
  intros w Hw. unfold check_candidate. set (p := pid_path dir "store.adstore.recovery-check-" w).
  pose proof (live_not_check dir w) as Hq. cbv zeta in Hq. fold p in Hq.
  pose proof (lasting_inv _ (check_path_lasting dir w)) as [Hp _]. fold p in Hp.
  pose proof (lasting_inv _ (lasting_suffix p : lasting (marker_path p) = true)) as [Hm _].
  assert (stable (same_at (live dir) files) (cli_remove p)) as R1 by (apply same_remove; intros; by apply Hq).
  assert (stable (same_at (live dir) files) (cli_remove (marker_path p))) as R2 by (apply same_remove; intros; by apply Hq).
  match goal with |- match ?m w with _ => _ end => cut (stable (same_at (live dir) files) m); [intros Hc; exact (Hc w Hw)|] end.
  apply stable_bind; [apply same_write; [done|]; intros q Hl; by destruct (Hq q Hl) as (? & ? & ?)|intros _].
  apply stable_bind; [apply same_write; [done|]; intros q Hl; by destruct (Hq q Hl) as (? & ? & ?)|intros _].
  apply stable_bind; [|intros validation; repeat (apply stable_bind; [done|intros]); apply stable_lift].
  intros w1 H1. pose proof (same_open (live dir) files p passphrase) as Ho.
  specialize (Ho ltac:(intros q Hl; by destruct (Hq q Hl) as (? & ? & ?)) w1 H1).
  destruct (open p passphrase w1) as [w2 [s|e]]; [done|].
  apply (stable_fst (same_at (live dir) files) (let! _ := attempt (cli_remove p) in attempt (cli_remove (marker_path p))));
    [|done]. apply stable_bind; [|intros _]; by apply same_attempt.
Qed.

Lemma check_candidate_ok dir passphrase now store revision w w' :
  linkless w → check_candidate dir passphrase now store revision w = (w', Ok tt) →
  ∃ p v v' s, w_files v !! p = Some (RegularFile store) ∧ open p passphrase v = (v', Ok s) ∧
    validate_candidate s now = Ok tt.
Proof.
  intros Hw. unfold check_candidate. pose proof (check_path_lasting dir w) as Hp.
  set (p := pid_path dir "store.adstore.recovery-check-" w) in *.
  unfold mut_bind at 1. pose proof (cli_atomic_write_links p store w Hw) as H1.
  destruct (cli_atomic_write p store w) as [w1 [[]|]] eqn:E1; [|done]. apply cli_write_ok in E1; [|done..].
  unfold mut_bind at 1. destruct (cli_atomic_write (marker_path p) revision w1) as [w2 [[]|]] eqn:E2; [|done].
  apply cli_write_ok in E2; [|done|apply lasting_suffix]. rewrite E1 in E2.
  assert (w_files w2 !! p = Some (RegularFile store)) as F2.
  { apply lasting_inv in Hp as [_ Hp]. rewrite (E2 _ Hp), lookup_insert_ne, lookup_insert_eq; [done|].
    intros E. by apply (marker_path_ne p). }
  unfold mut_bind at 1. destruct (open p passphrase w2) as [w3 [s|]] eqn:E3; [|done].
  unfold mut_bind. destruct (cli_remove p w3) as [w4 [[]|]]; [|done].
  destruct (cli_remove (marker_path p) w4) as [w5 [[]|]]; [|done]. cbn [mut_lift]. intros [= _ Hv].
  by exists p, w2, w3, s.
Qed.

(** ** Installing a candidate *)

Lemma move_aside_links a b c d : stable linkless (move_aside a b c d).
Proof.
  unfold move_aside. apply stable_bind; [auto with hoare|intros x].
  apply stable_bind; [destruct x; auto with hoare|intros y]. apply stable_if; [by intros w Hw|].
  apply stable_bind; [auto with hoare|intros z]. apply stable_bind; [destruct z; auto with hoare|intros _].
  apply stable_bind; [auto with hoare|intros t]. apply stable_bind; [|auto with hoare].
  apply stable_on_error; [destruct t|destruct z]; auto with hoare.
Qed.

Lemma install_ok dir store revision w w' :
  linkless w → install dir store revision w = (w', Ok tt) →
  w_files w' !! store_path dir = Some (RegularFile store) ∧
  w_files w' !! revision_path dir = Some (RegularFile revision).
Proof.
  intros Hw. unfold install. cbv zeta. set (old := pid_path dir "store.adstore.before-recovery-" w).
  set (old_rev := pid_path dir "store.adstore.revision.before-recovery-" w).
  assert (store_path dir ≠ revision_path dir) as N0 by names_ne.
  assert (store_path dir ≠ old ∧ store_path dir ≠ old_rev) as [N1 N2] by (split; unfold old, old_rev; names_ne).
  assert (revision_path dir ≠ old ∧ revision_path dir ≠ old_rev) as [N3 N4] by (split; unfold old, old_rev; names_ne).
  pose proof (move_aside_links (store_path dir) (revision_path dir) old old_rev w Hw) as H1. unfold mut_bind at 1.
  destruct (move_aside _ _ old old_rev w) as [w1 [moved|]]; [|done].
  unfold mut_bind at 1. destruct (on_error _ _ w1) as [w2 [[]|]] eqn:E2; [|done]. apply on_error_ok in E2.
  unfold mut_bind in E2. pose proof (cli_atomic_write_links (store_path dir) store w1 H1) as H2.
  destruct (cli_atomic_write (store_path dir) store w1) as [w3 [[]|]] eqn:E3; [|done].
  apply cli_write_ok in E3; [|done|auto with rust]. apply cli_write_ok in E2; [|done|auto with rust]. rewrite E3 in E2.
  unfold mut_bind. destruct (attempt (cli_remove old) w2) as [w4 r4] eqn:E4. assert (r4 = Ok tt) as -> by (by injection E4).
  intros E5. pose proof (lasting_inv _ (store_path_lasting dir)) as [_ T1].
  pose proof (lasting_inv _ (revision_path_lasting dir)) as [_ T2].
  assert (∀ q, q ≠ old → q ≠ old_rev → w_files w' !! q = w_files w2 !! q) as Hq.
  { intros q Q1 Q2. pose proof (attempt_remove old q w2 Q1) as A1. pose proof (attempt_remove old_rev q w4 Q2) as A2.
    rewrite E4 in A1. rewrite E5 in A2. cbn in A1, A2. congruence. }
  rewrite !Hq, (E2 _ T1), (E2 _ T2), lookup_insert_eq by done. by rewrite lookup_insert_ne, lookup_insert_eq.
Qed.

Lemma pending_path_ne dir : store_path dir ≠ recovery_pending_path (store_path dir) ∧
  revision_path dir ≠ recovery_pending_path (store_path dir).
Proof.
  destruct (path_join_parts dir STORE_FILE store_component) as [before E].
  destruct (path_join_parts dir REVISION_FILE revision_component) as [before' E'].
  assert (path_parts (recovery_pending_path (store_path dir)) = "store.recovery.pending" :: before) as Ep.
  { unfold recovery_pending_path, with_extension, store_path. rewrite E.
    change (seqb STORE_FILE ".." || seqb STORE_FILE ".") with false.
    change (file_stem STORE_FILE +:+ "." +:+ "recovery.pending") with "store.recovery.pending".
    apply path_parts_join; [not_in| |done|done]. pose proof (path_parts_clean (path_join dir STORE_FILE)) as Hc.
    rewrite E in Hc. by apply Forall_cons in Hc as [_ ?]. }
  split; intros Heq; rewrite <-Heq in Ep; unfold store_path, revision_path in Ep; by rewrite ?E, ?E' in Ep.
Qed.
Lemma cli_remove_gone p w w' :
  cli_remove p w = (w', Ok tt) → w_files w' = delete p (w_files w).
Proof.
  unfold cli_remove, fs_remove. pose proof (next_fault_files w) as F. destruct (next_fault w) as [f w1]. cbn in F.
  rewrite F. destruct f; destruct (w_files w !! p) as [[]|]; try done; by intros [= <-].
Qed.

Lemma resolve_linkless fuel files p n : no_links files → resolve fuel files p = Some n → files !! p = Some n.
Proof.
  intros Hn. destruct fuel as [|fuel]; unfold resolve; fold resolve;
    destruct (files !! p) as [[]|] eqn:E; try done; by apply Hn in E.
Qed.
Lemma cli_read_cases p w : linkless w → w_files (cli_read p w).1 = w_files w ∧
  ∀ x, (cli_read p w).2 = Ok x → w_files w !! p = Some (RegularFile x).
Proof.
  intros Hw. unfold cli_read, fs_read. pose proof (next_fault_files w) as F. destruct (next_fault w) as [f w1]. cbn in F.
  destruct f; cbn; try done. rewrite F. split; [by destruct (resolve 40 (w_files w) p) as [[]|]|]. intros x.
  destruct (resolve 40 (w_files w) p) as [[]|] eqn:E; try done. intros [= ->]. by apply (resolve_linkless 40).
Qed.

Lemma installed dir store revision w w' :
  linkless w →
  (let! _ := install dir store revision in cli_remove (recovery_pending_path (store_path dir))) w = (w', Ok tt) →
  w_files w' !! store_path dir = Some (RegularFile store) ∧
  w_files w' !! revision_path dir = Some (RegularFile revision) ∧
  w_files w' !! recovery_pending_path (store_path dir) = None.
Proof.
  intros Hw. unfold mut_bind. destruct (install dir store revision w) as [w1 [[]|]] eqn:E1; [|done].
  apply install_ok in E1 as [H1 H2]; [|done]. intros E2%cli_remove_gone. destruct (pending_path_ne dir) as [N1 N2].
  rewrite E2, lookup_delete_eq, !lookup_delete_ne by done. done.
Qed.

(** The live store and its marker change only after the staged store was opened with the
    passphrase of the profile, its identity record decoded and the registry found to authorise
    its device, whatever calls fail; and a recovery that succeeded then left that store in place,
    which opens with the same passphrase to the same records, and nothing staged. *)
Theorem cli_recovery_is_guarded dir passphrase now w w' r :
  linkless w → apply_pending_recovery dir passphrase now w = (w', r) →
  (∀ q, live dir q → w_files w' !! q = w_files w !! q) ∨
  ∃ artifact store revision p v v' s,
    w_files w !! recovery_pending_path (store_path dir) = Some (RegularFile artifact) ∧
    parse_recovery_artifact artifact = Ok (store, revision) ∧
    w_files v !! p = Some (RegularFile store) ∧ open p passphrase v = (v', Ok s) ∧ validate_candidate s now = Ok tt ∧
    (r = Ok tt → w_files w' !! recovery_pending_path (store_path dir) = None ∧
      ∀ u, w_files u = w_files w' → w_faults u = [] →
        open (store_path dir) passphrase u = (u, Ok (moved_to (store_path dir) s))).
Proof.
  intros Hw. unfold apply_pending_recovery. set (pending := recovery_pending_path (store_path dir)).
  unfold mut_bind at 1. destruct (is_file_step pending w) as (w1 & b1 & -> & F1).
  destruct b1; cbn [negb]; [|intros [= <- <-]; left; by rewrite F1].
  unfold mut_bind at 1. destruct (cli_read pending w1) as [w2 o] eqn:E2.
  assert (w_files w2 = w_files w ∧ ∀ x, o = Ok x → w_files w !! pending = Some (RegularFile x)) as [F2 Hx].
  { destruct (cli_read_cases pending w1) as [F Hr]; [by unfold linkless; rewrite F1|].
    rewrite E2, F1 in *. split; [done|]. intros x ->. by apply Hr. }
  destruct o as [artifact|e]; [|intros [= <- <-]; left; by rewrite F2]. specialize (Hx _ eq_refl).
  unfold mut_bind at 1, mut_lift. destruct (parse_recovery_artifact artifact) as [[store revision]|] eqn:Ep;
    cbn [map_err]; [|intros [= <- <-]; left; by rewrite F2].
  assert (linkless w2) as H2 by (unfold linkless; by rewrite F2).
  unfold mut_bind at 1. cbn [fst snd].
  pose proof (check_keeps_live dir passphrase now store revision (w_files w2) w2 (conj H2 (λ _ _, eq_refl))) as Hc.
  destruct (check_candidate dir passphrase now store revision w2) as [w3 [[]|e]] eqn:E3.
  - intros Hi. right. pose proof E3 as E4. apply check_candidate_ok in E4 as (p & v & v' & s & Hv & Ho & Hval); [|done].
    exists artifact, store, revision, p, v, v', s. do 5 (split; [done|]). intros ->.
    apply installed in Hi as (Hs & Hr & Hp); [|by apply Hc]. split; [done|]. intros u Fu Hu.
    destruct (parsed_marker _ _ _ Ep) as (parsed & Hparsed & Hm).
    apply (open_elsewhere p _ _ store revision parsed v v'); try done; rewrite Fu; [done|].
    by rewrite store_path_marker.
  - intros [= <- <-]. left. intros q Hq. rewrite <-F2. by apply Hc.
Qed.
End pending.
