(* ===== verification/CliServe.v ===== *)
(** * Starting and stopping the daemon ([apps/daemon/src/cli.rs])

    The lock of a running instance, the state [serve] restores before it listens, the commands
    that look at the lock, and the doctor. What [ps] and [kill] answer is an argument, and so are
    the two loops that listen. *)
From Stdlib Require Import Ascii NArith Lia ZifyBool ZifyN.
From stdpp Require Import base gmap strings list.
From S2P Require Import Prelude Text TextScan Collections Interfaces Model Paths Fs StoreFormat Storage RecordStore StorageLaws Recovery DeliveryLedger Bridge Identity DeviceRegistry Trust Invite Pairing Contacts Attachment DeviceLink DeviceAuthority OsKeys MlsProvider Http RelayClient MlsSession Authority Server Cli CliProfile CliRecovery.

(** [str::ends_with]. *)
Definition ends_with (p s : string) : bool := starts_with_b (rev (as_bytes p)) (rev (as_bytes s)).

(** ** Processes *)

(** What the commands [kill -0 PID], [ps -p PID -o command=] and [kill -TERM PID] answer: whether
    the first succeeds, the output of the second if it succeeds, and whether the third succeeds if
    it could be run. *)
Record Processes := {
  ps_alive : N → bool;
  ps_command : N → option bytes;
  ps_terminate : N → option bool;
}.

Definition process_is_alive (ps : Processes) (pid : N) : bool :=
  if (pid <=? 1)%N then false else ps_alive ps pid.
Definition process_command (ps : Processes) (pid : N) : option string :=
  output ← ps_command ps pid;
  let command := trim (from_utf8_lossy output) in
  if is_empty_str command then None else Some command.
Definition process_is_daemon (ps : Processes) (pid : N) : bool :=
  match process_command ps pid with
  | None => false
  | Some command =>
    match split_whitespace command with
    | executable :: _ => ends_with "another-dimension-daemon" executable
    | [] => false
    end
  end.

(** [str::parse::<u32>()]. *)
Definition parse_u32 (s : string) : option N :=
  n ← parse_u64 s; if (n <=? u32_max)%N then Some n else None.
Definition lock_path (dir : string) : string := path_join dir "daemon.lock".
Definition pid_of_lock (contents : string) : option N :=
  rest ← strip_prefix "pid=" contents;
  line ← head (lines rest);
  parse_u32 (trim line).
Definition lock_pid (path : string) : Mut World (option N) CliError :=
  λ w, let '(w, r) := cli_read_text path w in (w, Ok (result_ok r ≫= pid_of_lock)).

(** ** The lock of an instance *)

Inductive Opened := LockCreated | LockThere | LockFailed.
(** [OpenOptions::new().write(true).create_new(true)] and the kind of its error. *)
Definition create_lock (path : string) : Mut World Opened CliError :=
  λ w,
    let there := match w_faults w with
                 | [] | NoFault :: _ => bool_decide (is_Some (w_files w !! path))
                 | _ => false
                 end in
    let '(w, created) := fs_create_new path w in
    (w, Ok (if (created : bool) then LockCreated else if (there : bool) then LockThere else LockFailed)).

(** [writeln!(file, "pid={}", ...)]: one write for each piece. *)
Definition write_lock (path : string) : Mut World unit CliError :=
  λ w,
    let pid := u64_to_string (w_pid w) in
    (let! _ := cli_call (fs_write_at path 0 (as_bytes "pid=")) in
     let! _ := cli_call (fs_write_at path 4 (as_bytes pid)) in
     cli_call (fs_write_at path (4 + slen pid) (as_bytes nl))) w.

Definition acquire_lock (ps : Processes) (dir : string) : Mut World unit CliError :=
  let path := lock_path dir in
  let! _ := cli_call (fs_create_dir_all dir) in
  let! first := create_lock path in
  match first with
  | LockCreated => write_lock path
  | LockFailed => mut_err CliIo
  | LockThere =>
    let! o := lock_pid path in
    match o with
    | None => mut_err (Usage "daemon.lock exists but has no valid PID; inspect it before removal")
    | Some pid =>
      if process_is_daemon ps pid
      then mut_err (Usage ("daemon is already running with PID " +:+ u64_to_string pid))
      else if process_is_alive ps pid
      then mut_err (Usage ("daemon.lock PID " +:+ u64_to_string pid
                           +:+ " belongs to another process; inspect it before removal"))
      else
        let! _ := cli_remove path in
        let! second := create_lock path in
        match second with
        | LockCreated => write_lock path
        | _ => mut_err CliIo
        end
    end
  end.

(** [Drop for InstanceLock]. *)
Definition release_lock (dir : string) : Mut World unit CliError := attempt (cli_remove (lock_path dir)).
(** The lock is held while the command runs, and released however it ends. *)
Definition with_lock {A} (ps : Processes) (dir : string) (m : Mut World A CliError) : Mut World A CliError :=
  let! _ := acquire_lock ps dir in
  λ w, let '(w, r) := m w in ((release_lock dir w).1, r).

(** ** Looking at the lock *)

Definition status (ps : Processes) (args : list string) : Mut World string CliError :=
  let! dir := mut_lift (data_dir args) in
  let! pid := lock_pid (lock_path dir) in
  let running := match pid with Some p => process_is_daemon ps p | None => false end in
  let! locked := fs_is_file (lock_path dir) in
  let stale := locked && negb running in
  let! stored := fs_is_file (store_path dir) in
  let! locked := fs_is_file (lock_path dir) in
  mut_ret ("daemon status: " +:+ (if running then "running" else if stale then "stale lock" else "stopped") +:+ nl
           +:+ "data directory: " +:+ dir +:+ nl
           +:+ "store: " +:+ (if (stored : bool) then "present" else "missing") +:+ nl
           +:+ "lock file: " +:+ (if (locked : bool) then "present" else "absent")
           +:+ from_option (λ p, nl +:+ "lock PID: " +:+ u64_to_string p) EmptyString pid).

Definition stop (ps : Processes) (args : list string) : Mut World string CliError :=
  let! dir := mut_lift (data_dir args) in
  let! o := lock_pid (lock_path dir) in
  match o with
  | None => mut_ret "daemon is not running; no valid lock file found"
  | Some pid =>
    if negb (process_is_alive ps pid) then
      let! _ := cli_remove (lock_path dir) in
      mut_ret "removed stale daemon lock; no process was running"
    else if negb (process_is_daemon ps pid)
    then mut_err (Usage ("daemon.lock PID " +:+ u64_to_string pid
                         +:+ " belongs to another process; refusing to send TERM"))
    else
      match ps_terminate ps pid with
      | None => mut_err CliIo
      | Some false => mut_err (Usage ("could not stop daemon PID " +:+ u64_to_string pid))
      | Some true =>
        mut_ret ("stop signal sent to daemon PID " +:+ u64_to_string pid
                 +:+ "; wait for daemon.lock to disappear")
      end
  end.

(** ** What [serve] starts with *)

(** [Path::exists] and [Path::is_dir]. The directories that files lie in have no nodes in the
    world; [dirs] says which of them are there. *)
Definition fs_dir_exists (dirs : string → bool) (path : string) : Mut World bool CliError :=
  λ w, let '(f, w) := next_fault w in
    (w, Ok match f, resolve_path 40 (w_files w) path with
           | NoFault, Some target => match w_files w !! target with Some _ => true | None => dirs target end
           | _, _ => false
           end).
Definition fs_is_dir (dirs : string → bool) (path : string) : Mut World bool CliError :=
  λ w, let '(f, w) := next_fault w in
    (w, Ok match f, resolve_path 40 (w_files w) path with
           | NoFault, Some target =>
             match w_files w !! target with Some Directory => true | Some _ => false | None => dirs target end
           | _, _ => false
           end).

(** [option(args, name)?.map(parse).transpose()] with a message of its own. *)
Definition parsed {A} (parse : string → option A) (message : string) (args : list string) (name : string)
  : result (option A) CliError :=
  let? o := option_ args name in
  match o with
  | None => Ok None
  | Some value => let? a := ok_or (parse value) (Usage message) in Ok (Some a)
  end.
Definition KEY_MESSAGE (name : string) : string := name +:+ " must be 32-byte lowercase hex".
Definition parse_pin (value : string) : option TlsCertificatePin := result_ok (parse value).
Definition PIN_MESSAGE : string := "--relay-tls-pin must use sha256:<64-hex>".

(** The port, the bridge configuration and the directory of the client. *)
Definition listen_arguments (dirs : string → bool) (args : list string) (port_zero loopback : string)
  : Mut World (BridgeConfig * string) CliError :=
  let! o := mut_lift (parsed parse_u16 "--port must be a valid port" args "--port") in
  let port := default 1420%N o in
  if (port =? 0)%N then mut_err (Usage port_zero)
  else
    let! config :=
      mut_lift (map_err (λ _, Usage loopback)
        (config_new (V4 127 0 0 1) port ("http://127.0.0.1:" +:+ u64_to_string port) "web-v1")) in
    let! o := mut_lift (option_ args "--ui-dir") in
    let ui_dir := default "apps/web/dist" o in
    let! there := fs_is_dir dirs ui_dir in
    if negb there then mut_err (Usage ("UI directory does not exist: " +:+ ui_dir))
    else mut_ret (config, ui_dir).

(** A public key and the fingerprint it was announced with. *)
Definition fingerprint_agrees `{Crypto} (key : option bytes) (fingerprint : option string) : bool :=
  match key, fingerprint with
  | Some k, Some f => seqb f (of_bytes (hex_b (sha256 k)))
  | _, _ => true
  end.
Definition both_or_none {A B} (a : option A) (b : option B) : bool :=
  eqb (bool_decide (is_Some a)) (bool_decide (is_Some b)).

Section serve.
Context {K : Type} `{Keyring K}.
Context `{OpenMls, Crypto, UriParser}.
Context `{JsonCodec RegistryWire, JsonCodec RecoveryManifest, JsonCodec SessionSnapshot}.
Context `{JsonCodec PairingSnapshot, JsonCodec DirectorySnapshot, JsonCodec AttachmentDescriptor}.
Context `{JsonCodec (gmap string DeliveryRecord)}.
Context (dirs : string → bool).

(** A store with the world it lives in. *)
Abbreviation Profile := (EncryptedStore * World)%type.
Definition on_profile {A} (m : Mut World A CliError) : Mut Profile A CliError :=
  λ '(s, w), let '(w, r) := m w in ((s, w), r).

(** The profile of a device that may act: a staged recovery is applied first. *)
Definition unlock_profile (dir passphrase : string) (now : N)
  : Mut World (EncryptedStore * IdentitySummary * DeviceRegistry) CliError :=
  let! _ := apply_pending_recovery dir passphrase now in
  let! store := open_store dir passphrase in
  let! record := mut_lift (ok_or (get store AccountRoot "identity") NotInitialized) in
  let! summary := mut_lift (ok_or (decode_identity_summary record) (CliStorage CorruptStore)) in
  let! registry := mut_lift (decode_registry store) in
  if negb (beqb (dg_account_public_key registry) (is_account_public_key summary))
  then mut_err (CliStorage CorruptStore)
  else
    let! _ :=
      mut_lift (map_err (λ e, match e with
        | DeviceNotActive => Usage "current device is revoked; identity-bearing operations require a fresh profile or a re-registered device"
        | e => registry_error e
        end) (DeviceRegistry.authorize registry (is_device_id summary) now)) in
    mut_ret (store, summary, registry).

(** The relay of the command line: its origin, the inbox and what is known of it. The pin is
    remembered in the store. *)
Definition relay_arguments (args : list string)
  : Mut Profile (string * option string * RelayBinding) CliError :=
  let! o := mut_lift (option_ args "--relay-origin") in
  let relay_origin := default EmptyString o in
  let retrust := flag args "--relay-tls-retrust" in
  let! inbox_url := mut_lift (option_ args "--inbox-url") in
  if match inbox_url with
     | Some url => is_empty_str relay_origin || negb (starts_with (relay_origin +:+ "/api/v1/inbox/") url)
     | None => false
     end
  then mut_err (Usage "--inbox-url must belong to --relay-origin and use /api/v1/inbox/<capability>")
  else
    let! public_key := mut_lift (parsed parse_hex_key (KEY_MESSAGE "--relay-public-key") args "--relay-public-key") in
    let! pin := mut_lift (parsed parse_pin PIN_MESSAGE args "--relay-tls-pin") in
    let! pin := resolve_relay_tls_pin relay_origin pin retrust in
    if starts_with "https://" relay_origin && negb (bool_decide (is_Some pin))
    then mut_err (Usage "HTTPS relay requires --relay-tls-pin or a previously trusted pin")
    else
      let! fingerprint := mut_lift (option_ args "--relay-public-key-fingerprint") in
      let! manifest := mut_lift (option_ args "--relay-trust-manifest") in
      let! bootstrap :=
        mut_lift (parsed parse_hex_key (KEY_MESSAGE "--relay-trust-bootstrap-key") args "--relay-trust-bootstrap-key") in
      if negb (both_or_none manifest bootstrap)
      then mut_err (Usage "--relay-trust-manifest and --relay-trust-bootstrap-key must be supplied together")
      else if negb (both_or_none public_key fingerprint)
      then mut_err (Usage "--relay-public-key and --relay-public-key-fingerprint must be supplied together")
      else if negb (fingerprint_agrees public_key fingerprint)
      then mut_err (Usage "relay public key fingerprint mismatch; refuse to start")
      else
        let! trust :=
          match manifest, bootstrap with
          | Some path, Some key =>
            on_profile (λ w, let '(w, r) := from_manifest path key w in
              (w, let? t := map_err (λ _, Usage "relay trust manifest is invalid or not signed by the supplied bootstrap key") r in
                  Ok (Some t)))
          | _, _ => mut_ret None
          end in
        mut_ret (relay_origin, inbox_url, {| rb_public_key := public_key; rb_tls_pin := pin; rb_trust := trust |}).

(** The account behind the routes, as it was when the store was last written. *)
Definition restore_authority (summary : IdentitySummary) (registry : DeviceRegistry)
    (relay : string * option string * RelayBinding) (p : Profile) : result InviteAuthority CliError :=
  let '(origin, inbox_url, binding) := relay in
  let authority :=
    match is_root_seed summary with
    | Some seed => authority_new (from_seed seed) (is_device_id summary) origin inbox_url binding
    | None => new_rootless (is_account_public_key summary) (is_device_id summary) origin inbox_url binding
    end in
  let authority := set_issuer (set_device_registry registry (au_issuer authority)) authority in
  let corrupt {A E} (r : result A E) : result A CliError := map_err (λ _, CliStorage CorruptStore) r in
  let '(authority, r) := restore_pairing p authority in
  let? _ := corrupt r in
  let '(authority, r) := restore_contacts p authority in
  let? _ := corrupt r in
  let '(attachments, r) := restore_received_attachments p (au_attachments authority) in
  let? _ := corrupt r in
  Ok (set_attachments attachments authority).

(** The server before it listens. *)
Record Started := {
  sd_state : AppState Profile;
  sd_ui_dir : string;
  sd_url : string;
}.

(** Everything [serve] does under the lock, up to the state [serve_forever] makes. *)
Definition start_server (args : list string) (dir passphrase : string) (seed now : N) : Mut World Started CliError :=
  let! listen := listen_arguments dirs args
      "--port 0 is not supported; choose a fixed loopback port so the one-time UI URL remains usable"
      "serve requires a loopback port" in
  let! unlocked := unlock_profile dir passphrase now in
  let '(store, summary, registry) := unlocked in
  λ w,
    let '(catalog, r) := restore_all seed (store, w) (catalog_new_with_device_private_key (is_device_seed summary)) in
    match r with
    | Err _ => (w, Err (CliStorage CorruptStore))
    | Ok _ =>
      match relay_arguments args (store, w) with
      | ((store, w), Err e) => (w, Err e)
      | ((store, w), Ok relay) =>
        (let! authority := mut_lift (restore_authority summary registry relay (store, w)) in
         let! token := draw 32 in
         let! bridge := mut_lift (map_err (λ _, CliIo) (bridge_new listen.1 token)) in
         let! url := mut_lift (map_err (λ _, CliIo) (bootstrap_url bridge "/__ad_ui__/current")) in
         let! ledger := mut_lift (map_err (λ _, CliIo) (DeliveryLedger.restore (store, w))) in
         λ w, (w, Ok
           {| sd_state :=
                {| ap_bridge := bridge;
                   ap_identity := Some {| iv_account_id := is_account_id summary;
                                          iv_device_id := is_device_id summary;
                                          iv_display_name := is_display_name summary |};
                   ap_authority := Some authority; ap_catalog := catalog; ap_store := (store, w);
                   ap_ledger := ledger; ap_world := w |};
              sd_ui_dir := listen.2; sd_url := url |})) w
      end
    end.

(** How a loop that listens ended. *)
Inductive Ended := Stopped | AddressInUse | LoopFailed.
Definition ended (busy done : string) (o : Ended) : result string CliError :=
  match o with Stopped => Ok done | AddressInUse => Err (Usage busy) | LoopFailed => Err CliIo end.
Definition port_busy (b : LocalBridge) (rest : string) : string :=
  "port " +:+ u64_to_string (bc_port (lb_config b)) +:+ " is already in use; choose another --port" +:+ rest.

Context (ps : Processes) (serve_loop : Started → World → World * Ended).

Definition serve (args : list string) (passphrase : string) (seed now : N) : Mut World string CliError :=
  let! dir := mut_lift (data_dir args) in
  let! there := fs_dir_exists dirs dir in
  if negb there then mut_err NotInitialized
  else
    let! _ := set_private_dir dir in
    with_lock ps dir
      (let! started := start_server args dir passphrase seed now in
       λ w, let '(w, o) := serve_loop started w in
            (w, ended (port_busy (ap_bridge (sd_state started)) " or stop the existing daemon") "daemon stopped" o)).

(** ** The first run *)

Record SetupState := {
  ss_bridge : LocalBridge;
  ss_ui_dir : string;
  ss_data_dir : string;
  ss_status : string;
}.

(** The files of a profile that are there decide what the set-up may do. *)
Definition setup_status (store revision profile_id keychain : bool) : string :=
  if store && revision && negb profile_id then "initializing"
  else if store || revision || profile_id || keychain then "corrupt"
  else "not_initialized".

Definition start_setup (args : list string) (dir state : string) : Mut World SetupState CliError :=
  let! listen := listen_arguments dirs args "--port 0 is not supported" "setup requires a loopback port" in
  let! token := draw 32 in
  let! bridge := mut_lift (map_err (λ _, CliIo) (bridge_new listen.1 token)) in
  let! _ := mut_lift (map_err (λ _, CliIo) (bootstrap_url bridge "/__ad_ui__/current")) in
  mut_ret {| ss_bridge := bridge; ss_ui_dir := listen.2; ss_data_dir := dir; ss_status := state |}.

Context (setup_loop : SetupState → World * K → (World * K) * Ended).

Definition setup (args : list string) : Mut (World * K) string CliError :=
  let! dir := mut_lift (data_dir args) in
  let! store := on_world (fs_exists (store_path dir)) in
  let! revision := on_world (fs_exists (revision_path dir)) in
  let! profile_id := on_world (fs_exists (profile_id_path dir)) in
  let! keychain := on_world (fs_exists (profile_keychain_path dir)) in
  if (store : bool) && (revision : bool) && (profile_id : bool) then mut_err AlreadyInitialized
  else
    let! _ := on_world (cli_call (fs_create_dir_all dir)) in
    let! _ := on_world (set_private_dir dir) in
    let! _ := on_world (acquire_lock ps dir) in
    λ h,
      let '(h, r) :=
        (let! s := on_world (start_setup args dir (setup_status store revision profile_id keychain)) in
         λ h, let '(h, o) := setup_loop s h in (h, ended (port_busy (ss_bridge s) EmptyString) "setup stopped" o)) h in
      ((on_world (release_lock dir) h).1, r).

(** ** The doctor *)

(** What the relay arguments say before anything is started. *)
Definition trust_status (args : list string) : Mut World string CliError :=
  let! _ := mut_lift (parsed parse_pin PIN_MESSAGE args "--relay-tls-pin") in
  let! key := mut_lift (parsed parse_hex_key (KEY_MESSAGE "--relay-public-key") args "--relay-public-key") in
  let! fingerprint := mut_lift (option_ args "--relay-public-key-fingerprint") in
  if negb (both_or_none key fingerprint)
  then mut_err (Usage "relay public key and fingerprint must be supplied together")
  else if negb (fingerprint_agrees key fingerprint)
  then mut_err (Usage "relay public key fingerprint mismatch")
  else
    let! manifest := mut_lift (option_ args "--relay-trust-manifest") in
    let! bootstrap :=
      mut_lift (parsed parse_hex_key (KEY_MESSAGE "--relay-trust-bootstrap-key") args "--relay-trust-bootstrap-key") in
    if negb (both_or_none manifest bootstrap)
    then mut_err (Usage "relay trust manifest and bootstrap key must be supplied together")
    else
      match manifest, bootstrap, key with
      | Some path, Some anchor, Some k =>
        λ w, let '(w, r) := from_manifest path anchor w in
          (w, let? trust := map_err (λ _, Usage "relay trust manifest verification failed") r in
              if allows trust k then Ok "relay trust: verified"
              else Err (Usage "relay key is not allowed by the trust manifest"))
      | None, None, None => mut_ret "relay trust: not configured"
      | _, _, _ =>
        mut_err (Usage "relay trust preflight requires public key, fingerprint, manifest, and bootstrap key")
      end.

Definition presence (there : bool) : string := if there then "present" else "missing".
(** [std::env::consts::OS] and [ARCH] are arguments. *)
Definition doctor (os arch : string) (args : list string) : Mut World string CliError :=
  let! dir := mut_lift (data_dir args) in
  let! trust := trust_status args in
  let! pid := lock_pid (lock_path dir) in
  let running :=
    match pid with
    | Some p =>
      if process_is_daemon ps p then "running (PID " +:+ u64_to_string p +:+ ")"
      else if process_is_alive ps p
      then "lock held by another process (PID " +:+ u64_to_string p +:+ "); inspect daemon.lock"
      else "not running (stale lock)"
    | None => "not running"
    end in
  let! d := fs_is_dir dirs dir in
  let! st := fs_is_file (store_path dir) in
  let! rev := fs_is_file (revision_path dir) in
  let! d' := fs_is_dir dirs dir in
  let! st' := if (d' : bool) then fs_is_file (store_path dir) else mut_ret false in
  let! ready := if (st' : bool) then fs_is_file (revision_path dir) else mut_ret false in
  mut_ret ("doctor status: "
           +:+ (if (ready : bool)
                then "presence checks passed; unlock verification required; release readiness blocked"
                else "profile not initialized") +:+ nl
           +:+ join 10
                 ["data directory: " +:+ presence d; "encrypted store: " +:+ presence st;
                  "revision marker: " +:+ presence rev;
                  "platform: " +:+ os +:+ "/" +:+ arch +:+ " (supported)";
                  "high-risk mode: disabled";
                  "OS key store: unavailable; insecure fallback: refused";
                  "network/serve bridge: not started by doctor";
                  "daemon running: " +:+ running; trust]).
End serve.
