(* ===== verification/Setup.v ===== *)
(** * The first run in the browser ([apps/daemon/src/bridge_http.rs], [http_server.rs])

    Before there is a profile the daemon serves the page, the exchange of the bootstrap token, a
    status and one request that creates the profile. *)
From Stdlib Require Import Ascii NArith Lia ZifyBool ZifyN.
From stdpp Require Import base gmap strings list.
From S2P Require Import Prelude Text TextScan Collections Interfaces Model Fs StoreFormat Storage RecordStore DeliveryLedger Bridge DeviceRegistry Attachment OsKeys MlsProvider Http RelayClient MlsSession Inbox Server Routes Dispatch Cli CliProfile CliServe.

Section setup.
Context {K : Type} `{Keyring K} `{OpenMls, Crypto, HttpTypes}.
Context `{JsonCodec RegistryWire, JsonCodec AttachmentDescriptor}.
Context (fs : StaticFiles).

(** What the routes see while there is no profile: the bridge and the randomness of the process. *)
#[local] Instance no_records : RecordScan unit := λ _ _ _, [].
Definition no_profile (b : LocalBridge) (w : World) : AppState unit :=
  {| ap_bridge := b; ap_identity := None; ap_authority := None; ap_catalog := catalog_new;
     ap_store := tt; ap_ledger := ∅; ap_world := w |}.

(** The two kinds of request that are passed on: the exchange and the files of the client. *)
Definition handle_request_with_ui (ui_root : option string) (r : Request) (clock : Clock)
    (b : LocalBridge) (w : World) : LocalBridge * World * bytes :=
  if is_route r "POST" EXCHANGE_PATH then
    let '(s, o) := route_exchange r clock (no_profile b w) in
    (ap_bridge s, ap_world s, match o with Ok reply | Err reply => reply end)
  else (b, w, ui_reply fs ui_root r).

Definition create_profile (dir : string) (r : Request) (h : World * K) : (World * K) * bytes :=
  match json_string (rq_body r) "display_name" with
  | None => (h, json_error 400 "display_name_required")
  | Some display_name =>
    if is_empty_str (trim display_name) || (80 <? N.of_nat (length (chars display_name)))%N
    then (h, json_error 400 "display_name_invalid")
    else
      match init_from_setup dir (trim display_name) h with
      | (h, Ok output) =>
        let account_id := default EmptyString (line_value "account_id: " output) in
        (h, json_reply 200 (json_object [("status", quoted "profile-created"); ("account_id", json_str account_id)]))
      | (h, Err AlreadyInitialized) => (h, json_error 409 "already_initialized")
      | (h, Err _) => (h, json_error 500 "profile_initialization_failed")
      end
  end.

Definition setup_status_body (state : string) : string :=
  json_object [("status", json_str state); ("high_risk", "false"); ("private_state", quoted "not-initialized");
               ("relay_configured", "false"); ("storage_records", "0")].

Definition handle_setup_request (raw : bytes) (clock : Clock) (ui_root : option string) (dir state : string)
    (b : LocalBridge) (h : World * K) : LocalBridge * (World * K) * bytes :=
  match parse_request raw with
  | None => (b, h, text_error 400 "invalid_request")
  | Some r =>
    let authorised := authorize_api b r (ck_now clock) (ck_mono clock) in
    if is_route r "GET" "/local-api/status" then
      (b, h, match authorised with Ok _ => json_reply 200 (setup_status_body state) | Err reply => reply end)
    else if is_route r "POST" "/local-api/setup/profile" then
      if negb (seqb state "not_initialized") then (b, h, json_error 409 "profile_setup_unavailable")
      else
        match authorised with
        | Err _ => (b, h, json_error 401 "session_invalid")
        | Ok _ => let '(h, reply) := create_profile dir r h in (b, h, reply)
        end
    else if is_route r "POST" EXCHANGE_PATH || ui_page r || ui_asset r then
      let '(b, w, reply) := handle_request_with_ui ui_root r clock b h.1 in (b, (w, h.2), reply)
    else if starts_with "/local-api/" (rq_path r) || starts_with "/local-session/" (rq_path r)
    then (b, h, json_error 409 "profile_not_initialized")
    else (b, h, text_error 404 "not_found")
  end.

(** [setup_axum_handler]: the answer, and whether the set-up is over. *)
Definition setup_axum_handler (shutting_down : bool) (parts : Parts) (body : BodyRead) (slot_free : bool)
    (clock : Clock) (s : SetupState) (h : World * K) : SetupState * (World * K) * AxumResponse * bool :=
  let refuse (status : N) (code : string) := (s, h, axum_response (text_error status code), false) in
  if shutting_down then refuse 503%N "daemon_shutting_down"
  else
    match body with
    | BodyTooLarge => refuse 413%N "request_too_large"
    | BodyTimeout => refuse 408%N "request_timeout"
    | ReadBody body =>
      match axum_request_bytes parts body with
      | None => refuse 400%N "invalid_request"
      | Some raw =>
        if negb slot_free then refuse 503%N "daemon_busy"
        else
          let '(b, h, output) :=
            handle_setup_request raw clock (Some (ss_ui_dir s)) (ss_data_dir s) (ss_status s) (ss_bridge s) h in
          ({| ss_bridge := b; ss_ui_dir := ss_ui_dir s; ss_data_dir := ss_data_dir s; ss_status := ss_status s |},
           h, axum_response output,
           contains (json_field "status" (quoted "profile-created")) (from_utf8_lossy output))
      end
    end.
End setup.
