(* ===== verification/CliServeProps.v ===== *)
(** * The lock of an instance and the first run

    A daemon that runs keeps its data directory to itself, the lock names the process that holds
    it, and a request of the first run that is not authorised leaves the profile alone. *)
From Stdlib Require Import Ascii NArith Lia ZifyBool ZifyN.
From stdpp Require Import base gmap strings list.
From S2P Require Import Prelude Text TextScan Collections Interfaces Model Paths Fs StoreFormat Storage RecordStore DeliveryLedger Bridge DeviceRegistry Attachment OsKeys MlsProvider Http RelayClient RelayClientProps RelayBlobs MlsSession Inbox Server Routes Dispatch Cli CliProfile CliLaws CliPending CliServe Setup.

(** ** The lock *)

Definition lock_text (pid : N) : string := "pid=" +:+ u64_to_string pid +:+ nl.
(** The lock at a path is there and names a process. *)
Definition locked_by (path : string) (pid : N) (w : World) : Prop :=
  ∃ b, w_files w !! path = Some (RegularFile b) ∧ (from_utf8 b ≫= pid_of_lock) = Some pid.

(** What the lock says is what is read back. *)
Lemma pid_of_lock_text pid : (pid ≤ u32_max)%N → pid_of_lock (lock_text pid) = Some pid.
Proof.
  intros Hp. unfold pid_of_lock, lock_text. rewrite (proj2 (strip_prefix_Some _ _ _) eq_refl). cbn [mbind option_bind].
  assert (n_byte 10 ∉ as_bytes (u64_to_string pid)) as Hn by (by apply digits_clean).
  assert (n_byte 13 ∉ as_bytes (u64_to_string pid)) as Hc by (by apply digits_clean).
  unfold lines. rewrite as_bytes_app. change (as_bytes nl) with [n_byte 10].
  rewrite split_b_app by done. cbn [split_b lines_of map head mbind option_bind].
  assert (strip_cr (as_bytes (u64_to_string pid)) = as_bytes (u64_to_string pid)) as ->.
  { unfold strip_cr. destruct (last _) as [c|] eqn:E; [|done]. rewrite decide_False; [done|].
    intros ->. apply Hc. by apply last_Some_elem_of. }
  rewrite of_as_bytes, trim_visible by apply u64_to_string_visible.
  unfold parse_u32. rewrite parse_u64_to_string by (unfold u32_max, u64_max in *; lia). cbn.
  by rewrite (proj2 (N.leb_le _ _) Hp).
Qed.

Lemma lock_pid_reads path w :
  linkless w → w_files (lock_pid path w).1 = w_files w ∧ linkless (lock_pid path w).1 ∧
  ∃ o, (lock_pid path w).2 = Ok o ∧
    ∀ pid, locked_by path pid w → o = None ∨ o = Some pid.
Proof.
  intros Hw. unfold lock_pid, cli_read_text, cli_read, fs_read. pose proof (next_fault_files w) as F.
  destruct (next_fault w) as [f w1]. cbn in F. assert (linkless w1) as Hw1 by (unfold linkless; by rewrite F).
  destruct f; cbn; [|by split_and!; [..|eexists; split; [done|left]]..].
  destruct (resolve 40 (w_files w1) path) as [node|] eqn:E; [|by split_and!; [..|eexists; split; [done|left]]].
  destruct node as [b| |target]; cbn; [|by split_and!; [..|eexists; split; [done|left]]..].
  split_and!; [done..|]. eexists. split; [done|]. intros pid (b' & Hb & Hp).
  assert (b' = b) as ->.
  { apply resolve_linkless in E; [|done]. rewrite F, Hb in E. by injection E. }
  destruct (from_utf8 b) as [text|]; [|done]. cbn in *. by right.
Qed.

(** The calls do not change the process they are made by. *)
Lemma next_fault_pid w : w_pid (next_fault w).2 = w_pid w.
Proof. unfold next_fault. by destruct (w_faults w). Qed.
Ltac keeps_pid := intros w; pose proof (next_fault_pid w); destruct (next_fault w); cbn in *; repeat case_match; simplify_eq; done.
Lemma cli_remove_pid path : ∀ w, w_pid (cli_remove path w).1 = w_pid w.
Proof. unfold cli_remove, fs_remove. keeps_pid. Qed.
Lemma lock_pid_pid path : ∀ w, w_pid (lock_pid path w).1 = w_pid w.
Proof. unfold lock_pid, cli_read_text, cli_read, fs_read. keeps_pid. Qed.
Lemma fs_write_at_pid path n b : ∀ w, w_pid (fs_write_at path n b w).1 = w_pid w.
Proof. unfold fs_write_at. keeps_pid. Qed.
Lemma fs_create_dir_all_pid path : ∀ w, w_pid (fs_create_dir_all path w).1 = w_pid w.
Proof. unfold fs_create_dir_all. destruct (is_empty_str path); [done|]. unfold fs_call. keeps_pid. Qed.

(** The lock that is there is never replaced by [create_lock]. *)
Lemma create_lock_there path w node :
  w_files w !! path = Some node →
  w_files (create_lock path w).1 = w_files w ∧
  ((create_lock path w).2 = Ok LockThere ∨ (create_lock path w).2 = Ok LockFailed).
Proof.
  intros Hn. unfold create_lock, fs_create_new. pose proof (next_fault_files w) as F.
  destruct (next_fault w) as [f w1] eqn:E. cbn in F. rewrite F, Hn. cbn. split; [done|]. by case_match; auto.
Qed.
Lemma create_lock_made path w w' :
  create_lock path w = (w', Ok LockCreated) → w_files w' !! path = Some (RegularFile []) ∧ w_pid w' = w_pid w.
Proof.
  unfold create_lock, fs_create_new. pose proof (next_fault_pid w) as P.
  destruct (next_fault w) as [f w1]. cbn in P.
  destruct (w_files w1 !! path); [by repeat case_match|].
  destruct f; intros E; repeat case_match; simplify_eq; cbn; by rewrite lookup_insert_eq.
Qed.
Lemma create_lock_pid path w : w_pid (create_lock path w).1 = w_pid w.
Proof. unfold create_lock, fs_create_new. revert w. keeps_pid. Qed.

(** Writing a piece at the end of the lock. *)
Lemma write_piece path b c w w' :
  w_files w !! path = Some (RegularFile b) → cli_call (fs_write_at path (blen b) c) w = (w', Ok tt) →
  w_files w' !! path = Some (RegularFile (b ++ c)) ∧ w_pid w' = w_pid w.
Proof.
  intros Hb. unfold cli_call. pose proof (fs_write_at_pid path (blen b) c w) as P.
  destruct (fs_write_at_end path b c w Hb) as (x & _ & F & Hx).
  destruct (fs_write_at path (blen b) c w) as [w1 []]; [|done]. intros [= <-]. cbn in *.
  by rewrite F, Hx, lookup_insert_eq.
Qed.
Lemma write_lock_text path w w' :
  w_files w !! path = Some (RegularFile []) → write_lock path w = (w', Ok tt) →
  w_files w' !! path = Some (RegularFile (as_bytes (lock_text (w_pid w)))) ∧ w_pid w' = w_pid w.
Proof.
  intros Hb. unfold write_lock, mut_bind.
  destruct (cli_call (fs_write_at path 0 _) w) as [w1 [[]|]] eqn:E1; [|done].
  apply (write_piece path []) in E1 as [F1 P1]; [|done].
  destruct (cli_call (fs_write_at path 4 _) w1) as [w2 [[]|]] eqn:E2; [|done].
  apply (write_piece path (as_bytes "pid=")) in E2 as [F2 P2]; [|done]. intros E3.
  assert (4 + slen (u64_to_string (w_pid w)) = blen (as_bytes "pid=" ++ as_bytes (u64_to_string (w_pid w))))%N as Hl.
  { unfold blen, slen. rewrite length_app, !length_as_bytes. change (String.length "pid=") with 4. lia. }
  rewrite Hl in E3. apply write_piece in E3 as [F3 P3]; [|done].
  rewrite F3. split; [|congruence]. do 2 f_equal. unfold lock_text. by rewrite !as_bytes_app, app_assoc.
Qed.
Lemma lock_text_utf8 pid : from_utf8 (as_bytes (lock_text pid)) = Some (lock_text pid).
Proof.
  apply from_utf8_valid, ascii_utf8_valid. unfold lock_text. rewrite !as_bytes_app, !forallb_app.
  apply andb_true_iff. split; [done|]. apply andb_true_iff. split; [|done]. apply visible_ascii, u64_to_string_visible.
Qed.
Lemma taken path w w' :
  (w_pid w ≤ u32_max)%N → (let! o := create_lock path in
    match o with LockCreated => write_lock path | _ => mut_err CliIo end) w = (w', Ok tt) → locked_by path (w_pid w) w'.
Proof.
  intros Hp. unfold mut_bind. destruct (create_lock path w) as [w1 [[]|]] eqn:E; try done.
  apply create_lock_made in E as [F P]. intros E2. apply write_lock_text in E2 as [F2 _]; [|done].
  rewrite P in F2. eexists. split; [done|]. rewrite lock_text_utf8. by apply pid_of_lock_text.
Qed.

(** A lock that names a process that is alive, the daemon or not, keeps everyone else out,
    whatever the file system does, and stays as it is. *)
Theorem lock_excludes ps dir pid w w' r :
  linkless w → locked_by (lock_path dir) pid w →
  process_is_daemon ps pid = true ∨ process_is_alive ps pid = true →
  acquire_lock ps dir w = (w', r) → is_err r = true ∧ w_files w' = w_files w.
Proof.
  intros Hw Hl Hp. unfold acquire_lock, mut_bind, cli_call.
  pose proof (fs_create_dir_all_files dir w) as F1. pose proof (fs_create_dir_all_links dir w Hw) as W1.
  destruct (fs_create_dir_all dir w) as [w1 []]; cbn in F1, W1; [|by intros [= <- <-]].
  assert (locked_by (lock_path dir) pid w1) as Hl1 by (unfold locked_by; by rewrite F1).
  pose proof Hl1 as (b & Hb & _). destruct (create_lock_there _ w1 _ Hb) as [F2 R2].
  destruct (create_lock (lock_path dir) w1) as [w2 r2]. cbn in F2, R2.
  destruct R2 as [-> | ->]; [|intros [= <- <-]; by rewrite F2].
  assert (linkless w2) as W2 by (unfold linkless; by rewrite F2).
  destruct (lock_pid_reads (lock_path dir) w2 W2) as (F3 & _ & o & R3 & Ho).
  destruct (lock_pid (lock_path dir) w2) as [w3 r3]. cbn in F3, R3. rewrite R3.
  destruct (Ho pid) as [-> | ->]; [unfold locked_by; by rewrite F2|intros [= <- <-]; by rewrite F3, F2|].
  destruct Hp as [-> | ->]; [|destruct (process_is_daemon ps pid)]; intros [= <- <-]; by rewrite F3, F2.
Qed.

(** An instance that got the lock is named by it, so that the next one is kept out. *)
Theorem lock_names_holder ps dir w w' :
  (w_pid w ≤ u32_max)%N → acquire_lock ps dir w = (w', Ok tt) → locked_by (lock_path dir) (w_pid w) w'.
Proof.
  intros Hp. unfold acquire_lock, mut_bind at 1, cli_call.
  pose proof (fs_create_dir_all_pid dir w) as P1.
  destruct (fs_create_dir_all dir w) as [w1 []]; cbn in P1; [|done]. rewrite <-P1 in *.
  unfold mut_bind at 1. destruct (create_lock (lock_path dir) w1) as [w2 [[]|]] eqn:E2; try done.
  - intros E. apply (taken _ w1); [done|]. unfold mut_bind. by rewrite E2.
  - unfold mut_bind at 1. pose proof (create_lock_pid (lock_path dir) w1) as P2.
    pose proof (lock_pid_pid (lock_path dir) w2) as P3. rewrite E2 in P2.
    destruct (lock_pid (lock_path dir) w2) as [w3 [[pid|]|]]; try done. cbn in P2, P3.
    destruct (process_is_daemon ps pid); [done|]. destruct (process_is_alive ps pid); [done|].
    unfold mut_bind at 1. pose proof (cli_remove_pid (lock_path dir) w3) as P4.
    destruct (cli_remove (lock_path dir) w3) as [w4 [[]|]]; [|done]. cbn in P4.
    rewrite <-P2, <-P3, <-P4 in *. by apply taken.
Qed.

(** ** The first run *)

Section setup.
Context {K : Type} `{Keyring K} `{OpenMls, Crypto, HttpTypes}.
Context `{JsonCodec RegistryWire, JsonCodec AttachmentDescriptor}.

#[local] Instance no_scan : RecordScan unit := λ _ _ _, [].

(** Issuing a session draws its secrets and touches no file. *)
Lemma app_issue_files m (s : AppState unit) :
  w_files (ap_world (app_issue m s).1) = w_files (ap_world s).
Proof.
  unfold app_issue. destruct (m _ _ _) as [b0 [c|e]]; [|done].
  pose proof (secure_random_files TOKEN_BYTES (ap_world s)) as F.
  destruct (secure_random TOKEN_BYTES (ap_world s)) as [w1 [cookie|]]; cbn in F; [|by destruct (m None None _)].
  pose proof (secure_random_files TOKEN_BYTES w1) as F1.
  destruct (secure_random TOKEN_BYTES w1) as [w2 csrf]; cbn in F1. destruct (m (Some cookie) csrf _). cbn. by rewrite F1.
Qed.
Lemma exchange_files r clock b w :
  w_files (ap_world (route_exchange r clock (no_profile b w)).1) = w_files w.
Proof.
  unfold route_exchange, mut_bind, or_else. destruct (json_string _ "token"); [|done].
  destruct (json_string _ "ui_version"); [|done]. cbn [mut_lift ok_or restore_before_exchange ap_authority no_profile].
  match goal with
  | |- context [app_issue ?m ?s] => pose proof (app_issue_files m s) as F; destruct (app_issue m s) as [s' [[]|]]
  end; done.
Qed.

(** Before there is a profile, a request the bridge does not authorise writes no file and leaves
    the keys of the system alone: no profile comes into being. *)
Theorem setup_unauthorised_is_inert fs ui_root dir state raw r clock b (h : World * K) b' h' reply :
  parse_request raw = Some r → is_err (authorize_api b r (ck_now clock) (ck_mono clock)) = true →
  handle_setup_request fs raw clock ui_root dir state b h = (b', h', reply) →
  w_files h'.1 = w_files h.1 ∧ h'.2 = h.2.
Proof.
  intros Hr Ha. unfold handle_setup_request. rewrite Hr.
  destruct (authorize_api b r _ _) as [|e]; [done|].
  destruct (is_route r "GET" _); [by intros [= _ <- _]|].
  destruct (is_route r "POST" "/local-api/setup/profile"); [by destruct (negb _); intros [= _ <- _]|].
  destruct (_ || _ || _); [|by destruct (_ || _); intros [= _ <- _]].
  unfold handle_request_with_ui. destruct (is_route r "POST" EXCHANGE_PATH); [|by intros [= _ <- _]].
  pose proof (exchange_files r clock b h.1) as F. destruct (route_exchange r clock _) as [s o]. by intros [= _ <- _].
Qed.
End setup.
