(* ===== verification/CliSample.v ===== *)
(** * A profile, evaluated

    A data directory made by [init], exported, imported, staged and rotated on concrete worlds:
    the instances at which the theorems on the commands are applied. *)
From Stdlib Require Import Ascii NArith Lia ZifyBool ZifyN.
From stdpp Require Import base gmap strings list.
From S2P Require Import Prelude Text TextScan Collections Interfaces Paths Fs StoreFormat Storage RecordStore StorageLaws StorageProps Hoare Recovery Trust OsKeys Model Identity DeviceRegistry DeviceLink Http Cli CliProfile CliRecovery CliLaws CliProps CliIdentity CliPending.

Module CliSample.
Import Reference KeySample.
#[export] Existing Instance Reference.crypto.
#[export] Existing Instance Reference.crypto_laws.
#[export] Existing Instance KeySample.keyring.

Definition fill (c : N) (n : nat) : bytes := replicate n (n_byte c).
(** What [init] draws: the passphrase, the two seeds, the salt, and the nonce and the two
    temporary names of three commits. *)
Definition draws : list bytes :=
  [fill 1 32; fill 2 32; fill 3 32; fill 4 16] ++
  concat (replicate 3 [fill 5 12; fill 6 8; fill 7 8]).
Definition empty : World := {| w_files := ∅; w_faults := []; w_entropy := draws; w_pid := 7 |}.
Definition redrawn (l : list bytes) (w : World) : World :=
  {| w_files := w_files w; w_faults := []; w_entropy := l; w_pid := w_pid w |}.

Definition registry : DeviceRegistry :=
  match new_identity "Ada" (redrawn (drop 1 draws) empty) with
  | (_, Ok (root, device, _)) => (register (di_certificate device) 0 (registry_new root)).1
  | _ => registry_new (from_seed [])
  end.
Definition files_only (w : World) : bool :=
  forallb (λ e, match e.2 with RegularFile _ => true | _ => false end) (map_to_list (w_files w)).
Lemma files_only_healthy w : w_faults w = [] → files_only w = true → healthy w.
Proof.
  intros Hf Ho. split; [done|]. intros p node Hn. unfold files_only in Ho. rewrite forallb_forall in Ho.
  specialize (Ho (p, node)). cbn in Ho. destruct node as [b| |]; [eauto|discriminate Ho..];
    apply list_elem_of_In; by apply elem_of_map_to_list.
Qed.

#[export] Instance registry_codec : JsonCodec RegistryWire := json_table [registry_wire registry].
#[export] Instance registry_laws : JsonRoundTrip RegistryWire := json_table_laws [registry_wire registry].

(** ** The profile *)

Definition arguments : list string := ["init"; "--data-dir"; "home"; "--display-name"; "Ada"].
Definition made : World * store := (init arguments (empty, [])).1.
Definition printed : string := match (init arguments (empty, [] : store)).2 with Ok text => text | Err _ => "" end.
Definition passphrase : string := of_bytes (hex_b (fill 1 32)).

Lemma made_ok : init arguments (empty, [] : store) = ((made.1, made.2), Ok printed).
Proof. vm_compute. reflexivity. Qed.
Lemma empty_linkless : linkless empty.
Proof. apply healthy_linkless, files_only_healthy; vm_compute; reflexivity. Qed.
Lemma made_healthy : healthy made.1.
Proof. apply files_only_healthy; vm_compute; reflexivity. Qed.

(** ** Rotation *)

Definition rotation_draws : list bytes := [fill 8 32; fill 9 16] ++ concat (replicate 3 [fill 5 12; fill 6 8; fill 7 8]).
Definition before : World := redrawn rotation_draws made.1.
Definition rotated : World * store := (rotate "home" passphrase None (before, made.2)).1.
Definition rotation_text : string :=
  match (rotate "home" passphrase None (before, made.2)).2 with Ok text => text | Err _ => "" end.
Lemma rotated_ok : rotate "home" passphrase None (before, made.2) = ((rotated.1, rotated.2), Ok rotation_text).
Proof. vm_compute. reflexivity. Qed.
Lemma before_linkless : linkless before.
Proof. apply healthy_linkless, files_only_healthy; vm_compute; reflexivity. Qed.

(** ** Export and import *)

Definition contents (p : string) (w : World) : bytes :=
  match w_files w !! p with Some (RegularFile b) => b | _ => [] end.
Definition manifest : RecoveryManifest :=
  recovery_manifest 100 (contents "home/store.adstore" made.1) (contents "home/store.adstore.revision" made.1).
#[export] Instance manifest_codec : JsonCodec RecoveryManifest := json_table [manifest].
#[export] Instance manifest_laws : JsonRoundTrip RecoveryManifest := json_table_laws [manifest].

Definition exported : World := (export "home" "backup" 100 made.1).1.
Definition export_text : string := match (export "home" "backup" 100 made.1).2 with Ok text => text | Err _ => "" end.
Definition backup : bytes := contents "backup" exported.
Definition elsewhere : World :=
  {| w_files := {[ "backup" := RegularFile backup ]}; w_faults := []; w_entropy := []; w_pid := 9 |}.
Lemma exported_ok : export "home" "backup" 100 made.1 = (exported, Ok export_text).
Proof. vm_compute. reflexivity. Qed.
Lemma elsewhere_healthy : healthy elsewhere.
Proof. apply files_only_healthy; vm_compute; reflexivity. Qed.

(** The artifact staged beside the profile it came from. *)
Definition staged : World :=
  set_files (<[ "home/store.recovery.pending" := RegularFile backup ]> (w_files made.1)) made.1.
Definition recovered : World := (apply_pending_recovery "home" passphrase 200 staged).1.
Lemma recovered_ok : apply_pending_recovery "home" passphrase 200 staged = (recovered, Ok tt).
Proof. vm_compute. reflexivity. Qed.
Lemma staged_linkless : linkless staged.
Proof. apply healthy_linkless, files_only_healthy; vm_compute; reflexivity. Qed.
End CliSample.
Import Reference KeySample CliSample.

Lemma cli_init_opens_witness :
  ∃ passphrase s record summary, open "home/store.adstore" passphrase made.1 = (made.1, Ok s) ∧
    get s AccountRoot "identity" = Some record ∧ decode_identity_summary record = Some summary ∧
    is_display_name summary = "Ada".
Proof.
  destruct (cli_init_opens arguments "home" "Ada" empty ([] : store) made.1 made.2 printed empty_linkless
    eq_refl eq_refl eq_refl eq_refl made_ok) as (p & notice & _ & Ho).
  destruct (Ho made.1 eq_refl ltac:(vm_compute; reflexivity)) as (s & record & summary & g & H1 & H2 & H3 & H4 & _).
  by exists p, s, record, summary.
Defined.

Lemma cli_rotate_preserves_witness :
  ∃ p s s', opens_to "home" passphrase (w_files before) s ∧
    open "home/store.adstore" p rotated.1 = (rotated.1, Ok s') ∧ s_records s' = s_records s.
Proof.
  destruct (cli_rotate_preserves "home" passphrase None before made.2 rotated.1 rotated.2 rotation_text
    before_linkless rotated_ok) as (s & p & notice & Hs & _ & Ho).
  destruct (Ho rotated.1 eq_refl ltac:(vm_compute; reflexivity)) as (s' & H1 & H2). by exists p, s, s'.
Defined.

Lemma cli_export_import_witness :
  ∃ p s v text, import "copy" "backup" elsewhere = (v, Ok text) ∧
    open "copy/store.adstore" p v = (v, Ok (moved_to "copy/store.adstore" s)).
Proof.
  destruct (init_stored arguments "home" "Ada" empty ([] : store) made.1 made.2 printed empty_linkless
    eq_refl eq_refl eq_refl made_ok) as (p & notice & root & device & profile & s & g & encoded
    & _ & St & Wf & Hl & Hun & _).
  destruct (cli_export_import s p "home" "backup" 100 made.1 exported export_text backup Wf Hl Hun St
    (healthy_linkless _ made_healthy) eq_refl exported_ok ltac:(vm_compute; reflexivity) ltac:(vm_compute; discriminate)
    "copy" "backup" elsewhere ltac:(vm_compute; reflexivity)) as [Ho Hi].
  destruct (Hi elsewhere_healthy ltac:(vm_compute; reflexivity) ltac:(vm_compute; reflexivity)
    ltac:(vm_compute; reflexivity)) as (v & text & Hv).
  exists p, s, v, text. split; [exact Hv|].
  apply (Ho v text (healthy_linkless _ elsewhere_healthy) Hv); [reflexivity|].
  assert (w_faults (import "copy" "backup" elsewhere).1 = []) as E by (vm_compute; reflexivity).
  by rewrite Hv in E.
Defined.

Lemma cli_recovery_is_guarded_witness :
  (∀ q, live "home" q → w_files recovered !! q = w_files staged !! q) ∨
  w_files recovered !! recovery_pending_path "home/store.adstore" = None.
Proof.
  destruct (cli_recovery_is_guarded "home" passphrase 200 staged recovered (Ok tt) staged_linkless recovered_ok)
    as [H|(a & store & revision & p & v & v' & s & _ & _ & _ & _ & _ & H)]; [by left|right].
  by destruct (H eq_refl).
Defined.
